(* ===== verification/_CoqProject ===== *)
-Q . S2P
Prelude.v
Kube.v
V1alpha1.v
Client.v
Sha256.v
Netip.v
Resources.v
Lib.v
Server.v
Logic.v
MemCluster.v
Bindings.v
NetPolicy.v
BackupJob.v
Reconcile.v
Footprints.v
Teardown.v
LiveSpec.v
LiveLogic.v
LiveServer.v
LiveBindings.v
StatusFacts.v
Targets.v
NetipFacts.v
Netip6Facts.v
NetipRange.v
NetFacts.v
LiveProofs.v
Samples.v
Safety.v
FailStop.v
Achieve.v
BindingFacts.v
Quiescent.v
Names.v
Drift.v
Establish.v
Isolation.v
Budget.v
Cmd.v
Watches.v
Startup.v
Progress.v
Wellformed.v
Api.v
MemApi.v
Settle.v
SettleBindings.v
Converge.v
Interleave.v
Share.v
DeepCopy.v
