(* ===== verification/Prelude.v ===== *)
(** * nfsZ, a Kubernetes operator for cross-namespace RWX volumes

    nfsZ serves one ReadWriteOnce volume to many namespaces over NFS.  For each
    SharedVolume, a cluster-scoped custom resource, the operator runs a ganesha
    server on a backing PVC in its own namespace, and in each target namespace
    keeps a PersistentVolume, which points at the server's Service, pre-bound to
    a consumer PersistentVolumeClaim.  It keeps a NetworkPolicy that admits the
    targets and the nodes, a CronJob that copies the data to a host path, and a
    seed job that restores it before the server's first start; a finalizer orders
    the teardown.  This library models the operator's Go code and proves what
    makes it correct.

    ** The program and its model

    - api/v1alpha1/sharedvolume_types.go: V1alpha1.v, the spec, the status, and
      the validation markers as the predicates [valid_Spec], [valid_Update].
    - internal/controller/resources.go and internal/ganesha/config.go:
      Resources.v, names and builders as functions from a volume to objects;
      Sha256.v, the hash of the configuration.
    - internal/controller/sharedvolume_controller.go, by component:
      Lib.v ([createOwned], [createIfMissing], [setRestoredCondition]), Server.v
      ([reconcileSeed], [reconcileServer]), Bindings.v ([targetNamespaces],
      [reconcileBindings], [cleanupStaleBindings], the watch mappings), Watches.v
      ([SetupWithManager]: the watches it registers and what an event enqueues),
      NetPolicy.v ([nodeIPs], [reconcileNetworkPolicy]) with
      net/netip in Netip.v, BackupJob.v ([reconcileBackup]), Reconcile.v
      ([updateStatus], [reconcileDelete], [Reconcile]).
    - cmd/main.go: Cmd.v, the defaults, the list of extra CIDRs, the options of
      the servers and the reconciler's configuration; Startup.v, the sequence of
      fallible steps up to the start of the manager, with the scheme of
      api/v1alpha1/groupversion_info.go.
    - api/v1alpha1/zz_generated.deepcopy.go: DeepCopy.v, on a heap of its own.
    - Kube.v: the Kubernetes objects, with the fields the code touches.

    ** How effects are modelled

    Client.v has the operations of the API client, the event recorder and the
    clock as an inductive type [call] with the type [resp c] of the answers.  A
    handler is a [prog]: the calls it makes, each continued by a function of the
    answer, so the code's order of calls, early returns and error switches are
    the structure of the tree; an [outcome] is a result, an error or a run-time
    panic (a nil map written, a nil pointer read, an index out of range).
    Handlers have no loop but over lists they were given, so every program
    terminates by construction.  [run srv p s] runs a program against a [server],
    a function from a state and a call to an answer and a state, and returns the
    trace of calls and answers, the last state and the result.  Since theorems
    quantify over servers, they cover stale caches, lost races, failed calls and
    other writers between two calls: a guarantee speaks of what this reconcile
    was told before it acted.

    The objects passed around are values; where the Go code writes into an object
    that the caller sees (the created object after [Create], the status of the
    volume), the model returns the new value.  Objects list the fields the code
    reads or writes; an update keeps the other fields, which the model does not
    name.  That objects are values is justified by DeepCopy.v: the copies the client
    library hands out share no cell with their originals.

    Api.v states what an API server does with a call, as a relation [api_step] on
    clusters, and the class [ApiServer] of the servers that behave so: reads show
    the state (or fail), an accepted object keeps what was submitted, a deleted one
    stays while a finalizer holds it.  Theorems about what a cluster looks like are
    proved against that interface; MemApi.v proves that the in-memory server of
    MemCluster.v implements it.

    ** What is a parameter

    Third-party functions on values (controllerutil, apimachinery's conditions,
    label selectors and semantic equality) are the class [Lib]; the documented
    behaviour some theorems need is [LibLaws].  MemCluster.v has an instance of
    both and an in-memory API server; Samples.v drives it through the life of a
    volume.  The witnesses of the theorems run there or on small servers of
    their own.

    ** Proof technique

    - Client.v: [wp], the weakest precondition of a program over a ghost state;
      with the history of calls and answers as the state it is [hwp], with a
      guard that every call must satisfy given the history before it, and an
      assumption [rely] on the answers; [run_wp] turns it into a statement about
      [run].
    - Logic.v: footprints, that bound the calls of a program, and the rules for
      the shared helpers.  Footprints.v has the footprint of each component.
    - LiveSpec.v, LiveLogic.v, LiveServer.v, LiveBindings.v, LiveProofs.v: the
      specification [live_allowed] of what the reconcile of a living volume may
      write, by what it has read, and that every component refines it.
      Teardown.v has [teardown_allowed], that of the teardown.
    - Achieve.v: [achieves], what holds of the history once a handler succeeds.
    - Settle.v, SettleBindings.v: [sat], the logic of handlers on a cluster nobody
      else writes to, with a rule per call and what each component has in place when
      it succeeds.  Interleave.v: [mid], the same amid other actors, whose steps an
      assertion must survive ([stable]), and the transition system [sysStep].
    - Budget.v: [pays], an amortised bound on the number of calls.

    ** What is proved

    - Converge.v: on a cluster nobody else writes to, that is [startable] (nothing
      to seed or the server there already, no PV of a former target, an existing
      Service with its address, no finalizer on what has to go), one successful pass
      brings everything in place, and every later pass writes nothing but the
      status.  Interleave.v: among other actors who leave the server Services and
      the operator's PVs to the operator ([env]), with failed calls and crashes, if
      at first each living PV points at the address of its volume's Service, it does
      so in every state that is reached; a Service deleted by somebody else and made
      again breaks it ([recreated_service_dangles]).  Share.v: in the same system
      each call refines an abstract machine of a server and its exports.
    - Establish.v: a successful reconcile has done everything the volume asks
      for, for exactly the namespaces that are targets.  Quiescent.v: on a cluster
      at rest a reconcile succeeds and writes nothing but the status.  Drift.v:
      what counts as drift, and that no write is repeated.  FailStop.v: the first
      failed call ends the reconcile and its error is the result, but for the read
      of the CronJob of a backup without a destination, which ends in a panic.
    - Safety.v: what a reconcile can never do: start the server before the seed
      is done, delete a PVC that neither carries the volume's label nor sits at the
      key of its backing PVC, create blindly,
      report Ready without having seen it, replace a Service, touch a PV but for
      the repair of a Released claim, exceed its RBAC rules, panic on an admitted
      volume.
    - Teardown.v and Progress.v: the order of the teardown, that it completes once
      the claims are gone, and that the outcome of the seed is recorded.
    - BindingFacts.v, StatusFacts.v, Targets.v: the bindings reported, the status
      written, the target namespaces against a reference definition, and that
      the namespace watch wakes every volume it has to.
    - NetipFacts.v, Netip6Facts.v, NetipRange.v, NetFacts.v: addresses print and
      parse back, and the policy admits exactly the listed peers and addresses.
    - Names.v, Isolation.v: names and selectors keep two volumes apart, except for
      PV names, whose collisions are characterised, with what a PV that is reserved
      for another namespace leads to; what a reconcile writes is at keys of, or
      labelled for, the volume of the request, and the only SharedVolume it writes is
      that one.  Wellformed.v: created objects have names and labels in
      the syntax Kubernetes asks for, for volumes named by a DNS label of at most 40
      characters, an exact bound.
    - Watches.v: which events wake a volume: those of the objects it controls,
      other than the ConfigMap, its own, and those of namespaces and nodes.
      Budget.v: a reconcile ends within a number of calls linear in the names of
      the volume it read and the lists it is given.
    - Cmd.v, Startup.v: the CIDR list, the options of the servers, the order in
      which main reaches the start of the manager, and how it ends at the first
      call that fails.
    - DeepCopy.v: the generated copies live in fresh cells and read as the original.

    ** Bounds

    Integers the code handles are counters and ports, far below the width of Go's
    int, and kept as [Z]; addresses and SHA-256 words are [Z] in their range, with
    the wrap-around written out.  Trimming a string runs with its length as fuel,
    each step removing a byte at least ([Cmd.trimLeftFuel_spec]).

    ** What is not modelled

    Logging; flag parsing; the work queue and caches of controller-runtime, beyond
    what SetupWithManager asks of them; Kubernetes itself, its garbage collection
    and its other controllers, which are part of the arbitrary server, of the
    interface in Api.v, or of the other actors of Interleave.v; two workers at once,
    since the controller runs with one; stale reads in Converge.v and Interleave.v,
    where the server answers from its state (the history theorems allow them); the
    shell scripts inside the job pods, kept as text; manifests, charts and images. *)
From stdpp Require Export base list gmap strings sorting pretty.
From Stdlib Require Export ZArith.

(** * Go maps

    A Go [map[string]string] is nil or a table.  Reading a missing key (or a
    nil map) yields the zero value [""]; assigning into a nil map panics. *)
Abbreviation GoMap := (option (gmap string string)).

Definition mapIndex (m : GoMap) (k : string) : string :=
  match m with
  | None => ""
  | Some t => default "" (t !! k)
  end.

(** [None] is the run-time panic "assignment to entry in nil map". *)
Definition mapAssign (m : GoMap) (k v : string) : option GoMap :=
  match m with
  | None => None
  | Some t => Some (Some (<[k := v]> t))
  end.

(** [maps.Copy(dst, src)]: every pair of [src] is written into [dst]. *)
Definition mapsCopy (dst src : gmap string string) : gmap string string := src ∪ dst.

(** * Go slices *)

(** [slices.Contains] and [slices.Equal] on strings. *)
Definition slicesContains (l : list string) (x : string) : bool := bool_decide (x ∈ l).
Definition slicesEqual (l1 l2 : list string) : bool := bool_decide (l1 = l2).

(** [sort.Strings]: ascending byte order. *)
Definition sortStrings (l : list string) : list string := merge_sort String.le l.

(** The idiom [for k := range set { l = append(l, k) }; sort.Strings(l)]: the
    iteration order of a Go map is unspecified, [elements] is one such order,
    and [sortStrings_perm] shows that the order does not matter. *)
Definition sortedKeys (s : gset string) : list string := sortStrings (elements s).

(** [fmt.Sprintf("%d", n)]. *)
Definition sprint_d (n : Z) : string := pretty n.

(** * Lemmas *)

Lemma mapIndex_Some t k : mapIndex (Some t) k = default "" (t !! k).
Proof. done. Qed.

Lemma mapIndex_insert t k v : mapIndex (Some (<[k := v]> t)) k = v.
Proof. unfold mapIndex. by rewrite lookup_insert_eq. Qed.

Lemma slicesContains_true l x : slicesContains l x = true ↔ x ∈ l.
Proof. unfold slicesContains. by rewrite bool_decide_eq_true. Qed.

Lemma slicesContains_false l x : slicesContains l x = false ↔ x ∉ l.
Proof. unfold slicesContains. by rewrite bool_decide_eq_false. Qed.

Lemma sortStrings_Permutation l : sortStrings l ≡ₚ l.
Proof. apply merge_sort_Permutation. Qed.

Lemma sortStrings_sorted l : StronglySorted String.le (sortStrings l).
Proof. apply StronglySorted_merge_sort; apply _. Qed.

(** The unspecified map iteration order cannot be observed after sorting. *)
Lemma sortStrings_perm l1 l2 : l1 ≡ₚ l2 → sortStrings l1 = sortStrings l2.
Proof.
  intros Hp. apply (StronglySorted_unique String.le).
  - apply sortStrings_sorted.
  - apply sortStrings_sorted.
  - by rewrite !sortStrings_Permutation.
Qed.

Lemma elem_of_sortedKeys (s : gset string) x : x ∈ sortedKeys s ↔ x ∈ s.
Proof. unfold sortedKeys. by rewrite sortStrings_Permutation, elem_of_elements. Qed.

Lemma sortedKeys_NoDup (s : gset string) : NoDup (sortedKeys s).
Proof. unfold sortedKeys. rewrite sortStrings_Permutation. apply NoDup_elements. Qed.

Lemma sortedKeys_sorted (s : gset string) : StronglySorted String.le (sortedKeys s).
Proof. apply sortStrings_sorted. Qed.

Lemma sortedKeys_order (s : gset string) l :
  l ≡ₚ elements s → sortStrings l = sortedKeys s.
Proof. apply sortStrings_perm. Qed.

Lemma string_app_nil_l (s : string) : "" +:+ s = s.
Proof. done. Qed.

Lemma string_app_cons a (s1 s2 : string) : String a s1 +:+ s2 = String a (s1 +:+ s2).
Proof. done. Qed.

Lemma string_app_assoc (s1 s2 s3 : string) : (s1 +:+ s2) +:+ s3 = s1 +:+ s2 +:+ s3.
Proof. induction s1 as [|a s1 IH]; [done|]. by rewrite !string_app_cons, IH. Qed.

Lemma string_app_nil_r (s : string) : s +:+ "" = s.
Proof. induction s as [|a s IH]; [done|]. by rewrite string_app_cons, IH. Qed.

Lemma string_app_length (s1 s2 : string) :
  String.length (s1 +:+ s2) = (String.length s1 + String.length s2)%nat.
Proof. induction s1 as [|a s1 IH]; [done|]. rewrite string_app_cons. simpl. by rewrite IH. Qed.

(** Two ways to cut a string: the longer head extends the shorter one. *)
Lemma string_app_split (s1 t1 s2 t2 : string) :
  s1 +:+ t1 = s2 +:+ t2 → (String.length s1 ≤ String.length s2)%nat →
  ∃ x, s2 = s1 +:+ x ∧ t1 = x +:+ t2.
Proof.
  revert s2. induction s1 as [|a s1 IH]; intros s2 Heq Hlen.
  { by exists s2. }
  destruct s2 as [|b s2]; [simpl in Hlen; lia|]. rewrite !string_app_cons in Heq.
  injection Heq as -> Heq. simpl in Hlen. destruct (IH s2 Heq) as (x & -> & ->); [lia|]. by exists x.
Qed.

Lemma string_app_inj_l (s t1 t2 : string) : s +:+ t1 = s +:+ t2 → t1 = t2.
Proof. induction s as [|a s IH]; [done|]. rewrite !string_app_cons. intros [= ?]. by apply IH. Qed.

Lemma string_app_inj_r (s1 s2 t : string) : s1 +:+ t = s2 +:+ t → s1 = s2.
Proof.
  intros Heq. assert (String.length s1 = String.length s2) as Hl.
  { apply (f_equal String.length) in Heq. rewrite !string_app_length in Heq. lia. }
  destruct (string_app_split _ _ _ _ Heq) as (x & -> & Ht); [lia|].
  rewrite string_app_length in Hl. destruct x; [by rewrite string_app_nil_r|simpl in Hl; lia].
Qed.

Create HintDb nfsz discriminated.
Create Rewrite HintDb nfsz.
#[export] Hint Resolve sortedKeys_NoDup sortedKeys_sorted : nfsz.
#[export] Hint Rewrite slicesContains_true slicesContains_false elem_of_sortedKeys : nfsz.
