(* ===== verification/Kube.v ===== *)
(** The Kubernetes API data the operator reads and writes: the fields of
    k8s.io/api and k8s.io/apimachinery types that the code under src/ mentions.
    String-typed enumerations ([type X string] in Go) stay strings, pointers
    are options, [resource.Quantity] is its canonical text and [metav1.Time]
    the seconds since Go's zero time. *)
From S2P Require Import Prelude.

Definition Time := Z.

Record Quantity := MkQuantity { quantity_text : string }.

(** [(t *metav1.Time).IsZero()]: a nil pointer or the zero time. *)
Definition Time_IsZero (t : option Time) : bool :=
  match t with
  | None => true
  | Some t => (t =? 0)%Z
  end.

Record NamespacedName := MkNN { nn_Namespace : string; nn_Name : string }.

(** * metav1 *)

Record OwnerReference := MkOwnerReference {
  or_APIVersion : string;
  or_Kind : string;
  or_Name : string;
  or_UID : string;
  or_Controller : option bool;
  or_BlockOwnerDeletion : option bool
}.

Record ObjectMeta := MkObjectMeta {
  Name : string;
  Namespace : string;
  Labels : GoMap;
  Annotations : GoMap;
  Finalizers : list string;
  OwnerReferences : list OwnerReference;
  DeletionTimestamp : option Time;
  Generation : Z;
  UID : string;
  ResourceVersion : string
}.

(** The composite literal [metav1.ObjectMeta{Name:, Namespace:, Labels:}]; every
    other field has its zero value. *)
Definition objectMeta (name ns : string) (labels : GoMap) : ObjectMeta :=
  MkObjectMeta name ns labels None [] [] None 0 "" "".

Record LabelSelectorRequirement := MkRequirement {
  lsr_Key : string;
  lsr_Operator : string;
  lsr_Values : list string
}.

Record LabelSelector := MkLabelSelector {
  MatchLabels : GoMap;
  MatchExpressions : list LabelSelectorRequirement
}.

(** [labels.Selector] is an interface; the operator only calls [Matches] on it
    or hands it to [List]. *)
Record Selector := MkSelector { Matches : GoMap → bool }.

Definition ConditionTrue : string := "True".
Definition ConditionFalse : string := "False".

Record Condition := MkCondition {
  cond_Type : string;
  cond_Status : string;
  cond_ObservedGeneration : Z;
  cond_LastTransitionTime : option Time;
  cond_Reason : string;
  cond_Message : string
}.

(** * corev1 *)

Definition ResourceList := gmap string Quantity.
Definition ResourceStorage : string := "storage".
Definition ReadWriteOnce : string := "ReadWriteOnce".
Definition ReadWriteMany : string := "ReadWriteMany".
Definition PersistentVolumeReclaimRetain : string := "Retain".
Definition VolumeReleased : string := "Released".
Definition ClaimBound : string := "Bound".
Definition ProtocolTCP : string := "TCP".
Definition LabelMetadataName : string := "kubernetes.io/metadata.name".
Definition LabelHostname : string := "kubernetes.io/hostname".
Definition NodeInternalIP : string := "InternalIP".
Definition NodeExternalIP : string := "ExternalIP".
Definition EventTypeWarning : string := "Warning".
Definition RestartPolicyNever : string := "Never".
Definition HostPathDirectoryOrCreate : string := "DirectoryOrCreate".

Record NamespaceObj := MkNamespaceObj { ns_ObjectMeta : ObjectMeta }.

Record NodeAddress := MkNodeAddress { na_Type : string; na_Address : string }.

Record Node := MkNode {
  node_ObjectMeta : ObjectMeta;
  node_PodCIDR : string;
  node_PodCIDRs : list string;
  node_Addresses : list NodeAddress
}.

Record PersistentVolumeClaimSpec := MkPVCSpec {
  pvcs_AccessModes : list string;
  pvcs_StorageClassName : option string;
  pvcs_VolumeName : string;
  pvcs_Requests : ResourceList
}.

Record PersistentVolumeClaim := MkPVC {
  pvc_ObjectMeta : ObjectMeta;
  pvc_Spec : PersistentVolumeClaimSpec;
  pvc_Phase : string
}.

Record ObjectReference := MkObjectReference {
  ref_APIVersion : string;
  ref_Kind : string;
  ref_Namespace : string;
  ref_Name : string;
  ref_UID : string;
  ref_ResourceVersion : string
}.

Record NFSVolumeSource := MkNFS { nfs_Server : string; nfs_Path : string }.

Record PersistentVolumeSpec := MkPVSpec {
  pvs_Capacity : ResourceList;
  pvs_AccessModes : list string;
  pvs_ReclaimPolicy : string;
  pvs_StorageClassName : string;
  pvs_MountOptions : list string;
  pvs_NFS : option NFSVolumeSource;
  pvs_ClaimRef : option ObjectReference
}.

Record PersistentVolume := MkPV {
  pv_ObjectMeta : ObjectMeta;
  pv_Spec : PersistentVolumeSpec;
  pv_Phase : string
}.

Record ConfigMap := MkConfigMap { cm_ObjectMeta : ObjectMeta; cm_Data : GoMap }.

Record ServicePort := MkServicePort {
  sp_Name : string;
  sp_Port : Z;
  sp_Protocol : string
}.

Record Service := MkService {
  svc_ObjectMeta : ObjectMeta;
  svc_Selector : GoMap;
  svc_Ports : list ServicePort;
  svc_ClusterIP : string
}.

Record VolumeMount := MkVolumeMount {
  vm_Name : string;
  vm_SubPath : string;
  vm_MountPath : string;
  vm_ReadOnly : bool
}.

Record HostPathVolumeSource := MkHostPath { hp_Path : string; hp_Type : option string }.

(** [PersistentVolumeClaim.ClaimName], [ConfigMap.Name] and [HostPath] are the
    sources the operator uses. *)
Record Volume := MkVolume {
  vol_Name : string;
  vol_PVC : option string;
  vol_ConfigMap : option string;
  vol_HostPath : option HostPathVolumeSource
}.

Record ContainerPort := MkContainerPort { cp_Name : string; cp_ContainerPort : Z }.

Record SecurityContext := MkSecurityContext {
  sc_AllowPrivilegeEscalation : option bool;
  sc_CapabilitiesAdd : list string
}.

(** A TCP-socket readiness probe. *)
Record Probe := MkProbe {
  probe_TCPPort : Z;
  probe_InitialDelaySeconds : Z;
  probe_PeriodSeconds : Z
}.

Record Container := MkContainer {
  ctr_Name : string;
  ctr_Image : string;
  ctr_Command : list string;
  ctr_Ports : list ContainerPort;
  ctr_SecurityContext : option SecurityContext;
  ctr_ReadinessProbe : option Probe;
  ctr_VolumeMounts : list VolumeMount
}.

(** One required pod-affinity term. *)
Record PodAffinityTerm := MkPodAffinityTerm {
  pat_LabelSelector : LabelSelector;
  pat_TopologyKey : string
}.

Record PodSpec := MkPodSpec {
  pod_RestartPolicy : string;
  pod_InitContainers : list Container;
  pod_Containers : list Container;
  pod_Volumes : list Volume;
  pod_Affinity : option (list PodAffinityTerm)
}.

Record PodTemplateSpec := MkPodTemplate {
  tpl_Labels : GoMap;
  tpl_Annotations : GoMap;
  tpl_Spec : PodSpec
}.

(** * appsv1, batchv1, networkingv1 *)

Definition RecreateDeploymentStrategyType : string := "Recreate".

Record Deployment := MkDeployment {
  dep_ObjectMeta : ObjectMeta;
  dep_Replicas : option Z;
  dep_Strategy : string;
  dep_Selector : LabelSelector;
  dep_Template : PodTemplateSpec;
  dep_ReadyReplicas : Z
}.

Definition JobComplete : string := "Complete".
Definition JobFailed : string := "Failed".
Definition ForbidConcurrent : string := "Forbid".

Record JobSpec := MkJobSpec {
  js_BackoffLimit : option Z;
  js_ActiveDeadlineSeconds : option Z;
  js_Template : PodTemplateSpec
}.

Record JobCondition := MkJobCondition { jc_Type : string; jc_Status : string }.

Record Job := MkJob {
  job_ObjectMeta : ObjectMeta;
  job_Spec : JobSpec;
  job_Conditions : list JobCondition
}.

Record CronJobSpec := MkCronJobSpec {
  cjs_Schedule : string;
  cjs_Suspend : option bool;
  cjs_ConcurrencyPolicy : string;
  cjs_StartingDeadlineSeconds : option Z;
  cjs_SuccessfulJobsHistoryLimit : option Z;
  cjs_FailedJobsHistoryLimit : option Z;
  cjs_TemplateLabels : GoMap;
  cjs_JobSpec : JobSpec
}.

Record CronJob := MkCronJob {
  cj_ObjectMeta : ObjectMeta;
  cj_Spec : CronJobSpec;
  cj_LastSuccessfulTime : option Time
}.

Definition PolicyTypeIngress : string := "Ingress".

(** A peer is a namespace selector or an IP block (its CIDR text). *)
Record NetworkPolicyPeer := MkPeer {
  peer_NamespaceSelector : option LabelSelector;
  peer_IPBlock : option string
}.

Record NetworkPolicyPort := MkNPPort { npp_Protocol : option string; npp_Port : option Z }.

Record NetworkPolicyIngressRule := MkIngressRule {
  rule_Ports : list NetworkPolicyPort;
  rule_From : list NetworkPolicyPeer
}.

Record NetworkPolicySpec := MkNPSpec {
  nps_PodSelector : LabelSelector;
  nps_PolicyTypes : list string;
  nps_Ingress : list NetworkPolicyIngressRule
}.

Record NetworkPolicy := MkNetworkPolicy {
  np_ObjectMeta : ObjectMeta;
  np_Spec : NetworkPolicySpec
}.

(** * Decidable equality of the keys *)

#[export] Instance NamespacedName_eq_dec : EqDecision NamespacedName.
Proof. solve_decision. Defined.

#[export] Instance NamespacedName_countable : Countable NamespacedName.
Proof.
  apply (inj_countable' (λ n, (nn_Namespace n, nn_Name n)) (λ p, MkNN p.1 p.2)).
  by intros [].
Defined.
