(* ===== verification/V1alpha1.v ===== *)
(** The SharedVolume API (api/v1alpha1/sharedvolume_types.go): the spec the user
    writes, the status the operator reports, and the admission rules that the
    kubebuilder markers put into the CRD. *)
From S2P Require Import Prelude Kube.

(** * Enumerations *)

Definition ReclaimDelete : string := "Delete".
Definition ReclaimRetain : string := "Retain".

Definition NetworkPolicyEnabled : string := "Enabled".
Definition NetworkPolicyDisabled : string := "Disabled".

Definition RestoreAuto : string := "Auto".
Definition RestoreNever : string := "Never".

Definition PhasePending : string := "Pending".
Definition PhaseProvisioning : string := "Provisioning".
Definition PhaseReady : string := "Ready".
Definition PhaseDegraded : string := "Degraded".
Definition PhaseTerminating : string := "Terminating".

Definition BindingPending : string := "Pending".
Definition BindingBound : string := "Bound".
Definition BindingConflict : string := "Conflict".
Definition BindingTerminating : string := "Terminating".

Definition ConditionServerReady : string := "ServerReady".
Definition ConditionAllBound : string := "AllBound".
Definition ConditionRestored : string := "Restored".

Definition ReasonSeedRunning : string := "SeedRunning".
Definition ReasonSeeded : string := "Seeded".
Definition ReasonSeedFailed : string := "SeedFailed".
Definition ReasonPreexistingServer : string := "PreexistingServer".

(** * Spec *)

Record HostPathDestination := MkHostPathDestination { hpd_Path : string }.

Record BackupDestination := MkBackupDestination { HostPath : option HostPathDestination }.

Record BackupSpec := MkBackupSpec {
  Schedule : string;
  Destination : BackupDestination;
  Suspend : option bool;
  RestorePolicy : string
}.

Record NamespaceSelection := MkNamespaceSelection {
  Names : list string;
  NsSelector : option LabelSelector
}.

Record SharedVolumeSpec := MkSharedVolumeSpec {
  Capacity : Quantity;
  StorageClassName : option string;
  Namespaces : NamespaceSelection;
  ReclaimPolicy : string;
  NetworkPolicyField : string;
  Backup : option BackupSpec
}.

(** * Status *)

Record NamespaceBinding := MkNamespaceBinding {
  nb_Namespace : string;
  nb_PVCName : string;
  nb_Phase : string
}.

Record SharedVolumeStatus := MkSharedVolumeStatus {
  Phase : string;
  ServerEndpointField : string;
  BackingPVC : string;
  BoundSummary : string;
  Bindings : list NamespaceBinding;
  LastBackupTime : option Time;
  ObservedGeneration : Z;
  Conditions : list Condition
}.

Record SharedVolume := MkSharedVolume {
  sv_ObjectMeta : ObjectMeta;
  sv_Spec : SharedVolumeSpec;
  sv_Status : SharedVolumeStatus
}.

(** [sv.Name] *)
Definition sv_Name (sv : SharedVolume) : string := Name (sv_ObjectMeta sv).

(** The part of a volume that identifies it and says what it wants: its name and
    its spec. *)
Definition sv_core (sv : SharedVolume) : SharedVolume :=
  MkSharedVolume (objectMeta (sv_Name sv) "" None) (sv_Spec sv)
    (MkSharedVolumeStatus "" "" "" "" [] None 0 []).

(** * Field assignments the controller performs *)

Definition with_Status (sv : SharedVolume) (st : SharedVolumeStatus) : SharedVolume :=
  MkSharedVolume (sv_ObjectMeta sv) (sv_Spec sv) st.

Definition set_Phase (p : string) (st : SharedVolumeStatus) : SharedVolumeStatus :=
  MkSharedVolumeStatus p (ServerEndpointField st) (BackingPVC st) (BoundSummary st)
    (Bindings st) (LastBackupTime st) (ObservedGeneration st) (Conditions st).

Definition set_ServerEndpoint (e : string) (st : SharedVolumeStatus) : SharedVolumeStatus :=
  MkSharedVolumeStatus (Phase st) e (BackingPVC st) (BoundSummary st)
    (Bindings st) (LastBackupTime st) (ObservedGeneration st) (Conditions st).

Definition set_LastBackupTime (t : option Time) (st : SharedVolumeStatus) : SharedVolumeStatus :=
  MkSharedVolumeStatus (Phase st) (ServerEndpointField st) (BackingPVC st) (BoundSummary st)
    (Bindings st) t (ObservedGeneration st) (Conditions st).

Definition set_Conditions (cs : list Condition) (st : SharedVolumeStatus) : SharedVolumeStatus :=
  MkSharedVolumeStatus (Phase st) (ServerEndpointField st) (BackingPVC st) (BoundSummary st)
    (Bindings st) (LastBackupTime st) (ObservedGeneration st) cs.

Definition set_Finalizers (fs : list string) (sv : SharedVolume) : SharedVolume :=
  let m := sv_ObjectMeta sv in
  MkSharedVolume
    (MkObjectMeta (Name m) (Namespace m) (Labels m) (Annotations m) fs (OwnerReferences m)
       (DeletionTimestamp m) (Generation m) (UID m) (ResourceVersion m))
    (sv_Spec sv) (sv_Status sv).

(** * Admission

    The kubebuilder validation markers, as the predicate the API server checks
    before a SharedVolume is stored.  [MinLength=1], [Pattern=^/], the [Enum]s
    (an omitted field takes its default, so [""] is never stored where a default
    is declared) and the XValidation rule [has(self.hostPath)]. *)
Definition valid_ReclaimPolicy (p : string) : bool :=
  bool_decide (p = ReclaimDelete) || bool_decide (p = ReclaimRetain).

Definition valid_NetworkPolicyMode (p : string) : bool :=
  bool_decide (p = NetworkPolicyEnabled) || bool_decide (p = NetworkPolicyDisabled).

Definition valid_RestorePolicy (p : string) : bool :=
  bool_decide (p = RestoreAuto) || bool_decide (p = RestoreNever).

Definition valid_HostPathDestination (d : HostPathDestination) : bool :=
  String.prefix "/" (hpd_Path d).

Definition valid_BackupDestination (d : BackupDestination) : bool :=
  match HostPath d with
  | None => false
  | Some h => valid_HostPathDestination h
  end.

Definition valid_BackupSpec (b : BackupSpec) : bool :=
  bool_decide (Schedule b ≠ "") && valid_BackupDestination (Destination b)
  && valid_RestorePolicy (RestorePolicy b).

Definition valid_Spec (s : SharedVolumeSpec) : bool :=
  valid_ReclaimPolicy (ReclaimPolicy s) && valid_NetworkPolicyMode (NetworkPolicyField s)
  && match Backup s with None => true | Some b => valid_BackupSpec b end.

(** The update rule on [capacity]: [self == oldSelf]. *)
Definition valid_Update (old new : SharedVolumeSpec) : bool :=
  valid_Spec new && bool_decide (quantity_text (Capacity new) = quantity_text (Capacity old)).

(** * Lemmas *)

Lemma valid_Spec_HostPath s b :
  valid_Spec s = true → Backup s = Some b → ∃ h, HostPath (Destination b) = Some h.
Proof.
  unfold valid_Spec, valid_BackupSpec, valid_BackupDestination.
  intros Hv Hb. rewrite Hb in Hv. destruct (HostPath (Destination b)); [by eauto|].
  by rewrite !andb_false_r in Hv.
Qed.
