(* ===== verification/Client.v ===== *)
(** How the controller talks to the cluster.

    Every call of the controller-runtime client (and every event it records,
    and every reading of the clock) is an operation [call] answered by a value
    of type [resp c].  A handler is a [prog]: a finite tree of calls whose
    continuation inspects the answer.  The API server is never defined here:
    it is an argument [srv : server S] over an arbitrary state [S], so a
    theorem about [run srv] covers failing calls, stale reads and any
    interleaving with other actors, which may change [S] between two calls.

    The second half is the program logic: [wp] computes what a handler must
    satisfy against an environment, and [run_wp] carries it to every run. *)
From S2P Require Import Prelude Kube V1alpha1.

(** * Errors *)

(** The classes of error the code distinguishes through k8s.io apierrors; the
    predicates see through [fmt.Errorf("...: %w", err)]. *)
Inductive error : Set :=
| NotFoundError
| AlreadyExistsError
| ConflictError
| OtherError (msg : string)
| WrapError (prefix : string) (err : error).

Fixpoint IsNotFound (e : error) : bool :=
  match e with
  | NotFoundError => true
  | WrapError _ e => IsNotFound e
  | _ => false
  end.

Fixpoint IsAlreadyExists (e : error) : bool :=
  match e with
  | AlreadyExistsError => true
  | WrapError _ e => IsAlreadyExists e
  | _ => false
  end.

Fixpoint IsConflict (e : error) : bool :=
  match e with
  | ConflictError => true
  | WrapError _ e => IsConflict e
  | _ => false
  end.

(** [client.IgnoreNotFound] on a possibly nil error. *)
Definition IgnoreNotFound (e : option error) : option error :=
  match e with
  | Some e => if IsNotFound e then None else Some e
  | None => None
  end.

(** * Calls *)

Inductive kind : Set :=
| KSharedVolume | KNamespace | KNode | KPVC | KPV | KConfigMap | KDeployment
| KService | KNetworkPolicy | KCronJob | KJob.

#[export] Instance kind_eq_dec : EqDecision kind.
Proof. solve_decision. Defined.

Definition obj (k : kind) : Set :=
  match k with
  | KSharedVolume => SharedVolume
  | KNamespace => NamespaceObj
  | KNode => Node
  | KPVC => PersistentVolumeClaim
  | KPV => PersistentVolume
  | KConfigMap => ConfigMap
  | KDeployment => Deployment
  | KService => Service
  | KNetworkPolicy => NetworkPolicy
  | KCronJob => CronJob
  | KJob => Job
  end.

(** [client.Object]'s metadata accessors. *)
Definition obj_meta (k : kind) : obj k → ObjectMeta :=
  match k return obj k → ObjectMeta with
  | KSharedVolume => sv_ObjectMeta
  | KNamespace => ns_ObjectMeta
  | KNode => node_ObjectMeta
  | KPVC => pvc_ObjectMeta
  | KPV => pv_ObjectMeta
  | KConfigMap => cm_ObjectMeta
  | KDeployment => dep_ObjectMeta
  | KService => svc_ObjectMeta
  | KNetworkPolicy => np_ObjectMeta
  | KCronJob => cj_ObjectMeta
  | KJob => job_ObjectMeta
  end.

Definition meta_SetOwnerReferences (m : ObjectMeta) (rs : list OwnerReference) : ObjectMeta :=
  MkObjectMeta (Name m) (Namespace m) (Labels m) (Annotations m) (Finalizers m) rs
    (DeletionTimestamp m) (Generation m) (UID m) (ResourceVersion m).

Definition obj_set_meta (k : kind) (m : ObjectMeta) : obj k → obj k :=
  match k return obj k → obj k with
  | KSharedVolume => λ o, MkSharedVolume m (sv_Spec o) (sv_Status o)
  | KNamespace => λ _, MkNamespaceObj m
  | KNode => λ o, MkNode m (node_PodCIDR o) (node_PodCIDRs o) (node_Addresses o)
  | KPVC => λ o, MkPVC m (pvc_Spec o) (pvc_Phase o)
  | KPV => λ o, MkPV m (pv_Spec o) (pv_Phase o)
  | KConfigMap => λ o, MkConfigMap m (cm_Data o)
  | KDeployment => λ o, MkDeployment m (dep_Replicas o) (dep_Strategy o)
                     (dep_Selector o) (dep_Template o) (dep_ReadyReplicas o)
  | KService => λ o, MkService m (svc_Selector o) (svc_Ports o) (svc_ClusterIP o)
  | KNetworkPolicy => λ o, MkNetworkPolicy m (np_Spec o)
  | KCronJob => λ o, MkCronJob m (cj_Spec o) (cj_LastSuccessfulTime o)
  | KJob => λ o, MkJob m (job_Spec o) (job_Conditions o)
  end.

Definition obj_SetOwnerReferences (k : kind) (rs : list OwnerReference) (o : obj k) : obj k :=
  obj_set_meta k (meta_SetOwnerReferences (obj_meta k o) rs) o.

(** [client.ObjectKeyFromObject]. *)
Definition ObjectKey (k : kind) (o : obj k) : NamespacedName :=
  MkNN (Namespace (obj_meta k o)) (Name (obj_meta k o)).

(** The list options the controller passes. *)
Inductive ListOption : Set :=
| AllObjects
| MatchingLabels (m : gmap string string)
| MatchingLabelsSelector (s : Selector).

Inductive call : Set :=
| CGet (k : kind) (key : NamespacedName)
| CList (k : kind) (opt : ListOption)
| CCreate (k : kind) (o : obj k)
| CUpdate (k : kind) (o : obj k)
| CStatusUpdate (sv : SharedVolume)
| CDelete (k : kind) (o : obj k) (propagation : option string)
| CEventf (sv : SharedVolume) (eventtype reason action note : string)
| CNow.

(** [Get], [Create] and [Update] write the server's object through the pointer
    they are given: the answer is that object. *)
Definition resp (c : call) : Set :=
  match c with
  | CGet k _ => error + obj k
  | CList k _ => error + list (obj k)
  | CCreate k _ => error + obj k
  | CUpdate k _ => error + obj k
  | CStatusUpdate _ => error + SharedVolume
  | CDelete _ _ _ => option error
  | CEventf _ _ _ _ _ => unit
  | CNow => Time
  end.

(** The verb and resource of a call. *)
Inductive verb : Set := VGet | VList | VCreate | VUpdate | VStatusUpdate | VDelete | VEvent | VNow.

#[export] Instance verb_eq_dec : EqDecision verb.
Proof. solve_decision. Defined.

Definition sig (c : call) : verb * kind :=
  match c with
  | CGet k _ => (VGet, k)
  | CList k _ => (VList, k)
  | CCreate k _ => (VCreate, k)
  | CUpdate k _ => (VUpdate, k)
  | CStatusUpdate _ => (VStatusUpdate, KSharedVolume)
  | CDelete k _ _ => (VDelete, k)
  | CEventf _ _ _ _ _ => (VEvent, KSharedVolume)
  | CNow => (VNow, KSharedVolume)
  end.

Record event : Set := Ev { ev_call : call; ev_resp : resp ev_call }.

(** * Handlers *)

Inductive prog (A : Type) : Type :=
| Ret (a : A)
| Vis (c : call) (k : resp c → prog A).
Arguments Ret {A} a.
Arguments Vis {A} c k.

Fixpoint prog_bind_def {A B} (f : A → prog B) (p : prog A) : prog B :=
  match p with
  | Ret a => f a
  | Vis c k => Vis c (λ r, prog_bind_def f (k r))
  end.

#[export] Instance prog_ret : MRet prog := @Ret.
#[export] Instance prog_bind : MBind prog := @prog_bind_def.

(** What a Go function [(T, error)] returns, or the panic that leaves it. *)
Inductive outcome (A : Type) : Type :=
| Ok (a : A)
| Err (e : error)
| Panic.
Arguments Ok {A} a.
Arguments Err {A} e.
Arguments Panic {A}.

(** [x, err := f(); if err != nil { return ..., err }]. *)
Definition bindE {A B} (p : prog (outcome A)) (f : A → prog (outcome B)) : prog (outcome B) :=
  p ≫= λ o, match o with
            | Ok a => f a
            | Err e => Ret (Err e)
            | Panic => Ret Panic
            end.

(** A value computed by code that may panic. *)
Definition orPanic {A B} (o : option A) (f : A → prog (outcome B)) : prog (outcome B) :=
  match o with
  | Some a => f a
  | None => Ret Panic
  end.

Declare Scope go_scope.
Delimit Scope go_scope with go.
Notation "x ←! p ; q" := (bindE p (λ x, q))
  (at level 20, p at level 100, q at level 200, only parsing) : go_scope.
Notation "' pat ←! p ; q" := (bindE p (λ x, match x with pat => q end))
  (at level 20, pat pattern, p at level 100, q at level 200, only parsing) : go_scope.
Notation "x ←? o ; q" := (orPanic o (λ x, q))
  (at level 20, o at level 100, q at level 200, only parsing) : go_scope.

Definition trigger (c : call) : prog (resp c) := Vis c (λ r, Ret r).

Definition Get (k : kind) (key : NamespacedName) : prog (error + obj k) := trigger (CGet k key).
Definition ListObjs (k : kind) (opt : ListOption) : prog (error + list (obj k)) :=
  trigger (CList k opt).
Definition Create (k : kind) (o : obj k) : prog (error + obj k) := trigger (CCreate k o).
Definition Update (k : kind) (o : obj k) : prog (error + obj k) := trigger (CUpdate k o).
Definition StatusUpdate (sv : SharedVolume) : prog (error + SharedVolume) :=
  trigger (CStatusUpdate sv).
Definition Delete (k : kind) (o : obj k) (prop : option string) : prog (option error) :=
  trigger (CDelete k o prop).
Definition Eventf (sv : SharedVolume) (eventtype reason action note : string) : prog unit :=
  trigger (CEventf sv eventtype reason action note).
Definition Now : prog Time := trigger CNow.

(** [if err := r.Delete(ctx, o); err != nil && !apierrors.IsNotFound(err) { return err }] *)
Definition DeleteIgnoreNotFound (k : kind) (o : obj k) (prop : option string)
    : prog (outcome unit) :=
  e ← Delete k o prop;
  match e with
  | Some e => if IsNotFound e then Ret (Ok tt) else Ret (Err e)
  | None => Ret (Ok tt)
  end.

(** * Running a handler against a server *)

Definition server (S : Type) := S → ∀ c : call, resp c * S.

Fixpoint run {S A} (srv : server S) (p : prog A) (s : S) : list event * S * A :=
  match p with
  | Ret a => ([], s, a)
  | Vis c k =>
      let '(r, s1) := srv s c in
      let '(tr, s2, a) := run srv (k r) s1 in
      (Ev c r :: tr, s2, a)
  end.

Definition trace_of {S A} (x : list event * S * A) : list event := x.1.1.
Definition state_of {S A} (x : list event * S * A) : S := x.1.2.
Definition result_of {S A} (x : list event * S * A) : A := x.2.

(** [trace_guarded allowed tr]: every call on the trace was allowed by the
    calls and answers that came before it. *)
Definition trace_guarded (allowed : list event → call → Prop) (tr : list event) : Prop :=
  ∀ pre e post, tr = pre ++ e :: post → allowed pre (ev_call e).

(** [Forall] over the answers a server gave. *)
Definition answers_ok (rely : ∀ c, resp c → Prop) (tr : list event) : Prop :=
  Forall (λ e, rely (ev_call e) (ev_resp e)) tr.

(** * Program logic *)

Section WP.
Context {G : Type}.
Context (guar : G → call → Prop).
Context (trans : G → ∀ c, resp c → G → Prop).

Fixpoint wp {A} (p : prog A) (Q : G → A → Prop) (g : G) : Prop :=
  match p with
  | Ret a => Q g a
  | Vis c k => guar g c ∧ ∀ r g', trans g c r g' → wp (k r) Q g'
  end.

Lemma wp_mono {A} (p : prog A) (Q Q' : G → A → Prop) g :
  (∀ g a, Q g a → Q' g a) → wp p Q g → wp p Q' g.
Proof.
  intros HQ. revert g. induction p as [a|c k IH]; intros g; simpl; [by apply HQ|].
  intros [? Hk]. split; [done|]. intros r g' Ht. eapply IH; eauto.
Qed.

Lemma wp_bind {A B} (p : prog A) (f : A → prog B) (Q : G → B → Prop) g :
  wp p (λ g a, wp (f a) Q g) g → wp (p ≫= f) Q g.
Proof.
  revert g. induction p as [a|c k IH]; intros g; simpl; [done|].
  intros [? Hk]. split; [done|]. intros r g' Ht. by eapply IH, Hk.
Qed.

Lemma wp_bindE {A B} (p : prog (outcome A)) (f : A → prog (outcome B))
    (Q : G → outcome B → Prop) g :
  wp p (λ g o, match o with
               | Ok a => wp (f a) Q g
               | Err e => Q g (Err e)
               | Panic => Q g Panic
               end) g →
  wp (bindE p f) Q g.
Proof.
  intros H. apply wp_bind. eapply wp_mono; [|exact H].
  by intros g' [a|e|].
Qed.

Lemma wp_trigger c (Q : G → resp c → Prop) g :
  guar g c → (∀ r g', trans g c r g' → Q g' r) → wp (trigger c) Q g.
Proof. done. Qed.

Lemma wp_conj {A} (p : prog A) (Q1 Q2 : G → A → Prop) g :
  wp p Q1 g → wp p Q2 g → wp p (λ g a, Q1 g a ∧ Q2 g a) g.
Proof.
  revert g. induction p as [a|c k IH]; intros g; simpl; [done|].
  intros [? H1] [_ H2]. split; [done|]. intros r g' Ht. by eapply IH; [apply H1|apply H2].
Qed.
End WP.

Lemma wp_guar_mono {G A} (guar guar' : G → call → Prop) trans (p : prog A) Q g :
  (∀ g c, guar g c → guar' g c) → wp guar trans p Q g → wp guar' trans p Q g.
Proof.
  intros HG. revert g. induction p as [a|c k IH]; intros g; simpl; [done|].
  intros [? Hk]. split; [by apply HG|]. intros r g' Ht. by apply IH, Hk.
Qed.

Lemma wp_ret {G A} (guar : G → call → Prop) trans (a : A) (Q : G → A → Prop) g :
  Q g a → wp guar trans (Ret a) Q g.
Proof. done. Qed.

Lemma wp_vis {G A} (guar : G → call → Prop) trans c (k : resp c → prog A)
    (Q : G → A → Prop) g :
  guar g c → (∀ r g', trans g c r g' → wp guar trans (k r) Q g') → wp guar trans (Vis c k) Q g.
Proof. done. Qed.

(** The history environment: the ghost state is the trace so far; [rely] bounds
    what the server may answer. *)
Definition hist_trans (rely : ∀ c, resp c → Prop) (h : list event) (c : call) (r : resp c)
    (h' : list event) : Prop :=
  rely c r ∧ h' = h ++ [Ev c r].

Definition any_answer (c : call) (r : resp c) : Prop := True.

(** A server never renames a volume or rewrites its spec in answer to the
    controller's own writes, and answers [Get] with the volume asked for:
    optimistic concurrency refuses the write if the spec has moved on. *)
Definition sv_stable (c : call) : resp c → Prop :=
  match c return resp c → Prop with
  | CStatusUpdate sv => λ r, ∀ sv', r = inr sv' → sv_core sv' = sv_core sv
  | CUpdate k o =>
      match k return obj k → error + obj k → Prop with
      | KSharedVolume => λ sv r, ∀ sv', r = inr sv' → sv_core sv' = sv_core sv
      | _ => λ _ _, True
      end o
  | CGet k key =>
      match k return error + obj k → Prop with
      | KSharedVolume => λ r, ∀ sv, r = inr sv → sv_Name sv = nn_Name key
      | _ => λ _, True
      end
  | _ => λ _, True
  end.

Abbreviation hwp allowed rely := (wp allowed (hist_trans rely)).

(** * Soundness of the logic *)

Lemma run_wp {S A} (srv : server S) allowed rely (p : prog A) Q h s :
  hwp allowed rely p Q h →
  (∀ s c, rely c (srv s c).1) →
  Q (h ++ trace_of (run srv p s)) (result_of (run srv p s)) ∧
  (∀ pre e post, trace_of (run srv p s) = pre ++ e :: post → allowed (h ++ pre) (ev_call e)).
Proof.
  intros Hwp Hrely. revert h s Hwp.
  induction p as [a|c k IH]; intros h s; simpl.
  { intros HQ. unfold trace_of, result_of; simpl. rewrite app_nil_r. split; [done|].
    intros [] ? ? ?; simplify_list_eq. }
  intros [Hg Hk]. pose proof (Hrely s c) as Hr.
  destruct (srv s c) as [r s1] eqn:Es; simpl in Hr.
  specialize (IH r (h ++ [Ev c r]) s1 (Hk r _ (conj Hr eq_refl))).
  destruct (run srv (k r) s1) as [[tr s2] a] eqn:Er.
  unfold trace_of, result_of in *; simpl in *. destruct IH as [HQ Hall].
  rewrite <- app_assoc in HQ. split; [done|].
  intros [|e0 pre] e post Heq; simplify_list_eq; [done|].
  specialize (Hall pre e post eq_refl). by rewrite <- app_assoc in Hall.
Qed.

Lemma run_guarded {S A} (srv : server S) allowed (p : prog A) Q s :
  hwp allowed any_answer p Q [] → trace_guarded allowed (trace_of (run srv p s)).
Proof.
  intros H. destruct (run_wp srv allowed any_answer p Q [] s H) as [_ Hall]; [done|].
  intros pre e post Heq. by apply (Hall pre e post).
Qed.

Lemma run_guarded_rely {S A} (srv : server S) allowed rely (p : prog A) Q s :
  (∀ s c, rely c (srv s c).1) →
  hwp allowed rely p Q [] → trace_guarded allowed (trace_of (run srv p s)).
Proof.
  intros Hr H. destruct (run_wp srv allowed rely p Q [] s H) as [_ Hall]; [done|].
  intros pre e post Heq. by apply (Hall pre e post).
Qed.

Lemma run_post {S A} (srv : server S) (p : prog A) (Q : list event → A → Prop) rely s :
  (∀ s c, rely c (srv s c).1) →
  hwp (λ _ _, True) rely p Q [] →
  Q (trace_of (run srv p s)) (result_of (run srv p s)).
Proof. intros Hr H. by destruct (run_wp srv _ rely p Q [] s H). Qed.

(** [simpl] brings a handler to its next [Vis]; it must not run the logic. *)
Arguments wp : simpl never.
Arguments bindE : simpl never.
