(* ===== verification/Sha256.v ===== *)
(** [crypto/sha256.Sum256] and [encoding/hex.EncodeToString] of the Go standard
    library, which [confHash] (internal/controller/resources.go) composes: FIPS
    180-4 on 32-bit words written as [Z] reduced modulo 2^32, bytes as [Z]. *)
From S2P Require Import Prelude.
From Stdlib Require Import Ascii.
From stdpp Require Import list_numbers.
Local Open Scope Z_scope.

(** * Words *)

Definition w32 (x : Z) : Z := Z.land x 0xFFFFFFFF.
Definition add32 (x y : Z) : Z := w32 (x + y).
Definition rotr (n x : Z) : Z := Z.lor (Z.shiftr x n) (w32 (Z.shiftl x (32 - n))).
Definition not32 (x : Z) : Z := Z.lxor x 0xFFFFFFFF.

Definition Ch (x y z : Z) : Z := Z.lxor (Z.land x y) (Z.land (not32 x) z).
Definition Maj (x y z : Z) : Z := Z.lxor (Z.lxor (Z.land x y) (Z.land x z)) (Z.land y z).
Definition bigSigma0 (x : Z) : Z := Z.lxor (Z.lxor (rotr 2 x) (rotr 13 x)) (rotr 22 x).
Definition bigSigma1 (x : Z) : Z := Z.lxor (Z.lxor (rotr 6 x) (rotr 11 x)) (rotr 25 x).
Definition smallSigma0 (x : Z) : Z := Z.lxor (Z.lxor (rotr 7 x) (rotr 18 x)) (Z.shiftr x 3).
Definition smallSigma1 (x : Z) : Z := Z.lxor (Z.lxor (rotr 17 x) (rotr 19 x)) (Z.shiftr x 10).

(** The constants are computed from their definition (FIPS 180-4, 4.2.2 and
    5.3.3): 32 fractional bits of the cube roots and square roots of the first
    primes. *)
Definition isPrime (n : Z) : bool := forallb (λ d, negb (n mod d =? 0)) (seqZ 2 (Z.sqrt n - 1)).

Definition primes (k : nat) : list Z := take k (filter (λ n, isPrime n = true) (seqZ 2 310)).

(** The integer cube root, bit by bit from the top: [x ^ 3 <= n < (x + 1) ^ 3]. *)
Fixpoint cbrtFrom (bits : nat) (x n : Z) : Z :=
  match bits with
  | O => x
  | S bits =>
      let y := x + 2 ^ Z.of_nat bits in
      cbrtFrom bits (if y ^ 3 <=? n then y else x) n
  end.

Definition roundK : list Z :=
  Eval vm_compute in map (λ p, w32 (cbrtFrom 36 0 (p * 2 ^ 96))) (primes 64).

Record digest := MkDigest { da : Z; db : Z; dc : Z; dd : Z; de : Z; df : Z; dg : Z; dh : Z }.

Definition sqrtFraction (p : Z) : Z := w32 (Z.sqrt (p * 2 ^ 64)).

Definition initDigest : digest :=
  Eval vm_compute in
    MkDigest (sqrtFraction 2) (sqrtFraction 3) (sqrtFraction 5) (sqrtFraction 7)
             (sqrtFraction 11) (sqrtFraction 13) (sqrtFraction 17) (sqrtFraction 19).

(** * Compression *)

(** The schedule is kept newest word first: W[t-2], W[t-7], W[t-15], W[t-16]
    are at positions 1, 6, 14 and 15. *)
Fixpoint schedule (n : nat) (ws : list Z) : list Z :=
  match n with
  | O => ws
  | S n =>
      let w := add32 (add32 (smallSigma1 (nth 1 ws 0)) (nth 6 ws 0))
                     (add32 (smallSigma0 (nth 14 ws 0)) (nth 15 ws 0)) in
      schedule n (w :: ws)
  end.

Definition sha_round (d : digest) (kw : Z * Z) : digest :=
  let t1 := add32 (add32 (dh d) (bigSigma1 (de d)))
                  (add32 (add32 (Ch (de d) (df d) (dg d)) kw.1) kw.2) in
  let t2 := add32 (bigSigma0 (da d)) (Maj (da d) (db d) (dc d)) in
  MkDigest (add32 t1 t2) (da d) (db d) (dc d) (add32 (dd d) t1) (de d) (df d) (dg d).

Definition addDigest (x y : digest) : digest :=
  MkDigest (add32 (da x) (da y)) (add32 (db x) (db y)) (add32 (dc x) (dc y)) (add32 (dd x) (dd y))
           (add32 (de x) (de y)) (add32 (df x) (df y)) (add32 (dg x) (dg y)) (add32 (dh x) (dh y)).

(** [block] is 16 big-endian words. *)
Definition compress (d : digest) (block : list Z) : digest :=
  let ws := rev (schedule 48 (rev block)) in
  addDigest d (foldl sha_round d (zip roundK ws)).

(** * Bytes *)

Definition word_of_bytes (b0 b1 b2 b3 : Z) : Z :=
  Z.lor (Z.shiftl b0 24) (Z.lor (Z.shiftl b1 16) (Z.lor (Z.shiftl b2 8) b3)).

Fixpoint words_of_bytes (bs : list Z) : list Z :=
  match bs with
  | b0 :: b1 :: b2 :: b3 :: bs => word_of_bytes b0 b1 b2 b3 :: words_of_bytes bs
  | _ => []
  end.

Definition byte_at (x : Z) (i : Z) : Z := Z.land (Z.shiftr x (8 * i)) 0xFF.

Definition bytes_of_word (w : Z) : list Z := [byte_at w 3; byte_at w 2; byte_at w 1; byte_at w 0].

Definition bytes_of_digest (d : digest) : list Z :=
  concat (map bytes_of_word [da d; db d; dc d; dd d; de d; df d; dg d; dh d]).

(** The 0x80 byte, zeros up to 56 modulo 64, then the bit length on 8 bytes. *)
Definition pad (msg : list Z) : list Z :=
  let n := length msg in
  let zeros := Nat.modulo (119 - Nat.modulo n 64) 64 in
  let bits := 8 * Z.of_nat n in
  msg ++ 0x80 :: replicate zeros 0 ++ map (byte_at bits) [7; 6; 5; 4; 3; 2; 1; 0].

(** One compression per 16 words; [fuel] is the number of words, which bounds
    the number of blocks. *)
Fixpoint blocks (fuel : nat) (d : digest) (ws : list Z) : digest :=
  match fuel, ws with
  | S fuel, _ :: _ => blocks fuel (compress d (take 16 ws)) (drop 16 ws)
  | _, _ => d
  end.

Definition Sum256 (msg : list Z) : list Z :=
  let ws := words_of_bytes (pad msg) in
  bytes_of_digest (blocks (length ws) initDigest ws).

Definition bytes_of_string (s : string) : list Z :=
  map (λ a, Z.of_N (N_of_ascii a)) (String.list_ascii_of_string s).

(** * Hexadecimal *)

Definition hexDigit (n : Z) : ascii :=
  if n <? 10 then ascii_of_N (Z.to_N (48 + n)) else ascii_of_N (Z.to_N (87 + n)).

Fixpoint EncodeToString (bs : list Z) : string :=
  match bs with
  | [] => ""
  | b :: bs => String (hexDigit (Z.shiftr b 4)) (String (hexDigit (Z.land b 15)) (EncodeToString bs))
  end.

(** [hex.EncodeToString(sum[:8])] for [sum := sha256.Sum256([]byte(s))]. *)
Definition shortHash (s : string) : string :=
  EncodeToString (take 8 (Sum256 (bytes_of_string s))).

(** * Properties *)

Lemma byte_at_range x i : 0 <= byte_at x i < 256.
Proof.
  unfold byte_at. change 0xFF with (Z.ones 8).
  rewrite Z.land_ones by lia. apply Z.mod_pos_bound. lia.
Qed.

Lemma length_Sum256 msg : length (Sum256 msg) = 32%nat.
Proof. done. Qed.

Lemma Sum256_bytes msg : Forall (λ b, 0 <= b < 256) (Sum256 msg).
Proof.
  unfold Sum256, bytes_of_digest, bytes_of_word. simpl.
  repeat constructor; apply byte_at_range.
Qed.

Lemma EncodeToString_length bs : String.length (EncodeToString bs) = (2 * length bs)%nat.
Proof. induction bs as [|b bs IH]; simpl; lia. Qed.

Lemma hexDigit_inj x y : 0 <= x < 16 → 0 <= y < 16 → hexDigit x = hexDigit y → x = y.
Proof.
  intros Hx Hy.
  assert (x ∈ seqZ 0 16) as Ix by (apply elem_of_seqZ; lia).
  assert (y ∈ seqZ 0 16) as Iy by (apply elem_of_seqZ; lia).
  revert x y Hx Hy Ix Iy.
  assert (Forall (λ x, Forall (λ y, hexDigit x = hexDigit y → x = y) (seqZ 0 16)) (seqZ 0 16)) as Hall.
  { vm_compute. repeat constructor; congruence. }
  intros x y _ _ Ix Iy. rewrite Forall_forall in Hall. specialize (Hall x Ix).
  rewrite Forall_forall in Hall. by apply Hall.
Qed.

(** Two byte strings with the same hexadecimal form are equal. *)
Lemma EncodeToString_inj bs1 bs2 :
  Forall (λ b, 0 <= b < 256) bs1 → Forall (λ b, 0 <= b < 256) bs2 →
  EncodeToString bs1 = EncodeToString bs2 → bs1 = bs2.
Proof.
  intros H1. revert bs2. induction H1 as [|b1 bs1 Hb1 _ IH]; intros bs2 H2.
  { destruct bs2; [done|discriminate]. }
  destruct H2 as [|b2 bs2 Hb2 H2]; [discriminate|].
  simpl. intros Heq. injection Heq as Hhi Hlo Ht. f_equal; [|by apply IH].
  rewrite !Z.shiftr_div_pow2 in Hhi by lia.
  change 15 with (Z.ones 4) in Hlo. rewrite !Z.land_ones in Hlo by lia.
  change (2 ^ 4) with 16 in *.
  apply hexDigit_inj in Hhi; [|split; [apply Z.div_pos|apply Z.div_lt_upper_bound]; lia..].
  apply hexDigit_inj in Hlo; [|apply Z.mod_pos_bound; lia..].
  rewrite (Z.div_mod b1 16), (Z.div_mod b2 16) by lia. congruence.
Qed.

Lemma shortHash_length s : String.length (shortHash s) = 16%nat.
Proof.
  unfold shortHash. rewrite EncodeToString_length, length_take.
  by rewrite length_Sum256.
Qed.

Lemma shortHash_eq_iff s1 s2 :
  shortHash s1 = shortHash s2 ↔
  take 8 (Sum256 (bytes_of_string s1)) = take 8 (Sum256 (bytes_of_string s2)).
Proof.
  unfold shortHash. split; [|by intros ->].
  apply EncodeToString_inj; apply Forall_take, Sum256_bytes.
Qed.

(** FIPS 180-4 test vectors: the empty message, one block and two blocks. *)
Example Sum256_empty :
  EncodeToString (Sum256 (bytes_of_string ""))
  = "e3b0c44298fc1c149afbf4c8996fb92427ae41e4649b934ca495991b7852b855".
Proof. vm_compute. reflexivity. Qed.

Example Sum256_abc :
  EncodeToString (Sum256 (bytes_of_string "abc"))
  = "ba7816bf8f01cfea414140de5dae2223b00361a396177a9cb410ff61f20015ad".
Proof. vm_compute. reflexivity. Qed.

Example Sum256_two_blocks :
  EncodeToString (Sum256 (bytes_of_string "abcdbcdecdefdefgefghfghighijhijkijkljklmklmnlmnomnopnopq"))
  = "248d6a61d20638b8e5c026930c3e6039a33ce45964ff2167f6ecedd419db06c1".
Proof. vm_compute. reflexivity. Qed.
