(* ===== verification/Netip.v ===== *)
(** [net/netip] of the Go standard library, as far as [nodeIPs]
    (internal/controller/sharedvolume_controller.go) uses it: [ParsePrefix],
    [Prefix.Addr], [Prefix.Contains], [Addr.Next] and [Addr.String].  A 32- or
    128-bit address is a [Z] in range, wrapping written out. *)
From S2P Require Import Prelude.
From Stdlib Require Import Ascii.
Local Open Scope Z_scope.

(** * Addresses *)

(** [AddrZero] is the invalid zero [Addr{}]. *)
Inductive Addr : Set :=
| AddrZero
| Addr4 (n : Z)
| Addr6 (n : Z) (zone : string).

Record Prefix := MkPrefix { prefix_ip : Addr; prefix_bits : Z }.

Definition valid_Addr (a : Addr) : Prop :=
  match a with
  | AddrZero => False
  | Addr4 n => 0 <= n < 2 ^ 32
  | Addr6 n _ => 0 <= n < 2 ^ 128
  end.

Definition code (c : ascii) : Z := Z.of_N (N_of_ascii c).

Definition digitVal (c : ascii) : option Z :=
  let n := code c in if (48 <=? n) && (n <=? 57) then Some (n - 48) else None.

Definition hexVal (c : ascii) : option Z :=
  let n := code c in
  if (48 <=? n) && (n <=? 57) then Some (n - 48)
  else if (97 <=? n) && (n <=? 102) then Some (n - 87)
  else if (65 <=? n) && (n <=? 70) then Some (n - 55)
  else None.

Definition chDot : ascii := "."%char.
Definition chColon : ascii := ":"%char.
Definition chPercent : ascii := "%"%char.
Definition chSlash : ascii := "/"%char.

(** Big-endian value of a list of bytes. *)
Definition ofBytes (bs : list Z) : Z := foldl (λ a b, a * 256 + b) 0 bs.

(** * Parsing *)

(** [parseIPv4Fields]: [start] and [prevDot] stand for [i == 0] and
    [s[i-1] == '.']; [fields] holds the completed octets. *)
Fixpoint parseIPv4Fields (s : string) (start prevDot : bool) (val digLen : Z) (fields : list Z)
    : option (list Z) :=
  match s with
  | EmptyString => if (length fields <? 3)%nat then None else Some (fields ++ [val])
  | String c s =>
      match digitVal c with
      | Some d =>
          if (digLen =? 1) && (val =? 0) then None
          else
            let val := val * 10 + d in
            if 255 <? val then None
            else parseIPv4Fields s false false val (digLen + 1) fields
      | None =>
          if decide (c = chDot) then
            if start || bool_decide (s = "") || prevDot then None
            else if (length fields =? 3)%nat then None
            else parseIPv4Fields s false true 0 0 (fields ++ [val])
          else None
      end
  end.

Definition parse4 (s : string) : option (list Z) := parseIPv4Fields s true false 0 0 [].

Definition parseIPv4 (s : string) : option Addr := bs ← parse4 s; Some (Addr4 (ofBytes bs)).

(** The inner loop of [parseIPv6]: hexadecimal digits read, their value, the rest. *)
Fixpoint scanHex (s : string) (off acc : Z) : option (Z * Z * string) :=
  match s with
  | EmptyString => Some (off, acc, "")
  | String c s' =>
      match hexVal c with
      | None => Some (off, acc, s)
      | Some d =>
          let acc := acc * 16 + d in
          if 3 <? off then None
          else if 65535 <? acc then None
          else scanHex s' (off + 1) acc
      end
  end.

(** The outer loop of [parseIPv6]; [ip] holds the bytes written so far (the
    loop's [i] is its length) and [fuel] the two-byte groups that still fit, so
    [fuel = 0] is the loop's exit at [i = 16]. *)
Fixpoint parseIPv6Loop (fuel : nat) (s : string) (ip : list Z) (ellipsis : option nat)
    : option (list Z * option nat * string) :=
  match fuel with
  | O => Some (ip, ellipsis, s)
  | S fuel =>
      '(off, acc, rest) ← scanHex s 0 0;
      if off =? 0 then None
      else
        let ip' := ip ++ [acc / 256; acc mod 256] in
        match rest with
        | EmptyString => Some (ip', ellipsis, "")
        | String c rest' =>
            if decide (c = chDot) then
              if bool_decide (ellipsis = None) && negb (length ip =? 12)%nat then None
              else if (16 <? length ip + 4)%nat then None
              else fs ← parse4 s; Some (ip ++ fs, ellipsis, "")
            else if decide (c = chColon) then
              match rest' with
              | EmptyString => None
              | String c2 rest'' =>
                  if decide (c2 = chColon) then
                    match ellipsis with
                    | Some _ => None
                    | None =>
                        match rest'' with
                        | EmptyString => Some (ip', Some (length ip'), "")
                        | _ => parseIPv6Loop fuel rest'' ip' (Some (length ip'))
                        end
                    end
                  else parseIPv6Loop fuel rest' ip' ellipsis
              end
            else None
        end
  end.

Definition expandEllipsis (ip : list Z) (ellipsis : option nat) : option (list Z) :=
  if (length ip <? 16)%nat then
    match ellipsis with
    | None => None
    | Some e => Some (take e ip ++ replicate (16 - length ip) 0 ++ drop e ip)
    end
  else match ellipsis with
       | None => Some ip
       | Some _ => None
       end.

(** [parseIPv6] after the zone has been split off. *)
Definition parse6 (s : string) : option (list Z) :=
  let '(ellipsis, s) :=
    match s with
    | String c1 (String c2 s') =>
        if decide (c1 = chColon ∧ c2 = chColon) then (Some 0%nat, s') else (None, s)
    | _ => (None, s)
    end in
  if decide (ellipsis = Some 0%nat ∧ s = "") then Some (replicate 16 0)
  else
    '(ip, ellipsis, rest) ← parseIPv6Loop 8 s [] ellipsis;
    if decide (rest = "") then expandEllipsis ip ellipsis else None.

(** Split at the first occurrence of a byte. *)
Fixpoint splitFirst (c : ascii) (s : string) : option (string * string) :=
  match s with
  | EmptyString => None
  | String a s =>
      if decide (a = c) then Some ("", s)
      else '(l, r) ← splitFirst c s; Some (String a l, r)
  end.

(** Split at the last occurrence of a byte. *)
Fixpoint splitLast (c : ascii) (s : string) : option (string * string) :=
  match s with
  | EmptyString => None
  | String a s =>
      match splitLast c s with
      | Some (l, r) => Some (String a l, r)
      | None => if decide (a = c) then Some ("", s) else None
      end
  end.

Definition parseIPv6 (s : string) : option Addr :=
  match splitFirst chPercent s with
  | None => bs ← parse6 s; Some (Addr6 (ofBytes bs) "")
  | Some (s, zone) =>
      if decide (zone = "") then None
      else bs ← parse6 s; Some (Addr6 (ofBytes bs) zone)
  end.

(** [ParseAddr]: the first of ['.'], [':'], ['%'] selects the syntax. *)
Fixpoint addrSyntax (s : string) : option ascii :=
  match s with
  | EmptyString => None
  | String c s =>
      if decide (c = chDot) then Some c
      else if decide (c = chColon) then Some c
      else if decide (c = chPercent) then Some c
      else addrSyntax s
  end.

Definition ParseAddr (s : string) : option Addr :=
  match addrSyntax s with
  | Some c => if decide (c = chDot) then parseIPv4 s
              else if decide (c = chColon) then parseIPv6 s
              else None
  | None => None
  end.

(** [strconv.Atoi] on text that starts with a digit. *)
Fixpoint decimal (s : string) (acc : Z) : option Z :=
  match s with
  | EmptyString => Some acc
  | String c s => d ← digitVal c; decimal s (acc * 10 + d)
  end.

Definition parseBits (s : string) : option Z :=
  match s with
  | EmptyString => None
  | String c EmptyString => digitVal c
  | String c _ => if decide (49 <= code c <= 57) then decimal s 0 else None
  end.

Definition ParsePrefix (s : string) : option Prefix :=
  '(addr, bitsStr) ← splitLast chSlash s;
  ip ← ParseAddr addr;
  match ip with
  | AddrZero => None
  | Addr4 _ =>
      bits ← parseBits bitsStr;
      if decide (0 <= bits <= 32) then Some (MkPrefix ip bits) else None
  | Addr6 _ zone =>
      if decide (zone = "") then
        bits ← parseBits bitsStr;
        if decide (0 <= bits <= 128) then Some (MkPrefix ip bits) else None
      else None
  end.

(** * Arithmetic *)

(** [Addr.Next]: the zero [Addr] after the last address of the family. *)
Definition Next (a : Addr) : Addr :=
  match a with
  | AddrZero => AddrZero
  | Addr4 n => let m := (n + 1) mod 2 ^ 32 in if m =? 0 then AddrZero else Addr4 m
  | Addr6 n z => let m := (n + 1) mod 2 ^ 128 in if m =? 0 then AddrZero else Addr6 m z
  end.

Definition Contains (p : Prefix) (ip : Addr) : bool :=
  match prefix_ip p, ip with
  | Addr4 b, Addr4 n => Z.shiftr (Z.lxor n b) (32 - prefix_bits p) =? 0
  | Addr6 b _, Addr6 n zone =>
      bool_decide (zone = "") &&
      (Z.land (Z.lxor n b) (Z.shiftl (Z.ones (prefix_bits p)) (128 - prefix_bits p)) =? 0)
  | _, _ => false
  end.

(** * Printing *)

Definition octet (n i : Z) : Z := (n / 256 ^ i) mod 256.

Definition string4 (n : Z) : string :=
  sprint_d (octet n 3) +:+ "." +:+ sprint_d (octet n 2) +:+ "." +:+ sprint_d (octet n 1)
  +:+ "." +:+ sprint_d (octet n 0).

Definition hexChar (d : Z) : ascii :=
  if d <? 10 then ascii_of_N (Z.to_N (48 + d)) else ascii_of_N (Z.to_N (87 + d)).

(** [appendHex]: lower case, no leading zeros. *)
Definition appendHex (x : Z) : string :=
  (if 4096 <=? x then String (hexChar (x / 4096)) "" else "")
  +:+ (if 256 <=? x then String (hexChar (x / 256 mod 16)) "" else "")
  +:+ (if 16 <=? x then String (hexChar (x / 16 mod 16)) "" else "")
  +:+ String (hexChar (x mod 16)) "".

(** [v6u16(i)] *)
Definition group (n : Z) (i : nat) : Z := (n / 65536 ^ (7 - Z.of_nat i)) mod 65536.

Definition groups (n : Z) : list Z := map (group n) (seq 0 8).

Fixpoint zeroRun (gs : list Z) : nat :=
  match gs with
  | g :: gs => if g =? 0 then S (zeroRun gs) else 0%nat
  | [] => 0%nat
  end.

(** The longest run of at least two zero groups, the first of that length; the
    initial [(255, 255)] is the empty run. *)
Definition longestRun (gs : list Z) : nat * nat :=
  foldl (λ '(zs, ze) i,
           let l := zeroRun (drop i gs) in
           if (2 <=? l)%nat && (ze - zs <? l)%nat then (i, i + l)%nat else (zs, ze))
        (255, 255)%nat (seq 0 8).

(** The printing loop from group [i]; [fuel] bounds its eight steps. *)
Fixpoint print6 (fuel i : nat) (gs : list Z) (zs ze : nat) : string :=
  match fuel with
  | O => ""
  | S fuel =>
      if (8 <=? i)%nat then ""
      else if (i =? zs)%nat then
        "::" +:+ (if (8 <=? ze)%nat then ""
                  else appendHex (nth ze gs 0) +:+ print6 fuel (S ze) gs zs ze)
      else (if (0 <? i)%nat then ":" else "") +:+ appendHex (nth i gs 0)
           +:+ print6 fuel (S i) gs zs ze
  end.

Definition string6 (n : Z) : string :=
  let gs := groups n in
  let '(zs, ze) := longestRun gs in print6 8 0 gs zs ze.

Definition Is4In6 (n : Z) : bool := Z.shiftr n 32 =? 0xffff.

Definition withZone (zone : string) : string := if decide (zone = "") then "" else "%" +:+ zone.

(** [Addr.String] *)
Definition AddrString (a : Addr) : string :=
  match a with
  | AddrZero => "invalid IP"
  | Addr4 n => string4 n
  | Addr6 n zone =>
      (if Is4In6 n then "::ffff:" +:+ string4 (n mod 2 ^ 32) else string6 n) +:+ withZone zone
  end.

Example parse_print :
  map (λ s, AddrString <$> ParseAddr s)
    ["10.42.9.0"; "fd00:42::"; "::"; "::1"; "1:0:0:2:0:0:0:3"; "2001:db8::ffff:1.2.3.4";
     "::ffff:1.2.3.4"; "1:2:3:4:5:6:7:8"; "fe80::1%eth0"; "10.042.9.0"; "1.2.3"; "1::2::3"; "12345::"]
  = [Some "10.42.9.0"; Some "fd00:42::"; Some "::"; Some "::1"; Some "1:0:0:2::3";
     Some "2001:db8::ffff:102:304"; Some "::ffff:1.2.3.4"; Some "1:2:3:4:5:6:7:8"; Some "fe80::1%eth0";
     None; None; None; None].
Proof. vm_compute. reflexivity. Qed.
