(* ===== verification/Resources.v ===== *)
(** Object names and builders (internal/controller/resources.go) and the
    ganesha.conf they mount (internal/ganesha/config.go): pure functions from a
    SharedVolume to the Kubernetes objects the operator creates for it. *)
From S2P Require Import Prelude Kube V1alpha1 Sha256.

(** * Constants *)

Definition LabelSharedVolume : string := "nfsz.dev/shared-volume".
Definition LabelManagedBy : string := "app.kubernetes.io/managed-by".
Definition managedByValue : string := "nfsz".
Definition confHashAnnotation : string := "nfsz.dev/conf-hash".
Definition nfsPort : Z := 2049.
Definition LabelComponent : string := "app.kubernetes.io/component".

Definition managedLabelsMap (sv : SharedVolume) : gmap string string :=
  <[LabelSharedVolume := sv_Name sv]> {[LabelManagedBy := managedByValue]}.

Definition managedLabels (sv : SharedVolume) : GoMap := Some (managedLabelsMap sv).

(** The literal [{LabelSharedVolume: sv.Name, "app.kubernetes.io/component": "nfs-server"}]
    used by the Deployment, the Service, the NetworkPolicy and the affinity term. *)
Definition serverSelector (sv : SharedVolume) : GoMap :=
  Some (<[LabelSharedVolume := sv_Name sv]> {[LabelComponent := "nfs-server"]}).

(** [maps.Copy] of the managed labels into a fresh map, then the component label. *)
Definition componentLabels (sv : SharedVolume) (component : string) : GoMap :=
  Some (<[LabelComponent := component]> (mapsCopy ∅ (managedLabelsMap sv))).

(** * Names *)

Definition BackingPVCName (sv : SharedVolume) : string := "nfsz-" +:+ sv_Name sv.
Definition ServerName (sv : SharedVolume) : string := "nfsz-" +:+ sv_Name sv +:+ "-server".
Definition ConfigMapName (sv : SharedVolume) : string := "nfsz-" +:+ sv_Name sv +:+ "-ganesha".
Definition PVName (sv : SharedVolume) (namespace : string) : string :=
  "nfsz-" +:+ sv_Name sv +:+ "-" +:+ namespace.
Definition ConsumerPVCName (sv : SharedVolume) : string := sv_Name sv.
Definition BackupCronJobName (sv : SharedVolume) : string := "nfsz-" +:+ sv_Name sv +:+ "-backup".
Definition SeedJobName (sv : SharedVolume) : string := "nfsz-" +:+ sv_Name sv +:+ "-seed".

(** * Server stack *)

Definition BuildBackingPVC (sv : SharedVolume) (operatorNamespace : string) : PersistentVolumeClaim :=
  {| pvc_ObjectMeta := objectMeta (BackingPVCName sv) operatorNamespace (managedLabels sv);
     pvc_Spec := {| pvcs_AccessModes := [ReadWriteOnce];
                    pvcs_StorageClassName := StorageClassName (sv_Spec sv);
                    pvcs_VolumeName := "";
                    pvcs_Requests := {[ResourceStorage := Capacity (sv_Spec sv)]} |};
     pvc_Phase := "" |}.

(** [ganesha.Config()] *)
Definition Config : string := "NFS_CORE_PARAM {
    NFS_Port = 2049;
    Protocols = 4;
    Enable_NLM = false;
    Enable_RQUOTA = false;
    mount_path_pseudo = true;
}

NFSV4 {
    Minor_Versions = 1, 2;
    Grace_Period = 15;
    Lease_Lifetime = 15;
    RecoveryBackend = fs;
}

EXPORT {
    Export_Id = 1;
    Path = /export;
    Pseudo = /;
    Protocols = 4;
    Transports = TCP;
    Access_Type = RW;
    Squash = No_Root_Squash;
    SecType = sys;
    Disable_ACL = true;
    FSAL { Name = VFS; }
}

LOG { Default_Log_Level = EVENT; }
".

Definition ganeshaConfKey : string := "ganesha.conf".

Definition BuildConfigMap (sv : SharedVolume) (operatorNamespace : string) : ConfigMap :=
  {| cm_ObjectMeta := objectMeta (ConfigMapName sv) operatorNamespace (managedLabels sv);
     cm_Data := Some {[ganeshaConfKey := Config]} |}.

Definition confHash (cm : ConfigMap) : string := shortHash (mapIndex (cm_Data cm) ganeshaConfKey).

Definition BuildServerDeployment (sv : SharedVolume) (operatorNamespace image : string)
    (cm : ConfigMap) : Deployment :=
  let labels := managedLabels sv in
  let selector := serverSelector sv in
  let podLabels := componentLabels sv "nfs-server" in
  let backingVolume := MkVolume "backing" (Some (BackingPVCName sv)) None None in
  let confVolume := MkVolume "conf" None (Some (Name (cm_ObjectMeta cm))) None in
  let dataMounts := [MkVolumeMount "backing" "data" "/export" false;
                     MkVolumeMount "backing" ".ganesha" "/var/lib/nfs/ganesha" false] in
  {| dep_ObjectMeta := objectMeta (ServerName sv) operatorNamespace labels;
     dep_Replicas := Some 1%Z;
     dep_Strategy := RecreateDeploymentStrategyType;
     dep_Selector := MkLabelSelector selector [];
     dep_Template :=
       {| tpl_Labels := podLabels;
          tpl_Annotations := Some {[confHashAnnotation := confHash cm]};
          tpl_Spec :=
            {| pod_RestartPolicy := "";
               pod_InitContainers :=
                 [{| ctr_Name := "init-perms";
                     ctr_Image := image;
                     ctr_Command := ["sh"; "-c"; "chmod 1777 /export && mkdir -p /var/lib/nfs/ganesha"];
                     ctr_Ports := [];
                     ctr_SecurityContext := None;
                     ctr_ReadinessProbe := None;
                     ctr_VolumeMounts := dataMounts |}];
               pod_Containers :=
                 [{| ctr_Name := "ganesha";
                     ctr_Image := image;
                     ctr_Command := [];
                     ctr_Ports := [MkContainerPort "nfs" nfsPort];
                     ctr_SecurityContext :=
                       Some (MkSecurityContext (Some false) ["DAC_READ_SEARCH"; "SYS_RESOURCE"]);
                     ctr_ReadinessProbe := Some (MkProbe nfsPort 2 5);
                     ctr_VolumeMounts := MkVolumeMount "conf" "" "/etc/ganesha" false :: dataMounts |}];
               pod_Volumes := [confVolume; backingVolume];
               pod_Affinity := None |} |};
     dep_ReadyReplicas := 0 |}.

Definition BuildService (sv : SharedVolume) (operatorNamespace : string) : Service :=
  {| svc_ObjectMeta := objectMeta (ServerName sv) operatorNamespace (managedLabels sv);
     svc_Selector := serverSelector sv;
     svc_Ports := [MkServicePort "nfs" nfsPort ProtocolTCP];
     svc_ClusterIP := "" |}.

(** * Per-namespace bindings *)

Definition BuildPV (sv : SharedVolume) (namespace serverIP : string) : PersistentVolume :=
  {| pv_ObjectMeta := objectMeta (PVName sv namespace) "" (managedLabels sv);
     pv_Spec :=
       {| pvs_Capacity := {[ResourceStorage := Capacity (sv_Spec sv)]};
          pvs_AccessModes := [ReadWriteMany];
          pvs_ReclaimPolicy := PersistentVolumeReclaimRetain;
          pvs_StorageClassName := "";
          pvs_MountOptions := ["nfsvers=4.1"; "proto=tcp"; "hard"];
          pvs_NFS := Some (MkNFS serverIP "/");
          pvs_ClaimRef := Some {| ref_APIVersion := "v1";
                                  ref_Kind := "PersistentVolumeClaim";
                                  ref_Namespace := namespace;
                                  ref_Name := ConsumerPVCName sv;
                                  ref_UID := "";
                                  ref_ResourceVersion := "" |} |};
     pv_Phase := "" |}.

Definition BuildConsumerPVC (sv : SharedVolume) (namespace : string) : PersistentVolumeClaim :=
  {| pvc_ObjectMeta := objectMeta (ConsumerPVCName sv) namespace (managedLabels sv);
     pvc_Spec := {| pvcs_AccessModes := [ReadWriteMany];
                    pvcs_StorageClassName := Some "";
                    pvcs_VolumeName := PVName sv namespace;
                    pvcs_Requests := {[ResourceStorage := Capacity (sv_Spec sv)]} |};
     pvc_Phase := "" |}.

Definition ServerEndpoint (clusterIP : string) : string := clusterIP +:+ ":" +:+ sprint_d nfsPort.

(** * Network policy *)

(** [strings.Contains(s, sub)] *)
Fixpoint stringsContains (s sub : string) : bool :=
  String.prefix sub s ||
  match s with
  | EmptyString => false
  | String _ s => stringsContains s sub
  end.

Definition nodeCIDR (ip : string) : string :=
  if stringsContains ip ":" then ip +:+ "/128" else ip +:+ "/32".

Definition namespacePeer (ns : string) : NetworkPolicyPeer :=
  MkPeer (Some (MkLabelSelector (Some {[LabelMetadataName := ns]}) [])) None.

Definition cidrPeer (cidr : string) : NetworkPolicyPeer := MkPeer None (Some cidr).

Definition BuildNetworkPolicy (sv : SharedVolume) (operatorNamespace : string)
    (targets nodeIPs extraCIDRs : list string) : NetworkPolicy :=
  let peers := map namespacePeer targets ++ map (λ ip, cidrPeer (nodeCIDR ip)) nodeIPs
               ++ map cidrPeer extraCIDRs in
  {| np_ObjectMeta := objectMeta (ServerName sv) operatorNamespace (managedLabels sv);
     np_Spec :=
       {| nps_PodSelector := MkLabelSelector (serverSelector sv) [];
          nps_PolicyTypes := [PolicyTypeIngress];
          nps_Ingress := [{| rule_Ports := [MkNPPort (Some ProtocolTCP) (Some nfsPort)];
                             rule_From := peers |}] |} |}.

(** * Backup and seed jobs *)

(** [None] is the panic of dereferencing a nil [spec.backup] or [hostPath]. *)
Definition backupPodSpec (sv : SharedVolume) (image script : string) (dataReadOnly : bool)
    : option PodSpec :=
  b ← Backup (sv_Spec sv);
  h ← HostPath (Destination b);
  Some {| pod_RestartPolicy := RestartPolicyNever;
          pod_InitContainers := [];
          pod_Containers :=
            [{| ctr_Name := "rsync";
                ctr_Image := image;
                ctr_Command := ["sh"; "-c"; script];
                ctr_Ports := [];
                ctr_SecurityContext := Some (MkSecurityContext (Some false) []);
                ctr_ReadinessProbe := None;
                ctr_VolumeMounts := [MkVolumeMount "backing" "data" "/data" dataReadOnly;
                                     MkVolumeMount "backup" "" "/backup" (negb dataReadOnly)] |}];
          pod_Volumes :=
            [MkVolume "backing" (Some (BackingPVCName sv)) None None;
             MkVolume "backup" None None
               (Some (MkHostPath (hpd_Path h) (Some HostPathDirectoryOrCreate)))];
          pod_Affinity := None |}.

Definition pod_with_affinity (p : PodSpec) (a : list PodAffinityTerm) : PodSpec :=
  MkPodSpec (pod_RestartPolicy p) (pod_InitContainers p) (pod_Containers p) (pod_Volumes p) (Some a).

Definition nl : string := String (Ascii.ascii_of_nat 10) "".
Definition dq : string := String (Ascii.ascii_of_nat 34) "".

Definition backupScript (name : string) : string :=
  "set -e" +:+ nl +:+ "mkdir -p /backup/" +:+ name +:+ nl
  +:+ "exec rsync -rlt --delete --stats /data/ /backup/" +:+ name +:+ "/".

Definition BuildBackupCronJob (sv : SharedVolume) (operatorNamespace image : string)
    : option CronJob :=
  let labels := managedLabels sv in
  let podLabels := componentLabels sv "backup" in
  b ← Backup (sv_Spec sv);
  podSpec ← backupPodSpec sv image (backupScript (sv_Name sv)) true;
  let podSpec := pod_with_affinity podSpec
    [MkPodAffinityTerm (MkLabelSelector (serverSelector sv) []) LabelHostname] in
  Some {| cj_ObjectMeta := objectMeta (BackupCronJobName sv) operatorNamespace labels;
          cj_Spec :=
            {| cjs_Schedule := Schedule b;
               cjs_Suspend := Suspend b;
               cjs_ConcurrencyPolicy := ForbidConcurrent;
               cjs_StartingDeadlineSeconds := Some 300%Z;
               cjs_SuccessfulJobsHistoryLimit := Some 1%Z;
               cjs_FailedJobsHistoryLimit := Some 1%Z;
               cjs_TemplateLabels := labels;
               cjs_JobSpec := {| js_BackoffLimit := Some 2%Z;
                                 js_ActiveDeadlineSeconds := Some 3600%Z;
                                 js_Template := MkPodTemplate podLabels None podSpec |} |};
          cj_LastSuccessfulTime := None |}.

Definition seedScript (name : string) : string :=
  "set -e" +:+ nl +:+ "SRC=/backup/" +:+ name +:+ nl
  +:+ "[ -d " +:+ dq +:+ "$SRC" +:+ dq +:+ " ] || { echo " +:+ dq
  +:+ "no backup at $SRC; nothing to seed" +:+ dq +:+ "; exit 0; }" +:+ nl
  +:+ "[ -z " +:+ dq +:+ "$(ls -A /data 2>/dev/null)" +:+ dq +:+ " ] || { echo " +:+ dq
  +:+ "/data not empty; refusing to seed" +:+ dq +:+ "; exit 0; }" +:+ nl
  +:+ "exec rsync -rlt --stats " +:+ dq +:+ "$SRC" +:+ dq +:+ "/ /data/".

Definition BuildSeedJob (sv : SharedVolume) (operatorNamespace image : string) : option Job :=
  let labels := managedLabels sv in
  let podLabels := componentLabels sv "seed" in
  podSpec ← backupPodSpec sv image (seedScript (sv_Name sv)) false;
  Some {| job_ObjectMeta := objectMeta (SeedJobName sv) operatorNamespace labels;
          job_Spec := {| js_BackoffLimit := Some 3%Z;
                         js_ActiveDeadlineSeconds := None;
                         js_Template := MkPodTemplate podLabels None podSpec |};
          job_Conditions := [] |}.
