(* ===== verification/Lib.v ===== *)
(** The third-party functions the controller calls on values: controller-runtime's
    controllerutil, apimachinery's meta conditions, label selectors and
    semantic equality.  [Lib] is what the controller's definitions are
    parameterised by; [LibLaws] states the documented behaviour that some
    theorems rely on.  MemCluster.v gives a concrete instance of both. *)
From S2P Require Import Prelude Kube V1alpha1 Client.

Class Lib := {
  (** [controllerutil.SetControllerReference(owner, controlled, scheme)]: the new
      owner references of [controlled], or an error. *)
  SetControllerReference : SharedVolume → ObjectMeta → error + list OwnerReference;
  (** [controllerutil.AddFinalizer], [ContainsFinalizer], [RemoveFinalizer] on the
      list of finalizers; the boolean tells whether the list changed. *)
  AddFinalizer : list string → string → list string * bool;
  ContainsFinalizer : list string → string → bool;
  RemoveFinalizer : list string → string → list string * bool;
  (** [meta.SetStatusCondition(&conditions, new)] at a clock reading; the boolean
      tells whether the conditions changed. *)
  SetStatusCondition : Time → list Condition → Condition → list Condition * bool;
  (** [meta.IsStatusConditionTrue(conditions, type)] *)
  IsStatusConditionTrue : list Condition → string → bool;
  (** [metav1.LabelSelectorAsSelector] *)
  LabelSelectorAsSelector : LabelSelector → error + Selector;
  (** [apiequality.Semantic.DeepEqual] on network policy specs. *)
  SemanticDeepEqual : NetworkPolicySpec → NetworkPolicySpec → bool
}.

(** [meta.FindStatusCondition]: the first condition of the type. *)
Definition FindStatusCondition (cs : list Condition) (t : string) : option Condition :=
  snd <$> list_find (λ c, cond_Type c = t) cs.

(** [metav1.GetControllerOf]: the owner reference that is marked as the controller. *)
Definition GetControllerOf (refs : list OwnerReference) : option OwnerReference :=
  snd <$> list_find (λ ref, or_Controller ref = Some true) refs.

Class LibLaws `{Lib} := {
  (** the owner becomes the controller of the object *)
  SetControllerReference_controller sv m refs :
    SetControllerReference sv m = inr refs →
    ∃ ref, GetControllerOf refs = Some ref ∧ or_APIVersion ref = "nfsz.dev/v1alpha1" ∧
      or_Kind ref = "SharedVolume" ∧ or_Name ref = sv_Name sv;
  AddFinalizer_elem fs f g : g ∈ (AddFinalizer fs f).1 ↔ g = f ∨ g ∈ fs;
  AddFinalizer_changed fs f : (AddFinalizer fs f).2 = negb (bool_decide (f ∈ fs));
  AddFinalizer_same fs f : (AddFinalizer fs f).2 = false → (AddFinalizer fs f).1 = fs;
  ContainsFinalizer_spec fs f : ContainsFinalizer fs f = bool_decide (f ∈ fs);
  RemoveFinalizer_elem fs f g : g ∈ (RemoveFinalizer fs f).1 ↔ g ≠ f ∧ g ∈ fs;
  (** the condition of the new type carries the new status, reason, message and
      generation; conditions of other types are as before *)
  SetStatusCondition_same now cs c :
    ∃ t, FindStatusCondition (SetStatusCondition now cs c).1 (cond_Type c)
         = Some (MkCondition (cond_Type c) (cond_Status c) (cond_ObservedGeneration c) t
                   (cond_Reason c) (cond_Message c));
  SetStatusCondition_other now cs c t :
    t ≠ cond_Type c →
    FindStatusCondition (SetStatusCondition now cs c).1 t = FindStatusCondition cs t;
  SetStatusCondition_unchanged now cs c :
    (SetStatusCondition now cs c).2 = false → (SetStatusCondition now cs c).1 = cs;
  IsStatusConditionTrue_spec cs t :
    IsStatusConditionTrue cs t = true ↔
    ∃ c, FindStatusCondition cs t = Some c ∧ cond_Status c = ConditionTrue;
  SemanticDeepEqual_refl s : SemanticDeepEqual s s = true
}.

(** The reconciler's configuration ([SharedVolumeReconciler], less the client). *)
Record SharedVolumeReconciler := MkReconciler {
  OperatorNamespace : string;
  GaneshaImage : string;
  BackupImage : string;
  AllowCIDRs : list string
}.

Definition finalizerName : string := "nfsz.dev/teardown".
Definition AnnotationRetained : string := "nfsz.dev/retained-from".

(** [ctrl.Result]; [RequeueAfter] in nanoseconds. *)
Record Result := MkResult { Requeue : bool; RequeueAfter : Z }.
Definition noResult : Result := MkResult false 0.

(** [5 * time.Second] *)
Definition requeueDelay : Z := 5 * 1000000000.

Definition boolToCondition (b : bool) : string := if b then ConditionTrue else ConditionFalse.

Definition ifElse (cond : bool) (t f : string) : string := if cond then t else f.

Section Owned.
Context `{Lib}.
Local Open Scope go_scope.

(** [createOwned]: the object as the caller's pointer sees it afterwards — the
    server's version after a successful [Create], the submitted one when it
    already existed. *)
Definition createOwned (k : kind) (sv : SharedVolume) (o : obj k) : prog (outcome (obj k)) :=
  match SetControllerReference sv (obj_meta k o) with
  | inl err => Ret (Err err)
  | inr refs =>
      let o := obj_SetOwnerReferences k refs o in
      r ← Create k o;
      match r with
      | inl err => if IsAlreadyExists err then Ret (Ok o) else Ret (Err err)
      | inr o => Ret (Ok o)
      end
  end.

Definition createIfMissing (k : kind) (sv : SharedVolume) (o : obj k) : prog (outcome unit) :=
  r ← Get k (ObjectKey k o);
  match r with
  | inl err =>
      if IsNotFound err then
        _ ←! createOwned k sv o;
        Ret (Ok tt)
      else Ret (Err err)
  | inr _ => Ret (Ok tt)
  end.

(** [setRestoredCondition], on the in-memory status. *)
Definition setRestoredCondition (sv : SharedVolume) (status reason message : string)
    : prog (SharedVolume * bool) :=
  now ← Now;
  let '(cs, changed) :=
    SetStatusCondition now (Conditions (sv_Status sv))
      (MkCondition ConditionRestored status (Generation (sv_ObjectMeta sv)) None reason message) in
  Ret (with_Status sv (set_Conditions cs (sv_Status sv)), changed).
End Owned.
