(* ===== verification/Server.v ===== *)
(** The server stack of one volume: [reconcileSeed], the seed gate in front of
    the server's first start, and [reconcileServer], which ensures the backing
    PVC, the ganesha ConfigMap, the Deployment and the Service
    (internal/controller/sharedvolume_controller.go). *)
From S2P Require Import Prelude Kube V1alpha1 Client Resources Lib.

(** * Seed gate *)

Definition jobHasCondition (job : Job) (t : string) : bool :=
  existsb (λ c, bool_decide (jc_Type c = t) && bool_decide (jc_Status c = ConditionTrue))
    (job_Conditions job).

(** [sv.Spec.Backup == nil || sv.Spec.Backup.RestorePolicy == RestoreNever] *)
Definition seedNotInPlay (sv : SharedVolume) : bool :=
  match Backup (sv_Spec sv) with
  | None => true
  | Some b => bool_decide (RestorePolicy b = RestoreNever)
  end.

Definition seedFailedNote (job : Job) : string :=
  "seed job " +:+ Namespace (job_ObjectMeta job) +:+ "/" +:+ Name (job_ObjectMeta job)
  +:+ " failed; the server will not start until the job is deleted and succeeds".

Definition cm_with_Data (cm : ConfigMap) (d : GoMap) : ConfigMap :=
  MkConfigMap (cm_ObjectMeta cm) d.

Definition dep_with_Template (d : Deployment) (t : PodTemplateSpec) : Deployment :=
  MkDeployment (dep_ObjectMeta d) (dep_Replicas d) (dep_Strategy d) (dep_Selector d) t
    (dep_ReadyReplicas d).

(** [if err := r.Update(ctx, o); err != nil { return err }], with the object as
    the server returned it. *)
Definition UpdateE (k : kind) (o : obj k) : prog (outcome (obj k)) :=
  r ← Update k o;
  match r with
  | inl err => Ret (Err err)
  | inr o => Ret (Ok o)
  end.

(** The test that rolls the pod: the image of container 0 or the conf-hash
    annotation differs.  [None] is the index panic on an empty container list. *)
Definition templateDrifted (cur want : PodTemplateSpec) : option bool :=
  c ← head (pod_Containers (tpl_Spec cur));
  w ← head (pod_Containers (tpl_Spec want));
  Some (bool_decide (ctr_Image c ≠ ctr_Image w)
        || bool_decide (mapIndex (tpl_Annotations cur) confHashAnnotation
                        ≠ mapIndex (tpl_Annotations want) confHashAnnotation)).

Section Server.
Context `{Lib} (r : SharedVolumeReconciler).
Local Open Scope go_scope.

Definition serverKey (sv : SharedVolume) : NamespacedName :=
  MkNN (OperatorNamespace r) (ServerName sv).

Definition reconcileSeed (sv : SharedVolume) : prog (outcome (bool * SharedVolume)) :=
  if seedNotInPlay sv then Ret (Ok (true, sv))
  else if IsStatusConditionTrue (Conditions (sv_Status sv)) ConditionRestored
  then Ret (Ok (true, sv))
  else
    existingDeploy ← Get KDeployment (serverKey sv);
    match existingDeploy with
    | inr _ =>
        '(sv, _) ← setRestoredCondition sv ConditionTrue ReasonPreexistingServer
                     "server already exists; seed skipped";
        Ret (Ok (true, sv))
    | inl err =>
        if negb (IsNotFound err) then Ret (Err err)
        else
          job ←? BuildSeedJob sv (OperatorNamespace r) (BackupImage r);
          existing ← Get KJob (ObjectKey KJob job);
          match existing with
          | inl err =>
              if IsNotFound err then
                _ ←! createOwned KJob sv job;
                '(sv, _) ← setRestoredCondition sv ConditionFalse ReasonSeedRunning
                             "seed job started";
                Ret (Ok (false, sv))
              else Ret (Err err)
          | inr existing =>
              if jobHasCondition existing JobComplete then
                '(sv, _) ← setRestoredCondition sv ConditionTrue ReasonSeeded
                             "volume seeded from backup destination";
                Ret (Ok (true, sv))
              else if jobHasCondition existing JobFailed then
                '(sv, changed) ← setRestoredCondition sv ConditionFalse ReasonSeedFailed
                                   "seed job failed; delete the job to retry";
                if (changed : bool) then
                  _ ← Eventf sv EventTypeWarning "SeedFailed" "Reconcile" (seedFailedNote existing);
                  Ret (Ok (false, sv))
                else Ret (Ok (false, sv))
              else
                '(sv, _) ← setRestoredCondition sv ConditionFalse ReasonSeedRunning
                             "seed job running";
                Ret (Ok (false, sv))
          end
    end.

(** * Server stack *)

(** The ConfigMap block of [reconcileServer]; the result is what [cm] points to
    afterwards, which a successful [Create] has overwritten. *)
Definition ensureConfigMap (sv : SharedVolume) (cm : ConfigMap) : prog (outcome ConfigMap) :=
  existingCM ← Get KConfigMap (ObjectKey KConfigMap cm);
  match existingCM with
  | inl err =>
      if IsNotFound err then createOwned KConfigMap sv cm else Ret (Err err)
  | inr existingCM =>
      if decide (mapIndex (cm_Data existingCM) ganeshaConfKey
                 ≠ mapIndex (cm_Data cm) ganeshaConfKey) then
        _ ←! UpdateE KConfigMap (cm_with_Data existingCM (cm_Data cm));
        Ret (Ok cm)
      else Ret (Ok cm)
  end.

(** The Deployment block: create it, or roll its template; the readiness is that
    of the object the server last returned. *)
Definition ensureDeployment (sv : SharedVolume) (cm : ConfigMap) : prog (outcome bool) :=
  let deploy := BuildServerDeployment sv (OperatorNamespace r) (GaneshaImage r) cm in
  existingDeploy ← Get KDeployment (ObjectKey KDeployment deploy);
  deploy ←! match existingDeploy with
            | inl err =>
                if IsNotFound err then createOwned KDeployment sv deploy else Ret (Err err)
            | inr existingDeploy =>
                drifted ←? templateDrifted (dep_Template existingDeploy) (dep_Template deploy);
                if (drifted : bool)
                then UpdateE KDeployment (dep_with_Template existingDeploy (dep_Template deploy))
                else Ret (Ok existingDeploy)
            end;
  Ret (Ok (0 <? dep_ReadyReplicas deploy)%Z).

(** The Service block: create when missing, read its ClusterIP. *)
Definition ensureService (sv : SharedVolume) : prog (outcome string) :=
  let svc := BuildService sv (OperatorNamespace r) in
  existingSvc ← Get KService (ObjectKey KService svc);
  match existingSvc with
  | inl err =>
      if IsNotFound err then
        _ ←! createOwned KService sv svc;
        existingSvc ← Get KService (ObjectKey KService svc);
        match existingSvc with
        | inl err => Ret (Err err)
        | inr existingSvc => Ret (Ok (svc_ClusterIP existingSvc))
        end
      else Ret (Err err)
  | inr existingSvc => Ret (Ok (svc_ClusterIP existingSvc))
  end.

Definition reconcileServer (sv : SharedVolume)
    : prog (outcome (string * bool * SharedVolume)) :=
  _ ←! createIfMissing KPVC sv (BuildBackingPVC sv (OperatorNamespace r));
  cm ←! ensureConfigMap sv (BuildConfigMap sv (OperatorNamespace r));
  '(seeded, sv) ←! reconcileSeed sv;
  serverReady ←! (if (seeded : bool) then ensureDeployment sv cm else Ret (Ok false));
  clusterIP ←! ensureService sv;
  Ret (Ok (clusterIP, serverReady, sv)).
End Server.
