(* ===== verification/Logic.v ===== *)
(** Footprints and automation on top of the program logic of Client.v.

    A footprint bounds the calls a handler can issue whatever it is answered;
    [hwp_footprint] turns it into a statement about histories, so that a
    component that cannot touch some objects needs no further proof. *)
From S2P Require Import Prelude Kube V1alpha1 Client Resources Lib Server.

Definition footprint {A} (C : call → Prop) (p : prog A) : Prop :=
  wp (λ (_ : unit) c, C c) (λ _ _ _ _, True) p (λ _ _, True) tt.

(** Events all of whose calls satisfy [C]. *)
Definition events_in (C : call → Prop) (tr : list event) : Prop := Forall (λ e, C (ev_call e)) tr.

(** Reads, clock readings and recorded events: no effect on the cluster's objects. *)
Definition isWrite (c : call) : bool :=
  match c with
  | CCreate _ _ | CUpdate _ _ | CStatusUpdate _ | CDelete _ _ _ => true
  | CGet _ _ | CList _ _ | CEventf _ _ _ _ _ | CNow => false
  end.

(** * What a history establishes *)

Definition deleteDone (res : option error) : Prop :=
  res = None ∨ ∃ err, res = Some err ∧ IsNotFound err = true.

(** The delete call was answered with success or "not found". *)
Definition deleted (h : list event) (k : kind) (o : obj k) (prop : option string) : Prop :=
  ∃ res : resp (CDelete k o prop), Ev (CDelete k o prop) res ∈ h ∧ deleteDone res.

(** The history [h'] continues [h]. *)
Definition grown (h h' : list event) : Prop := ∃ tr, h' = h ++ tr.

(** * Footprint rules *)

Lemma footprint_Ret {A} C (a : A) : footprint C (Ret a).
Proof. done. Qed.

Lemma footprint_Vis {A} C c (k : resp c → prog A) :
  C c → (∀ r, footprint C (k r)) → footprint C (Vis c k).
Proof. intros Hc Hk. split; [done|]. intros r [] _. apply Hk. Qed.

Lemma footprint_mono {A} (C C' : call → Prop) (p : prog A) :
  (∀ c, C c → C' c) → footprint C p → footprint C' p.
Proof.
  intros HC. induction p as [a|c k IH]; [done|].
  intros [Hc Hk]. apply footprint_Vis; [by apply HC|].
  intros r. apply IH, Hk. done.
Qed.

Lemma footprint_bind {A B} C (p : prog A) (f : A → prog B) :
  footprint C p → (∀ a, footprint C (f a)) → footprint C (p ≫= f).
Proof.
  intros Hp Hf. induction p as [a|c k IH]; [apply Hf|].
  destruct Hp as [Hc Hk]. apply footprint_Vis; [done|].
  intros r. apply IH, Hk. done.
Qed.

Lemma footprint_bindE {A B} C (p : prog (outcome A)) (f : A → prog (outcome B)) :
  footprint C p → (∀ a, footprint C (f a)) → footprint C (bindE p f).
Proof. intros Hp Hf. apply footprint_bind; [done|]. intros [a|e|]; [apply Hf|done..]. Qed.

Lemma footprint_orPanic {A B} C (o : option A) (f : A → prog (outcome B)) :
  (∀ a, o = Some a → footprint C (f a)) → footprint C (orPanic o f).
Proof. intros Hf. destruct o; [by apply Hf|done]. Qed.

Lemma footprint_trigger C c : C c → footprint C (trigger c).
Proof. intros Hc. by apply footprint_Vis. Qed.

(** * From footprints to histories *)

Lemma hwp_footprint {A} C (p : prog A) allowed rely (Q : list event → A → Prop) h :
  footprint C p →
  (∀ tr c, events_in C tr → C c → allowed (h ++ tr) c) →
  (∀ tr a, events_in C tr → Q (h ++ tr) a) →
  hwp allowed rely p Q h.
Proof.
  revert h. induction p as [a|c k IH]; intros h Hf Hg HQ.
  { apply wp_ret. specialize (HQ [] a). rewrite app_nil_r in HQ. apply HQ. constructor. }
  destruct Hf as [Hc Hk]. split.
  { specialize (Hg [] c). rewrite app_nil_r in Hg. apply Hg; [constructor|done]. }
  intros r h' [_ ->]. apply IH; [by apply (Hk r tt)|..].
  - intros tr c' Htr Hc'. rewrite <- (assoc_L (++)). simpl. apply Hg; [|done].
    by constructor.
  - intros tr a Htr. rewrite <- (assoc_L (++)). simpl. apply HQ. by constructor.
Qed.

(** The history only grows. *)
Lemma hwp_extends {A} allowed rely (p : prog A) (Q : list event → A → Prop) h :
  hwp allowed rely p Q h →
  hwp allowed rely p (λ h' a, (∃ tr, h' = h ++ tr) ∧ Q h' a) h.
Proof.
  revert h. induction p as [a|c k IH]; intros h; unfold wp; fold (@wp (list event)).
  { intros HQ. split; [|done]. exists []. by rewrite app_nil_r. }
  intros [Hg Hk]. split; [done|]. intros r h' Ht. pose proof Ht as [_ ->].
  eapply wp_mono; [|apply IH, Hk, Ht]. intros h'' a [[tr ->] HQ].
  split; [|done]. exists (Ev c r :: tr). by rewrite <- (assoc_L (++)).
Qed.

(** A result proved of unrestricted calls, with a guard the footprint gives. *)
Lemma hwp_with_footprint {A} C (allowed : list event → call → Prop) rely (p : prog A) Q h :
  footprint C p → (∀ h c, C c → allowed h c) →
  hwp (λ _ _, True) rely p Q h → hwp allowed rely p Q h.
Proof.
  intros Hf Ha. revert h. induction p as [a|c k IH]; intros h; [done|].
  destruct Hf as [Hc Hk]. intros [_ Hwp]. split; [by apply Ha|].
  intros r h' Ht. apply IH; [by apply (Hk r tt)|by apply Hwp].
Qed.

(** Stronger answers. *)
Lemma wp_rely_mono {A} allowed (rely rely' : ∀ c, resp c → Prop) (p : prog A) Q h :
  (∀ c a, rely c a → rely' c a) → hwp allowed rely' p Q h → hwp allowed rely p Q h.
Proof.
  intros Hr. revert h. induction p as [a|c k IH]; intros h; [done|].
  intros [Hg Hk]. split; [done|]. intros r h' [Ha ->]. apply IH, Hk. split; [by apply Hr|done].
Qed.

Lemma run_footprint {S A} (srv : server S) C (p : prog A) s :
  footprint C p → events_in C (trace_of (run srv p s)).
Proof.
  intros Hf. assert (hwp (λ _ _, True) any_answer p (λ h _, events_in C h) []) as Hwp.
  { apply (hwp_footprint C); [done..|]. by intros tr a Htr. }
  by destruct (run_wp srv _ any_answer p _ [] s Hwp) as [HQ _].
Qed.

(** * Facts about histories *)

(** The core of a volume has its name. *)
Lemma sv_Name_core (sv sv' : SharedVolume) : sv_core sv' = sv_core sv → sv_Name sv' = sv_Name sv.
Proof. intros Hc. change (sv_Name (sv_core sv') = sv_Name (sv_core sv)). by rewrite Hc. Qed.

Lemma elem_of_app_hist (h tr : list event) e : e ∈ h → e ∈ h ++ tr.
Proof. rewrite elem_of_app. by left. Qed.

Lemma deleted_mono h tr k o prop : deleted h k o prop → deleted (h ++ tr) k o prop.
Proof. intros (res & Hin & Hd). exists res. by auto using elem_of_app_hist. Qed.

Lemma deleted_now (h : list event) k (o : obj k) prop res :
  deleteDone res → deleted (h ++ [Ev (CDelete k o prop) res]) k o prop.
Proof. intros Hd. exists res. rewrite elem_of_app, list_elem_of_singleton. auto. Qed.

Lemma event_now (h : list event) e : e ∈ h ++ [e].
Proof. rewrite elem_of_app, list_elem_of_singleton. auto. Qed.
#[export] Hint Resolve elem_of_app_hist deleted_mono deleted_now event_now : nfsz.

Lemma grown_refl h : grown h h.
Proof. exists []. by rewrite app_nil_r. Qed.

Lemma grown_app h tr : grown h (h ++ tr).
Proof. by exists tr. Qed.

Lemma grown_trans h1 h2 h3 : grown h1 h2 → grown h2 h3 → grown h1 h3.
Proof. intros [t1 ->] [t2 ->]. exists (t1 ++ t2). by rewrite (assoc_L (++)). Qed.

#[export] Hint Resolve grown_refl grown_app : nfsz.

(** * Automation *)

(** One step of a footprint proof: it descends through binds and branches and
    leaves the goals about calls and about called functions. *)
Ltac fp_step :=
  lazymatch goal with
  | |- footprint _ (Ret _) => apply footprint_Ret
  | |- footprint _ (bindE _ _) => apply footprint_bindE; [|intros ?]
  | |- footprint _ (orPanic _ _) => apply footprint_orPanic; intros ? ?
  | |- footprint _ (mbind _ _) => apply footprint_bind; [|intros ?]
  | |- footprint _ (Get _ _) => apply footprint_trigger
  | |- footprint _ (ListObjs _ _) => apply footprint_trigger
  | |- footprint _ (Create _ _) => apply footprint_trigger
  | |- footprint _ (Update _ _) => apply footprint_trigger
  | |- footprint _ (StatusUpdate _) => apply footprint_trigger
  | |- footprint _ (Delete _ _ _) => apply footprint_trigger
  | |- footprint _ (Eventf _ _ _ _ _) => apply footprint_trigger
  | |- footprint _ Now => apply footprint_trigger
  | |- footprint _ (let '(_, _) := ?x in _) => destruct x as [? ?]
  | |- footprint _ (match ?x with _ => _ end) => destruct x eqn:?
  | |- footprint _ ?p => first [progress cbn beta | progress cbn zeta | progress cbv beta iota]
  end.

Ltac fp_auto := repeat fp_step.

(** * Footprints of the shared helpers *)

Create HintDb footprint discriminated.
#[export] Hint Resolve footprint_Ret : footprint.

Lemma DeleteIgnoreNotFound_footprint (C : call → Prop) k o prop :
  C (CDelete k o prop) → footprint C (DeleteIgnoreNotFound k o prop).
Proof. intros Hc. unfold DeleteIgnoreNotFound. by fp_auto. Qed.

Lemma UpdateE_footprint (C : call → Prop) k o :
  C (CUpdate k o) → footprint C (UpdateE k o).
Proof. intros Hc. unfold UpdateE. by fp_auto. Qed.

Lemma createOwned_footprint `{Lib} (C : call → Prop) k sv (o : obj k) :
  (∀ refs, C (CCreate k (obj_SetOwnerReferences k refs o))) → footprint C (createOwned k sv o).
Proof. intros Hc. unfold createOwned. fp_auto. apply Hc. Qed.

Lemma createIfMissing_footprint `{Lib} (C : call → Prop) k sv (o : obj k) :
  C (CGet k (ObjectKey k o)) →
  (∀ refs, C (CCreate k (obj_SetOwnerReferences k refs o))) →
  footprint C (createIfMissing k sv o).
Proof.
  intros Hg Hc. unfold createIfMissing. fp_auto; [done|by apply createOwned_footprint].
Qed.

Lemma setRestoredCondition_footprint `{Lib} (C : call → Prop) sv st reason msg :
  C CNow → footprint C (setRestoredCondition sv st reason msg).
Proof. intros Hc. unfold setRestoredCondition. by fp_auto. Qed.

(** A delete whose "not found" is ignored: afterwards it is done, or the error
    is returned. *)
Lemma DeleteIgnoreNotFound_hwp allowed rely k (o : obj k) prop h :
  allowed h (CDelete k o prop) →
  hwp allowed rely (DeleteIgnoreNotFound k o prop)
    (λ h' res, grown h h' ∧ (res = Ok tt → deleted h' k o prop) ∧ res ≠ Panic) h.
Proof.
  intros Ha. unfold DeleteIgnoreNotFound, Delete.
  apply wp_bind, wp_trigger; [done|]. intros [err|] h' [_ ->]; simpl.
  - destruct (IsNotFound err) eqn:E; simpl; (split_and!; [apply grown_app| |done]); [|done].
    intros _. apply deleted_now. right. eauto.
  - split_and!; [apply grown_app| |done]. intros _. apply deleted_now. by left.
Qed.

(** An update passes its error on; a success is in the history. *)
Lemma UpdateE_hwp allowed rely k (o : obj k) h :
  allowed h (CUpdate k o) →
  hwp allowed rely (UpdateE k o)
    (λ h' res, grown h h' ∧ (∀ o', res = Ok o' → Ev (CUpdate k o) (inr o') ∈ h' ∧ rely (CUpdate k o) (inr o'))
               ∧ res ≠ Panic) h.
Proof.
  intros Ha. unfold UpdateE, Update.
  apply wp_bind, wp_trigger; [done|]. intros [err|o'] h' [? ->]; simpl.
  - split_and!; [apply grown_app|done|done].
  - split_and!; [apply grown_app| |done]. intros ? [= <-]. split; [apply event_now|done].
Qed.

(** Creating an owned object: what the caller holds afterwards is the server's
    answer, or the submitted object when it already existed. *)
Definition createdFrom `{Lib} (h : list event) (k : kind) (sv : SharedVolume) (o o' : obj k) : Prop :=
  ∃ refs, SetControllerReference sv (obj_meta k o) = inr refs ∧
    let o1 := obj_SetOwnerReferences k refs o in
    (Ev (CCreate k o1) (inr o') ∈ h) ∨
    (o' = o1 ∧ ∃ err, Ev (CCreate k o1) (inl err) ∈ h ∧ IsAlreadyExists err = true).

Lemma createOwned_hwp `{Lib} allowed rely k sv (o : obj k) h :
  (∀ refs, allowed h (CCreate k (obj_SetOwnerReferences k refs o))) →
  hwp allowed rely (createOwned k sv o)
    (λ h' res, grown h h' ∧ (∀ o', res = Ok o' → createdFrom h' k sv o o') ∧ res ≠ Panic) h.
Proof.
  intros Ha. unfold createOwned, Create. destruct (SetControllerReference _ _) as [err|refs] eqn:Href.
  { apply wp_ret. by split_and!; [apply grown_refl|..]. }
  apply wp_bind, wp_trigger; [apply Ha|]. intros [err|o'] h' [_ ->].
  - destruct (IsAlreadyExists err) eqn:He; apply wp_ret; (split_and!; [apply grown_app| |done]); [|done].
    intros ? [= <-]. exists refs. split; [done|]. right. split; [done|]. exists err.
    split; [apply event_now|done].
  - apply wp_ret. split_and!; [apply grown_app| |done]. intros ? [= <-]. exists refs.
    split; [done|]. left. apply event_now.
Qed.

Lemma createIfMissing_hwp `{Lib} allowed rely k sv (o : obj k) h :
  allowed h (CGet k (ObjectKey k o)) →
  (∀ err refs, IsNotFound err = true →
     allowed (h ++ [Ev (CGet k (ObjectKey k o)) (inl err)])
       (CCreate k (obj_SetOwnerReferences k refs o))) →
  hwp allowed rely (createIfMissing k sv o) (λ h' res, grown h h' ∧ res ≠ Panic) h.
Proof.
  intros Hg Ha. unfold createIfMissing, Get.
  apply wp_bind, wp_trigger; [done|]. intros [err|o'] h' [_ ->]; [|by apply wp_ret; split; [apply grown_app|]].
  destruct (IsNotFound err) eqn:Hnf; [|by apply wp_ret; split; [apply grown_app|]].
  apply wp_bindE. eapply wp_mono; [|apply createOwned_hwp; auto].
  intros h'' [o'|e|] ([tr ->] & _ & ?); [|split; [|done]|done].
  - apply wp_ret. split; [|done]. rewrite <- (assoc_L (++)). apply grown_app.
  - rewrite <- (assoc_L (++)). apply grown_app.
Qed.

#[export] Hint Resolve DeleteIgnoreNotFound_footprint UpdateE_footprint createOwned_footprint
  createIfMissing_footprint setRestoredCondition_footprint : footprint.

(** Enter a called handler through its specification [lem]. *)
Ltac hwp_call lem := apply wp_bindE; eapply wp_mono; [|apply lem].

Ltac hwp_trigger := apply wp_trigger; [|intros ? ? [? ->]].

(** One step of a history proof: calls, branches (their conditions become
    hypotheses) and the shared helpers.  What remains are the side conditions
    that a call is allowed, and postconditions. *)
Ltac hwp_step :=
  lazymatch goal with
  | |- wp _ _ (Ret _) _ _ => apply wp_ret
  | |- wp _ _ (Vis _ _) _ _ => apply wp_vis; [|intros ? ? [? ->]]
  | |- wp _ _ (bindE _ _) _ _ => apply wp_bindE
  | |- wp _ _ (orPanic ?o _) _ _ => destruct o eqn:?; cbn [orPanic]
  | |- wp _ _ (mbind _ _) _ _ => apply wp_bind
  | |- wp _ _ (trigger _) _ _ => hwp_trigger
  | |- wp _ _ (Get _ _) _ _ => hwp_trigger
  | |- wp _ _ (ListObjs _ _) _ _ => hwp_trigger
  | |- wp _ _ (Create _ _) _ _ => hwp_trigger
  | |- wp _ _ (Update _ _) _ _ => hwp_trigger
  | |- wp _ _ (StatusUpdate _) _ _ => hwp_trigger
  | |- wp _ _ (Delete _ _ _) _ _ => hwp_trigger
  | |- wp _ _ (Eventf _ _ _ _ _) _ _ => hwp_trigger
  | |- wp _ _ Now _ _ => hwp_trigger
  | |- wp ?a (hist_trans ?rely) (createOwned ?k ?sv ?o) _ ?h =>
      eapply wp_mono; [|apply (createOwned_hwp a rely k sv o h)];
      [intros ? [?|?|] ([? ->] & ? & ?)|intros ?]
  | |- wp ?a (hist_trans ?rely) (createIfMissing ?k ?sv ?o) _ ?h =>
      eapply wp_mono; [|apply (createIfMissing_hwp a rely k sv o h)];
      [intros ? [?|?|] ([? ->] & ?)| |intros ? ? ?]
  | |- wp ?a (hist_trans ?rely) (UpdateE ?k ?o) _ ?h =>
      eapply wp_mono; [|apply (UpdateE_hwp a rely k o h)];
      [intros ? [?|?|] ([? ->] & ? & ?)|]
  | |- wp ?a (hist_trans ?rely) (DeleteIgnoreNotFound ?k ?o ?p) _ ?h =>
      eapply wp_mono; [|apply (DeleteIgnoreNotFound_hwp a rely k o p h)];
      [intros ? [?|?|] ([? ->] & ? & ?)|]
  | |- wp _ _ (let '(_, _) := ?x in _) _ _ => destruct x as [? ?] eqn:?
  | |- wp _ _ (match ?x with _ => _ end) _ _ => destruct x eqn:?
  | |- wp _ _ _ _ _ => first [progress cbn beta iota zeta | progress cbn beta]
  | |- match Ok _ with _ => _ end => cbn beta iota
  | |- match Err _ with _ => _ end => cbn beta iota
  | |- match Panic with _ => _ end => cbn beta iota
  | H : Panic ≠ Panic |- _ => destruct (H eq_refl)
  end.

Ltac hwp_auto := repeat hwp_step.

(** The history of the goal only grew. *)
Ltac hist_grown :=
  repeat rewrite <- (assoc_L (++)); first [apply grown_refl | apply grown_app].

(** An event of the history, looked for from its end. *)
Ltac hist_elem := eauto 12 with nfsz.
