(* ===== verification/MemCluster.v ===== *)
(** A concrete cluster for witnesses: an in-memory API server [memServer] and an
    instance of [Lib] with its laws.  Nothing else depends on these definitions;
    they show that the hypotheses of the theorems can hold and let the handlers
    be run on examples. *)
From S2P Require Import Prelude Kube V1alpha1 Client Resources Lib.

(** * The library functions *)

#[export] Instance LabelSelectorRequirement_eq_dec : EqDecision LabelSelectorRequirement.
Proof. solve_decision. Defined.
#[export] Instance LabelSelector_eq_dec : EqDecision LabelSelector.
Proof. solve_decision. Defined.
#[export] Instance NetworkPolicyPeer_eq_dec : EqDecision NetworkPolicyPeer.
Proof. solve_decision. Defined.
#[export] Instance NetworkPolicyPort_eq_dec : EqDecision NetworkPolicyPort.
Proof. solve_decision. Defined.
#[export] Instance NetworkPolicyIngressRule_eq_dec : EqDecision NetworkPolicyIngressRule.
Proof. solve_decision. Defined.
#[export] Instance NetworkPolicySpec_eq_dec : EqDecision NetworkPolicySpec.
Proof. solve_decision. Defined.

Definition memSetControllerReference (owner : SharedVolume) (m : ObjectMeta)
    : error + list OwnerReference :=
  let uid := UID (sv_ObjectMeta owner) in
  let foreign := existsb (λ o, bool_decide (or_Controller o = Some true) && bool_decide (or_UID o ≠ uid))
                   (OwnerReferences m) in
  if foreign then inl (OtherError "already owned by another controller")
  else inr (filter (λ o, or_UID o ≠ uid) (OwnerReferences m)
            ++ [MkOwnerReference "nfsz.dev/v1alpha1" "SharedVolume" (sv_Name owner) uid (Some true) (Some true)]).

Definition memAddFinalizer (fs : list string) (f : string) : list string * bool :=
  if decide (f ∈ fs) then (fs, false) else (fs ++ [f], true).

Definition memRemoveFinalizer (fs : list string) (f : string) : list string * bool :=
  (filter (λ g, g ≠ f) fs, bool_decide (f ∈ fs)).

Definition mergeCondition (now : Time) (old new : Condition) : Condition :=
  MkCondition (cond_Type old) (cond_Status new) (cond_ObservedGeneration new)
    (if decide (cond_Status old = cond_Status new) then cond_LastTransitionTime old
     else match cond_LastTransitionTime new with Some t => Some t | None => Some now end)
    (cond_Reason new) (cond_Message new).

Definition condition_eqb (a b : Condition) : bool :=
  bool_decide (cond_Type a = cond_Type b) && bool_decide (cond_Status a = cond_Status b)
  && bool_decide (cond_ObservedGeneration a = cond_ObservedGeneration b)
  && bool_decide (cond_LastTransitionTime a = cond_LastTransitionTime b)
  && bool_decide (cond_Reason a = cond_Reason b) && bool_decide (cond_Message a = cond_Message b).

Fixpoint memSetStatusCondition (now : Time) (cs : list Condition) (new : Condition)
    : list Condition * bool :=
  match cs with
  | [] => ([MkCondition (cond_Type new) (cond_Status new) (cond_ObservedGeneration new)
              (match cond_LastTransitionTime new with Some t => Some t | None => Some now end)
              (cond_Reason new) (cond_Message new)], true)
  | c :: cs =>
      if decide (cond_Type c = cond_Type new) then
        let c' := mergeCondition now c new in (c' :: cs, negb (condition_eqb c c'))
      else let '(cs', ch) := memSetStatusCondition now cs new in (c :: cs', ch)
  end.

Definition memIsStatusConditionTrue (cs : list Condition) (t : string) : bool :=
  match FindStatusCondition cs t with
  | Some c => bool_decide (cond_Status c = ConditionTrue)
  | None => false
  end.

Definition hasKey (m : GoMap) (k : string) : bool :=
  match m with Some t => bool_decide (is_Some (t !! k)) | None => false end.

Definition matchRequirement (rq : LabelSelectorRequirement) (ls : GoMap) : bool :=
  let inValues := hasKey ls (lsr_Key rq) && slicesContains (lsr_Values rq) (mapIndex ls (lsr_Key rq)) in
  if decide (lsr_Operator rq = "In") then inValues
  else if decide (lsr_Operator rq = "NotIn") then negb inValues
  else if decide (lsr_Operator rq = "Exists") then hasKey ls (lsr_Key rq)
  else negb (hasKey ls (lsr_Key rq)).

Definition matchLabels (want ls : GoMap) : bool :=
  match want with
  | None => true
  | Some t => forallb (λ kv, hasKey ls kv.1 && bool_decide (mapIndex ls kv.1 = kv.2)) (map_to_list t)
  end.

Definition memSelector (sel : LabelSelector) : error + Selector :=
  if forallb (λ rq, bool_decide (lsr_Operator rq ∈ ["In"; "NotIn"; "Exists"; "DoesNotExist"]))
       (MatchExpressions sel)
  then inr (MkSelector (λ ls, matchLabels (MatchLabels sel) ls
                              && forallb (λ rq, matchRequirement rq ls) (MatchExpressions sel)))
  else inl (OtherError "not a valid label selector operator").

#[export] Instance memLib : Lib := {|
  SetControllerReference := memSetControllerReference;
  AddFinalizer := memAddFinalizer;
  ContainsFinalizer fs f := bool_decide (f ∈ fs);
  RemoveFinalizer := memRemoveFinalizer;
  SetStatusCondition := memSetStatusCondition;
  IsStatusConditionTrue := memIsStatusConditionTrue;
  LabelSelectorAsSelector := memSelector;
  SemanticDeepEqual s1 s2 := bool_decide (s1 = s2)
|}.

(** * The store *)

Definition store := ∀ k : kind, gmap NamespacedName (obj k).

Definition emptyStore : store := λ _, ∅.

Definition store_set (st : store) (k : kind) (m : gmap NamespacedName (obj k)) : store :=
  λ k', match decide (k = k') with
        | left e => eq_rect k (λ k, gmap NamespacedName (obj k)) m k' e
        | right _ => st k'
        end.

Record mem := MkMem { mem_store : store; mem_next : Z }.

Definition mem_put (m : mem) (k : kind) (o : obj k) : mem :=
  MkMem (store_set (mem_store m) k (<[ObjectKey k o := o]> (mem_store m k))) (mem_next m + 1).

Definition mem_remove (m : mem) (k : kind) (key : NamespacedName) : mem :=
  MkMem (store_set (mem_store m) k (delete key (mem_store m k))) (mem_next m + 1).

(** * Server-side fields *)

Definition stampNew (n : Z) (m : ObjectMeta) : ObjectMeta :=
  MkObjectMeta (Name m) (Namespace m) (Labels m) (Annotations m) (Finalizers m) (OwnerReferences m)
    None 1 ("uid-" +:+ sprint_d n) (sprint_d n).

Definition stampUpdate (n : Z) (old new : ObjectMeta) : ObjectMeta :=
  MkObjectMeta (Name new) (Namespace new) (Labels new) (Annotations new) (Finalizers new)
    (OwnerReferences new) (DeletionTimestamp old) (Generation old) (UID old) (sprint_d n).

(** A status update leaves the metadata alone. *)
Definition stampStatus (n : Z) (old new : ObjectMeta) : ObjectMeta :=
  MkObjectMeta (Name new) (Namespace new) (Labels old) (Annotations old) (Finalizers old)
    (OwnerReferences old) (DeletionTimestamp old) (Generation old) (UID old) (sprint_d n).

Definition stampDelete (n : Z) (m : ObjectMeta) : ObjectMeta :=
  MkObjectMeta (Name m) (Namespace m) (Labels m) (Annotations m) (Finalizers m) (OwnerReferences m)
    (Some n) (Generation m) (UID m) (sprint_d n).

(** A new Service gets its ClusterIP. *)
Definition assignIP (n : Z) (k : kind) : obj k → obj k :=
  match k return obj k → obj k with
  | KService => λ s, if decide (svc_ClusterIP s = "")
                     then MkService (svc_ObjectMeta s) (svc_Selector s) (svc_Ports s) ("10.96.0." +:+ sprint_d n)
                     else s
  | _ => λ o, o
  end.

(** [Update] of a SharedVolume leaves the status subresource alone. *)
Definition keepStatus (k : kind) : obj k → obj k → obj k :=
  match k return obj k → obj k → obj k with
  | KSharedVolume => λ old new, with_Status new (sv_Status old)
  | _ => λ _ new, new
  end.

Definition selected (opt : ListOption) (ls : GoMap) : bool :=
  match opt with
  | AllObjects => true
  | MatchingLabels want => matchLabels (Some want) ls
  | MatchingLabelsSelector s => Matches s ls
  end.

Definition stale (old new : ObjectMeta) : bool :=
  bool_decide (ResourceVersion new ≠ "") && bool_decide (ResourceVersion new ≠ ResourceVersion old).

(** * The server *)

Definition memUpdate (m : mem) (k : kind) (o : obj k) : (error + obj k) * mem :=
  match mem_store m k !! ObjectKey k o with
  | None => (inl NotFoundError, m)
  | Some old =>
      if stale (obj_meta k old) (obj_meta k o) then (inl ConflictError, m)
      else
        let meta := stampUpdate (mem_next m) (obj_meta k old) (obj_meta k o) in
        let o' := obj_set_meta k meta (keepStatus k old o) in
        if negb (Time_IsZero (DeletionTimestamp meta)) && bool_decide (Finalizers meta = [])
        then (inr o', mem_remove m k (ObjectKey k o))
        else (inr o', mem_put m k o')
  end.

Definition memServer : server mem := λ m c,
  match c return resp c * mem with
  | CGet k key =>
      (match mem_store m k !! key with
       | Some o => if decide (ObjectKey k o = key) then inr o else inl NotFoundError
       | None => inl NotFoundError
       end, m)
  | CList k opt =>
      (inr (filter (λ o, selected opt (Labels (obj_meta k o)) = true)
              (map snd (map_to_list (mem_store m k)))), m)
  | CCreate k o =>
      match mem_store m k !! ObjectKey k o with
      | Some _ => (inl AlreadyExistsError, m)
      | None =>
          let o' := assignIP (mem_next m) k (obj_set_meta k (stampNew (mem_next m) (obj_meta k o)) o) in
          (inr o', mem_put m k o')
      end
  | CUpdate k o => memUpdate m k o
  | CStatusUpdate sv =>
      match mem_store m KSharedVolume !! ObjectKey KSharedVolume sv with
      | None => (inl NotFoundError, m)
      | Some old =>
          if stale (sv_ObjectMeta old) (sv_ObjectMeta sv) then (inl ConflictError, m)
          else
            let sv' := MkSharedVolume (stampStatus (mem_next m) (sv_ObjectMeta old) (sv_ObjectMeta sv))
                         (sv_Spec sv) (sv_Status sv) in
            (inr sv', mem_put m KSharedVolume sv')
      end
  | CDelete k o _ =>
      match mem_store m k !! ObjectKey k o with
      | None => (Some NotFoundError, m)
      | Some old =>
          match Finalizers (obj_meta k old) with
          | [] => (None, mem_remove m k (ObjectKey k o))
          | _ => (None, mem_put m k (obj_set_meta k (stampDelete (mem_next m) (obj_meta k old)) old))
          end
      end
  | CEventf _ _ _ _ _ => (tt, m)
  | CNow => (mem_next m, m)
  end.

(** Objects put by other actors before or between reconciles. *)
Definition with_obj (k : kind) (o : obj k) (m : mem) : mem := mem_put m k o.
Definition emptyMem : mem := MkMem emptyStore 1.

(** * Sample data *)

Definition sampleReconciler : SharedVolumeReconciler :=
  MkReconciler "nfsz-system" "nfsz/ganesha:test" "nfsz/backup:test" ["10.99.0.0/16"].

Definition sampleNamespace (name : string) (labels : GoMap) : NamespaceObj :=
  MkNamespaceObj (objectMeta name "" labels).

Definition sampleNode : Node :=
  MkNode (objectMeta "node-1" "" None) "10.42.9.0/24" ["10.42.9.0/24"; "fd00:42::/64"]
    [MkNodeAddress NodeInternalIP "172.18.0.9"; MkNodeAddress "Hostname" "node-1"].

Definition zeroStatus : SharedVolumeStatus := MkSharedVolumeStatus "" "" "" "" [] None 0 [].

(** A volume named [data] for [team-a] by name and [shared=true] by label. *)
Definition sampleSpec (policy : string) (backup : option BackupSpec) : SharedVolumeSpec :=
  MkSharedVolumeSpec (MkQuantity "1Gi") None
    (MkNamespaceSelection ["team-a"] (Some (MkLabelSelector (Some {["shared" := "true"]}) [])))
    policy NetworkPolicyEnabled backup.

Definition sampleVolume (policy : string) (backup : option BackupSpec) : SharedVolume :=
  MkSharedVolume (objectMeta "data" "" None) (sampleSpec policy backup) zeroStatus.

Definition sampleBackup (restore : string) : BackupSpec :=
  MkBackupSpec "0 3 * * *" (MkBackupDestination (Some (MkHostPathDestination "/var/nfsz-backups")))
    None restore.

Definition sampleRequest : NamespacedName := MkNN "" "data".

(** A cluster with two eligible namespaces, one node and the volume. *)
Definition sampleCluster (sv : SharedVolume) : mem :=
  with_obj KNamespace (sampleNamespace "team-a" None)
    (with_obj KNamespace (sampleNamespace "team-b" (Some {["shared" := "true"]}))
      (with_obj KNamespace (sampleNamespace "other" None)
        (with_obj KNode sampleNode (with_obj KSharedVolume sv emptyMem)))).

(** The cluster read back. *)
Definition names_of (k : kind) (m : mem) : list (string * string) :=
  map (λ o, (Namespace (obj_meta k o), Name (obj_meta k o)))
    (map snd (map_to_list (mem_store m k))).

(** * The laws hold *)

Lemma FindStatusCondition_cons c cs t :
  FindStatusCondition (c :: cs) t =
  if decide (cond_Type c = t) then Some c else FindStatusCondition cs t.
Proof.
  unfold FindStatusCondition. simpl. case_decide; [done|].
  by destruct (list_find _ cs) as [[]|].
Qed.

Lemma memSet_same now cs c :
  ∃ t, FindStatusCondition (memSetStatusCondition now cs c).1 (cond_Type c)
       = Some (MkCondition (cond_Type c) (cond_Status c) (cond_ObservedGeneration c) t
                 (cond_Reason c) (cond_Message c)).
Proof.
  induction cs as [|c' cs IH]; simpl.
  { eexists. rewrite FindStatusCondition_cons. simpl. by rewrite decide_True. }
  case_decide as Heq; simpl.
  { eexists. rewrite FindStatusCondition_cons, decide_True by done.
    unfold mergeCondition. by rewrite Heq. }
  destruct (memSetStatusCondition now cs c) as [cs' ch]. simpl in *.
  rewrite FindStatusCondition_cons, decide_False by done. done.
Qed.

Lemma memSet_other now cs c t :
  t ≠ cond_Type c →
  FindStatusCondition (memSetStatusCondition now cs c).1 t = FindStatusCondition cs t.
Proof.
  intros Ht. induction cs as [|c' cs IH]; simpl.
  { rewrite FindStatusCondition_cons. simpl. by rewrite decide_False. }
  case_decide as Heq; simpl.
  { rewrite !FindStatusCondition_cons. simpl. rewrite !decide_False by congruence. done. }
  destruct (memSetStatusCondition now cs c) as [cs' ch]. simpl in *.
  rewrite !FindStatusCondition_cons. by case_decide.
Qed.

Lemma condition_eqb_eq a b : condition_eqb a b = true → a = b.
Proof.
  unfold condition_eqb. rewrite !andb_true_iff, !bool_decide_eq_true.
  destruct a, b; simpl. intros [[[[[? ?] ?] ?] ?] ?]. by subst.
Qed.

Lemma memSet_unchanged now cs c :
  (memSetStatusCondition now cs c).2 = false → (memSetStatusCondition now cs c).1 = cs.
Proof.
  induction cs as [|c' cs IH]; simpl; [done|].
  case_decide as Heq; simpl.
  { rewrite negb_false_iff. intros He%condition_eqb_eq. by rewrite <- He. }
  destruct (memSetStatusCondition now cs c) as [cs' ch]. simpl in *.
  intros ->. by rewrite IH.
Qed.

(** No owner that is kept is a controller, so the new one is found. *)
Lemma memSet_controller sv m refs :
  memSetControllerReference sv m = inr refs →
  ∃ ref, GetControllerOf refs = Some ref ∧ or_APIVersion ref = "nfsz.dev/v1alpha1" ∧
    or_Kind ref = "SharedVolume" ∧ or_Name ref = sv_Name sv.
Proof.
  unfold memSetControllerReference. destruct (existsb _ _) eqn:Hf; [done|]. intros [= <-].
  exists (MkOwnerReference "nfsz.dev/v1alpha1" "SharedVolume" (sv_Name sv) (UID (sv_ObjectMeta sv)) (Some true) (Some true)).
  split; [|split_and!; reflexivity]. unfold GetControllerOf. rewrite list_find_app_r.
  { reflexivity. }
  apply list_find_None, Forall_forall. intros ref [Hu Hin]%list_elem_of_filter Hc.
  apply not_true_iff_false in Hf. apply Hf, existsb_exists. exists ref.
  split; [by apply list_elem_of_In|]. by rewrite !bool_decide_true.
Qed.

#[export] Instance memLibLaws : LibLaws.
Proof.
  split; simpl.
  - apply memSet_controller.
  - intros fs f g. unfold memAddFinalizer. case_decide; simpl.
    + split; [by right|]. by intros [->|].
    + rewrite elem_of_app, list_elem_of_singleton. tauto.
  - intros fs f. unfold memAddFinalizer. by case_decide; [rewrite bool_decide_true|rewrite bool_decide_false].
  - intros fs f. unfold memAddFinalizer. by case_decide.
  - done.
  - intros fs f g. by rewrite list_elem_of_filter.
  - apply memSet_same.
  - apply memSet_other.
  - apply memSet_unchanged.
  - intros cs t. unfold memIsStatusConditionTrue.
    destruct (FindStatusCondition cs t) as [c|]; [|by split; [|intros (?&?&?)]].
    rewrite bool_decide_eq_true. split; [eauto|]. by intros (? & [= ->] & ?).
  - intros s. by apply bool_decide_eq_true.
Qed.

Lemma memServer_stable m c : sv_stable c (memServer m c).1.
Proof.
  destruct c as [k key|k opt|k o|k o|sv|k o p|sv a b d e|]; try done; [| |].
  - destruct k; try done. simpl. intros sv.
    destruct (_ !! key); [|done]. case_decide; [|done]. intros [= <-]. by subst key.
  - destruct k; try done. simpl. intros sv'. unfold memUpdate.
    destruct (_ !! _) as [old|]; [|done]. destruct (stale _ _); [done|].
    case_match; by intros [= <-].
  - simpl. intros sv'. destruct (_ !! _) as [old|]; [|done].
    destruct (stale _ _); [done|]. by intros [= <-].
Qed.
