(* ===== verification/Bindings.v ===== *)
(** Targets and per-namespace bindings (internal/controller/sharedvolume_controller.go):
    [targetNamespaces], [reconcileBinding], [reconcileBindings],
    [cleanupStaleBindings], and the watch mapping that wakes a volume
    ([namespaceCouldMatch], the map functions of [SetupWithManager]). *)
From S2P Require Import Prelude Kube V1alpha1 Client Resources Lib Server.

Definition ref_clear_UID (ref : ObjectReference) : ObjectReference :=
  MkObjectReference (ref_APIVersion ref) (ref_Kind ref) (ref_Namespace ref) (ref_Name ref) "" "".

Definition pvs_with_ClaimRef (s : PersistentVolumeSpec) (ref : option ObjectReference)
    : PersistentVolumeSpec :=
  MkPVSpec (pvs_Capacity s) (pvs_AccessModes s) (pvs_ReclaimPolicy s) (pvs_StorageClassName s)
    (pvs_MountOptions s) (pvs_NFS s) ref.

Definition pv_with_ClaimRef (pv : PersistentVolume) (ref : option ObjectReference)
    : PersistentVolume :=
  MkPV (pv_ObjectMeta pv) (pvs_with_ClaimRef (pv_Spec pv) ref) (pv_Phase pv).

(** [pvc.Labels[LabelSharedVolume] == sv.Name] *)
Definition pvcOwned (sv : SharedVolume) (pvc : PersistentVolumeClaim) : bool :=
  bool_decide (mapIndex (Labels (pvc_ObjectMeta pvc)) LabelSharedVolume = sv_Name sv).

(** The label the operator's objects are listed by. *)
Definition byVolume (sv : SharedVolume) : ListOption :=
  MatchingLabels {[LabelSharedVolume := sv_Name sv]}.

Definition nsAlive (ns : NamespaceObj) : bool :=
  Time_IsZero (DeletionTimestamp (ns_ObjectMeta ns)).

Definition pvcConflictNote (ns pvcName : string) : string :=
  "namespace " +:+ ns +:+ " already has a PVC named " +:+ pvcName
  +:+ " not managed by this SharedVolume".

Section Bindings.
Context `{Lib} (r : SharedVolumeReconciler).
Local Open Scope go_scope.

(** The loop over [spec.namespaces.names]. *)
Fixpoint namedTargets (names : list string) (set : gset string)
    : prog (outcome (gset string)) :=
  match names with
  | [] => Ret (Ok set)
  | name :: names =>
      ns ← Get KNamespace (MkNN "" name);
      match ns with
      | inl err => if IsNotFound err then namedTargets names set else Ret (Err err)
      | inr ns => namedTargets names (if nsAlive ns then {[name]} ∪ set else set)
      end
  end.

(** The loop over the listed namespaces. *)
Definition listedTargets (nss : list NamespaceObj) (set : gset string) : gset string :=
  foldl (λ set ns, if nsAlive ns then {[Name (ns_ObjectMeta ns)]} ∪ set else set) set nss.

Definition targetNamespaces (sv : SharedVolume) : prog (outcome (list string)) :=
  set ←! namedTargets (Names (Namespaces (sv_Spec sv))) ∅;
  set ←! match NsSelector (Namespaces (sv_Spec sv)) with
         | None => Ret (Ok set)
         | Some sel =>
             match LabelSelectorAsSelector sel with
             | inl err => Ret (Err (WrapError "invalid namespace selector: " err))
             | inr selector =>
                 nsList ← ListObjs KNamespace (MatchingLabelsSelector selector);
                 match nsList with
                 | inl err => Ret (Err err)
                 | inr nss => Ret (Ok (listedTargets nss set))
                 end
             end
         end;
  Ret (Ok (sortedKeys set)).

(** * Bindings *)

(** The PV block of [reconcileBinding], with the Released-PV repair. *)
Definition ensurePV (sv : SharedVolume) (ns clusterIP : string) : prog (outcome unit) :=
  let pv := BuildPV sv ns clusterIP in
  existingPV ← Get KPV (ObjectKey KPV pv);
  match existingPV with
  | inl err =>
      if IsNotFound err then
        _ ←! createOwned KPV sv pv;
        Ret (Ok tt)
      else Ret (Err err)
  | inr existingPV =>
      match pvs_ClaimRef (pv_Spec existingPV) with
      | Some ref =>
          if decide (pv_Phase existingPV = VolumeReleased ∧ ref_UID ref ≠ "") then
            _ ←! UpdateE KPV (pv_with_ClaimRef existingPV (Some (ref_clear_UID ref)));
            Ret (Ok tt)
          else Ret (Ok tt)
      | None => Ret (Ok tt)
      end
  end.

Definition reconcileBinding (sv : SharedVolume) (ns clusterIP : string)
    : prog (outcome string) :=
  _ ←! ensurePV sv ns clusterIP;
  let pvc := BuildConsumerPVC sv ns in
  existingPVC ← Get KPVC (ObjectKey KPVC pvc);
  match existingPVC with
  | inl err =>
      if IsNotFound err then
        _ ←! createOwned KPVC sv pvc;
        Ret (Ok BindingPending)
      else Ret (Err err)
  | inr existingPVC =>
      if negb (pvcOwned sv existingPVC) then
        _ ← Eventf sv EventTypeWarning "PVCConflict" "Reconcile"
              (pvcConflictNote ns (Name (pvc_ObjectMeta pvc)));
        Ret (Ok BindingConflict)
      else if negb (Time_IsZero (DeletionTimestamp (pvc_ObjectMeta existingPVC))) then
        Ret (Ok BindingTerminating)
      else if decide (pvc_Phase existingPVC = ClaimBound) then
        Ret (Ok BindingBound)
      else Ret (Ok BindingPending)
  end.

Fixpoint reconcileBindings (sv : SharedVolume) (targets : list string) (clusterIP : string)
    : prog (outcome (list NamespaceBinding)) :=
  match targets with
  | [] => Ret (Ok [])
  | ns :: targets =>
      phase ←! reconcileBinding sv ns clusterIP;
      bindings ←! reconcileBindings sv targets clusterIP;
      Ret (Ok (MkNamespaceBinding ns (ConsumerPVCName sv) phase :: bindings))
  end.

(** * Stale pairs *)

(** The loop of [cleanupStaleBindings] over the listed PVs. *)
Fixpoint cleanupLoop (sv : SharedVolume) (targets : list string) (pvs : list PersistentVolume)
    : prog (outcome unit) :=
  match pvs with
  | [] => Ret (Ok tt)
  | pv :: pvs =>
      match pvs_ClaimRef (pv_Spec pv) with
      | None => cleanupLoop sv targets pvs
      | Some ref =>
          if slicesContains targets (ref_Namespace ref) then cleanupLoop sv targets pvs
          else
            pvc ← Get KPVC (MkNN (ref_Namespace ref) (ref_Name ref));
            match pvc with
            | inr pvc =>
                if pvcOwned sv pvc then
                  _ ←! (if Time_IsZero (DeletionTimestamp (pvc_ObjectMeta pvc))
                        then DeleteIgnoreNotFound KPVC pvc None else Ret (Ok tt));
                  cleanupLoop sv targets pvs
                else
                  _ ←! DeleteIgnoreNotFound KPV pv None;
                  cleanupLoop sv targets pvs
            | inl err =>
                if IsNotFound err then
                  _ ←! DeleteIgnoreNotFound KPV pv None;
                  cleanupLoop sv targets pvs
                else Ret (Err err)
            end
      end
  end.

Definition cleanupStaleBindings (sv : SharedVolume) (targets : list string)
    : prog (outcome unit) :=
  pvList ← ListObjs KPV (byVolume sv);
  match pvList with
  | inl err => Ret (Err err)
  | inr pvs => cleanupLoop sv targets pvs
  end.

(** * Watches *)

Definition namespaceCouldMatch (sv : SharedVolume) (ns : ObjectMeta) : bool :=
  if slicesContains (Names (Namespaces (sv_Spec sv))) (Name ns) then true
  else match NsSelector (Namespaces (sv_Spec sv)) with
       | Some sel =>
           match LabelSelectorAsSelector sel with
           | inr selector => Matches selector (Labels ns)
           | inl _ => false
           end
       | None => false
       end.

(** A [reconcile.Request] for a cluster-scoped volume. *)
Definition requestFor (sv : SharedVolume) : NamespacedName := MkNN "" (sv_Name sv).

Definition mapNamespace (ns : ObjectMeta) : prog (list NamespacedName) :=
  svList ← ListObjs KSharedVolume AllObjects;
  match svList with
  | inl _ => Ret []
  | inr svs => Ret (map requestFor (filter (λ sv, namespaceCouldMatch sv ns = true) svs))
  end.

Definition mapNode : prog (list NamespacedName) :=
  svList ← ListObjs KSharedVolume AllObjects;
  match svList with
  | inl _ => Ret []
  | inr svs => Ret (map requestFor svs)
  end.
End Bindings.

(** * Lemmas *)

Lemma listedTargets_elem nss set ns :
  ns ∈ listedTargets nss set ↔
  ns ∈ set ∨ ∃ o, o ∈ nss ∧ nsAlive o = true ∧ Name (ns_ObjectMeta o) = ns.
Proof.
  unfold listedTargets. revert set. induction nss as [|o nss IH]; intros set; simpl.
  { split; [by left|]. intros [?|(o & ?%elem_of_nil & _)]; done. }
  rewrite IH. split.
  - intros [Hin|(o' & ? & ?)]; [|right; exists o'; split; [by right|done]].
    destruct (nsAlive o) eqn:Ho; [|by left].
    apply elem_of_union in Hin as [->%elem_of_singleton|?]; [|by left].
    right. exists o. split; [by left|done].
  - intros [?|(o' & [->|Hin]%elem_of_cons & Ho & <-)].
    + left. destruct (nsAlive o); [by apply elem_of_union_r|done].
    + left. rewrite Ho. by apply elem_of_union_l, elem_of_singleton.
    + right. eauto.
Qed.
