(* ===== verification/NetPolicy.v ===== *)
(** The per-volume NetworkPolicy (internal/controller/sharedvolume_controller.go):
    [podCIDRsOf], [nodeIPs] and [reconcileNetworkPolicy]. *)
From S2P Require Import Prelude Kube V1alpha1 Client Resources Netip Lib Server.

Definition podCIDRsOf (node : Node) : list string :=
  match node_PodCIDRs node with
  | _ :: _ => node_PodCIDRs node
  | [] => if decide (node_PodCIDR node ≠ "") then [node_PodCIDR node] else []
  end.

(** The addresses one CIDR contributes: its address, and the next one when the
    prefix still contains it; a CIDR that does not parse is skipped. *)
Definition cidrIdentities (cidr : string) : list string :=
  match ParsePrefix cidr with
  | None => []
  | Some p =>
      let base := prefix_ip p in
      let next := Next base in
      AddrString base :: (if Contains p next then [AddrString next] else [])
  end.

Definition nodeAddresses (node : Node) : list string :=
  map na_Address
    (filter (λ a, na_Type a = NodeInternalIP ∨ na_Type a = NodeExternalIP) (node_Addresses node)).

(** What the loop body of [nodeIPs] adds to the set for one node. *)
Definition nodeIdentities (node : Node) : list string :=
  nodeAddresses node ++ concat (map cidrIdentities (podCIDRsOf node)).

Definition np_with_Spec (np : NetworkPolicy) (s : NetworkPolicySpec) : NetworkPolicy :=
  MkNetworkPolicy (np_ObjectMeta np) s.

Section NetPolicy.
Context `{Lib} (r : SharedVolumeReconciler).
Local Open Scope go_scope.

Definition nodeIPs : prog (outcome (list string)) :=
  nodeList ← ListObjs KNode AllObjects;
  match nodeList with
  | inl err => Ret (Err err)
  | inr nodes =>
      let set := foldl (λ set node, list_to_set (nodeIdentities node) ∪ set) (∅ : gset string) nodes in
      Ret (Ok (sortedKeys set))
  end.

Definition reconcileNetworkPolicy (sv : SharedVolume) (targets : list string)
    : prog (outcome unit) :=
  existing ← Get KNetworkPolicy (MkNN (OperatorNamespace r) (ServerName sv));
  match existing with
  | inl getErr =>
      if negb (IsNotFound getErr) then Ret (Err getErr)
      else if decide (NetworkPolicyField (sv_Spec sv) = NetworkPolicyDisabled) then Ret (Ok tt)
      else
        ips ←! nodeIPs;
        _ ←! createOwned KNetworkPolicy sv
               (BuildNetworkPolicy sv (OperatorNamespace r) targets ips (AllowCIDRs r));
        Ret (Ok tt)
  | inr existing =>
      if decide (NetworkPolicyField (sv_Spec sv) = NetworkPolicyDisabled)
      then DeleteIgnoreNotFound KNetworkPolicy existing None
      else
        ips ←! nodeIPs;
        let desired := BuildNetworkPolicy sv (OperatorNamespace r) targets ips (AllowCIDRs r) in
        if negb (SemanticDeepEqual (np_Spec existing) (np_Spec desired)) then
          _ ←! UpdateE KNetworkPolicy (np_with_Spec existing (np_Spec desired));
          Ret (Ok tt)
        else Ret (Ok tt)
  end.
End NetPolicy.
