(* ===== verification/BackupJob.v ===== *)
(** The backup CronJob (internal/controller/sharedvolume_controller.go):
    [backupHostPath], [backupCronJobDrifted] and [reconcileBackup]. *)
From S2P Require Import Prelude Kube V1alpha1 Client Resources Lib Server.

Fixpoint hostPathIn (vols : list Volume) : string :=
  match vols with
  | [] => ""
  | v :: vols =>
      match vol_HostPath v with
      | Some hp => if decide (vol_Name v = "backup") then hp_Path hp else hostPathIn vols
      | None => hostPathIn vols
      end
  end.

Definition backupHostPath (pod : PodSpec) : string := hostPathIn (pod_Volumes pod).

(** [existing.Spec.JobTemplate.Spec.Template.Spec] *)
Definition cronPod (cj : CronJob) : PodSpec := tpl_Spec (js_Template (cjs_JobSpec (cj_Spec cj))).

(** [None] is the index panic [want.Containers[0]] on an empty list. *)
Definition backupCronJobDrifted (existing desired : CronJob) : option bool :=
  if decide (cjs_Schedule (cj_Spec existing) ≠ cjs_Schedule (cj_Spec desired)) then Some true
  else if decide (default false (cjs_Suspend (cj_Spec existing))
                  ≠ default false (cjs_Suspend (cj_Spec desired))) then Some true
  else
    let cur := cronPod existing in
    let want := cronPod desired in
    match pod_Containers cur with
    | [c] =>
        w ← head (pod_Containers want);
        if decide (ctr_Image c ≠ ctr_Image w) then Some true
        else if negb (slicesEqual (ctr_Command c) (ctr_Command w)) then Some true
        else Some (bool_decide (backupHostPath cur ≠ backupHostPath want))
    | _ => Some true
    end.

Definition cj_with_Spec (cj : CronJob) (s : CronJobSpec) : CronJob :=
  MkCronJob (cj_ObjectMeta cj) s (cj_LastSuccessfulTime cj).

Definition with_LastBackupTime (sv : SharedVolume) (t : option Time) : SharedVolume :=
  with_Status sv (set_LastBackupTime t (sv_Status sv)).

Section Backup.
Context `{Lib} (r : SharedVolumeReconciler).
Local Open Scope go_scope.

Definition reconcileBackup (sv : SharedVolume) : prog (outcome SharedVolume) :=
  existing ← Get KCronJob (MkNN (OperatorNamespace r) (BackupCronJobName sv));
  match Backup (sv_Spec sv) with
  | None =>
      let sv := with_LastBackupTime sv None in
      match existing with
      | inr existing =>
          _ ←! DeleteIgnoreNotFound KCronJob existing None;
          Ret (Ok sv)
      | inl err => if IsNotFound err then Ret (Ok sv) else Ret (Err err)
      end
  | Some _ =>
      desired ←? BuildBackupCronJob sv (OperatorNamespace r) (BackupImage r);
      match existing with
      | inl err =>
          if IsNotFound err then
            _ ←! createOwned KCronJob sv desired;
            Ret (Ok sv)
          else Ret (Err err)
      | inr existing =>
          drifted ←? backupCronJobDrifted existing desired;
          existing ←! (if (drifted : bool) then UpdateE KCronJob (cj_with_Spec existing (cj_Spec desired))
                       else Ret (Ok existing));
          Ret (Ok (with_LastBackupTime sv (cj_LastSuccessfulTime existing)))
      end
  end.
End Backup.
