(* ===== verification/Reconcile.v ===== *)
(** The reconcile loop (internal/controller/sharedvolume_controller.go): status
    rollup ([updateStatus]), finalizer teardown ([reconcileDelete]) and
    [Reconcile], which composes the components. *)
From S2P Require Import Prelude Kube V1alpha1 Client Resources Lib Server Bindings NetPolicy BackupJob.

(** * Status *)

Definition countBound (bs : list NamespaceBinding) : nat :=
  length (filter (λ b, nb_Phase b = BindingBound) bs).

Definition anyConflict (bs : list NamespaceBinding) : bool :=
  existsb (λ b, bool_decide (nb_Phase b = BindingConflict)) bs.

(** The counting loop at the head of [updateStatus]. *)
Definition countBindings (bs : list NamespaceBinding) : Z * bool :=
  foldl (λ '(bound, conflict) b,
           if decide (nb_Phase b = BindingBound) then ((bound + 1)%Z, conflict)
           else if decide (nb_Phase b = BindingConflict) then (bound, true)
           else (bound, conflict)) (0%Z, false) bs.

Definition len {A} (l : list A) : Z := Z.of_nat (length l).

(** The phase switch of [updateStatus]. *)
Definition statusPhase (conflict : bool) (clusterIP : string) (serverReady : bool)
    (bound : Z) (total : Z) : string :=
  if conflict then PhaseDegraded
  else if bool_decide (clusterIP = "") || negb serverReady then PhaseProvisioning
  else if (0 <? total)%Z && (bound =? total)%Z then PhaseReady
  else PhaseProvisioning.

Section Reconcile.
Context `{Lib} (r : SharedVolumeReconciler).
Local Open Scope go_scope.

(** The status fields [updateStatus] assigns before the two conditions. *)
Definition rollup (sv : SharedVolume) (clusterIP : string) (serverReady : bool)
    (bindings : list NamespaceBinding) : SharedVolumeStatus :=
  let '(bound, conflict) := countBindings bindings in
  let st := sv_Status sv in
  {| Phase := statusPhase conflict clusterIP serverReady bound (len bindings);
     ServerEndpointField :=
       if decide (clusterIP ≠ "") then ServerEndpoint clusterIP else ServerEndpointField st;
     BackingPVC := OperatorNamespace r +:+ "/" +:+ BackingPVCName sv;
     BoundSummary := sprint_d bound +:+ "/" +:+ sprint_d (len bindings);
     Bindings := bindings;
     LastBackupTime := LastBackupTime st;
     ObservedGeneration := Generation (sv_ObjectMeta sv);
     Conditions := Conditions st |}.

Definition serverReadyCondition (sv : SharedVolume) (serverReady : bool) : Condition :=
  MkCondition ConditionServerReady (boolToCondition serverReady) (Generation (sv_ObjectMeta sv))
    None (ifElse serverReady "ServerRunning" "ServerStarting")
    (ifElse serverReady "NFS server is serving" "NFS server pod is not ready").

Definition allBoundCondition (sv : SharedVolume) (bound total : Z) : Condition :=
  let all := (0 <? total)%Z && (bound =? total)%Z in
  MkCondition ConditionAllBound (boolToCondition all) (Generation (sv_ObjectMeta sv))
    None (ifElse all "AllBound" "NotAllBound")
    (sprint_d bound +:+ " of " +:+ sprint_d total +:+ " target namespaces bound").

(** [updateStatus]: the last write of a reconcile. *)
Definition updateStatus (sv : SharedVolume) (clusterIP : string) (serverReady : bool)
    (bindings : list NamespaceBinding) : prog (outcome SharedVolume) :=
  let bound := (countBindings bindings).1 in
  let st := rollup sv clusterIP serverReady bindings in
  now1 ← Now;
  let cs := (SetStatusCondition now1 (Conditions st) (serverReadyCondition sv serverReady)).1 in
  now2 ← Now;
  let cs := (SetStatusCondition now2 cs (allBoundCondition sv bound (len bindings))).1 in
  u ← StatusUpdate (with_Status sv (set_Conditions cs st));
  match u with
  | inl err => Ret (Err err)
  | inr sv => Ret (Ok sv)
  end.

(** * Teardown *)

(** The loop over the listed PVs; the result is [remaining]. *)
Fixpoint teardownLoop (sv : SharedVolume) (pvs : list PersistentVolume) (remaining : nat)
    : prog (outcome nat) :=
  match pvs with
  | [] => Ret (Ok remaining)
  | pv :: pvs =>
      match pvs_ClaimRef (pv_Spec pv) with
      | None =>
          _ ←! DeleteIgnoreNotFound KPV pv None;
          teardownLoop sv pvs remaining
      | Some ref =>
          pvc ← Get KPVC (MkNN (ref_Namespace ref) (ref_Name ref));
          match pvc with
          | inr pvc =>
              if pvcOwned sv pvc then
                _ ←! (if Time_IsZero (DeletionTimestamp (pvc_ObjectMeta pvc))
                      then DeleteIgnoreNotFound KPVC pvc None else Ret (Ok tt));
                teardownLoop sv pvs (S remaining)
              else
                _ ←! DeleteIgnoreNotFound KPV pv None;
                teardownLoop sv pvs remaining
          | inl err =>
              if IsNotFound err then
                _ ←! DeleteIgnoreNotFound KPV pv None;
                teardownLoop sv pvs remaining
              else Ret (Err err)
          end
      end
  end.

(** The zero object with only a name and a namespace, as the delete list builds. *)
Definition metaOnly (name : string) : ObjectMeta := objectMeta name (OperatorNamespace r) None.
Definition emptyPod : PodSpec := MkPodSpec "" [] [] [] None.
Definition emptyTemplate : PodTemplateSpec := MkPodTemplate None None emptyPod.
Definition emptyJobSpec : JobSpec := MkJobSpec None None emptyTemplate.

(** The server stack and backup jobs in the order they are deleted. *)
Definition stackObjects (sv : SharedVolume) : list { k : kind & obj k } :=
  [ existT KNetworkPolicy (MkNetworkPolicy (metaOnly (ServerName sv)) (MkNPSpec (MkLabelSelector None []) [] []));
    existT KDeployment (MkDeployment (metaOnly (ServerName sv)) None "" (MkLabelSelector None []) emptyTemplate 0);
    existT KService (MkService (metaOnly (ServerName sv)) None [] "");
    existT KConfigMap (MkConfigMap (metaOnly (ConfigMapName sv)) None);
    existT KCronJob (MkCronJob (metaOnly (BackupCronJobName sv))
                       (MkCronJobSpec "" None "" None None None None emptyJobSpec) None);
    existT KJob (MkJob (metaOnly (SeedJobName sv)) emptyJobSpec []) ].

Definition DeletePropagationBackground : string := "Background".

Fixpoint deleteStack (objs : list { k : kind & obj k }) : prog (outcome unit) :=
  match objs with
  | [] => Ret (Ok tt)
  | existT k o :: objs =>
      _ ←! DeleteIgnoreNotFound k o (Some DeletePropagationBackground);
      deleteStack objs
  end.

(** The retained backing PVC: annotated and detached from its owners.  [None] is
    the panic of writing a nil annotation map, which the guard prevents. *)
Definition retainPVC (sv : SharedVolume) (backing : PersistentVolumeClaim)
    : option PersistentVolumeClaim :=
  let m := pvc_ObjectMeta backing in
  let anns := match Annotations m with None => Some ∅ | Some _ => Annotations m end in
  anns ← mapAssign anns AnnotationRetained (sv_Name sv);
  Some (MkPVC (MkObjectMeta (Name m) (Namespace m) (Labels m) anns (Finalizers m) []
                 (DeletionTimestamp m) (Generation m) (UID m) (ResourceVersion m))
          (pvc_Spec backing) (pvc_Phase backing)).

Definition backingKey (sv : SharedVolume) : NamespacedName :=
  MkNN (OperatorNamespace r) (BackingPVCName sv).

(** Step 3 of the teardown. *)
Definition teardownBacking (sv : SharedVolume) : prog (outcome unit) :=
  backing ← Get KPVC (backingKey sv);
  match backing with
  | inr backing =>
      if decide (ReclaimPolicy (sv_Spec sv) = ReclaimRetain) then
        if decide (mapIndex (Annotations (pvc_ObjectMeta backing)) AnnotationRetained = "") then
          backing ←? retainPVC sv backing;
          _ ←! UpdateE KPVC backing;
          Ret (Ok tt)
        else Ret (Ok tt)
      else if Time_IsZero (DeletionTimestamp (pvc_ObjectMeta backing))
      then DeleteIgnoreNotFound KPVC backing None
      else Ret (Ok tt)
  | inl err => if IsNotFound err then Ret (Ok tt) else Ret (Err err)
  end.

(** [sv.Status.Phase = Terminating], written unless it is already recorded; a
    conflict is ignored and leaves the local object as assigned. *)
Definition markTerminating (sv : SharedVolume) : prog (outcome SharedVolume) :=
  if decide (Phase (sv_Status sv) ≠ PhaseTerminating) then
    let sv := with_Status sv (set_Phase PhaseTerminating (sv_Status sv)) in
    u ← StatusUpdate sv;
    match u with
    | inl err => if IsConflict err then Ret (Ok sv) else Ret (Err err)
    | inr sv => Ret (Ok sv)
    end
  else Ret (Ok sv).

Definition reconcileDelete (sv : SharedVolume) : prog (outcome Result) :=
  if negb (ContainsFinalizer (Finalizers (sv_ObjectMeta sv)) finalizerName) then Ret (Ok noResult)
  else
    sv ←! markTerminating sv;
    pvList ← ListObjs KPV (byVolume sv);
    match pvList with
    | inl err => Ret (Err err)
    | inr pvs =>
        remaining ←! teardownLoop sv pvs 0;
        if (0 <? remaining)%nat then Ret (Ok (MkResult false requeueDelay))
        else
          _ ←! deleteStack (stackObjects sv);
          _ ←! teardownBacking sv;
          let sv := set_Finalizers (RemoveFinalizer (Finalizers (sv_ObjectMeta sv)) finalizerName).1 sv in
          _ ←! UpdateE KSharedVolume sv;
          Ret (Ok noResult)
    end.

(** * Reconcile *)

(** The finalizer block at the head of [Reconcile]. *)
Definition ensureFinalizer (sv : SharedVolume) : prog (outcome SharedVolume) :=
  let '(fs, added) := AddFinalizer (Finalizers (sv_ObjectMeta sv)) finalizerName in
  let sv := set_Finalizers fs sv in
  if (added : bool) then UpdateE KSharedVolume sv else Ret (Ok sv).

(** The bindings block: only once the Service has a ClusterIP. *)
Definition ensureBindings (sv : SharedVolume) (targets : list string) (clusterIP : string)
    : prog (outcome (list NamespaceBinding)) :=
  if decide (clusterIP ≠ "") then
    bindings ←! reconcileBindings sv targets clusterIP;
    _ ←! cleanupStaleBindings sv targets;
    Ret (Ok bindings)
  else Ret (Ok []).

(** The reconcile of a volume that is not being deleted. *)
Definition reconcileLive (sv : SharedVolume) : prog (outcome Result) :=
  sv ←! ensureFinalizer sv;
  '(clusterIP, serverReady, sv) ←! reconcileServer r sv;
  targets ←! targetNamespaces sv;
  bindings ←! ensureBindings sv targets clusterIP;
  _ ←! reconcileNetworkPolicy r sv targets;
  sv ←! reconcileBackup r sv;
  u ← updateStatus sv clusterIP serverReady bindings;
  match u with
  | Err err => if IsConflict err then Ret (Ok (MkResult true 0)) else Ret (Err err)
  | Panic => Ret Panic
  | Ok _ => Ret (Ok noResult)
  end.

Definition Reconcile (req : NamespacedName) : prog (outcome Result) :=
  sv ← Get KSharedVolume req;
  match sv with
  | inl err =>
      match IgnoreNotFound (Some err) with
      | Some err => Ret (Err err)
      | None => Ret (Ok noResult)
      end
  | inr sv =>
      if negb (Time_IsZero (DeletionTimestamp (sv_ObjectMeta sv))) then reconcileDelete sv
      else reconcileLive sv
  end.
End Reconcile.

(** A pass over a living volume: the read, then [reconcileLive]. *)
Lemma run_Reconcile_live `{Lib} {S} (srv : server S) r req sv s :
  (srv s (CGet KSharedVolume req)).1 = inr sv →
  Time_IsZero (DeletionTimestamp (sv_ObjectMeta sv)) = true →
  let x := run srv (reconcileLive r sv) (srv s (CGet KSharedVolume req)).2 in
  run srv (Reconcile r req) s = (Ev (CGet KSharedVolume req) (inr sv) :: trace_of x, state_of x, result_of x).
Proof.
  intros Hsv Halive x. unfold Reconcile. cbn [mbind prog_bind prog_bind_def Get trigger run].
  subst x. destruct (srv s (CGet KSharedVolume req)) as [a s1]. cbn [fst snd] in *. subst a.
  rewrite Halive. cbn [negb]. by destruct (run srv (reconcileLive r sv) s1) as [[? ?] ?].
Qed.

Arguments stackObjects : simpl never.
Arguments deleteStack : simpl never.
Arguments retainPVC : simpl never.
