(* ===== verification/Footprints.v ===== *)
(** Which calls each component of the controller can issue at all, as (verb,
    resource) pairs.  They discharge the uninteresting components in the
    history proofs, and bound the controller by its RBAC rules. *)
From S2P Require Import Prelude Kube V1alpha1 Client Resources Lib Server Logic Bindings NetPolicy BackupJob Reconcile.

(** [c] is one of the listed (verb, resource) pairs. *)
Definition within (sigs : list (verb * kind)) (c : call) : bool := bool_decide (sig c ∈ sigs).

(** * The pairs of each component *)

Definition seed_sigs : list (verb * kind) :=
  [(VGet, KDeployment); (VGet, KJob); (VCreate, KJob); (VEvent, KSharedVolume); (VNow, KSharedVolume)].

Definition server_sigs : list (verb * kind) :=
  [(VGet, KPVC); (VCreate, KPVC); (VGet, KConfigMap); (VCreate, KConfigMap); (VUpdate, KConfigMap);
   (VGet, KDeployment); (VCreate, KDeployment); (VUpdate, KDeployment); (VGet, KService);
   (VCreate, KService)] ++ seed_sigs.

Definition targets_sigs : list (verb * kind) := [(VGet, KNamespace); (VList, KNamespace)].

Definition bindings_sigs : list (verb * kind) :=
  [(VGet, KPV); (VCreate, KPV); (VUpdate, KPV); (VGet, KPVC); (VCreate, KPVC); (VEvent, KSharedVolume)].

Definition cleanup_sigs : list (verb * kind) :=
  [(VList, KPV); (VGet, KPVC); (VDelete, KPVC); (VDelete, KPV)].

Definition netpol_sigs : list (verb * kind) :=
  [(VGet, KNetworkPolicy); (VList, KNode); (VCreate, KNetworkPolicy); (VUpdate, KNetworkPolicy);
   (VDelete, KNetworkPolicy)].

Definition backup_sigs : list (verb * kind) :=
  [(VGet, KCronJob); (VCreate, KCronJob); (VUpdate, KCronJob); (VDelete, KCronJob)].

Definition status_sigs : list (verb * kind) := [(VNow, KSharedVolume); (VStatusUpdate, KSharedVolume)].

Definition delete_sigs : list (verb * kind) :=
  [(VStatusUpdate, KSharedVolume); (VList, KPV); (VGet, KPVC); (VDelete, KPVC); (VDelete, KPV);
   (VDelete, KNetworkPolicy); (VDelete, KDeployment); (VDelete, KService); (VDelete, KConfigMap);
   (VDelete, KCronJob); (VDelete, KJob); (VUpdate, KPVC); (VUpdate, KSharedVolume)].

Definition live_sigs : list (verb * kind) :=
  (VUpdate, KSharedVolume) :: server_sigs ++ targets_sigs ++ bindings_sigs ++ cleanup_sigs
  ++ netpol_sigs ++ backup_sigs ++ status_sigs.

Definition reconcile_sigs : list (verb * kind) := (VGet, KSharedVolume) :: delete_sigs ++ live_sigs.

(** * RBAC

    The kubebuilder markers above [Reconcile]: resource and verbs.  The cached
    client needs [list] and [watch] beside every [get]; a recorded event is a
    [create] on events; the clock needs nothing. *)
Inductive rbac_verb : Set := Rget | Rlist | Rwatch | Rcreate | Rupdate | Rpatch | Rdelete.

#[export] Instance rbac_verb_eq_dec : EqDecision rbac_verb.
Proof. solve_decision. Defined.

Definition rbac_all : list rbac_verb := [Rget; Rlist; Rwatch; Rcreate; Rupdate; Rpatch; Rdelete].

Definition rbac_rules : list (string * list rbac_verb) :=
  [("sharedvolumes", rbac_all); ("sharedvolumes/status", [Rget; Rupdate; Rpatch]);
   ("sharedvolumes/finalizers", [Rupdate]); ("namespaces", [Rget; Rlist; Rwatch]);
   ("nodes", [Rget; Rlist; Rwatch]); ("networkpolicies", rbac_all);
   ("persistentvolumes", rbac_all); ("persistentvolumeclaims", rbac_all); ("services", rbac_all);
   ("configmaps", rbac_all); ("events", [Rcreate; Rpatch]); ("deployments", rbac_all);
   ("cronjobs", rbac_all); ("jobs", rbac_all)].

Definition resource_of (k : kind) : string :=
  match k with
  | KSharedVolume => "sharedvolumes"
  | KNamespace => "namespaces"
  | KNode => "nodes"
  | KPVC => "persistentvolumeclaims"
  | KPV => "persistentvolumes"
  | KConfigMap => "configmaps"
  | KDeployment => "deployments"
  | KService => "services"
  | KNetworkPolicy => "networkpolicies"
  | KCronJob => "cronjobs"
  | KJob => "jobs"
  end.

(** The permissions one call uses. *)
Definition needs (vk : verb * kind) : list (string * rbac_verb) :=
  let '(v, k) := vk in
  match v with
  | VGet | VList => [(resource_of k, Rget); (resource_of k, Rlist); (resource_of k, Rwatch)]
  | VCreate => [(resource_of k, Rcreate)]
  | VUpdate => [(resource_of k, Rupdate)]
  | VStatusUpdate => [("sharedvolumes/status", Rupdate)]
  | VDelete => [(resource_of k, Rdelete)]
  | VEvent => [("events", Rcreate)]
  | VNow => []
  end.

Definition granted (p : string * rbac_verb) : bool :=
  existsb (λ rule, bool_decide (rule.1 = p.1) && bool_decide (p.2 ∈ rule.2)) rbac_rules.

Definition permitted (c : call) : bool := forallb granted (needs (sig c)).

(** * Footprints *)

Lemma within_mono sigs1 sigs2 c : sigs1 ⊆ sigs2 → within sigs1 c = true → within sigs2 c = true.
Proof. unfold within. rewrite !bool_decide_eq_true. auto. Qed.

Abbreviation fp sigs p := (footprint (λ c, within sigs c = true) p).

Lemma fp_mono {A} sigs1 sigs2 (p : prog A) : sigs1 ⊆ sigs2 → fp sigs1 p → fp sigs2 p.
Proof. intros Hs. apply footprint_mono. intros c. by apply within_mono. Qed.

(** Close the leaf goals of [fp_auto]: a call by computation, a shared helper by
    its footprint lemma. *)
Ltac fp_leaf :=
  lazymatch goal with
  | |- footprint ?C (createOwned ?k ?sv ?o) => apply (createOwned_footprint C k sv o); intros; reflexivity
  | |- footprint ?C (createIfMissing ?k ?sv ?o) =>
      apply (createIfMissing_footprint C k sv o); intros; reflexivity
  | |- footprint ?C (UpdateE ?k ?o) => apply (UpdateE_footprint C k o); reflexivity
  | |- footprint ?C (DeleteIgnoreNotFound ?k ?o ?p) =>
      apply (DeleteIgnoreNotFound_footprint C k o p); reflexivity
  | |- footprint ?C (setRestoredCondition _ _ _ _) => apply setRestoredCondition_footprint; reflexivity
  | |- _ => intros; reflexivity
  end.
Ltac fp_solve := fp_auto; try fp_leaf.

(** A larger component covers the pairs of its parts. *)
Ltac fp_part lem := eapply fp_mono; [|apply lem]; apply (bool_decide_unpack _); vm_compute; exact I.

Section Footprints.
Context `{Lib} (r : SharedVolumeReconciler).

Lemma reconcileSeed_fp sv : fp seed_sigs (reconcileSeed r sv).
Proof. unfold reconcileSeed. fp_solve. Qed.

Lemma reconcileServer_fp sv : fp server_sigs (reconcileServer r sv).
Proof.
  unfold reconcileServer, ensureConfigMap, ensureDeployment, ensureService.
  fp_solve. fp_part reconcileSeed_fp.
Qed.

Lemma namedTargets_fp names set : fp targets_sigs (namedTargets names set).
Proof. revert set. induction names as [|n names IH]; intros set; cbn [namedTargets]; fp_solve; apply IH. Qed.

Lemma targetNamespaces_fp sv : fp targets_sigs (targetNamespaces sv).
Proof. unfold targetNamespaces. fp_solve. apply namedTargets_fp. Qed.

Lemma reconcileBinding_fp sv ns ip : fp bindings_sigs (reconcileBinding sv ns ip).
Proof. unfold reconcileBinding, ensurePV. fp_solve. Qed.

Lemma reconcileBindings_fp sv targets ip : fp bindings_sigs (reconcileBindings sv targets ip).
Proof.
  induction targets as [|ns targets IH]; cbn [reconcileBindings]; fp_solve; [|apply IH].
  apply reconcileBinding_fp.
Qed.

Lemma cleanupLoop_fp sv targets pvs : fp cleanup_sigs (cleanupLoop sv targets pvs).
Proof. induction pvs as [|pv pvs IH]; cbn [cleanupLoop]; fp_solve; apply IH. Qed.

Lemma cleanupStaleBindings_fp sv targets : fp cleanup_sigs (cleanupStaleBindings sv targets).
Proof. unfold cleanupStaleBindings. fp_solve. apply cleanupLoop_fp. Qed.

Lemma ensureBindings_fp sv targets ip :
  fp (bindings_sigs ++ cleanup_sigs) (ensureBindings sv targets ip).
Proof.
  unfold ensureBindings. fp_solve; [fp_part reconcileBindings_fp|fp_part cleanupStaleBindings_fp].
Qed.

Lemma reconcileNetworkPolicy_fp sv targets : fp netpol_sigs (reconcileNetworkPolicy r sv targets).
Proof. unfold reconcileNetworkPolicy, nodeIPs. fp_solve. Qed.

Lemma reconcileBackup_fp sv : fp backup_sigs (reconcileBackup r sv).
Proof. unfold reconcileBackup. fp_solve. Qed.

Lemma updateStatus_fp sv ip ready bs : fp status_sigs (updateStatus r sv ip ready bs).
Proof. unfold updateStatus. fp_solve. Qed.

Lemma teardownLoop_fp sv pvs n : fp delete_sigs (teardownLoop sv pvs n).
Proof. revert n. induction pvs as [|pv pvs IH]; intros n; cbn [teardownLoop]; fp_solve; apply IH. Qed.

Lemma deleteStack_fp sv : fp delete_sigs (deleteStack (stackObjects r sv)).
Proof. cbv [deleteStack stackObjects]. fp_solve. Qed.

Lemma reconcileDelete_fp sv : fp delete_sigs (reconcileDelete r sv).
Proof.
  unfold reconcileDelete, markTerminating, teardownBacking.
  fp_solve; [apply teardownLoop_fp|apply deleteStack_fp].
Qed.

Lemma reconcileLive_fp sv : fp live_sigs (reconcileLive r sv).
Proof.
  unfold reconcileLive, ensureFinalizer. fp_solve.
  - fp_part reconcileServer_fp.
  - fp_part targetNamespaces_fp.
  - fp_part ensureBindings_fp.
  - fp_part reconcileNetworkPolicy_fp.
  - fp_part reconcileBackup_fp.
  - fp_part updateStatus_fp.
Qed.

Lemma Reconcile_fp req : fp reconcile_sigs (Reconcile r req).
Proof.
  unfold Reconcile. fp_solve; [fp_part reconcileDelete_fp|fp_part reconcileLive_fp].
Qed.
End Footprints.
