(* ===== verification/Teardown.v ===== *)
(** Safety of the finalizer teardown, against every API server: which write
    [reconcileDelete] may issue after which answers. *)
From S2P Require Import Prelude Kube V1alpha1 Client Resources Lib Server Logic Bindings Reconcile MemCluster.

(** * What the history has established *)

Definition claimKey (ref : ObjectReference) : NamespacedName :=
  MkNN (ref_Namespace ref) (ref_Name ref).

(** The claim was read as absent, or as a PVC that is not this volume's. *)
Definition claimGone (sv : SharedVolume) (h : list event) (ref : ObjectReference) : Prop :=
  (∃ err, Ev (CGet KPVC (claimKey ref)) (inl err) ∈ h ∧ IsNotFound err = true) ∨
  (∃ pvc, Ev (CGet KPVC (claimKey ref)) (inr pvc) ∈ h ∧ pvcOwned sv pvc = false).

Definition claimsGone (sv : SharedVolume) (h : list event) (pv : PersistentVolume) : Prop :=
  ∀ ref, pvs_ClaimRef (pv_Spec pv) = Some ref → claimGone sv h ref.

Definition listed (sv : SharedVolume) (h : list event) (pvs : list PersistentVolume) : Prop :=
  Ev (CList KPV (byVolume sv)) (inr pvs) ∈ h.

(** Every PV of the volume is deleted, each after its claim was gone. *)
Definition consumersGone (sv : SharedVolume) (h : list event) : Prop :=
  ∃ pvs, listed sv h pvs ∧ ∀ pv, pv ∈ pvs → claimsGone sv h pv ∧ deleted h KPV pv None.

Definition stackGone (r : SharedVolumeReconciler) (sv : SharedVolume) (h : list event) : Prop :=
  ∀ ko, ko ∈ stackObjects r sv → deleted h (projT1 ko) (projT2 ko) (Some DeletePropagationBackground).

(** [b'] is [b] detached from every owner, marked as retained and otherwise kept. *)
Definition detached (sv : SharedVolume) (b b' : PersistentVolumeClaim) : Prop :=
  OwnerReferences (pvc_ObjectMeta b') = [] ∧
  mapIndex (Annotations (pvc_ObjectMeta b')) AnnotationRetained = sv_Name sv ∧
  ObjectKey KPVC b' = ObjectKey KPVC b ∧
  ResourceVersion (pvc_ObjectMeta b') = ResourceVersion (pvc_ObjectMeta b) ∧
  pvc_Spec b' = pvc_Spec b.

Definition backingRead (r : SharedVolumeReconciler) (sv : SharedVolume) (h : list event)
    (b : PersistentVolumeClaim) : Prop :=
  Ev (CGet KPVC (backingKey r sv)) (inr b) ∈ h.

(** The backing PVC is absent; or, under Retain, known to be marked or just
    detached; or, otherwise, terminating or deleted. *)
Definition backingSettled (r : SharedVolumeReconciler) (sv : SharedVolume) (h : list event) : Prop :=
  (∃ err, Ev (CGet KPVC (backingKey r sv)) (inl err) ∈ h ∧ IsNotFound err = true) ∨
  (∃ b, backingRead r sv h b ∧
     if decide (ReclaimPolicy (sv_Spec sv) = ReclaimRetain) then
       mapIndex (Annotations (pvc_ObjectMeta b)) AnnotationRetained ≠ "" ∨
       ∃ b' b'', Ev (CUpdate KPVC b') (inr b'') ∈ h ∧ detached sv b b'
     else
       Time_IsZero (DeletionTimestamp (pvc_ObjectMeta b)) = false ∨ deleted h KPVC b None).

(** * The order of the teardown *)

Definition deletePVC_allowed (r : SharedVolumeReconciler) (sv : SharedVolume) (h : list event)
    (pvc : PersistentVolumeClaim) : Prop :=
  Time_IsZero (DeletionTimestamp (pvc_ObjectMeta pvc)) = true ∧
  ((∃ pvs pv ref, listed sv h pvs ∧ pv ∈ pvs ∧ pvs_ClaimRef (pv_Spec pv) = Some ref ∧
      Ev (CGet KPVC (claimKey ref)) (inr pvc) ∈ h ∧ pvcOwned sv pvc = true)
   ∨ (consumersGone sv h ∧ stackGone r sv h ∧ backingRead r sv h pvc ∧
      ReclaimPolicy (sv_Spec sv) ≠ ReclaimRetain)).

Definition deletePV_allowed (sv : SharedVolume) (h : list event) (pv : PersistentVolume) : Prop :=
  ∃ pvs, listed sv h pvs ∧ pv ∈ pvs ∧ claimsGone sv h pv.

Definition updatePVC_allowed (r : SharedVolumeReconciler) (sv : SharedVolume) (h : list event)
    (b' : PersistentVolumeClaim) : Prop :=
  consumersGone sv h ∧ stackGone r sv h ∧ ReclaimPolicy (sv_Spec sv) = ReclaimRetain ∧
  ∃ b, backingRead r sv h b ∧ detached sv b b'.

Definition dropFinalizer_allowed (r : SharedVolumeReconciler) (sv : SharedVolume) (h : list event)
    : Prop :=
  consumersGone sv h ∧ stackGone r sv h ∧ backingSettled r sv h.

(** What [reconcileDelete] may do next, given what it has done and been told. *)
Definition teardown_allowed (r : SharedVolumeReconciler) (sv : SharedVolume) (h : list event)
    (c : call) : Prop :=
  match c with
  | CGet _ _ | CList _ _ => True
  | CStatusUpdate sv' => Phase (sv_Status sv') = PhaseTerminating ∧ sv_Name sv' = sv_Name sv
  | CDelete k o prop =>
      match k return obj k → Prop with
      | KPVC => deletePVC_allowed r sv h
      | KPV => deletePV_allowed sv h
      | k' => λ o', consumersGone sv h ∧ (existT k' o' : { k : kind & obj k }) ∈ stackObjects r sv
      end o
  | CUpdate k o =>
      match k return obj k → Prop with
      | KPVC => updatePVC_allowed r sv h
      | KSharedVolume => λ sv', dropFinalizer_allowed r sv h ∧ sv_Name sv' = sv_Name sv
      | _ => λ _, False
      end o
  | CCreate _ _ | CEventf _ _ _ _ _ | CNow => False
  end.

(** * A sample run *)

(** A volume under deletion whose namespaces and stack are in place. *)
Definition deletingCluster (policy : string) : mem :=
  let m := sampleCluster (sampleVolume policy None) in
  let m := state_of (run memServer (Reconcile sampleReconciler sampleRequest) m) in
  (memServer m (CDelete KSharedVolume (sampleVolume policy None) None)).2.

Definition deletingVolume (policy : string) : SharedVolume :=
  default (sampleVolume policy None) (mem_store (deletingCluster policy) KSharedVolume !! sampleRequest).

(** The second pass, after the consumer PVCs are gone. *)
Definition deletingCluster2 (policy : string) : mem :=
  state_of (run memServer (reconcileDelete sampleReconciler (deletingVolume policy)) (deletingCluster policy)).

Definition deletingVolume2 (policy : string) : SharedVolume :=
  default (sampleVolume policy None) (mem_store (deletingCluster2 policy) KSharedVolume !! sampleRequest).

Definition teardownRun (policy : string) : list event * mem * outcome Result :=
  run memServer (reconcileDelete sampleReconciler (deletingVolume2 policy)) (deletingCluster2 policy).

(** * Monotonicity *)

Lemma claimGone_mono sv h tr ref : claimGone sv h ref → claimGone sv (h ++ tr) ref.
Proof.
  intros [(err & ? & ?)|(pvc & ? & ?)]; [left|right]; eauto using elem_of_app_hist.
Qed.

Lemma claimsGone_mono sv h tr pv : claimsGone sv h pv → claimsGone sv (h ++ tr) pv.
Proof. intros Hc ref Href. by apply claimGone_mono, Hc. Qed.

Lemma consumersGone_mono sv h tr : consumersGone sv h → consumersGone sv (h ++ tr).
Proof.
  intros (pvs & Hl & Hall). exists pvs. split; [by apply elem_of_app_hist|].
  intros pv Hpv. destruct (Hall pv Hpv). auto using claimsGone_mono, deleted_mono.
Qed.

Lemma stackGone_mono r sv h tr : stackGone r sv h → stackGone r sv (h ++ tr).
Proof. intros Hs ko Hko. by apply deleted_mono, Hs. Qed.

Lemma backingSettled_mono r sv h tr : backingSettled r sv h → backingSettled r sv (h ++ tr).
Proof.
  intros [(err & ? & ?)|(b & Hb & Hcase)]; [left|right]; [by eauto using elem_of_app_hist|].
  exists b. split; [by apply elem_of_app_hist|].
  case_decide; destruct Hcase as [?|Hd]; auto using deleted_mono.
  right. destruct Hd as (b' & b'' & ? & ?). exists b', b''. auto using elem_of_app_hist.
Qed.

#[export] Hint Resolve claimGone_mono claimsGone_mono consumersGone_mono
  stackGone_mono backingSettled_mono : nfsz.


(** * The handler respects the order *)

Section Proofs.
Context `{Lib} (r : SharedVolumeReconciler).
Implicit Types (sv : SharedVolume) (h : list event).

Abbreviation cleared sv h pv := (claimsGone sv h pv ∧ deleted h KPV pv None).

(** What [teardownLoop] leaves: if nothing was counted, every PV it visited is
    cleared. *)
Definition loopPost sv (pvs : list PersistentVolume) (rem : nat) h h' (res : outcome nat) : Prop :=
  grown h h' ∧ res ≠ Panic ∧
  ∀ n, res = Ok n → rem ≤ n ∧ (n = rem → ∀ pv, pv ∈ pvs → cleared sv h' pv).

Lemma loopPost_err sv pvs rem h h' e : grown h h' → loopPost sv pvs rem h h' (Err e).
Proof. intros Hg. split; [done|]. by split. Qed.

(** One PV done, from [h] to [h1]; the rest of the loop from there. *)
Lemma loopPost_cons sv pv pvs rem h h1 h' res :
  grown h h1 → cleared sv h1 pv → loopPost sv pvs rem h1 h' res → loopPost sv (pv :: pvs) rem h h' res.
Proof.
  intros Hg [Hc Hd] (Hg' & Hp & Hn). split_and!; [by eapply grown_trans|done|].
  intros n ->. destruct (Hn n eq_refl) as [Hle Hall]. split; [done|].
  intros Heq pv' [->|Hin]%elem_of_cons; [|by apply Hall].
  destruct Hg' as [tr ->]. auto with nfsz.
Qed.

(** One PV kept because its claim still exists. *)
Lemma loopPost_keep sv pv pvs rem h h1 h' res :
  grown h h1 → loopPost sv pvs (S rem) h1 h' res → loopPost sv (pv :: pvs) rem h h' res.
Proof.
  intros Hg (Hg' & Hp & Hn). split_and!; [by eapply grown_trans|done|].
  intros n ->. destruct (Hn n eq_refl) as [Hle _]. split; [lia|]. intros ->. lia.
Qed.

Section Loop.
Context (sv : SharedVolume) (rely : ∀ c, resp c → Prop) (all : list PersistentVolume).
Abbreviation allowed := (teardown_allowed r sv).

(** Deleting a PV whose claims are gone, then the rest of the loop. *)
Lemma teardown_delete_PV pv pvs rem h :
  listed sv h all → pv ∈ all → claimsGone sv h pv →
  (∀ h', listed sv h' all → hwp allowed rely (teardownLoop sv pvs rem) (loopPost sv pvs rem h') h') →
  hwp allowed rely (bindE (DeleteIgnoreNotFound KPV pv None) (λ _, teardownLoop sv pvs rem))
    (loopPost sv (pv :: pvs) rem h) h.
Proof.
  intros Hl Hin Hc IH. hwp_call DeleteIgnoreNotFound_hwp.
  - intros h1 [[]|e|] (Hg & Hd & Hp); [|by apply loopPost_err|done].
    destruct Hg as [tr ->]. eapply wp_mono; [|apply IH; by apply elem_of_app_hist].
    intros h' res. apply loopPost_cons; eauto with nfsz.
  - exists all. auto.
Qed.

Lemma teardownLoop_hwp pvs rem h :
  listed sv h all → pvs ⊆ all →
  hwp allowed rely (teardownLoop sv pvs rem) (loopPost sv pvs rem h) h.
Proof.
  revert rem h. induction pvs as [|pv pvs IH]; intros rem h Hl Hsub; simpl.
  { split_and!; [apply grown_refl|done|]. intros n [= <-]. split; [done|]. set_solver. }
  assert (pv ∈ all) as Hpv by set_solver. assert (pvs ⊆ all) as Hpvs by set_solver.
  destruct (pvs_ClaimRef (pv_Spec pv)) as [ref|] eqn:Href.
  2: { apply teardown_delete_PV; auto. intros ? Hr'. congruence. }
  apply wp_vis; [done|]. intros [err|pvc] h' [_ ->]; simpl.
  - destruct (IsNotFound err) eqn:Hnf; simpl.
    + eapply wp_mono; [|apply teardown_delete_PV; eauto with nfsz].
      * intros h' res (Hg & ?). split; [|done]. eapply grown_trans; [|exact Hg]. apply grown_app.
      * by apply elem_of_app_hist.
      * intros ref' Hr'. simplify_eq. left. exists err. auto with nfsz.
    + apply loopPost_err, grown_app.
  - destruct (pvcOwned sv pvc) eqn:Hown; simpl.
    + set (h1 := h ++ _).
      assert (listed sv h1 all) as Hl1 by (by apply elem_of_app_hist).
      assert (grown h h1) as Hg1 by apply grown_app.
      destruct (Time_IsZero _) eqn:Hz; simpl.
      * hwp_call DeleteIgnoreNotFound_hwp.
        -- intros h2 [[]|e|] (Hg & _ & Hp); [|apply loopPost_err; by eapply grown_trans|done].
           eapply wp_mono; [|apply IH; [|done]].
           { intros h' res. apply loopPost_keep. by eapply grown_trans. }
           destruct Hg as [tr ->]. by apply elem_of_app_hist.
        -- split; [done|]. left. exists all, pv, ref. split_and!; auto. apply event_now.
      * eapply wp_mono; [|by apply IH]. intros h' res. by apply loopPost_keep.
    + eapply wp_mono; [|apply teardown_delete_PV; eauto with nfsz].
      * intros h' res (Hg & ?). split; [|done]. eapply grown_trans; [|exact Hg]. apply grown_app.
      * by apply elem_of_app_hist.
      * intros ref' Hr'. simplify_eq. right. exists pvc. auto with nfsz.
Qed.
End Loop.

(** * Server stack, backing PVC, finalizer *)

Section Tail.
Context (sv : SharedVolume) (rely : ∀ c, resp c → Prop).
Abbreviation allowed := (teardown_allowed r sv).

Lemma stack_delete_allowed h (ko : { k : kind & obj k }) prop :
  consumersGone sv h → ko ∈ stackObjects r sv →
  allowed h (CDelete (projT1 ko) (projT2 ko) prop).
Proof.
  intros Hc Hin. pose proof Hin as Hin'. unfold stackObjects in Hin'.
  repeat (apply elem_of_cons in Hin' as [->|Hin']; [by split|]).
  by apply elem_of_nil in Hin'.
Qed.

Lemma deleteStack_hwp (objs : list { k : kind & obj k }) h :
  consumersGone sv h → objs ⊆ stackObjects r sv →
  hwp allowed rely (deleteStack objs)
    (λ h' res, grown h h' ∧ res ≠ Panic ∧
       (res = Ok tt → ∀ ko, ko ∈ objs →
          deleted h' (projT1 ko) (projT2 ko) (Some DeletePropagationBackground))) h.
Proof.
  revert h. induction objs as [|[k o] objs IH]; intros h Hc Hsub; cbn [deleteStack].
  { apply wp_ret. split_and!; [apply grown_refl|done|]. by intros _ ko ?%elem_of_nil. }
  assert (existT k o ∈ stackObjects r sv) as Hko by (apply Hsub; by left).
  hwp_call DeleteIgnoreNotFound_hwp; [|by apply (stack_delete_allowed h (existT k o))].
  intros h1 [[]|e|] (Hg & Hd & Hp); [|by split_and!|done].
  eapply wp_mono; [|apply IH; [|intros ko ?; apply Hsub; by right]].
  - intros h' res (Hg' & Hp' & Hall). split_and!; [by eapply grown_trans|done|].
    intros Hres ko [->|Hin]%elem_of_cons; [|by apply Hall].
    destruct Hg' as [tr ->]. apply deleted_mono. by apply Hd.
  - destruct Hg as [tr ->]. by apply consumersGone_mono.
Qed.

Lemma retainPVC_total b : ∃ b', retainPVC sv b = Some b' ∧ detached sv b b'.
Proof.
  unfold retainPVC. destruct (Annotations (pvc_ObjectMeta b)) as [anns|] eqn:Ha; simpl;
    (eexists; split; [done|]); split_and!; try done; apply mapIndex_insert.
Qed.

Lemma teardownBacking_hwp h :
  consumersGone sv h → stackGone r sv h →
  hwp allowed rely (teardownBacking r sv)
    (λ h' res, grown h h' ∧ res ≠ Panic ∧ (res = Ok tt → backingSettled r sv h')) h.
Proof.
  intros Hc Hs. unfold teardownBacking. simpl.
  apply wp_vis; [done|]. intros [err|b] h1 [_ ->]; simpl.
  { destruct (IsNotFound err) eqn:Hnf; apply wp_ret; (split_and!; [apply grown_app|done|]); [|done].
    intros _. left. exists err. auto with nfsz. }
  set (h1 := h ++ _). assert (backingRead r sv h1 b) as Hb by apply event_now.
  assert (grown h h1) as Hg by apply grown_app.
  assert (consumersGone sv h1) as Hc1 by (by apply consumersGone_mono).
  assert (stackGone r sv h1) as Hs1 by (by apply stackGone_mono).
  case_decide as Hret; [case_decide as Hann|]; [| |destruct (Time_IsZero _) eqn:Hz].
  - destruct (retainPVC_total b) as (b' & -> & Hdet). simpl.
    hwp_call UpdateE_hwp; [|by split_and!; eauto].
    intros h2 [b''|e|] (Hg2 & Hu & Hp); [|split_and!; [by eapply grown_trans|done|done]|done].
    apply wp_ret. split_and!; [by eapply grown_trans|done|]. intros _. right. exists b.
    destruct (Hu b'' eq_refl) as [Hev _]. destruct Hg2 as [tr ->].
    split; [by apply elem_of_app_hist|]. rewrite decide_True by done. right. by exists b', b''.
  - apply wp_ret. split_and!; [done..|]. intros _. right. exists b.
    rewrite decide_True by done. auto.
  - eapply wp_mono; [|apply DeleteIgnoreNotFound_hwp; split; [done|by right]].
    intros h2 res (Hg2 & Hd & Hp). split_and!; [by eapply grown_trans|done|].
    intros Hres. right. exists b. destruct Hg2 as [tr ->].
    split; [by apply elem_of_app_hist|]. rewrite decide_False by done. auto.
  - apply wp_ret. split_and!; [done..|]. intros _. right. exists b.
    rewrite decide_False by done. auto.
Qed.

(** Everything after the phase has been recorded, on the volume at hand. *)
Lemma teardownBody_hwp h :
  hwp allowed rely
    (pvList ← ListObjs KPV (byVolume sv);
     match pvList with
     | inl err => Ret (Err err)
     | inr pvs =>
         bindE (teardownLoop sv pvs 0) (λ remaining,
         if (0 <? remaining)%nat then Ret (Ok (MkResult false requeueDelay))
         else
           bindE (deleteStack (stackObjects r sv)) (λ _,
           bindE (teardownBacking r sv) (λ _,
           bindE (UpdateE KSharedVolume
             (set_Finalizers (RemoveFinalizer (Finalizers (sv_ObjectMeta sv)) finalizerName).1 sv)) (λ _,
           Ret (Ok noResult)))))
     end) (λ _ res, res ≠ Panic) h.
Proof.
  simpl. apply wp_vis; [done|]. intros [err|pvs] h1 [_ ->]; simpl; [done|].
  set (h1 := h ++ _). assert (listed sv h1 pvs) as Hl by apply event_now.
  hwp_call (teardownLoop_hwp sv rely pvs); [|done|done].
  intros h2 [n|e|] ([tr2 ->] & Hp & Hn); [|done|done].
  destruct (0 <? n)%nat eqn:Hn0; [by apply wp_ret|]. apply Nat.ltb_ge in Hn0.
  destruct (Hn n eq_refl) as [_ Hall]. specialize (Hall ltac:(lia)).
  assert (consumersGone sv (h1 ++ tr2)) as Hc by (exists pvs; split; [by apply elem_of_app_hist|done]).
  hwp_call deleteStack_hwp; [|done|done].
  intros h3 [[]|e|] ([tr3 ->] & Hp3 & Hs); [|done|done].
  hwp_call teardownBacking_hwp; [|by auto with nfsz|by intros ko Hko; apply Hs].
  intros h4 [[]|e|] ([tr4 ->] & Hp4 & Hb); [|done|done].
  hwp_call UpdateE_hwp.
  - by intros h5 [o|e|] (_ & _ & Hp5).
  - split; [|done]. split_and!; [by auto with nfsz| |by apply Hb].
    intros ko Hko. apply deleted_mono. by apply Hs.
Qed.
End Tail.

(** Only the name and the spec of the volume matter to the rules. *)
Lemma teardown_allowed_core sv1 sv2 h c :
  sv_core sv1 = sv_core sv2 → teardown_allowed r sv1 h c → teardown_allowed r sv2 h c.
Proof.
  intros Hcore. change (teardown_allowed r (sv_core sv1) h c → teardown_allowed r (sv_core sv2) h c).
  by rewrite Hcore.
Qed.

Lemma reconcileDelete_hwp sv h :
  hwp (teardown_allowed r sv) sv_stable (reconcileDelete r sv) (λ _ res, res ≠ Panic) h.
Proof.
  unfold reconcileDelete. destruct (negb _); [by apply wp_ret|].
  apply wp_bindE. unfold markTerminating.
  case_decide; [|apply wp_ret, teardownBody_hwp].
  simpl. apply wp_vis; [done|].
  intros [err|sv'] h1 [Hstable ->]; simpl.
  - destruct (IsConflict err); apply wp_ret; [|done].
    eapply wp_guar_mono; [|apply teardownBody_hwp].
    intros g c. by apply teardown_allowed_core.
  - apply wp_ret. eapply wp_guar_mono; [|apply teardownBody_hwp].
    intros g c. apply teardown_allowed_core. by apply (Hstable sv').
Qed.
End Proofs.

(** * Properties *)

(** C6. Ordered teardown, against every API server that keeps a volume's name and
    spec stable: each write of [reconcileDelete] is allowed by what it has been
    told before.  A consumer PVC is deleted only when listed, owned and not yet
    terminating; a PV only after its claim was read as gone; the server stack
    only after every listed PV was deleted; the backing PVC only after the whole
    stack was, and never under Retain, where it is detached and annotated
    instead; the finalizer is dropped last, after all of it; and the only volume
    whose status or finalizers are written is the one at hand. *)
Theorem teardown_order `{Lib} {S} (srv : server S) (r : SharedVolumeReconciler) (sv : SharedVolume)
    (s : S) (Hsrv : ∀ s c, sv_stable c (srv s c).1) :
  trace_guarded (teardown_allowed r sv) (trace_of (run srv (reconcileDelete r sv) s)).
Proof. eapply run_guarded_rely; [exact Hsrv|]. apply reconcileDelete_hwp. Qed.

(** On the sample cluster the second pass runs to the end: two PVs, six stack
    objects, the backing PVC and the finalizer. *)
Lemma teardown_order_witness :
  (∀ m c, sv_stable c (memServer m c).1) ∧
  map (λ e, sig (ev_call e)) (filter (λ e, isWrite (ev_call e) = true) (trace_of (teardownRun ReclaimRetain)))
  = [(VDelete, KPV); (VDelete, KPV); (VDelete, KNetworkPolicy); (VDelete, KDeployment);
     (VDelete, KService); (VDelete, KConfigMap); (VDelete, KCronJob); (VDelete, KJob);
     (VUpdate, KPVC); (VUpdate, KSharedVolume)] ∧
  trace_guarded (teardown_allowed sampleReconciler (deletingVolume2 ReclaimRetain))
    (trace_of (teardownRun ReclaimRetain)).
Proof.
  split_and!; [exact memServer_stable|vm_compute; reflexivity|].
  apply (teardown_order memServer sampleReconciler (deletingVolume2 ReclaimRetain)
           (deletingCluster2 ReclaimRetain)).
  exact memServer_stable.
Defined.
