(* ===== verification/LiveSpec.v ===== *)
(** What the reconcile of a living volume may write, given what it has read: the
    safety specification [live_allowed] of [reconcileLive], and the facts about
    histories it is made of.  LiveServer.v, LiveBindings.v and LiveProofs.v show
    that every component respects it; Safety.v draws the consequences. *)
From S2P Require Import Prelude Kube V1alpha1 Client Resources Lib Server Logic Bindings NetPolicy BackupJob Reconcile Teardown.

(** * Facts a history can establish *)

Section Facts.
Context `{Lib} (r : SharedVolumeReconciler).

(** The API server returned this version of the volume. *)
Definition volumeRead (h : list event) (sv0 : SharedVolume) : Prop :=
  (∃ key, Ev (CGet KSharedVolume key) (inr sv0) ∈ h) ∨
  (∃ o, Ev (CUpdate KSharedVolume o) (inr sv0) ∈ h).

Definition restored (sv0 : SharedVolume) : bool :=
  IsStatusConditionTrue (Conditions (sv_Status sv0)) ConditionRestored.

(** A status with this Restored verdict was read. *)
Definition restoredRead (h : list event) (b : bool) : Prop :=
  ∃ sv0, volumeRead h sv0 ∧ restored sv0 = b.

Definition missing (h : list event) (k : kind) (key : NamespacedName) : Prop :=
  ∃ err, Ev (CGet k key) (inl err) ∈ h ∧ IsNotFound err = true.

Definition readAt (h : list event) (k : kind) (key : NamespacedName) (o : obj k) : Prop :=
  Ev (CGet k key) (inr o) ∈ h.

Definition seedJobKey (sv : SharedVolume) : NamespacedName :=
  MkNN (OperatorNamespace r) (SeedJobName sv).

(** The gate is open: nothing to seed, the seed recorded as done, a server that
    already exists, or a completed seed job. *)
Definition seedCleared (sv : SharedVolume) (h : list event) : Prop :=
  seedNotInPlay sv = true ∨ restoredRead h true ∨
  (∃ d, readAt h KDeployment (serverKey r sv) d) ∨
  (∃ job, readAt h KJob (seedJobKey sv) job ∧ jobHasCondition job JobComplete = true).

(** The seed is asked for, not recorded as done, and no server was found. *)
Definition seedWanted (sv : SharedVolume) (h : list event) : Prop :=
  seedNotInPlay sv = false ∧ restoredRead h false ∧ missing h KDeployment (serverKey r sv).

(** The namespace is a target: named and alive, or alive among those the
    selector listed. *)
Definition targetSeen (sv : SharedVolume) (h : list event) (ns : string) : Prop :=
  (ns ∈ Names (Namespaces (sv_Spec sv)) ∧
   ∃ o, readAt h KNamespace (MkNN "" ns) o ∧ nsAlive o = true) ∨
  (∃ sel selector nss o,
     NsSelector (Namespaces (sv_Spec sv)) = Some sel ∧ LabelSelectorAsSelector sel = inr selector ∧
     Ev (CList KNamespace (MatchingLabelsSelector selector)) (inr nss) ∈ h ∧
     o ∈ nss ∧ nsAlive o = true ∧ Name (ns_ObjectMeta o) = ns).

Definition serviceIP (sv : SharedVolume) (h : list event) (ip : string) : Prop :=
  ∃ svc, readAt h KService (serverKey r sv) svc ∧ svc_ClusterIP svc = ip.

(** The server returned the Deployment with a ready replica. *)
Definition serverUp (sv : SharedVolume) (h : list event) : Prop :=
  ∃ d, (0 < dep_ReadyReplicas d)%Z ∧
    (readAt h KDeployment (serverKey r sv) d ∨
     (∃ o, Ev (CCreate KDeployment o) (inr d) ∈ h) ∨
     (∃ o, Ev (CUpdate KDeployment o) (inr d) ∈ h)).

(** The namespace's PVC was read: ours, bound and not terminating. *)
Definition consumerBound (sv : SharedVolume) (h : list event) (ns : string) : Prop :=
  ∃ pvc, readAt h KPVC (MkNN ns (ConsumerPVCName sv)) pvc ∧ pvcOwned sv pvc = true ∧
    Time_IsZero (DeletionTimestamp (pvc_ObjectMeta pvc)) = true ∧ pvc_Phase pvc = ClaimBound.

Definition bindingEarned (sv : SharedVolume) (h : list event) (b : NamespaceBinding) : Prop :=
  targetSeen sv h (nb_Namespace b) ∧ nb_PVCName b = ConsumerPVCName sv ∧
  (nb_Phase b = BindingBound → consumerBound sv h (nb_Namespace b)).

(** What the phase Ready rests on. *)
Definition readyEarned (sv : SharedVolume) (h : list event) (bs : list NamespaceBinding) : Prop :=
  (∃ ip, ip ≠ "" ∧ serviceIP sv h ip) ∧ serverUp sv h ∧ seedCleared sv h ∧ bs ≠ [] ∧
  ∀ b, b ∈ bs → targetSeen sv h (nb_Namespace b) ∧ consumerBound sv h (nb_Namespace b).

(** * Creations *)

(** [o] is [o0] with owner references. *)
Definition ownedCopy (k : kind) (o0 o : obj k) : Prop :=
  ∃ refs, o = obj_SetOwnerReferences k refs o0.

(** What may be created, of each kind. *)
Definition built (sv : SharedVolume) (h : list event) (k : kind) : obj k → Prop :=
  match k return obj k → Prop with
  | KPVC => λ o,
      ownedCopy KPVC (BuildBackingPVC sv (OperatorNamespace r)) o ∨
      ∃ ns, targetSeen sv h ns ∧ ownedCopy KPVC (BuildConsumerPVC sv ns) o
  | KPV => λ o, ∃ ns ip,
      targetSeen sv h ns ∧ ip ≠ "" ∧ serviceIP sv h ip ∧ ownedCopy KPV (BuildPV sv ns ip) o
  | KConfigMap => λ o, ownedCopy KConfigMap (BuildConfigMap sv (OperatorNamespace r)) o
  | KDeployment => λ o, seedCleared sv h ∧ ∃ cm,
      ownedCopy KDeployment (BuildServerDeployment sv (OperatorNamespace r) (GaneshaImage r) cm) o
  | KService => λ o, ownedCopy KService (BuildService sv (OperatorNamespace r)) o
  | KNetworkPolicy => λ o, NetworkPolicyField (sv_Spec sv) ≠ NetworkPolicyDisabled ∧
      ∃ targets ips, (∀ ns, ns ∈ targets → targetSeen sv h ns) ∧
        ownedCopy KNetworkPolicy
          (BuildNetworkPolicy sv (OperatorNamespace r) targets ips (AllowCIDRs r)) o
  | KCronJob => λ o, ∃ cj, BuildBackupCronJob sv (OperatorNamespace r) (BackupImage r) = Some cj ∧
      ownedCopy KCronJob cj o
  | KJob => λ o, seedWanted sv h ∧ ∃ job,
      BuildSeedJob sv (OperatorNamespace r) (BackupImage r) = Some job ∧ ownedCopy KJob job o
  | _ => λ _, False
  end.

(** * Updates *)

(** [u] re-submits an object that was read, with one part replaced. *)
Definition updated (sv : SharedVolume) (h : list event) (k : kind) : obj k → Prop :=
  match k return obj k → Prop with
  | KSharedVolume => λ u, sv_core u = sv_core sv ∧ ∃ sv0, volumeRead h sv0 ∧
      (AddFinalizer (Finalizers (sv_ObjectMeta sv0)) finalizerName).2 = true ∧
      u = set_Finalizers (AddFinalizer (Finalizers (sv_ObjectMeta sv0)) finalizerName).1 sv0
  | KPV => λ u, ∃ ns pv ref, targetSeen sv h ns ∧ readAt h KPV (MkNN "" (PVName sv ns)) pv ∧
      pv_Phase pv = VolumeReleased ∧ pvs_ClaimRef (pv_Spec pv) = Some ref ∧ ref_UID ref ≠ "" ∧
      u = pv_with_ClaimRef pv (Some (ref_clear_UID ref))
  | KConfigMap => λ u, ∃ cm, readAt h KConfigMap (MkNN (OperatorNamespace r) (ConfigMapName sv)) cm ∧
      mapIndex (cm_Data cm) ganeshaConfKey ≠ Config ∧
      u = cm_with_Data cm (cm_Data (BuildConfigMap sv (OperatorNamespace r)))
  | KDeployment => λ u, seedCleared sv h ∧ ∃ d cm,
      let want := dep_Template (BuildServerDeployment sv (OperatorNamespace r) (GaneshaImage r) cm) in
      readAt h KDeployment (serverKey r sv) d ∧
      templateDrifted (dep_Template d) want = Some true ∧ u = dep_with_Template d want
  | KNetworkPolicy => λ u, NetworkPolicyField (sv_Spec sv) ≠ NetworkPolicyDisabled ∧
      ∃ np targets ips,
        let want := np_Spec (BuildNetworkPolicy sv (OperatorNamespace r) targets ips (AllowCIDRs r)) in
        readAt h KNetworkPolicy (serverKey r sv) np ∧ (∀ ns, ns ∈ targets → targetSeen sv h ns) ∧
        SemanticDeepEqual (np_Spec np) want = false ∧ u = np_with_Spec np want
  | KCronJob => λ u, ∃ cj want,
      readAt h KCronJob (MkNN (OperatorNamespace r) (BackupCronJobName sv)) cj ∧
      BuildBackupCronJob sv (OperatorNamespace r) (BackupImage r) = Some want ∧
      backupCronJobDrifted cj want = Some true ∧ u = cj_with_Spec cj (cj_Spec want)
  | _ => λ _, False
  end.

(** * Deletions *)

Definition liveDelete (sv : SharedVolume) (h : list event) (k : kind) : obj k → Prop :=
  match k return obj k → Prop with
  | KPVC => λ pvc, Time_IsZero (DeletionTimestamp (pvc_ObjectMeta pvc)) = true ∧
      pvcOwned sv pvc = true ∧
      ∃ pvs pv ref, listed sv h pvs ∧ pv ∈ pvs ∧ pvs_ClaimRef (pv_Spec pv) = Some ref ∧
        readAt h KPVC (claimKey ref) pvc
  | KPV => λ pv, deletePV_allowed sv h pv
  | KNetworkPolicy => λ np, NetworkPolicyField (sv_Spec sv) = NetworkPolicyDisabled ∧
      readAt h KNetworkPolicy (serverKey r sv) np
  | KCronJob => λ cj, Backup (sv_Spec sv) = None ∧
      readAt h KCronJob (MkNN (OperatorNamespace r) (BackupCronJobName sv)) cj
  | _ => λ _, False
  end.

(** * The specification *)

Definition live_allowed (sv : SharedVolume) (h : list event) (c : call) : Prop :=
  match c with
  | CGet _ _ | CList _ _ | CEventf _ _ _ _ _ | CNow => True
  | CCreate k o => missing h k (ObjectKey k o) ∧ built sv h k o
  | CUpdate k o => updated sv h k o
  | CDelete k o prop => prop = None ∧ liveDelete sv h k o
  | CStatusUpdate u => sv_core u = sv_core sv ∧
      (Phase (sv_Status u) = PhaseReady → readyEarned sv h (Bindings (sv_Status u)))
  end.

(** The server is up behind an open gate. *)
Definition readyServer (sv : SharedVolume) (h : list event) (ready : bool) : Prop :=
  ready = true → serverUp sv h ∧ seedCleared sv h.

(** The two things that make the controller panic: a backup without a
    destination (rejected at admission), and a server Deployment whose stored
    template has no container. *)
Definition panicCause (sv : SharedVolume) (h : list event) : Prop :=
  (∃ b, Backup (sv_Spec sv) = Some b ∧ HostPath (Destination b) = None) ∨
  (∃ d, readAt h KDeployment (serverKey r sv) d ∧ pod_Containers (tpl_Spec (dep_Template d)) = []).

(** The status of [sv] is one the server returned. *)
Definition statusRead (h : list event) (sv : SharedVolume) : Prop :=
  ∃ sv0, volumeRead h sv0 ∧ sv_Status sv0 = sv_Status sv.

(** * Histories only gain facts *)

Lemma volumeRead_mono h tr sv0 : volumeRead h sv0 → volumeRead (h ++ tr) sv0.
Proof. intros [(key & ?)|(o & ?)]; [left|right]; eauto using elem_of_app_hist. Qed.

Lemma restoredRead_mono h tr b : restoredRead h b → restoredRead (h ++ tr) b.
Proof. intros (sv0 & ? & ?). exists sv0. auto using volumeRead_mono. Qed.

Lemma missing_mono h tr k key : missing h k key → missing (h ++ tr) k key.
Proof. intros (err & ? & ?). exists err. auto using elem_of_app_hist. Qed.

Lemma readAt_mono h tr k key o : readAt h k key o → readAt (h ++ tr) k key o.
Proof. apply elem_of_app_hist. Qed.

Lemma seedCleared_mono sv h tr : seedCleared sv h → seedCleared sv (h ++ tr).
Proof.
  intros [?|[?|[(d & ?)|(job & ? & ?)]]]; unfold seedCleared;
    eauto 8 using restoredRead_mono, readAt_mono.
Qed.

Lemma targetSeen_mono sv h tr ns : targetSeen sv h ns → targetSeen sv (h ++ tr) ns.
Proof.
  intros [(? & o & ? & ?)|(sel & selector & nss & o & ? & ? & ? & ?)]; [left|right].
  - eauto using readAt_mono.
  - exists sel, selector, nss, o. auto using elem_of_app_hist.
Qed.

Lemma serviceIP_mono sv h tr ip : serviceIP sv h ip → serviceIP sv (h ++ tr) ip.
Proof. intros (svc & ? & ?). exists svc. auto using readAt_mono. Qed.

Lemma serverUp_mono sv h tr : serverUp sv h → serverUp sv (h ++ tr).
Proof.
  intros (d & ? & Hd). exists d. split; [done|].
  destruct Hd as [?|[(o & ?)|(o & ?)]]; eauto 6 using readAt_mono, elem_of_app_hist.
Qed.

Lemma consumerBound_mono sv h tr ns : consumerBound sv h ns → consumerBound sv (h ++ tr) ns.
Proof. intros (pvc & ? & ?). exists pvc. auto using readAt_mono. Qed.

Lemma bindingEarned_mono sv h tr b : bindingEarned sv h b → bindingEarned sv (h ++ tr) b.
Proof. intros (? & ? & ?). split_and!; auto using targetSeen_mono, consumerBound_mono. Qed.

Lemma panicCause_mono sv h tr : panicCause sv h → panicCause sv (h ++ tr).
Proof. intros [?|(d & ? & ?)]; [by left|right]. exists d. auto using readAt_mono. Qed.

Lemma statusRead_mono h tr sv : statusRead h sv → statusRead (h ++ tr) sv.
Proof. intros (sv0 & ? & ?). exists sv0. auto using volumeRead_mono. Qed.

Lemma missing_now h k key err :
  IsNotFound err = true → missing (h ++ [Ev (CGet k key) (inl err)]) k key.
Proof. exists err. auto using event_now. Qed.

Lemma readAt_now h k key o : readAt (h ++ [Ev (CGet k key) (inr o)]) k key o.
Proof. apply event_now. Qed.

(** Only the name and the spec of the volume matter. *)
Lemma live_allowed_core sv1 sv2 h c :
  sv_core sv1 = sv_core sv2 → live_allowed sv1 h c → live_allowed sv2 h c.
Proof.
  intros Hcore. change (live_allowed (sv_core sv1) h c → live_allowed (sv_core sv2) h c).
  by rewrite Hcore.
Qed.

Lemma serviceIP_core sv1 sv2 h ip :
  sv_core sv1 = sv_core sv2 → serviceIP sv1 h ip → serviceIP sv2 h ip.
Proof.
  intros Hc. change (serviceIP (sv_core sv1) h ip → serviceIP (sv_core sv2) h ip). by rewrite Hc.
Qed.

Lemma serverUp_core sv1 sv2 h : sv_core sv1 = sv_core sv2 → serverUp sv1 h → serverUp sv2 h.
Proof. intros Hc. change (serverUp (sv_core sv1) h → serverUp (sv_core sv2) h). by rewrite Hc. Qed.

Lemma seedCleared_core sv1 sv2 h :
  sv_core sv1 = sv_core sv2 → seedCleared sv1 h → seedCleared sv2 h.
Proof.
  intros Hc. change (seedCleared (sv_core sv1) h → seedCleared (sv_core sv2) h). by rewrite Hc.
Qed.

Lemma bindingEarned_core sv1 sv2 h b :
  sv_core sv1 = sv_core sv2 → bindingEarned sv1 h b → bindingEarned sv2 h b.
Proof.
  intros Hc. change (bindingEarned (sv_core sv1) h b → bindingEarned (sv_core sv2) h b).
  by rewrite Hc.
Qed.

Lemma readyServer_core sv1 sv2 h ready :
  sv_core sv1 = sv_core sv2 → readyServer sv1 h ready → readyServer sv2 h ready.
Proof. intros Hc Hr Hready. destruct (Hr Hready). eauto using serverUp_core, seedCleared_core. Qed.

Lemma readyServer_mono sv h tr ready : readyServer sv h ready → readyServer sv (h ++ tr) ready.
Proof. intros Hr Hready. destruct (Hr Hready). auto using serverUp_mono, seedCleared_mono. Qed.
End Facts.

Create HintDb hist discriminated.
#[export] Hint Resolve elem_of_app_hist event_now deleted_mono deleted_now volumeRead_mono
  restoredRead_mono missing_mono readAt_mono seedCleared_mono targetSeen_mono serviceIP_mono
  serverUp_mono consumerBound_mono bindingEarned_mono readyServer_mono panicCause_mono statusRead_mono missing_now readAt_now claimGone_mono
  claimsGone_mono grown_refl grown_app : hist.
