(* ===== verification/LiveLogic.v ===== *)
(** Proof rules for [live_allowed]: [spec sv h p Q] says that from history [h] the
    program [p] respects the specification for volume [sv], returns values
    satisfying [Q], and panics only for a [panicCause].  The rules mirror the
    code: a call, an early return, a sequence. *)
From S2P Require Import Prelude Kube V1alpha1 Client Resources Lib Server Logic Bindings NetPolicy BackupJob Reconcile Teardown LiveSpec.

Definition post `{Lib} {A} (r : SharedVolumeReconciler) (sv : SharedVolume) (h : list event)
    (Q : list event → A → Prop) (h' : list event) (res : outcome A) : Prop :=
  grown h h' ∧
  match res with
  | Ok a => Q h' a
  | Err _ => True
  | Panic => panicCause r sv h'
  end.

Definition spec `{Lib} {A} (r : SharedVolumeReconciler) (rely : ∀ c, resp c → Prop)
    (sv : SharedVolume) (h : list event) (p : prog (outcome A)) (Q : list event → A → Prop) : Prop :=
  hwp (live_allowed r sv) rely p (post r sv h Q) h.

Section Rules.
Context `{Lib} (r : SharedVolumeReconciler) (rely : ∀ c, resp c → Prop).
Implicit Types (sv : SharedVolume) (h : list event).
Local Open Scope go_scope.

Lemma spec_ok {A} sv h (a : A) (Q : list event → A → Prop) : Q h a → spec r rely sv h (Ret (Ok a)) Q.
Proof. intros HQ. apply wp_ret. split; [apply grown_refl|done]. Qed.

Lemma spec_err {A} sv h e (Q : list event → A → Prop) : spec r rely sv h (Ret (Err e)) Q.
Proof. apply wp_ret. split; [apply grown_refl|done]. Qed.

Lemma spec_panic {A} sv h (Q : list event → A → Prop) :
  panicCause r sv h → spec r rely sv h (Ret Panic) Q.
Proof. intros HQ. apply wp_ret. split; [apply grown_refl|done]. Qed.

Lemma spec_mono {A} sv h (p : prog (outcome A)) (Q Q' : list event → A → Prop) :
  (∀ tr a, Q (h ++ tr) a → Q' (h ++ tr) a) → spec r rely sv h p Q → spec r rely sv h p Q'.
Proof.
  intros HQ. apply wp_mono. intros h' res [[tr ->] Hres]. split; [apply grown_app|].
  destruct res; auto.
Qed.

(** A later part of the program, seen from an earlier history. *)
Lemma spec_later {A} sv h tr (p : prog (outcome A)) (Q : list event → A → Prop) :
  spec r rely sv (h ++ tr) p Q → hwp (live_allowed r sv) rely p (post r sv h Q) (h ++ tr).
Proof.
  apply wp_mono. intros h' res [Hg Hres]. split; [|done].
  eapply grown_trans; [|exact Hg]. apply grown_app.
Qed.

Lemma spec_bindE {A B} sv h (p : prog (outcome A)) (f : A → prog (outcome B))
    (Q1 : list event → A → Prop) (Q2 : list event → B → Prop) :
  spec r rely sv h p Q1 →
  (∀ tr a, Q1 (h ++ tr) a → spec r rely sv (h ++ tr) (f a) Q2) →
  spec r rely sv h (bindE p f) Q2.
Proof.
  intros Hp Hf. apply wp_bindE. eapply wp_mono; [|exact Hp].
  intros h' [a|e|] [[tr ->] Ha]; [apply spec_later, Hf, Ha| |]; split; eauto with hist.
Qed.

(** A sequence whose second half works on another version of the volume. *)
Lemma spec_core {A} sv1 sv2 h (p : prog (outcome A)) (Q : list event → A → Prop) :
  sv_core sv1 = sv_core sv2 → spec r rely sv1 h p Q → spec r rely sv2 h p Q.
Proof.
  intros Hcore Hs. eapply wp_guar_mono; [intros ? ?; by apply live_allowed_core|].
  eapply wp_mono; [|exact Hs]. intros h' res [? Hres]. split; [done|].
  destruct res; try done.
  change (panicCause r (sv_core sv1) h') in Hres. by rewrite Hcore in Hres.
Qed.

Lemma spec_call {A} sv h c (k : resp c → prog (outcome A)) (Q : list event → A → Prop) :
  live_allowed r sv h c →
  (∀ a, rely c a → spec r rely sv (h ++ [Ev c a]) (k a) Q) →
  spec r rely sv h (trigger c ≫= k) Q.
Proof.
  intros Hc Hk. apply wp_bind, wp_trigger; [done|]. intros a h' [Ha ->]. apply spec_later, Hk, Ha.
Qed.

Lemma spec_orPanic {A B} sv h (o : option A) (f : A → prog (outcome B)) (Q : list event → B → Prop) :
  (o = None → panicCause r sv h) →
  (∀ a, o = Some a → spec r rely sv h (f a) Q) →
  spec r rely sv h (orPanic o f) Q.
Proof. intros Hn Hs. destruct o; [by apply Hs|]. apply spec_panic. by apply Hn. Qed.

(** * Shared helpers *)

Lemma spec_createOwned k sv sv0 (o : obj k) h :
  missing h k (ObjectKey k o) → (∀ o', ownedCopy k o o' → built r sv h k o') →
  spec r rely sv h (createOwned k sv0 o) (λ h' o', createdFrom h' k sv0 o o').
Proof.
  intros Hm Hb. eapply wp_mono; [|apply createOwned_hwp].
  - intros h' [o'|e|] (Hg & Ho & Hp); [split; auto|by split|done].
  - intros refs. split; [|apply Hb; by exists refs]. by destruct k.
Qed.

(** [if err := r.Get(...); IsNotFound(err) { createOwned }]. *)
Lemma spec_createIfMissing k sv sv0 (o : obj k) h :
  (∀ h' o', missing h' k (ObjectKey k o) → grown h h' → ownedCopy k o o' → built r sv h' k o') →
  spec r rely sv h (createIfMissing k sv0 o) (λ _ _, True).
Proof.
  intros Hb. unfold createIfMissing. apply spec_call; [done|]. intros [err|o'] _; [|by apply spec_ok].
  destruct (IsNotFound err) eqn:Hnf; [|by apply spec_err].
  eapply spec_bindE; [apply spec_createOwned|intros; by apply spec_ok]; [by eauto with hist|].
  intros o' Ho. apply Hb; [|apply grown_app|done]. by apply missing_now.
Qed.

Lemma spec_UpdateE k sv (o : obj k) h :
  updated r sv h k o →
  spec r rely sv h (UpdateE k o) (λ h' o', Ev (CUpdate k o) (inr o') ∈ h' ∧ rely (CUpdate k o) (inr o')).
Proof.
  intros Hu. eapply wp_mono; [|by apply UpdateE_hwp].
  intros h' [o'|e|] (Hg & Ho & Hp); [split; auto|by split|done].
Qed.

Lemma spec_DeleteIgnoreNotFound k sv (o : obj k) h :
  liveDelete r sv h k o →
  spec r rely sv h (DeleteIgnoreNotFound k o None) (λ h' _, deleted h' k o None).
Proof.
  intros Hd. eapply wp_mono; [|by apply DeleteIgnoreNotFound_hwp].
  intros h' [[]|e|] (Hg & Ho & Hp); [split; auto|by split|done].
Qed.
End Rules.

(** Enter the program: calls, branches and early returns; the rest is left. *)
Ltac spec_step :=
  lazymatch goal with
  | |- spec _ _ _ _ (Ret (Err _)) _ => apply spec_err
  | |- spec _ _ _ _ (Ret (Ok _)) _ => apply spec_ok
  | |- spec _ _ _ _ (Ret Panic) _ => apply spec_panic
  | |- spec _ _ _ _ (mbind _ (trigger _)) _ => apply spec_call; [try done|intros ? ?]
  | |- spec _ _ _ _ (mbind _ (Get _ _)) _ => apply spec_call; [done|intros ? ?]
  | |- spec _ _ _ _ (mbind _ (ListObjs _ _)) _ => apply spec_call; [done|intros ? ?]
  | |- spec _ _ _ _ (mbind _ Now) _ => apply spec_call; [done|intros ? ?]
  | |- spec _ _ _ _ (mbind _ (Eventf _ _ _ _ _)) _ => apply spec_call; [done|intros ? ?]
  | |- spec _ _ _ _ (orPanic _ _) _ => apply spec_orPanic; [|intros ? ?]
  | |- spec _ _ _ _ (let '(_, _) := ?x in _) _ => destruct x as [? ?] eqn:?
  | |- spec _ _ _ _ (match ?x with _ => _ end) _ => destruct x eqn:?
  | |- spec _ _ _ _ _ _ => progress cbn beta iota zeta
  end.

Ltac spec_auto := repeat spec_step.
