(* ===== verification/LiveServer.v ===== *)
(** The server stack respects [live_allowed]: the seed gate, ConfigMap,
    Deployment and Service of [reconcileServer]. *)
From S2P Require Import Prelude Kube V1alpha1 Client Resources Lib Server Logic Bindings NetPolicy BackupJob Reconcile Teardown LiveSpec LiveLogic.

Section Server.
Context `{Lib} (r : SharedVolumeReconciler) (rely : ∀ c, resp c → Prop).
Implicit Types (sv : SharedVolume) (h : list event).

Lemma backupPodSpec_None sv image script ro :
  backupPodSpec sv image script ro = None →
  Backup (sv_Spec sv) = None ∨ ∃ b, Backup (sv_Spec sv) = Some b ∧ HostPath (Destination b) = None.
Proof.
  unfold backupPodSpec. destruct (Backup (sv_Spec sv)) as [b|]; [|by left].
  simpl. destruct (HostPath _) eqn:Hh; [done|]. right. eauto.
Qed.

Lemma BuildSeedJob_None sv opns image :
  seedNotInPlay sv = false → BuildSeedJob sv opns image = None →
  ∃ b, Backup (sv_Spec sv) = Some b ∧ HostPath (Destination b) = None.
Proof.
  unfold BuildSeedJob, seedNotInPlay. intros Hp.
  destruct (backupPodSpec _ _ _ _) eqn:Hb; [done|]. intros _.
  apply backupPodSpec_None in Hb as [Hb|?]; [|done]. by rewrite Hb in Hp.
Qed.

Lemma BuildSeedJob_key sv job :
  BuildSeedJob sv (OperatorNamespace r) (BackupImage r) = Some job →
  ObjectKey KJob job = seedJobKey r sv.
Proof. unfold BuildSeedJob. destruct (backupPodSpec _ _ _ _); [|done]. by intros [= <-]. Qed.

Lemma BuildCronJob_None sv b opns image :
  Backup (sv_Spec sv) = Some b → BuildBackupCronJob sv opns image = None →
  HostPath (Destination b) = None.
Proof.
  unfold BuildBackupCronJob. intros Hb. rewrite Hb. simpl.
  destruct (backupPodSpec _ _ _ _) eqn:Hp; [done|]. intros _.
  apply backupPodSpec_None in Hp as [?|(b' & ? & ?)]; congruence.
Qed.

Lemma BuildCronJob_key sv cj :
  BuildBackupCronJob sv (OperatorNamespace r) (BackupImage r) = Some cj →
  ObjectKey KCronJob cj = MkNN (OperatorNamespace r) (BackupCronJobName sv).
Proof.
  unfold BuildBackupCronJob. destruct (Backup _); [|done]. simpl.
  destruct (backupPodSpec _ _ _ _); [|done]. by intros [= <-].
Qed.

(** Recording a condition reads the clock and changes only the status. *)
Lemma spec_setRestored {A} sv sv0 h st reason msg (k : SharedVolume * bool → prog (outcome A)) Q :
  (∀ now cs b, spec r rely sv (h ++ [Ev CNow now])
     (k (with_Status sv0 (set_Conditions cs (sv_Status sv0)), b)) Q) →
  spec r rely sv h (setRestoredCondition sv0 st reason msg ≫= k) Q.
Proof.
  intros Hk. unfold setRestoredCondition, Now. apply wp_bind, wp_bind, wp_trigger; [done|].
  intros now h' [_ ->]. destruct (SetStatusCondition _ _ _) as [cs b]. apply wp_ret.
  apply spec_later, Hk.
Qed.

(** What the gate returns. *)
Definition seedPost sv (h : list event) (res : bool * SharedVolume) : Prop :=
  sv_core res.2 = sv_core sv ∧ (res.1 = true → seedCleared r sv h).

Lemma reconcileSeed_spec sv h :
  statusRead h sv → spec r rely sv h (reconcileSeed r sv) (seedPost sv).
Proof.
  intros (sv0 & Hread & Hst). unfold reconcileSeed.
  destruct (seedNotInPlay sv) eqn:Hp; [by apply spec_ok; split; [|left]|].
  destruct (IsStatusConditionTrue _ _) eqn:Hc.
  { apply spec_ok. split; [done|]. intros _. right. left. exists sv0. split; [done|].
    unfold restored. by rewrite Hst. }
  assert (restoredRead h false) as Hfalse by (exists sv0; unfold restored; by rewrite Hst).
  apply spec_call; [done|]. intros [err|d] _.
  2: { apply spec_setRestored. intros now cs b. apply spec_ok. split; [done|]. intros _.
       right. right. left. exists d. auto with hist. }
  destruct (IsNotFound err) eqn:Hnf; simpl; [|apply spec_err].
  apply spec_orPanic; [intros Hj; left; by eapply BuildSeedJob_None|]. intros job Hjob.
  pose proof (BuildSeedJob_key sv job Hjob) as Hkey.
  apply spec_call; [done|]. intros [err'|existing] _.
  - destruct (IsNotFound err') eqn:Hnf'; [|apply spec_err].
    eapply spec_bindE; [apply (spec_createOwned _ _ KJob)|].
    + eauto with hist.
    + intros o' Ho. split; [|by exists job].
      split_and!; [done| |]; eauto with hist.
    + intros tr o' _. apply spec_setRestored. intros. by apply spec_ok.
  - destruct (jobHasCondition existing JobComplete) eqn:Hdone.
    { apply spec_setRestored. intros now cs b. apply spec_ok. split; [done|]. intros _.
      right. right. right. exists existing. split; [|done]. rewrite <- Hkey. auto with hist. }
    destruct (jobHasCondition existing JobFailed); apply spec_setRestored; intros now cs b;
      [|by apply spec_ok].
    destruct b; [|by apply spec_ok]. apply spec_call; [done|]. intros. by apply spec_ok.
Qed.

Lemma ensureConfigMap_spec sv h :
  spec r rely sv h (ensureConfigMap sv (BuildConfigMap sv (OperatorNamespace r))) (λ _ _, True).
Proof.
  unfold ensureConfigMap. apply spec_call; [done|]. intros [err|cm] _.
  - destruct (IsNotFound err) eqn:Hnf; [|apply spec_err].
    eapply spec_mono; [|apply (spec_createOwned _ _ KConfigMap)]; eauto with hist.
  - case_decide as Hd; [|by apply spec_ok].
    eapply spec_bindE; [apply (spec_UpdateE _ _ KConfigMap)|intros; by apply spec_ok].
    exists cm. split_and!; [apply readAt_now|done|done].
Qed.

Lemma ensureDeployment_spec sv cm h :
  seedCleared r sv h →
  spec r rely sv h (ensureDeployment r sv cm) (λ h' ready, ready = true → serverUp r sv h').
Proof.
  intros Hs. unfold ensureDeployment. apply spec_call; [done|]. intros e _.
  set (P := λ h' d, (0 < dep_ReadyReplicas d)%Z →
    readAt h' KDeployment (serverKey r sv) d ∨
    (∃ o, Ev (CCreate KDeployment o) (inr d) ∈ h') ∨ (∃ o, Ev (CUpdate KDeployment o) (inr d) ∈ h')).
  eapply (spec_bindE _ _ _ _ _ _ P).
  2: { intros tr d Hd. apply spec_ok. rewrite Z.ltb_lt. intros Hr. exists d. auto. }
  destruct e as [err|d].
  - destruct (IsNotFound err) eqn:Hnf; [|apply spec_err].
    eapply spec_mono; [|apply (spec_createOwned _ _ KDeployment); [by eauto with hist|]].
    + intros tr d (refs & _ & [Hev|[-> _]]) Hr; [by eauto|]. simpl in Hr. lia.
    + intros o' Ho. split; eauto with hist.
  - apply spec_orPanic.
    { unfold templateDrifted. destruct (pod_Containers (tpl_Spec (dep_Template d))) eqn:Hc; [|by intros]. intros _.
      right. exists d. split; [apply readAt_now|done]. }
    intros [] Hdrift; [|by apply spec_ok; intros _; left; apply readAt_now].
    eapply spec_mono; [|apply (spec_UpdateE _ _ KDeployment)].
    + intros tr d' [Hev _] _. eauto.
    + split; [auto with hist|]. exists d, cm. split_and!; [apply readAt_now|done|done].
Qed.

Lemma ensureService_spec sv h :
  spec r rely sv h (ensureService r sv) (λ h' ip, serviceIP r sv h' ip).
Proof.
  unfold ensureService. apply spec_call; [done|]. intros [err|svc] _.
  2: { apply spec_ok. exists svc. split; [apply readAt_now|done]. }
  destruct (IsNotFound err) eqn:Hnf; [|apply spec_err].
  eapply spec_bindE; [apply (spec_createOwned _ _ KService)|].
  - eauto with hist.
  - done.
  - intros tr _ _. apply spec_call; [done|]. intros [err'|svc] _; [apply spec_err|].
    apply spec_ok. exists svc. split; [apply readAt_now|done].
Qed.

(** What [reconcileServer] hands on. *)
Definition serverPost sv (h : list event) (res : string * bool * SharedVolume) : Prop :=
  let '(ip, ready, sv') := res in
  sv_core sv' = sv_core sv ∧ serviceIP r sv h ip ∧ readyServer r sv h ready.

Lemma reconcileServer_spec sv h :
  statusRead h sv → spec r rely sv h (reconcileServer r sv) (serverPost sv).
Proof.
  intros Hst. unfold reconcileServer.
  eapply spec_bindE; [apply (spec_createIfMissing _ _ KPVC); by left|]. intros tr1 _ _.
  eapply spec_bindE; [apply ensureConfigMap_spec|]. intros tr2 cm _.
  eapply spec_bindE; [apply reconcileSeed_spec; by auto with hist|].
  intros tr3 [seeded sv'] [Hcore Hseed]; simpl in *.
  apply (spec_core _ _ sv'); [done|].
  assert (seeded = true → seedCleared r sv' (((h ++ tr1) ++ tr2) ++ tr3)) as Hseed'
    by eauto using seedCleared_core.
  eapply (spec_bindE _ _ _ _ _ _ (readyServer r sv')).
  { destruct seeded; [|by apply spec_ok].
    eapply spec_mono; [|by apply ensureDeployment_spec; auto].
    intros tr ready Hup Hready. split; [auto|]. auto with hist. }
  intros tr4 ready Hup.
  eapply spec_bindE; [apply ensureService_spec|]. intros tr5 ip Hip. apply spec_ok.
  split_and!; [done|by eapply serviceIP_core|]. eapply readyServer_core; [done|]. auto with hist.
Qed.
End Server.
