(* ===== verification/LiveBindings.v ===== *)
(** Targets, bindings, stale pairs, network policy and backup respect
    [live_allowed]. *)
From S2P Require Import Prelude Kube V1alpha1 Client Resources Lib Server Logic Bindings NetPolicy BackupJob Reconcile Teardown LiveSpec LiveLogic LiveServer.

(** What [cleanupStaleBindings] may do: it deletes a PVC only when the claim of a
    listed PV whose namespace is no target, and a PV only once that claim is gone. *)
Definition stalePair (sv : SharedVolume) (targets : list string) (h : list event)
    (pv : PersistentVolume) (ref : ObjectReference) : Prop :=
  (∃ pvs, listed sv h pvs ∧ pv ∈ pvs) ∧ pvs_ClaimRef (pv_Spec pv) = Some ref ∧
  ref_Namespace ref ∉ targets.

Definition cleanup_allowed (sv : SharedVolume) (targets : list string) (h : list event) (c : call)
    : Prop :=
  match c with
  | CGet _ _ | CList _ _ => True
  | CDelete k o prop => prop = None ∧
      match k return obj k → Prop with
      | KPVC => λ pvc, Time_IsZero (DeletionTimestamp (pvc_ObjectMeta pvc)) = true ∧
          pvcOwned sv pvc = true ∧
          ∃ pv ref, stalePair sv targets h pv ref ∧ readAt h KPVC (claimKey ref) pvc
      | KPV => λ pv, ∃ ref, stalePair sv targets h pv ref ∧ claimGone sv h ref
      | _ => λ _, False
      end o
  | _ => False
  end.

Section Bindings.
Context `{Lib} (r : SharedVolumeReconciler) (rely : ∀ c, resp c → Prop).
Implicit Types (sv : SharedVolume) (h : list event).

(** * Targets *)

Definition targetsSeen sv (h : list event) (set : gset string) : Prop :=
  ∀ ns, ns ∈ set → targetSeen sv h ns.

Lemma targetsSeen_mono sv h tr set : targetsSeen sv h set → targetsSeen sv (h ++ tr) set.
Proof. intros Hs ns Hns. apply targetSeen_mono. by apply Hs. Qed.

Lemma namedTargets_spec sv names set h :
  names ⊆ Names (Namespaces (sv_Spec sv)) → targetsSeen sv h set →
  spec r rely sv h (namedTargets names set) (λ h' set', targetsSeen sv h' set').
Proof.
  revert set h. induction names as [|name names IH]; intros set h Hsub Hset; cbn [namedTargets].
  { by apply spec_ok. }
  assert (names ⊆ Names (Namespaces (sv_Spec sv))) as Hsub' by set_solver.
  apply spec_call; [done|]. intros [err|o] _; [destruct (IsNotFound err)|].
  - apply IH; auto using targetsSeen_mono.
  - apply spec_err.
  - apply IH; [done|]. destruct (nsAlive o) eqn:Ho; [|by apply targetsSeen_mono].
    intros ns [->%elem_of_singleton|Hin]%elem_of_union; [|by apply targetSeen_mono, Hset].
    left. split; [set_solver|]. exists o. auto with hist.
Qed.

Lemma targetNamespaces_spec sv h :
  spec r rely sv h (targetNamespaces sv) (λ h' targets, ∀ ns, ns ∈ targets → targetSeen sv h' ns).
Proof.
  unfold targetNamespaces.
  eapply spec_bindE; [apply namedTargets_spec; [done|by intros ? ?%elem_of_empty]|]. intros tr1 set Hset.
  eapply (spec_bindE _ _ _ _ _ _ (λ h' set', targetsSeen sv h' set')).
  - destruct (NsSelector _) as [sel|] eqn:Hsel; [|by apply spec_ok].
    destruct (LabelSelectorAsSelector sel) as [err|selector] eqn:Hs; [apply spec_err|].
    apply spec_call; [done|]. intros [err|nss] _; [apply spec_err|]. apply spec_ok.
    intros ns [Hin|(o & ? & ? & ?)]%listedTargets_elem; [by apply targetSeen_mono, Hset|].
    right. exists sel, selector, nss, o. split_and!; auto with hist.
  - intros tr2 set' Hset'. apply spec_ok. intros ns Hns%elem_of_sortedKeys. by apply Hset'.
Qed.

(** * Bindings *)

Lemma ensurePV_spec sv ns ip h :
  targetSeen sv h ns → ip ≠ "" → serviceIP r sv h ip →
  spec r rely sv h (ensurePV sv ns ip) (λ _ _, True).
Proof.
  intros Hns Hip Hsvc. unfold ensurePV. apply spec_call; [done|]. intros [err|pv] _.
  - destruct (IsNotFound err) eqn:Hnf; [|apply spec_err].
    eapply spec_bindE; [apply (spec_createOwned _ _ KPV)|intros; by apply spec_ok].
    + eauto with hist.
    + intros o' Ho. exists ns, ip. auto with hist.
  - destruct (pvs_ClaimRef _) as [ref|] eqn:Href; [|by apply spec_ok].
    case_decide as Hd; [|by apply spec_ok]. destruct Hd.
    eapply spec_bindE; [apply (spec_UpdateE _ _ KPV)|intros; by apply spec_ok].
    exists ns, pv, ref. split_and!; auto with hist.
Qed.

Lemma reconcileBinding_spec sv ns ip h :
  targetSeen sv h ns → ip ≠ "" → serviceIP r sv h ip →
  spec r rely sv h (reconcileBinding sv ns ip)
    (λ h' phase, phase = BindingBound → consumerBound sv h' ns).
Proof.
  intros Hns Hip Hsvc. unfold reconcileBinding.
  eapply spec_bindE; [by apply ensurePV_spec|]. intros tr _ _.
  apply spec_call; [done|]. intros [err|pvc] _.
  - destruct (IsNotFound err) eqn:Hnf; [|apply spec_err].
    eapply spec_bindE; [apply (spec_createOwned _ _ KPVC)|intros; by apply spec_ok].
    + eauto with hist.
    + intros o' Ho. right. exists ns. auto with hist.
  - destruct (pvcOwned sv pvc) eqn:Hown; simpl.
    2: { apply spec_call; [done|]. intros ? _. by apply spec_ok. }
    destruct (Time_IsZero _) eqn:Hz; simpl; [|by apply spec_ok].
    case_decide as Hb; [|by apply spec_ok]. apply spec_ok. intros _.
    exists pvc. split_and!; auto with hist.
Qed.

Lemma reconcileBindings_spec sv targets ip h :
  (∀ ns, ns ∈ targets → targetSeen sv h ns) → ip ≠ "" → serviceIP r sv h ip →
  spec r rely sv h (reconcileBindings sv targets ip)
    (λ h' bs, (∀ b, b ∈ bs → bindingEarned sv h' b)).
Proof.
  revert h. induction targets as [|ns targets IH]; intros h Hns Hip Hsvc; cbn [reconcileBindings].
  { apply spec_ok. by intros b ?%elem_of_nil. }
  eapply spec_bindE; [apply reconcileBinding_spec; [apply Hns; by left|done|done]|].
  intros tr phase Hphase.
  eapply spec_bindE; [apply IH; [|done|auto with hist]|].
  - intros ns' ?. apply targetSeen_mono, Hns. by right.
  - intros tr' bs Hbs. apply spec_ok. intros b [->|Hin]%elem_of_cons; [|by apply Hbs].
    split_and!; simpl; [|done|].
    + apply targetSeen_mono, targetSeen_mono, Hns. by left.
    + intros Hb. apply consumerBound_mono. auto.
Qed.

(** * Stale pairs *)

Lemma stalePair_mono sv targets h tr pv ref :
  stalePair sv targets h pv ref → stalePair sv targets (h ++ tr) pv ref.
Proof.
  intros ((pvs & ? & ?) & ? & ?). split; [|done]. exists pvs.
  split; [by apply elem_of_app_hist|done].
Qed.

Lemma cleanupLoop_hwp sv targets all pvs h :
  listed sv h all → pvs ⊆ all →
  hwp (cleanup_allowed sv targets) rely (cleanupLoop sv targets pvs)
    (λ h' res, grown h h' ∧ res ≠ Panic) h.
Proof.
  revert h. induction pvs as [|pv pvs IH]; intros h Hl Hsub; cbn [cleanupLoop].
  { apply wp_ret. split; [apply grown_refl|done]. }
  assert (pvs ⊆ all) as Hsub' by set_solver.
  assert (∀ tr, hwp (cleanup_allowed sv targets) rely (cleanupLoop sv targets pvs)
    (λ h' res, grown h h' ∧ res ≠ Panic) (h ++ tr)) as Hrest.
  { intros tr. eapply wp_mono; [|apply IH; [by apply elem_of_app_hist|done]].
    intros h' res [Hg ?]. split; [|done]. eapply grown_trans; [apply grown_app|done]. }
  assert (hwp (cleanup_allowed sv targets) rely (cleanupLoop sv targets pvs)
    (λ h' res, grown h h' ∧ res ≠ Panic) h) as Hrest0.
  { specialize (Hrest []). by rewrite app_nil_r in Hrest. }
  destruct (pvs_ClaimRef (pv_Spec pv)) as [ref|] eqn:Href; [|done].
  destruct (slicesContains targets (ref_Namespace ref)) eqn:Ht; [done|].
  apply slicesContains_false in Ht.
  assert (stalePair sv targets h pv ref) as Hstale.
  { split; [exists all; split; [done|set_solver]|done]. }
  assert (∀ k (o : obj k) tr, cleanup_allowed sv targets (h ++ tr) (CDelete k o None) →
    hwp (cleanup_allowed sv targets) rely
      (bindE (DeleteIgnoreNotFound k o None) (λ _, cleanupLoop sv targets pvs))
      (λ h' res, grown h h' ∧ res ≠ Panic) (h ++ tr)) as Hdel.
  { intros k o tr Ha. hwp_call DeleteIgnoreNotFound_hwp; [|done].
    intros h' [[]|e|] ([tr' ->] & _ & Hp); [| |done]; rewrite <- (assoc_L (++));
      [apply Hrest|split; [apply grown_app|done]]. }
  apply wp_bind, wp_trigger; [done|]. intros [err|pvc] h' [_ ->].
  - destruct (IsNotFound err) eqn:Hnf; [|apply wp_ret; split; [apply grown_app|done]].
    apply Hdel. split; [done|]. exists ref. split; [by apply stalePair_mono|].
    left. exists err. auto using event_now.
  - destruct (pvcOwned sv pvc) eqn:Hown.
    + destruct (Time_IsZero _) eqn:Hz; [|apply wp_bindE, wp_ret, Hrest].
      apply Hdel. split_and!; [done..|]. exists pv, ref.
      split; [by apply stalePair_mono|apply event_now].
    + apply Hdel. split; [done|]. exists ref. split; [by apply stalePair_mono|].
      right. exists pvc. auto using event_now.
Qed.

Lemma cleanupStaleBindings_hwp sv targets h :
  hwp (cleanup_allowed sv targets) rely (cleanupStaleBindings sv targets)
    (λ h' res, grown h h' ∧ res ≠ Panic) h.
Proof.
  unfold cleanupStaleBindings. apply wp_bind, wp_trigger; [done|]. intros [err|pvs] h' [_ ->].
  { apply wp_ret. split; [apply grown_app|done]. }
  eapply wp_mono; [|apply (cleanupLoop_hwp sv targets pvs); [apply event_now|done]].
  intros h' res [? ?]. split; [|done]. eapply grown_trans; [apply grown_app|done].
Qed.

Lemma cleanup_live sv targets h c : cleanup_allowed sv targets h c → live_allowed r sv h c.
Proof.
  destruct c as [k key|k opt|k o|k o|sv'|k o prop|sv' a b d e|]; try done.
  intros [-> Hd]. split; [done|]. destruct k; try done; simpl in *.
  - destruct Hd as (? & ? & pv & ref & ((pvs & ? & ?) & ? & _) & ?). eauto 10.
  - destruct Hd as (ref & ((pvs & ? & ?) & Href & _) & ?). exists pvs. split_and!; [done..|].
    intros ref' ?. simplify_eq. done.
Qed.

Lemma cleanupStaleBindings_spec sv targets h :
  spec r rely sv h (cleanupStaleBindings sv targets) (λ _ _, True).
Proof.
  eapply wp_guar_mono; [intros ? ?; apply (cleanup_live sv targets)|].
  eapply wp_mono; [|apply cleanupStaleBindings_hwp]. intros h' [|e|] [? ?]; by split.
Qed.

Lemma ensureBindings_spec sv targets ip h :
  (∀ ns, ns ∈ targets → targetSeen sv h ns) → serviceIP r sv h ip →
  spec r rely sv h (ensureBindings sv targets ip)
    (λ h' bs, (∀ b, b ∈ bs → bindingEarned sv h' b) ∧ (ip = "" → bs = [])).
Proof.
  intros Ht Hs. unfold ensureBindings. case_decide as Hip.
  2: { apply spec_ok. split; [|done]. by intros b ?%elem_of_nil. }
  eapply spec_bindE; [by apply reconcileBindings_spec|]. intros tr1 bs Hbs.
  eapply spec_bindE; [apply cleanupStaleBindings_spec|]. intros tr2 _ _. apply spec_ok.
  split; [|done]. intros b Hb. apply bindingEarned_mono. by apply Hbs.
Qed.

(** * Network policy *)

Lemma spec_nodeIPs sv h : spec r rely sv h nodeIPs (λ _ _, True).
Proof.
  unfold nodeIPs. apply spec_call; [done|]. intros [err|nodes] _; [apply spec_err|by apply spec_ok].
Qed.

Lemma reconcileNetworkPolicy_spec sv targets h :
  (∀ ns, ns ∈ targets → targetSeen sv h ns) →
  spec r rely sv h (reconcileNetworkPolicy r sv targets) (λ _ _, True).
Proof.
  intros Ht. unfold reconcileNetworkPolicy. apply spec_call; [done|]. intros [err|np] _.
  - destruct (IsNotFound err) eqn:Hnf; simpl; [|apply spec_err].
    case_decide as Hdis; [by apply spec_ok|].
    eapply spec_bindE; [apply spec_nodeIPs|]. intros tr ips _.
    eapply spec_bindE; [apply (spec_createOwned _ _ KNetworkPolicy)|intros; by apply spec_ok].
    + eauto with hist.
    + intros o' Ho. split; [done|]. exists targets, ips. split; auto with hist.
  - case_decide as Hdis.
    + eapply spec_mono; [|apply (spec_DeleteIgnoreNotFound _ _ KNetworkPolicy)]; [done|].
      split; [done|apply readAt_now].
    + eapply spec_bindE; [apply spec_nodeIPs|]. intros tr ips _. cbn beta zeta.
      destruct (SemanticDeepEqual _ _) eqn:Hd; simpl; [by apply spec_ok|].
      eapply spec_bindE; [apply (spec_UpdateE _ _ KNetworkPolicy)|intros; by apply spec_ok].
      split; [done|]. exists np, targets, ips. split_and!; auto with hist.
Qed.

(** * Backup *)

Lemma drift_None cj want sv :
  BuildBackupCronJob sv (OperatorNamespace r) (BackupImage r) = Some want →
  backupCronJobDrifted cj want ≠ None.
Proof.
  unfold BuildBackupCronJob. destruct (Backup _); [|done]. simpl.
  destruct (backupPodSpec _ _ _ _) as [p|] eqn:Hp; [|done]. simpl. intros [= <-].
  revert Hp. unfold backupPodSpec. destruct (Backup _); [|done]. simpl.
  destruct (HostPath _); [|done]. simpl. intros [= <-].
  unfold backupCronJobDrifted. simpl. case_decide; [done|]. case_decide; [done|].
  destruct (pod_Containers (cronPod cj)) as [|? []]; [done| |done]. simpl.
  case_decide; [done|]. by destruct (slicesEqual _ _).
Qed.

Lemma reconcileBackup_spec sv h :
  spec r rely sv h (reconcileBackup r sv) (λ _ sv', sv_core sv' = sv_core sv).
Proof.
  unfold reconcileBackup. apply spec_call; [done|]. intros e _.
  destruct (Backup (sv_Spec sv)) as [b|] eqn:Hb.
  - apply spec_orPanic.
    { intros Hn. left. exists b. split; [done|]. by eapply BuildCronJob_None. }
    intros want Hwant. pose proof (BuildCronJob_key r sv want Hwant) as Hkey.
    destruct e as [err|cj].
    + destruct (IsNotFound err) eqn:Hnf; [|apply spec_err].
      eapply spec_bindE; [apply (spec_createOwned _ _ KCronJob)|intros; by apply spec_ok].
      * rewrite Hkey. auto with hist.
      * intros o' Ho. by exists want.
    + apply spec_orPanic; [intros Hn; by destruct (drift_None cj want sv Hwant)|].
      intros drifted Hd.
      eapply (spec_bindE _ _ _ _ _ _ (λ _ _, True)); [|intros; by apply spec_ok].
      destruct drifted; [|by apply spec_ok].
      eapply spec_mono; [|apply (spec_UpdateE _ _ KCronJob)]; [done|].
      exists cj, want. split_and!; auto with hist.
  - destruct e as [err|cj].
    + destruct (IsNotFound err); [by apply spec_ok|apply spec_err].
    + eapply spec_bindE; [apply (spec_DeleteIgnoreNotFound _ _ KCronJob)|intros; by apply spec_ok].
      split; [done|apply readAt_now].
Qed.
End Bindings.
