(* ===== verification/StatusFacts.v ===== *)
(** The status rollup: what [updateStatus] counts, and which phase it reports. *)
From S2P Require Import Prelude Kube V1alpha1 Client Resources Lib Server Bindings Reconcile MemCluster.

(** The update [updateStatus] submits: the rollup of the bindings, the two
    conditions, and nothing else changed. *)
Definition statusWritten `{Lib} (r : SharedVolumeReconciler) (sv : SharedVolume) (ip : string)
    (ready : bool) (bs : list NamespaceBinding) (u : SharedVolume) : Prop :=
  let st := sv_Status u in
  sv_ObjectMeta u = sv_ObjectMeta sv ∧ sv_Spec u = sv_Spec sv ∧
  (Phase st = PhaseReady ↔ ip ≠ "" ∧ ready = true ∧ bs ≠ [] ∧ ∀ b, b ∈ bs → nb_Phase b = BindingBound) ∧
  (Phase st = PhaseDegraded ↔ ∃ b, b ∈ bs ∧ nb_Phase b = BindingConflict) ∧
  Phase st ∈ [PhaseReady; PhaseDegraded; PhaseProvisioning] ∧
  Bindings st = bs ∧
  BoundSummary st = sprint_d (Z.of_nat (countBound bs)) +:+ "/" +:+ sprint_d (len bs) ∧
  ServerEndpointField st =
    (if decide (ip = "") then ServerEndpointField (sv_Status sv) else ip +:+ ":2049") ∧
  ObservedGeneration st = Generation (sv_ObjectMeta sv) ∧
  LastBackupTime st = LastBackupTime (sv_Status sv) ∧
  IsStatusConditionTrue (Conditions st) ConditionServerReady = ready ∧
  (IsStatusConditionTrue (Conditions st) ConditionAllBound = true ↔
     bs ≠ [] ∧ ∀ b, b ∈ bs → nb_Phase b = BindingBound) ∧
  ∀ t, t ≠ ConditionServerReady → t ≠ ConditionAllBound →
    FindStatusCondition (Conditions st) t = FindStatusCondition (Conditions (sv_Status sv)) t.

(** * Counting *)

Lemma countBindings_from bs n c :
  foldl (λ '(bound, conflict) b,
           if decide (nb_Phase b = BindingBound) then ((bound + 1)%Z, conflict)
           else if decide (nb_Phase b = BindingConflict) then (bound, true)
           else (bound, conflict)) (n, c) bs
  = ((n + Z.of_nat (countBound bs))%Z, c || anyConflict bs).
Proof.
  revert n c. unfold countBound, anyConflict.
  induction bs as [|b bs IH]; intros n c; simpl; [by rewrite Z.add_0_r, orb_false_r|].
  rewrite filter_cons. case_decide as Hb; simpl.
  { rewrite IH. rewrite bool_decide_eq_false_2 by (rewrite Hb; done). simpl. f_equal. lia. }
  case_decide as Hc; rewrite IH; [|by rewrite bool_decide_eq_false_2].
  rewrite bool_decide_eq_true_2 by done. by rewrite orb_true_r.
Qed.

Lemma countBindings_eq bs : countBindings bs = (Z.of_nat (countBound bs), anyConflict bs).
Proof. apply countBindings_from. Qed.

Lemma countBound_le bs : countBound bs ≤ length bs.
Proof. apply length_filter. Qed.

(** The counter reaches the total exactly when every binding is Bound. *)
Lemma countBound_all bs :
  countBound bs = length bs ↔ ∀ b, b ∈ bs → nb_Phase b = BindingBound.
Proof.
  unfold countBound. induction bs as [|b bs IH].
  { split; [by intros _ b ?%elem_of_nil|done]. }
  rewrite filter_cons. pose proof (length_filter (λ b, nb_Phase b = BindingBound) bs) as Hle.
  case_decide as Hb; simpl.
  - rewrite Nat.succ_inj_wd, IH. split; intros Hall b' Hin; [|apply Hall; by right].
    apply elem_of_cons in Hin as [->|Hin]; auto.
  - split; [lia|]. intros Hall. destruct Hb. apply Hall. by left.
Qed.

Lemma anyConflict_true bs :
  anyConflict bs = true ↔ ∃ b, b ∈ bs ∧ nb_Phase b = BindingConflict.
Proof.
  unfold anyConflict. rewrite existsb_exists. split; intros (b & Hin & Hb); exists b.
  - apply bool_decide_eq_true in Hb. by rewrite list_elem_of_In.
  - rewrite list_elem_of_In in Hin. by rewrite bool_decide_eq_true.
Qed.

(** * The phase *)

Lemma allBound_test bs :
  (0 <? len bs)%Z && (Z.of_nat (countBound bs) =? len bs)%Z = true ↔
  bs ≠ [] ∧ ∀ b, b ∈ bs → nb_Phase b = BindingBound.
Proof.
  unfold len. rewrite andb_true_iff, Z.ltb_lt, Z.eqb_eq, Nat2Z.inj_iff, countBound_all.
  split; intros [Hn Hall]; (split; [|done]); destruct bs; simpl in *; (done || lia).
Qed.

(** Ready, exactly. *)
Lemma statusPhase_Ready conflict ip ready bound total :
  statusPhase conflict ip ready bound total = PhaseReady ↔
  conflict = false ∧ ip ≠ "" ∧ ready = true ∧ (0 <? total)%Z && (bound =? total)%Z = true.
Proof.
  unfold statusPhase. destruct conflict; [by split; [|intros [? _]]|].
  destruct (bool_decide (ip = "")) eqn:Hip; simpl.
  { apply bool_decide_eq_true in Hip. split; [done|]. by intros (_ & ? & _). }
  apply bool_decide_eq_false in Hip. destruct ready; simpl; [|by split; [|intros (_ & _ & ? & _)]].
  destruct ((0 <? total)%Z && _) eqn:Ht; [|by split; [|intros (_ & _ & _ & ?)]]. by split.
Qed.

Lemma statusPhase_Degraded conflict ip ready bound total :
  statusPhase conflict ip ready bound total = PhaseDegraded ↔ conflict = true.
Proof.
  unfold statusPhase. destruct conflict; [done|].
  destruct (bool_decide (ip = "") || negb ready); [done|]. by case_match.
Qed.

Lemma statusPhase_cases conflict ip ready bound total :
  statusPhase conflict ip ready bound total ∈ [PhaseReady; PhaseDegraded; PhaseProvisioning].
Proof. unfold statusPhase. repeat case_match; set_solver. Qed.

Section Rollup.
Context `{Lib} (r : SharedVolumeReconciler).

(** The rolled-up phase in terms of the inputs alone. *)
Lemma rollup_Ready sv ip ready bs :
  Phase (rollup r sv ip ready bs) = PhaseReady ↔
  ip ≠ "" ∧ ready = true ∧ bs ≠ [] ∧ ∀ b, b ∈ bs → nb_Phase b = BindingBound.
Proof.
  unfold rollup. rewrite countBindings_eq. simpl. rewrite statusPhase_Ready, allBound_test.
  split; [tauto|]. intros (? & ? & ? & Hall). split_and!; [|done..].
  apply not_true_iff_false. rewrite anyConflict_true. intros (b & Hin & Hb).
  rewrite (Hall b Hin) in Hb. done.
Qed.

Lemma rollup_Degraded sv ip ready bs :
  Phase (rollup r sv ip ready bs) = PhaseDegraded ↔ ∃ b, b ∈ bs ∧ nb_Phase b = BindingConflict.
Proof. unfold rollup. rewrite countBindings_eq. simpl. by rewrite statusPhase_Degraded, anyConflict_true. Qed.

Lemma rollup_Bindings sv ip ready bs : Bindings (rollup r sv ip ready bs) = bs.
Proof. unfold rollup. by rewrite countBindings_eq. Qed.
End Rollup.

(** * Conditions *)

Section Conditions.
Context `{Lib} {L : LibLaws}.

(** Setting a condition decides [IsStatusConditionTrue] on its type. *)
Lemma SetStatusCondition_verdict now cs c :
  IsStatusConditionTrue (SetStatusCondition now cs c).1 (cond_Type c)
  = bool_decide (cond_Status c = ConditionTrue).
Proof.
  destruct (SetStatusCondition_same now cs c) as [t Ht]. case_bool_decide as Hst.
  - apply IsStatusConditionTrue_spec. eexists. split; [exact Ht|done].
  - apply not_true_iff_false. rewrite IsStatusConditionTrue_spec. intros (c' & Hc & Hs).
    rewrite Ht in Hc. by injection Hc as <-.
Qed.

Lemma IsStatusConditionTrue_ext cs cs' t :
  FindStatusCondition cs t = FindStatusCondition cs' t →
  IsStatusConditionTrue cs t = IsStatusConditionTrue cs' t.
Proof. intros Hf. apply eq_true_iff_eq. by rewrite !IsStatusConditionTrue_spec, Hf. Qed.

Lemma boolToCondition_true b : bool_decide (boolToCondition b = ConditionTrue) = b.
Proof. by destruct b. Qed.

(** The submitted object. *)
Lemma statusWritten_update r sv ip ready bs t1 t2 :
  statusWritten r sv ip ready bs
    (with_Status sv
       (set_Conditions
          (SetStatusCondition t2
             (SetStatusCondition t1 (Conditions (rollup r sv ip ready bs)) (serverReadyCondition sv ready)).1
             (allBoundCondition sv (Z.of_nat (countBound bs)) (len bs))).1
          (rollup r sv ip ready bs))).
Proof.
  unfold statusWritten. cbn [with_Status sv_Status sv_ObjectMeta sv_Spec set_Conditions Phase Bindings
    BoundSummary ServerEndpointField ObservedGeneration LastBackupTime Conditions].
  split_and!; [done|done|apply rollup_Ready|apply rollup_Degraded| |apply rollup_Bindings| | | | | | |].
  1-5: unfold rollup; rewrite countBindings_eq; cbn; try done.
  - apply statusPhase_cases.
  - by case_decide; case_decide.
  - erewrite IsStatusConditionTrue_ext; [|by apply SetStatusCondition_other].
    etrans; [apply (SetStatusCondition_verdict _ _ (serverReadyCondition sv ready))|].
    apply boolToCondition_true.
  - rewrite <- allBound_test. assert (∀ a b : bool, a = b → a = true ↔ b = true) as Hb by (by intros ? ? ->).
    apply Hb.
    etrans; [apply (SetStatusCondition_verdict _ _ (allBoundCondition sv (Z.of_nat (countBound bs)) (len bs)))|].
    apply boolToCondition_true.
  - intros t Hs Ha. rewrite !SetStatusCondition_other by done.
    unfold rollup. by rewrite countBindings_eq.
Qed.
End Conditions.

(** * Properties *)

(** C10. The last write of a reconcile: [updateStatus] reads the clock twice and
    submits exactly one status update, whose phase is Ready exactly when the
    Service has an address, the server is ready and there are bindings, all Bound,
    and Degraded exactly when some binding conflicts; the summary, endpoint and
    the two conditions agree with it, the Restored condition, the backup time, the
    spec and the metadata are kept; its result is the server's answer. *)
Theorem updateStatus_exact `{Lib} {L : LibLaws} {S} (srv : server S) r sv ip ready bs s :
  ∃ u t1 t2 a s',
    run srv (updateStatus r sv ip ready bs) s
    = ([Ev CNow t1; Ev CNow t2; Ev (CStatusUpdate u) a], s',
       match a with inl err => Err err | inr sv' => Ok sv' end) ∧
    statusWritten r sv ip ready bs u.
Proof.
  unfold updateStatus. rewrite countBindings_eq. cbn [fst mbind prog_bind run Now StatusUpdate trigger].
  destruct (srv s CNow) as [t1 s1] eqn:E1. cbn. rewrite E1. cbn.
  destruct (srv s1 CNow) as [t2 s2] eqn:E2. cbn. 
  match goal with |- context [srv s2 (CStatusUpdate ?v)] =>
    destruct (srv s2 (CStatusUpdate v)) as [a s3]; exists v, t1, t2, a, s3 end.
  split; [by destruct a|]. apply statusWritten_update.
Qed.

Lemma updateStatus_exact_witness :
  let sv := sampleVolume ReclaimDelete None in
  let bs := [MkNamespaceBinding "team-a" "data" BindingBound; MkNamespaceBinding "team-b" "data" BindingPending] in
  ∃ u t1 t2 a m,
    run memServer (updateStatus sampleReconciler sv "10.96.0.7" true bs) (sampleCluster sv)
    = ([Ev CNow t1; Ev CNow t2; Ev (CStatusUpdate u) a], m,
       match a with inl err => Err err | inr sv' => Ok sv' end) ∧
    statusWritten sampleReconciler sv "10.96.0.7" true bs u.
Proof.
  intros sv bs.
  exact (updateStatus_exact memServer sampleReconciler sv "10.96.0.7" true bs (sampleCluster sv)).
Defined.
