(* ===== verification/Targets.v ===== *)
(** Which namespaces a volume targets: [targetNamespaces] against a reference
    definition, and its agreement with the watch predicate
    [namespaceCouldMatch]. *)
From S2P Require Import Prelude Kube V1alpha1 Client Resources Lib Server Logic Bindings MemCluster.

(** * A cluster's namespaces *)

Definition ns_name (o : NamespaceObj) : string := Name (ns_ObjectMeta o).

Definition nsNamed (nss : list NamespaceObj) (name : string) : option NamespaceObj :=
  head (filter (λ o, ns_name o = name) nss).

(** The answers of an API server whose namespaces are [nss]: reads by name, lists
    by selector. *)
Definition nsAnswers (nss : list NamespaceObj) (c : call) : resp c → Prop :=
  match c return resp c → Prop with
  | CGet k key =>
      match k return error + obj k → Prop with
      | KNamespace => λ a, nn_Namespace key = "" →
          match nsNamed nss (nn_Name key) with
          | Some o => a = inr o
          | None => ∃ err, a = inl err ∧ IsNotFound err = true
          end
      | _ => λ _, True
      end
  | CList k opt =>
      match k return error + list (obj k) → Prop with
      | KNamespace => λ a, ∀ sel, opt = MatchingLabelsSelector sel →
          a = inr (filter (λ o, Matches sel (Labels (ns_ObjectMeta o)) = true) nss)
      | _ => λ _, True
      end
  | _ => λ _, True
  end.

(** The reference: the sorted names of the namespaces that are alive and match. *)
Definition isTarget `{Lib} (sv : SharedVolume) (o : NamespaceObj) : bool :=
  nsAlive o && namespaceCouldMatch sv (ns_ObjectMeta o).

Definition targetsRef `{Lib} (sv : SharedVolume) (nss : list NamespaceObj) : list string :=
  sortedKeys (list_to_set (map ns_name (filter (λ o, isTarget sv o = true) nss))).

(** The selector, if any, is one that LabelSelectorAsSelector accepts. *)
Definition selectorOk `{Lib} (sv : SharedVolume) : Prop :=
  ∀ sel, NsSelector (Namespaces (sv_Spec sv)) = Some sel →
    ∃ selector, LabelSelectorAsSelector sel = inr selector.

(** The watch predicate on a version that may be absent. *)
Definition optMatch `{Lib} (sv : SharedVolume) (oo : option NamespaceObj) : bool :=
  match oo with
  | Some o => namespaceCouldMatch sv (ns_ObjectMeta o)
  | None => false
  end.

(** A server that only knows namespaces. *)
Definition nsServer (nss : list NamespaceObj) : server unit := λ u c,
  (match c return resp c with
   | CGet k key =>
       match k return error + obj k with
       | KNamespace => match nsNamed nss (nn_Name key) with Some o => inr o | None => inl NotFoundError end
       | _ => inl NotFoundError
       end
   | CList k opt =>
       match k return error + list (obj k) with
       | KNamespace =>
           match opt with
           | MatchingLabelsSelector sel =>
               inr (filter (λ o, Matches sel (Labels (ns_ObjectMeta o)) = true) nss)
           | _ => inr nss
           end
       | _ => inr []
       end
   | CCreate k o => inr o
   | CUpdate k o => inr o
   | CStatusUpdate sv => inr sv
   | CDelete _ _ _ => None
   | CEventf _ _ _ _ _ => tt
   | CNow => 0%Z
   end, u).

Definition sampleNamespaces : list NamespaceObj :=
  [sampleNamespace "team-a" None; sampleNamespace "team-b" (Some {["shared" := "true"]});
   sampleNamespace "other" None;
   MkNamespaceObj (MkObjectMeta "dying" "" (Some {["shared" := "true"]}) None [] [] (Some 7%Z) 1 "" "")].

(** * Lemmas *)

Lemma nsNamed_spec nss name o :
  NoDup (map ns_name nss) → nsNamed nss name = Some o ↔ o ∈ nss ∧ ns_name o = name.
Proof.
  unfold nsNamed. induction nss as [|o' nss IH]; intros Hnd; simpl.
  { split; [done|]. by intros [?%elem_of_nil _]. }
  apply NoDup_cons in Hnd as [Hni Hnd]. rewrite filter_cons. case_decide as Hn; simpl.
  - split; [intros [= ->]; split; [by left|done]|].
    intros [[->|Hin]%elem_of_cons Ho]; [done|]. destruct Hni. rewrite Hn, <- Ho.
    apply list_elem_of_fmap. by exists o.
  - rewrite IH by done. split; intros [Hin Ho]; (split; [|done]); [by right|].
    apply elem_of_cons in Hin as [->|?]; done.
Qed.

Lemma nsServer_answers nss s c : nsAnswers nss c (nsServer nss s c).1.
Proof.
  destruct c as [k key|k opt| | | | | |]; try done; destruct k; try done; simpl.
  - intros _. destruct (nsNamed _ _); [done|by eexists].
  - by intros sel ->.
Qed.

Section Targets.
Context `{Lib} (nss : list NamespaceObj) (sv : SharedVolume).
Context (Hnd : NoDup (map ns_name nss)).

(** The namespaces of [names] that exist and are alive. *)
Definition aliveNamed (names : list string) (ns : string) : Prop :=
  ns ∈ names ∧ ∃ o, o ∈ nss ∧ ns_name o = ns ∧ nsAlive o = true.

Lemma aliveNamed_cons name names ns :
  aliveNamed (name :: names) ns ↔
  (ns = name ∧ ∃ o, nsNamed nss name = Some o ∧ nsAlive o = true) ∨ aliveNamed names ns.
Proof.
  unfold aliveNamed. setoid_rewrite (nsNamed_spec nss name _ Hnd). rewrite elem_of_cons. split.
  - intros ([->|Hin] & o & ? & ? & ?); [left|right]; eauto 6.
  - intros [(-> & o & [? ?] & ?)|(? & o & ?)]; eauto 8.
Qed.

Lemma namedTargets_exact names set h :
  hwp (λ _ _, True) (nsAnswers nss) (namedTargets names set)
    (λ _ res, ∃ set', res = Ok set' ∧ ∀ ns, ns ∈ set' ↔ ns ∈ set ∨ aliveNamed names ns) h.
Proof.
  revert set h. induction names as [|name names IH]; intros set h; cbn [namedTargets].
  { apply wp_ret. exists set. split; [done|]. intros ns. split; [by left|].
    intros [?|[?%elem_of_nil _]]; done. }
  apply wp_bind, wp_trigger; [done|]. intros a h' [Ha ->]. specialize (Ha eq_refl). simpl in Ha.
  destruct (nsNamed nss name) as [o|] eqn:Hns.
  - subst a. eapply wp_mono; [|apply IH]. intros ? res (set' & -> & Hset'). exists set'.
    split; [done|]. intros ns. rewrite Hset', aliveNamed_cons, Hns. destruct (nsAlive o) eqn:Halive.
    + rewrite elem_of_union, elem_of_singleton.
      split; [intros [[->|?]|?]|intros [?|[[-> _]|?]]]; eauto 7.
    + split; [intros [?|?]|intros [?|[(_ & o' & [= <-] & ?)|?]]]; auto; congruence.
  - destruct Ha as (err & -> & Hnf). rewrite Hnf.
    eapply wp_mono; [|apply IH]. intros ? res (set' & -> & Hset'). exists set'. split; [done|].
    intros ns. rewrite Hset', aliveNamed_cons, Hns.
    split; [intros [?|?]|intros [?|[(_ & o' & ? & _)|?]]]; auto; congruence.
Qed.

(** The union the code builds is the set of the reference. *)
Lemma targets_union (set' : gset string) selected :
  (∀ ns, ns ∈ set' ↔ ns ∈ (∅ : gset string) ∨ aliveNamed (Names (Namespaces (sv_Spec sv))) ns) →
  (∀ o, o ∈ nss → selected o = match NsSelector (Namespaces (sv_Spec sv)) with
                  | Some sel => match LabelSelectorAsSelector sel with
                                | inr selector => Matches selector (Labels (ns_ObjectMeta o))
                                | inl _ => false
                                end
                  | None => false
                  end) →
  sortedKeys (listedTargets (filter (λ o, selected o = true) nss) set') = targetsRef sv nss.
Proof.
  intros Hset Hsel. unfold targetsRef. f_equal. apply set_eq. intros ns.
  rewrite listedTargets_elem, Hset, elem_of_list_to_set, list_elem_of_fmap.
  unfold isTarget, namespaceCouldMatch. split.
  - intros [[?%elem_of_empty|(Hnames & o & Hin & Hn & Ha)]|(o & [Hs Hin]%list_elem_of_filter & Ha & Hn)]; [done| |].
    + exists o. split; [done|]. apply list_elem_of_filter. split; [|done]. rewrite Ha. simpl.
      rewrite (proj2 (slicesContains_true _ _)); [done|]. by rewrite <- Hn in Hnames.
    + exists o. split; [done|]. apply list_elem_of_filter. split; [|done]. rewrite Ha. simpl.
      rewrite Hsel in Hs by done. by destruct (slicesContains _ _).
  - intros (o & -> & [Ht Hin]%list_elem_of_filter). apply andb_true_iff in Ht as [Ha Hm].
    destruct (slicesContains _ _) eqn:Hc.
    + left. right. split; [by apply slicesContains_true in Hc|]. eauto.
    + right. exists o. split_and!; [|done..]. apply list_elem_of_filter. split; [|done].
      by rewrite Hsel.
Qed.

Lemma targetNamespaces_exact h :
  selectorOk sv →
  hwp (λ _ _, True) (nsAnswers nss) (targetNamespaces sv) (λ _ res, res = Ok (targetsRef sv nss)) h.
Proof.
  intros Hok. unfold targetNamespaces. apply wp_bindE.
  eapply wp_mono; [|apply namedTargets_exact]. intros h1 res (set' & -> & Hset').
  apply wp_bindE. destruct (NsSelector _) as [sel|] eqn:Hsel.
  - destruct (Hok sel Hsel) as [selector Hselector]. rewrite Hselector.
    apply wp_bind, wp_trigger; [done|]. intros a h2 [Ha ->]. simpl in Ha.
    rewrite (Ha selector eq_refl). apply wp_ret, wp_ret. f_equal.
    apply targets_union; [done|]. intros o _. by rewrite Hsel, Hselector.
  - apply wp_ret, wp_ret. f_equal.
    rewrite <- (targets_union set' (λ _, false)); [|done|intros o _; by rewrite Hsel].
    f_equal. clear. by induction nss.
Qed.
End Targets.

(** The watch answers with the volumes the server lists that could match. *)
Lemma mapNamespace_run `{Lib} {S} (srv : server S) s svs ns :
  (srv s (CList KSharedVolume AllObjects)).1 = inr svs →
  result_of (run srv (mapNamespace ns) s)
  = map requestFor (filter (λ sv, namespaceCouldMatch sv ns = true) svs).
Proof.
  intros Hs. unfold mapNamespace, ListObjs, trigger. simpl.
  destruct (srv s _) as [a s1]. simpl in Hs. by subst a.
Qed.

Lemma requestFor_woken `{Lib} svs sv ns :
  sv ∈ svs → namespaceCouldMatch sv ns = true →
  requestFor sv ∈ map requestFor (filter (λ sv, namespaceCouldMatch sv ns = true) svs).
Proof.
  intros Hin Hm. apply list_elem_of_fmap. exists sv. split; [done|]. by apply list_elem_of_filter.
Qed.

(** Only namespaces that could match count. *)
Lemma targetsRef_skip `{Lib} sv l1 l l2 :
  (∀ o, o ∈ l → namespaceCouldMatch sv (ns_ObjectMeta o) = false) →
  targetsRef sv (l1 ++ l ++ l2) = targetsRef sv (l1 ++ l2).
Proof.
  intros Hl. unfold targetsRef. do 3 f_equal. rewrite !filter_app. f_equal.
  induction l as [|o l IH]; [done|]. simpl. rewrite filter_cons, decide_False.
  - apply IH. intros o' ?. apply Hl. by right.
  - unfold isTarget. rewrite (Hl o) by (by left). by rewrite andb_false_r.
Qed.

Lemma optMatch_false `{Lib} sv oo :
  optMatch sv oo = false →
  ∀ o, o ∈ option_list oo → namespaceCouldMatch sv (ns_ObjectMeta o) = false.
Proof. destruct oo; simpl; [by intros ? ? ->%list_elem_of_singleton|by intros ? ? ?%elem_of_nil]. Qed.

(** * Properties *)

(** C19. Targets: against an API server whose namespaces are [nss],
    [targetNamespaces] returns exactly the sorted, duplicate-free list of the
    namespaces that are not terminating and that [namespaceCouldMatch] accepts:
    the resolution and the watch predicate agree. *)
Theorem targetNamespaces_reference `{Lib} {S} (srv : server S) (nss : list NamespaceObj) sv s
    (Hnd : NoDup (map ns_name nss)) (Hsel : selectorOk sv)
    (Hsrv : ∀ s c, nsAnswers nss c (srv s c).1) :
  result_of (run srv (targetNamespaces sv) s) = Ok (targetsRef sv nss) ∧
  StronglySorted String.le (targetsRef sv nss) ∧ NoDup (targetsRef sv nss) ∧
  ∀ ns, ns ∈ targetsRef sv nss ↔
    ∃ o, o ∈ nss ∧ ns_name o = ns ∧ nsAlive o = true ∧ namespaceCouldMatch sv (ns_ObjectMeta o) = true.
Proof.
  split; [|split_and!; [apply sortedKeys_sorted|apply sortedKeys_NoDup|]].
  - apply (run_post srv (targetNamespaces sv) (λ _ res, res = Ok (targetsRef sv nss)) (nsAnswers nss) s Hsrv).
    by apply targetNamespaces_exact.
  - intros ns. unfold targetsRef. rewrite elem_of_sortedKeys, elem_of_list_to_set, list_elem_of_fmap.
    setoid_rewrite list_elem_of_filter. unfold isTarget. setoid_rewrite andb_true_iff.
    split; [intros (o & -> & [? ?] & ?)|intros (o & ? & <- & ? & ?)]; eauto 10.
Qed.

Lemma targetNamespaces_reference_witness :
  NoDup (map ns_name sampleNamespaces) ∧ selectorOk (sampleVolume ReclaimDelete None) ∧
  (∀ s c, nsAnswers sampleNamespaces c (nsServer sampleNamespaces s c).1) ∧
  targetsRef (sampleVolume ReclaimDelete None) sampleNamespaces = ["team-a"; "team-b"] ∧
  result_of (run (nsServer sampleNamespaces) (targetNamespaces (sampleVolume ReclaimDelete None)) ())
  = Ok (targetsRef (sampleVolume ReclaimDelete None) sampleNamespaces).
Proof.
  assert (NoDup (map ns_name sampleNamespaces)) as Hnd by (apply (bool_decide_unpack _); vm_compute; exact I).
  assert (selectorOk (sampleVolume ReclaimDelete None)) as Hsel by (intros sel [= <-]; by eexists).
  split_and!; [exact Hnd|exact Hsel|exact (nsServer_answers sampleNamespaces)|vm_compute; reflexivity|].
  exact (proj1 (targetNamespaces_reference (nsServer sampleNamespaces) sampleNamespaces
    (sampleVolume ReclaimDelete None) () Hnd Hsel (nsServer_answers sampleNamespaces))).
Defined.

(** C20. No missed wake-up: when one namespace is created, changed or deleted
    ([old] and [new] are its versions, if any) and a listed volume's targets
    change, the Namespace watch enqueues that volume for the old or the new
    version of the object. *)
Theorem namespace_watch_complete `{Lib} {S} (srv : server S) s svs sv l1 l2
    (old new : option NamespaceObj)
    (Hlist : (srv s (CList KSharedVolume AllObjects)).1 = inr svs) (Hsv : sv ∈ svs)
    (Hchange : targetsRef sv (l1 ++ option_list old ++ l2) ≠ targetsRef sv (l1 ++ option_list new ++ l2)) :
  ∃ o, (old = Some o ∨ new = Some o) ∧
    requestFor sv ∈ result_of (run srv (mapNamespace (ns_ObjectMeta o)) s).
Proof.
  assert (∀ o, (old = Some o ∨ new = Some o) → namespaceCouldMatch sv (ns_ObjectMeta o) = true →
    ∃ o, (old = Some o ∨ new = Some o) ∧
      requestFor sv ∈ result_of (run srv (mapNamespace (ns_ObjectMeta o)) s)) as Hwake.
  { intros o Ho Hm. exists o. split; [done|]. rewrite (mapNamespace_run srv s svs) by done.
    by apply requestFor_woken. }
  destruct (optMatch sv old) eqn:Hold; [destruct old as [o|]; [by eauto|done]|].
  destruct (optMatch sv new) eqn:Hnew; [destruct new as [o|]; [by eauto|done]|].
  destruct Hchange. by rewrite !targetsRef_skip by (by apply optMatch_false).
Qed.

Lemma namespace_watch_complete_witness :
  let sv := sampleVolume ReclaimDelete None in
  let o := sampleNamespace "team-b" (Some {["shared" := "true"]}) in
  (memServer (sampleCluster sv) (CList KSharedVolume AllObjects)).1 = inr [sv] ∧
  targetsRef sv [sampleNamespace "team-a" None] ≠ targetsRef sv [sampleNamespace "team-a" None; o] ∧
  ∃ o', (None = Some o' ∨ Some o = Some o') ∧
    requestFor sv ∈ result_of (run memServer (mapNamespace (ns_ObjectMeta o')) (sampleCluster sv)).
Proof.
  intros sv o.
  assert ((memServer (sampleCluster sv) (CList KSharedVolume AllObjects)).1 = inr [sv]) as Hl
    by (vm_compute; reflexivity).
  assert (targetsRef sv [sampleNamespace "team-a" None]
    ≠ targetsRef sv [sampleNamespace "team-a" None; o]) as Hc by (vm_compute; congruence).
  split_and!; [exact Hl|exact Hc|].
  exact (namespace_watch_complete memServer (sampleCluster sv) [sv] sv
    [sampleNamespace "team-a" None] [] None (Some o) Hl (proj2 (list_elem_of_singleton _ _) eq_refl) Hc).
Defined.
