(* ===== verification/NetipFacts.v ===== *)
(** [net/netip] on IPv4: printing and parsing are inverse, and the single-address
    CIDR the network policy uses for a node contains that address only. *)
From S2P Require Import Prelude Netip Resources.
From Stdlib Require Import Ascii.
From stdpp Require Import list_numbers.
Local Open Scope Z_scope.

(** * Decimal octets *)

Definition digitChar (d : Z) : ascii := ascii_of_N (Z.to_N (48 + d)).

(** The one, two or three digits of an octet. *)
Definition dec3 (v : Z) : string :=
  if v <? 10 then String (digitChar v) ""
  else if v <? 100 then String (digitChar (v / 10)) (String (digitChar (v mod 10)) "")
  else String (digitChar (v / 100)) (String (digitChar (v / 10 mod 10)) (String (digitChar (v mod 10)) "")).

(** A property of all octets, decided by running through them. *)
Lemma octets_all (f : Z → bool) :
  forallb f (seqZ 0 256) = true → ∀ v, 0 <= v < 256 → f v = true.
Proof.
  rewrite forallb_forall. intros Hall v Hv. apply Hall, list_elem_of_In, elem_of_seqZ. lia.
Qed.

Lemma sprint_d_octet v : 0 <= v < 256 → sprint_d v = dec3 v.
Proof.
  intros Hv.
  assert (forallb (λ v, bool_decide (sprint_d v = dec3 v)) (seqZ 0 256) = true) as Hall
    by (vm_compute; reflexivity).
  exact (bool_decide_eq_true_1 _ (octets_all _ Hall v Hv)).
Qed.

Lemma digit_cases (P : Z → Prop) :
  P 0 → P 1 → P 2 → P 3 → P 4 → P 5 → P 6 → P 7 → P 8 → P 9 → ∀ d, 0 <= d < 10 → P d.
Proof.
  intros. assert (d = 0 ∨ d = 1 ∨ d = 2 ∨ d = 3 ∨ d = 4 ∨ d = 5 ∨ d = 6 ∨ d = 7 ∨ d = 8 ∨ d = 9) by lia.
  naive_solver.
Qed.

Lemma digitVal_digitChar d : 0 <= d < 10 → digitVal (digitChar d) = Some d.
Proof. revert d. by apply digit_cases. Qed.

(** * Reading an octet *)

(** One digit of a field: no leading zero, no overflow. *)
Lemma parse_digit d s start prevDot val n fields :
  0 <= d < 10 → (n = 1 → val ≠ 0) → val * 10 + d <= 255 →
  parseIPv4Fields (String (digitChar d) s) start prevDot val n fields
  = parseIPv4Fields s false false (val * 10 + d) (n + 1) fields.
Proof.
  intros Hd Hn Hv. cbn [parseIPv4Fields]. rewrite digitVal_digitChar by done.
  destruct ((n =? 1) && (val =? 0)) eqn:Hz; [lia|].
  destruct (255 <? val * 10 + d) eqn:Hb; [lia|done].
Qed.

Lemma parse_octet v s start prevDot fields :
  0 <= v < 256 →
  ∃ n, 0 < n ∧ parseIPv4Fields (dec3 v +:+ s) start prevDot 0 0 fields
               = parseIPv4Fields s false false v n fields.
Proof.
  intros Hv. unfold dec3. destruct (v <? 10) eqn:H1; [|destruct (v <? 100) eqn:H2].
  - exists 1. split; [done|]. rewrite string_app_cons, parse_digit by lia. done.
  - exists 2. split; [done|].
    pose proof (Z.div_mod v 10 ltac:(lia)). pose proof (Z.mod_pos_bound v 10 ltac:(lia)).
    rewrite !string_app_cons, !parse_digit by lia. rewrite string_app_nil_l. f_equal; lia.
  - exists 3. split; [done|].
    pose proof (Z.div_mod v 10 ltac:(lia)). pose proof (Z.mod_pos_bound v 10 ltac:(lia)).
    pose proof (Z.div_mod (v / 10) 10 ltac:(lia)). pose proof (Z.mod_pos_bound (v / 10) 10 ltac:(lia)).
    assert (v / 100 = v / 10 / 10) as Hdiv by (by rewrite Zdiv.Zdiv_Zdiv by lia).
    rewrite Hdiv, !string_app_cons, !parse_digit by lia. rewrite string_app_nil_l. f_equal; lia.
Qed.

(** The dot between two octets. *)
Lemma parse_dot s val n fields :
  s ≠ "" → length fields ≠ 3%nat →
  parseIPv4Fields (String chDot s) false false val n fields
  = parseIPv4Fields s false true 0 0 (fields ++ [val]).
Proof.
  intros Hs Hl. cbn [parseIPv4Fields]. change (digitVal chDot) with (@None Z). cbn [orb].
  rewrite decide_True by done. rewrite bool_decide_eq_false_2 by done.
  by rewrite (proj2 (Nat.eqb_neq _ _)).
Qed.

Lemma dec3_nonempty v s : dec3 v +:+ s ≠ "".
Proof. unfold dec3. by destruct (v <? 10); [|destruct (v <? 100)]. Qed.

Lemma parse4_octets a b c d :
  0 <= a < 256 → 0 <= b < 256 → 0 <= c < 256 → 0 <= d < 256 →
  parse4 (sprint_d a +:+ "." +:+ sprint_d b +:+ "." +:+ sprint_d c +:+ "." +:+ sprint_d d)
  = Some [a; b; c; d].
Proof.
  intros. rewrite !sprint_d_octet by done. unfold parse4.
  rewrite <- (string_app_nil_r (dec3 d)).
  destruct (parse_octet a ("." +:+ dec3 b +:+ "." +:+ dec3 c +:+ "." +:+ dec3 d +:+ "") true false [])
    as (n1 & _ & ->); [done|].
  rewrite string_app_cons, string_app_nil_l, parse_dot by (apply dec3_nonempty || done).
  destruct (parse_octet b ("." +:+ dec3 c +:+ "." +:+ dec3 d +:+ "") false true [a]) as (n2 & _ & Hb); [done|].
  simpl app in *. rewrite Hb.
  rewrite string_app_cons, string_app_nil_l, parse_dot by (apply dec3_nonempty || done).
  destruct (parse_octet c ("." +:+ dec3 d +:+ "") false true [a; b]) as (n3 & _ & Hc); [done|].
  simpl app in *. rewrite Hc.
  rewrite string_app_cons, string_app_nil_l, parse_dot by (apply dec3_nonempty || done).
  destruct (parse_octet d "" false true [a; b; c]) as (n4 & _ & Hd); [done|].
  simpl app in *. rewrite Hd. done.
Qed.

(** * Addresses *)

Lemma octet_range n i : 0 <= octet n i < 256.
Proof. apply Z.mod_pos_bound. lia. Qed.

Lemma ofBytes_octets n : 0 <= n < 2 ^ 32 → ofBytes [octet n 3; octet n 2; octet n 1; octet n 0] = n.
Proof.
  intros Hn. unfold ofBytes, octet. simpl foldl. change (256 ^ 3) with 16777216.
  change (256 ^ 2) with 65536. change (256 ^ 1) with 256. change (256 ^ 0) with 1.
  change (2 ^ 32) with 4294967296 in Hn. rewrite Z.div_1_r.
  Z.to_euclidean_division_equations. lia.
Qed.

(** The first of the bytes ['.'], [':'], ['%'] in a printed IPv4 address is a dot. *)
Lemma addrSyntax_octet v s : 0 <= v < 256 → addrSyntax (dec3 v +:+ String chDot s) = Some chDot.
Proof.
  intros Hv. assert (∀ d s', 0 <= d < 10 → addrSyntax (String (digitChar d) s') = addrSyntax s') as Hd.
  { intros d s'. revert d. by apply digit_cases. }
  pose proof (Z.mod_pos_bound v 10 ltac:(lia)). pose proof (Z.mod_pos_bound (v / 10) 10 ltac:(lia)).
  pose proof (Z.div_mod v 10 ltac:(lia)).
  assert (0 <= v / 100 < 10) by (split; [apply Z.div_pos|apply Z.div_lt_upper_bound]; lia).
  unfold dec3. destruct (v <? 10) eqn:?; [|destruct (v <? 100) eqn:?];
    rewrite !string_app_cons, !Hd by lia; done.
Qed.

Lemma ParseAddr_string4 n : 0 <= n < 2 ^ 32 → ParseAddr (string4 n) = Some (Addr4 n).
Proof.
  intros Hn. unfold ParseAddr.
  assert (addrSyntax (string4 n) = Some chDot) as ->.
  { unfold string4. rewrite sprint_d_octet by apply octet_range. apply addrSyntax_octet, octet_range. }
  rewrite decide_True by done. unfold parseIPv4, string4.
  rewrite parse4_octets by apply octet_range. simpl mbind. by rewrite ofBytes_octets.
Qed.

Lemma Next_range a : valid_Addr a → Next a = AddrZero ∨ valid_Addr (Next a).
Proof.
  destruct a as [|n|n z]; simpl; [done|..]; intros Hn;
    (destruct (_ =? 0) eqn:He; [by left|right; apply Z.mod_pos_bound; lia]).
Qed.

(** * Single-address prefixes *)

Lemma splitLast_slash s t : splitLast chSlash t = None → splitLast chSlash (s +:+ String chSlash t) = Some (s, t).
Proof.
  intros Ht. induction s as [|a s IH]; rewrite ?string_app_cons, ?string_app_nil_l; cbn [splitLast].
  - by rewrite Ht, decide_True.
  - by rewrite IH.
Qed.

Lemma stringsContains_colon_cons a s :
  stringsContains (String a s) ":" = bool_decide (a = chColon) || stringsContains s ":".
Proof.
  cbn [stringsContains String.prefix]. f_equal. destruct (ascii_dec _ a) as [<-|Hne].
  - rewrite bool_decide_eq_true_2 by done. by destruct s.
  - rewrite bool_decide_eq_false_2; [done|]. intros ->. by apply Hne.
Qed.

Lemma stringsContains_colon_app s t :
  stringsContains (s +:+ t) ":" = stringsContains s ":" || stringsContains t ":".
Proof.
  induction s as [|a s IH]; [done|].
  by rewrite string_app_cons, !stringsContains_colon_cons, IH, orb_assoc.
Qed.

Lemma stringsContains_dec3 v : 0 <= v < 256 → stringsContains (dec3 v) ":" = false.
Proof.
  assert (forallb (λ v, negb (stringsContains (dec3 v) ":")) (seqZ 0 256) = true) as Hall
    by (vm_compute; reflexivity).
  intros Hv. pose proof (octets_all _ Hall v Hv) as Hb. by apply negb_true_iff in Hb.
Qed.

Lemma string4_colon n : stringsContains (string4 n) ":" = false.
Proof.
  unfold string4. rewrite !sprint_d_octet by apply octet_range.
  rewrite !stringsContains_colon_app, !stringsContains_dec3 by apply octet_range. done.
Qed.

Lemma ParsePrefix_nodeCIDR4 n :
  0 <= n < 2 ^ 32 → ParsePrefix (nodeCIDR (string4 n)) = Some (MkPrefix (Addr4 n) 32).
Proof.
  intros Hn. unfold nodeCIDR. rewrite string4_colon. unfold ParsePrefix.
  change "/32" with (String chSlash "32"). rewrite splitLast_slash by done.
  simpl mbind. rewrite ParseAddr_string4 by done. done.
Qed.

Lemma Contains_host4 n m :
  0 <= n < 2 ^ 32 → Contains (MkPrefix (Addr4 n) 32) (Addr4 m) = true ↔ m = n.
Proof.
  intros Hn. unfold Contains. simpl. rewrite Z.shiftr_0_r, Z.eqb_eq. apply Z.lxor_eq_0_iff.
Qed.
