(* ===== verification/Netip6Facts.v ===== *)
(** [net/netip] on IPv6: [Addr.String] with its [::] compression is read back by
    [ParseAddr], and a single-address /128 contains that address only. *)
From S2P Require Import Prelude Netip Resources NetipFacts.
From Stdlib Require Import Ascii.
From stdpp Require Import list_numbers.
Local Open Scope Z_scope.

Definition bytes2 (g : Z) : list Z := [g / 256; g mod 256].
Definition bytes (gs : list Z) : list Z := concat (map bytes2 gs).
Definition isGroup (g : Z) : Prop := 0 <= g < 65536.

(** Groups, each after a colon, and then [rest]. *)
Definition tailTo (gs : list Z) (rest : string) : string :=
  foldr (λ g s, ":" +:+ appendHex g +:+ s) rest gs.

(** [gs] printed with colons between, and then [rest]. *)
Definition joinTo (gs : list Z) (rest : string) : string :=
  match gs with
  | [] => rest
  | g :: gs => appendHex g +:+ tailTo gs rest
  end.

(** A string that ends a group: nothing, or a colon. *)
Definition endsGroup (s : string) : Prop := s = "" ∨ ∃ s', s = String chColon s'.

(** * Hexadecimal groups *)

Lemma hexVal_hexChar d : 0 <= d < 16 → hexVal (hexChar d) = Some d.
Proof.
  assert (forallb (λ d, bool_decide (hexVal (hexChar d) = Some d)) (seqZ 0 16) = true) as Hall
    by (vm_compute; reflexivity).
  rewrite forallb_forall in Hall. intros Hd. apply (bool_decide_eq_true_1 _), Hall.
  apply list_elem_of_In, elem_of_seqZ. lia.
Qed.

Lemma scan_digit d s off acc :
  0 <= d < 16 → off <= 3 → 0 <= acc * 16 + d <= 65535 →
  scanHex (String (hexChar d) s) off acc = scanHex s (off + 1) (acc * 16 + d).
Proof.
  intros Hd Ho Ha. cbn [scanHex]. rewrite hexVal_hexChar by done.
  destruct (3 <? off) eqn:?; [lia|]. destruct (65535 <? _) eqn:?; [lia|done].
Qed.

Lemma scan_end s off acc : endsGroup s → scanHex s off acc = Some (off, acc, s).
Proof. by intros [->|[s' ->]]. Qed.

Lemma scan_group g s :
  isGroup g → endsGroup s → ∃ off, 0 < off ∧ scanHex (appendHex g +:+ s) 0 0 = Some (off, g, s).
Proof.
  intros Hg Hs. unfold isGroup in Hg. unfold appendHex.
  pose proof (Z.mod_pos_bound g 16 ltac:(lia)). pose proof (Z.mod_pos_bound (g / 16) 16 ltac:(lia)).
  pose proof (Z.mod_pos_bound (g / 256) 16 ltac:(lia)).
  pose proof (Z.div_mod g 16 ltac:(lia)). pose proof (Z.div_mod (g / 16) 16 ltac:(lia)).
  pose proof (Z.div_mod (g / 256) 16 ltac:(lia)).
  assert (g / 256 = g / 16 / 16) as H256 by (by rewrite Zdiv.Zdiv_Zdiv by lia).
  assert (g / 4096 = g / 256 / 16) as H4096 by (by rewrite Zdiv.Zdiv_Zdiv by lia).
  destruct (4096 <=? g) eqn:?; [exists 4|destruct (256 <=? g) eqn:?; [exists 3|destruct (16 <=? g) eqn:?; [exists 2|exists 1]]];
    (split; [lia|]); repeat (match goal with |- context [?n <=? g] => destruct (n <=? g) eqn:?; [|lia] end);
    rewrite ?string_app_assoc, ?string_app_nil_l, ?string_app_cons, ?string_app_nil_l, !scan_digit by lia;
    rewrite scan_end by done; do 3 f_equal; lia.
Qed.

Lemma appendHex_head g s :
  isGroup g → ∃ c s', appendHex g +:+ s = String c s' ∧ c ≠ chColon.
Proof.
  intros Hg. unfold isGroup in Hg.
  assert (∀ d, 0 <= d < 16 → hexChar d ≠ chColon) as Hc.
  { intros d Hd Heq. apply hexVal_hexChar in Hd. by rewrite Heq in Hd. }
  unfold appendHex. destruct (4096 <=? g) eqn:?; [|destruct (256 <=? g) eqn:?; [|destruct (16 <=? g) eqn:?]];
    rewrite ?string_app_nil_l, ?string_app_cons; do 2 eexists; (split; [reflexivity|]); apply Hc.
  - split; [apply Z.div_pos|apply Z.div_lt_upper_bound]; lia.
  - apply Z.mod_pos_bound. lia.
  - apply Z.mod_pos_bound. lia.
  - apply Z.mod_pos_bound. lia.
Qed.

(** * The loop of the parser *)

(** What follows a run of groups: the end of the string, or [::] and the groups
    after it. *)
Definition afterRun (r : list Z) : string := "::" +:+ joinTo r "".

(** One group read, before the end, a colon or a double colon. *)
Lemma loop_last fuel g ip ell :
  isGroup g → parseIPv6Loop (S fuel) (appendHex g) ip ell = Some (ip ++ bytes2 g, ell, "").
Proof.
  intros Hg. destruct (scan_group g "" Hg) as (off & Hoff & Hscan); [by left|].
  rewrite string_app_nil_r in Hscan. cbn [parseIPv6Loop]. rewrite Hscan. cbn [mbind option_bind].
  by destruct (off =? 0) eqn:?; [lia|].
Qed.

Lemma loop_next fuel g g' s ip ell :
  isGroup g → isGroup g' →
  parseIPv6Loop (S fuel) (appendHex g +:+ ":" +:+ appendHex g' +:+ s) ip ell
  = parseIPv6Loop fuel (appendHex g' +:+ s) (ip ++ bytes2 g) ell.
Proof.
  intros Hg Hg'. destruct (scan_group g (":" +:+ appendHex g' +:+ s) Hg) as (off & Hoff & Hscan).
  { right. by eexists. }
  cbn [parseIPv6Loop]. rewrite Hscan. cbn [mbind option_bind].
  destruct (off =? 0) eqn:?; [lia|]. rewrite string_app_cons, string_app_nil_l.
  rewrite decide_False by done. rewrite decide_True by done.
  destruct (appendHex_head g' s Hg') as (c & s' & -> & Hc). by rewrite decide_False.
Qed.

Lemma loop_ellipsis fuel g r ip :
  isGroup g → Forall isGroup r →
  parseIPv6Loop (S fuel) (appendHex g +:+ afterRun r) ip None
  = match r with
    | [] => Some (ip ++ bytes2 g, Some (length (ip ++ bytes2 g)), "")
    | _ => parseIPv6Loop fuel (joinTo r "") (ip ++ bytes2 g) (Some (length (ip ++ bytes2 g)))
    end.
Proof.
  intros Hg Hr. destruct (scan_group g (afterRun r) Hg) as (off & Hoff & Hscan).
  { right. by eexists. }
  cbn [parseIPv6Loop]. rewrite Hscan. cbn [mbind option_bind].
  destruct (off =? 0) eqn:?; [lia|]. unfold afterRun. rewrite !string_app_cons, string_app_nil_l.
  rewrite decide_False by done. rewrite !decide_True by done.
  destruct Hr as [|g' r Hg' Hr]; [done|].
  destruct (appendHex_head g' (tailTo r "") Hg') as (c & s' & Heq & Hc). simpl joinTo. by rewrite Heq.
Qed.

Lemma bytes_cons g gs : bytes (g :: gs) = bytes2 g ++ bytes gs.
Proof. done. Qed.

(** Groups to the end of the string. *)
Lemma loop_groups fuel g gs ip ell :
  Forall isGroup (g :: gs) → (length gs < fuel)%nat →
  parseIPv6Loop fuel (joinTo (g :: gs) "") ip ell = Some (ip ++ bytes (g :: gs), ell, "").
Proof.
  revert fuel g ip. induction gs as [|g' gs IH]; intros fuel g ip Hall Hf;
    inversion_clear Hall as [|? ? Hg Hgs]; (destruct fuel as [|fuel]; [simpl in Hf; lia|]).
  - simpl joinTo. rewrite string_app_nil_r, loop_last by done. by rewrite bytes_cons, app_nil_r.
  - inversion Hgs; subst. simpl joinTo. rewrite loop_next by done.
    change (appendHex g' +:+ tailTo gs "") with (joinTo (g' :: gs) "").
    rewrite IH by (done || (simpl in Hf; lia)). by rewrite (bytes_cons g), (assoc_L (++)).
Qed.

(** Groups, then [::] and the groups after it. *)
Lemma loop_run fuel g l r ip :
  Forall isGroup (g :: l) → Forall isGroup r → (length l + length r < fuel)%nat →
  parseIPv6Loop fuel (joinTo (g :: l) (afterRun r)) ip None
  = Some (ip ++ bytes (g :: l) ++ bytes r, Some (length (ip ++ bytes (g :: l))), "").
Proof.
  revert fuel g ip. induction l as [|g' l IH]; intros fuel g ip Hall Hr Hf;
    inversion_clear Hall as [|? ? Hg Hl]; (destruct fuel as [|fuel]; [simpl in Hf; lia|]).
  - simpl joinTo. rewrite loop_ellipsis by done. rewrite bytes_cons, app_nil_r. destruct r as [|g' r].
    + by rewrite app_nil_r.
    + rewrite loop_groups by (done || (simpl in Hf; lia)). by rewrite (assoc_L (++)).
  - inversion Hl; subst. simpl joinTo. rewrite loop_next by done.
    change (appendHex g' +:+ tailTo l (afterRun r)) with (joinTo (g' :: l) (afterRun r)).
    rewrite IH by (done || (simpl in Hf; lia)). by rewrite (bytes_cons g), !(assoc_L (++)).
Qed.

(** * The whole parser *)

Lemma length_bytes gs : length (bytes gs) = (2 * length gs)%nat.
Proof. induction gs as [|g gs IH]; [done|]. rewrite bytes_cons, length_app, IH. simpl. lia. Qed.

(** A string that starts with a group has no leading [::]. *)
Lemma parse6_group g s :
  isGroup g →
  parse6 (appendHex g +:+ s)
  = ('(ip, ellipsis, rest) ← parseIPv6Loop 8 (appendHex g +:+ s) [] None;
     if decide (rest = "") then expandEllipsis ip ellipsis else None).
Proof.
  intros Hg. destruct (appendHex_head g s Hg) as (c & s' & -> & Hc). unfold parse6.
  destruct s' as [|c2 s']; [done|]. rewrite decide_False by naive_solver. done.
Qed.

Lemma parse6_plain gs :
  Forall isGroup gs → length gs = 8%nat → parse6 (joinTo gs "") = Some (bytes gs).
Proof.
  intros Hall Hl. destruct gs as [|g gs]; [done|]. pose proof Hall as Hall'. inversion Hall'; subst.
  simpl in Hl. simpl joinTo. rewrite parse6_group by done.
  change (appendHex g +:+ tailTo gs "") with (joinTo (g :: gs) "").
  rewrite loop_groups by (done || lia). cbn [mbind option_bind]. rewrite decide_True by done.
  unfold expandEllipsis. rewrite app_nil_l, (proj2 (Nat.ltb_ge _ _)); [done|].
  rewrite length_bytes. simpl. lia.
Qed.

(** [l], a run of [n] zero groups and [r]. *)
Lemma parse6_run l n r :
  Forall isGroup l → Forall isGroup r → (length l + n + length r = 8)%nat → (0 < n)%nat →
  parse6 (joinTo l (afterRun r)) = Some (bytes l ++ bytes (replicate n 0) ++ bytes r).
Proof.
  intros Hl Hr Hlen Hn.
  assert (∀ k, bytes (replicate k 0) = replicate (2 * k) 0) as Hzeros.
  { intros k. induction k as [|k IH]; [done|]. change (replicate (S k) 0) with (0 :: replicate k 0).
    rewrite bytes_cons, IH.
    replace (2 * S k)%nat with (S (S (2 * k))) by lia. reflexivity. }
  assert (expandEllipsis (bytes l ++ bytes r) (Some (length (bytes l)))
          = Some (bytes l ++ bytes (replicate n 0) ++ bytes r)) as Hexp.
  { unfold expandEllipsis. rewrite length_app, !length_bytes, (proj2 (Nat.ltb_lt _ _)) by lia.
    rewrite <- length_bytes, take_app_length, drop_app_length, Hzeros, length_bytes. do 4 f_equal. lia. }
  destruct l as [|g l].
  - destruct Hr as [|g r Hg Hr].
    + simpl in Hlen. replace n with 8%nat by lia. done.
    + unfold joinTo at 1, afterRun. rewrite !string_app_cons, string_app_nil_l.
      unfold parse6. rewrite decide_True by done.
      destruct (appendHex_head g (tailTo r "") Hg) as (c & s' & Heq & _).
      rewrite decide_False by (simpl joinTo; rewrite Heq; naive_solver).
      rewrite loop_groups by (try (by constructor); simpl in Hlen; lia).
      cbn [mbind option_bind]. rewrite decide_True by done. exact Hexp.
  - inversion Hl; subst. simpl joinTo. rewrite parse6_group by done.
    change (appendHex g +:+ tailTo l (afterRun r)) with (joinTo (g :: l) (afterRun r)).
    rewrite loop_run by (done || (simpl in Hlen; lia)).
    cbn [mbind option_bind]. rewrite decide_True by done. rewrite app_nil_l. exact Hexp.
Qed.

(** * The printer *)

(** A run the printer may compress: at least two zero groups inside the eight. *)
Definition zerosAt (gs : list Z) (zs ze : nat) : Prop :=
  (zs < ze ≤ 8)%nat ∧ take (ze - zs) (drop zs gs) = replicate (ze - zs) 0.

Lemma zeroRun_take gs : take (zeroRun gs) gs = replicate (zeroRun gs) 0.
Proof.
  induction gs as [|g gs IH]; [done|]. simpl. destruct (g =? 0) eqn:Hg; [|done].
  apply Z.eqb_eq in Hg as ->. simpl. by rewrite IH.
Qed.

Lemma zeroRun_le gs : (zeroRun gs ≤ length gs)%nat.
Proof. induction gs as [|g gs IH]; simpl; [done|]. destruct (g =? 0); lia. Qed.

Lemma longestRun_spec gs :
  length gs = 8%nat →
  longestRun gs = (255, 255)%nat ∨ ∃ zs ze, longestRun gs = (zs, ze) ∧ zerosAt gs zs ze.
Proof.
  intros Hl. unfold longestRun.
  assert (∀ idx acc, Forall (λ i, i < 8)%nat idx →
    (acc = (255, 255)%nat ∨ zerosAt gs acc.1 acc.2) →
    let res := foldl (λ '(zs, ze) i,
       let l := zeroRun (drop i gs) in
       if (2 <=? l)%nat && (ze - zs <? l)%nat then (i, i + l)%nat else (zs, ze)) acc idx in
    res = (255, 255)%nat ∨ zerosAt gs res.1 res.2) as Hfold.
  { induction idx as [|i idx IH]; intros [zs ze] His Hacc; [done|]. inversion_clear His.
    cbn [foldl]. apply IH; [done|]. cbn zeta.
    destruct ((2 <=? zeroRun (drop i gs))%nat && (ze - zs <? _)%nat) eqn:Hr; [|done]. right. simpl.
    apply andb_true_iff in Hr as [Hr _]. apply Nat.leb_le in Hr.
    pose proof (zeroRun_le (drop i gs)) as Hle. rewrite length_drop, Hl in Hle.
    split; [simpl; lia|]. simpl. replace (i + zeroRun (drop i gs) - i)%nat with (zeroRun (drop i gs)) by lia.
    apply zeroRun_take. }
  destruct (Hfold (seq 0 8) (255, 255)%nat) as [H|H]; [by repeat constructor; lia|by left|by left|].
  right. do 2 eexists. split; [apply surjective_pairing|exact H].
Qed.

Lemma print6_plain gs : length gs = 8%nat → print6 8 0 gs 255 255 = joinTo gs "".
Proof. intros Hl. do 8 (destruct gs as [|? gs]; [done|]). by destruct gs. Qed.

(** The printing loop writes the groups before the run, [::] and those after. *)
Lemma print6_run gs zs ze :
  length gs = 8%nat → (zs < ze ≤ 8)%nat →
  print6 8 0 gs zs ze = joinTo (take zs gs) (afterRun (drop ze gs)).
Proof.
  intros Hl [Hz He]. do 8 (destruct gs as [|? gs]; [done|]). destruct gs; [|done]. clear Hl.
  do 8 (destruct zs as [|zs]; [do 9 (destruct ze as [|ze]; [try lia; reflexivity|]); lia|]). lia.
Qed.

Lemma string6_groups n : 
  ∃ s, string6 n = s ∧
    (s = joinTo (groups n) "" ∨
     ∃ zs ze, zerosAt (groups n) zs ze ∧ s = joinTo (take zs (groups n)) (afterRun (drop ze (groups n)))).
Proof.
  eexists. split; [reflexivity|]. unfold string6.
  destruct (longestRun_spec (groups n)) as [Hr|(zs & ze & Hr & Hz)]; [done|..]; rewrite Hr.
  - left. by apply print6_plain.
  - right. exists zs, ze. split; [done|]. destruct Hz. by apply print6_run.
Qed.

(** * Groups and bytes *)

Lemma groups_range n : Forall isGroup (groups n).
Proof.
  unfold groups. apply Forall_forall. intros g (i & -> & _)%list_elem_of_fmap.
  apply Z.mod_pos_bound. lia.
Qed.

Lemma ofBytes_bytes gs :
  Forall isGroup gs → ofBytes (bytes gs) = foldl (λ a g, a * 65536 + g) 0 gs.
Proof.
  unfold ofBytes. generalize 0. intros acc Hall. revert acc.
  induction Hall as [|g gs Hg Hall IH]; intros acc; [done|].
  rewrite bytes_cons, foldl_app, IH. simpl. f_equal. unfold isGroup in Hg.
  pose proof (Z.div_mod g 256 ltac:(lia)). lia.
Qed.

Lemma groups_value n : 0 <= n < 2 ^ 128 → foldl (λ a g, a * 65536 + g) 0 (groups n) = n.
Proof.
  intros Hn.
  assert (∀ k, (k ≤ 8)%nat →
    foldl (λ a g, a * 65536 + g) 0 (map (group n) (seq 0 k)) = n / 65536 ^ (8 - Z.of_nat k)) as Hk.
  { induction k as [|k IH]; intros Hle.
    - simpl. symmetry. apply Z.div_small. exact Hn.
    - rewrite seq_S, map_app, foldl_app, IH by lia. simpl. unfold group.
      replace (8 - Z.of_nat k) with (Z.succ (7 - Z.of_nat k)) by lia.
      replace (8 - Z.of_nat (S k)) with (7 - Z.of_nat k) by lia.
      rewrite Z.pow_succ_r by lia. rewrite (Z.mul_comm 65536), <- Zdiv.Zdiv_Zdiv by lia.
      rewrite (Z.div_mod (n / 65536 ^ (7 - Z.of_nat k)) 65536) at 3 by lia. lia. }
  unfold groups. rewrite Hk by done. by rewrite Z.div_1_r.
Qed.

Lemma split_zeros gs zs ze :
  length gs = 8%nat → zerosAt gs zs ze → gs = take zs gs ++ replicate (ze - zs) 0 ++ drop ze gs.
Proof.
  intros Hl [[? ?] Hz]. rewrite <- Hz. rewrite <- (take_drop zs gs) at 1. f_equal.
  rewrite <- (take_drop (ze - zs) (drop zs gs)) at 1. f_equal. rewrite drop_drop. f_equal. lia.
Qed.

Lemma bytes_app l r : bytes (l ++ r) = bytes l ++ bytes r.
Proof. unfold bytes. by rewrite map_app, concat_app. Qed.

Lemma parse6_string6 n : 0 <= n < 2 ^ 128 → parse6 (string6 n) = Some (bytes (groups n)).
Proof.
  intros Hn. pose proof (groups_range n) as Hall.
  destruct (string6_groups n) as (s & -> & [->|(zs & ze & Hz & ->)]); [by apply parse6_plain|].
  rewrite (split_zeros (groups n) zs ze) at 3 by done. rewrite !bytes_app. destruct Hz as [[Hlt Hle] Hz].
  apply parse6_run; [by apply Forall_take|by apply Forall_drop| |lia].
  rewrite length_take, length_drop. change (length (groups n)) with 8%nat. lia.
Qed.

(** * Addresses *)

Lemma splitFirst_app c s t :
  splitFirst c s = None → splitFirst c t = None → splitFirst c (s +:+ t) = None.
Proof.
  intros Hs Ht. induction s as [|a s IH]; [done|]. rewrite string_app_cons. cbn [splitFirst] in *.
  destruct (decide (a = c)); [done|]. destruct (splitFirst c s) as [[]|]; [done|]. by rewrite IH.
Qed.

Lemma hexChar_special d c : 0 <= d < 16 → hexVal c = None → hexChar d ≠ c.
Proof. intros Hd Hc <-. by rewrite hexVal_hexChar in Hc. Qed.

(** The digits of a group: one to four. *)
Lemma appendHex_digits (P : string → Prop) g :
  isGroup g →
  (∀ d s, 0 <= d < 16 → P s → P (String (hexChar d) s)) → P "" → P (appendHex g).
Proof.
  intros Hg Hcons Hnil. unfold isGroup in Hg. unfold appendHex.
  pose proof (Z.mod_pos_bound g 16 ltac:(lia)). pose proof (Z.mod_pos_bound (g / 16) 16 ltac:(lia)).
  pose proof (Z.mod_pos_bound (g / 256) 16 ltac:(lia)).
  assert (0 <= g / 4096 < 16) by (split; [apply Z.div_pos|apply Z.div_lt_upper_bound]; lia).
  destruct (4096 <=? g), (256 <=? g), (16 <=? g);
    rewrite ?string_app_cons, ?string_app_nil_l, ?string_app_cons, ?string_app_nil_l; auto 10.
Qed.

Lemma appendHex_noPercent g : isGroup g → splitFirst chPercent (appendHex g) = None.
Proof.
  intros Hg. apply appendHex_digits; [done| |done]. intros d s Hd Hs. cbn [splitFirst].
  rewrite decide_False by (by apply hexChar_special). by rewrite Hs.
Qed.

Lemma tailTo_noPercent gs rest :
  Forall isGroup gs → splitFirst chPercent rest = None → splitFirst chPercent (tailTo gs rest) = None.
Proof.
  intros Hgs Hr. induction Hgs as [|g gs Hg Hgs IH]; [done|]. cbn [tailTo foldr].
  apply splitFirst_app; [done|]. by apply splitFirst_app; [apply appendHex_noPercent|].
Qed.

Lemma joinTo_noPercent gs rest :
  Forall isGroup gs → splitFirst chPercent rest = None → splitFirst chPercent (joinTo gs rest) = None.
Proof.
  intros [|g gs' Hg Hgs] Hr; [done|]. simpl.
  by apply splitFirst_app; [apply appendHex_noPercent|apply tailTo_noPercent].
Qed.

Lemma addrSyntax_group g s : isGroup g → addrSyntax (appendHex g +:+ s) = addrSyntax s.
Proof.
  intros Hg. apply (appendHex_digits (λ x, addrSyntax (x +:+ s) = addrSyntax s)); [done| |done].
  intros d x Hd Hx. rewrite string_app_cons. cbn [addrSyntax].
  by rewrite !decide_False by (by apply hexChar_special).
Qed.

(** Two groups at least, or a double colon: the first special byte is a colon. *)
Lemma addrSyntax_joinTo gs rest :
  Forall isGroup gs → (2 ≤ length gs)%nat ∨ addrSyntax rest = Some chColon →
  addrSyntax (joinTo gs rest) = Some chColon.
Proof.
  intros [|g gs' Hg Hgs] Hor; [destruct Hor; [simpl in *; lia|done]|]. simpl joinTo.
  rewrite addrSyntax_group by done. destruct Hgs; [|done]. destruct Hor; [simpl in *; lia|done].
Qed.

Lemma string6_shape n :
  addrSyntax (string6 n) = Some chColon ∧ splitFirst chPercent (string6 n) = None.
Proof.
  pose proof (groups_range n) as Hall.
  destruct (string6_groups n) as (s & -> & [->|(zs & ze & Hz & ->)]).
  - split; [apply addrSyntax_joinTo|apply joinTo_noPercent]; try done. left. change (length (groups n)) with 8%nat. lia.
  - split.
    + apply addrSyntax_joinTo; [by apply Forall_take|by right].
    + apply joinTo_noPercent; [by apply Forall_take|]. unfold afterRun.
      apply splitFirst_app; [done|]. apply joinTo_noPercent; [by apply Forall_drop|done].
Qed.

(** * IPv4-mapped addresses *)

Lemma dec3_scan v s : 0 <= v < 256 → ∃ off acc, 0 < off ∧
  scanHex (dec3 v +:+ String chDot s) 0 0 = Some (off, acc, String chDot s).
Proof.
  intros Hv.
  assert (∀ d, 0 <= d < 10 → digitChar d = hexChar d) as Hdig by (by apply digit_cases).
  pose proof (Z.mod_pos_bound v 10 ltac:(lia)). pose proof (Z.mod_pos_bound (v / 10) 10 ltac:(lia)).
  pose proof (Z.div_mod v 10 ltac:(lia)).
  assert (0 <= v / 100 < 10) by (split; [apply Z.div_pos|apply Z.div_lt_upper_bound]; lia).
  unfold dec3. destruct (v <? 10) eqn:?; [|destruct (v <? 100) eqn:?];
    rewrite ?string_app_cons, ?string_app_nil_l, !Hdig, !scan_digit by lia;
    do 2 eexists; (split; [|reflexivity]); lia.
Qed.

Definition mapped (lo : Z) : string := "::ffff:" +:+ string4 lo.

Lemma splitFirst_dec3 v : 0 <= v < 256 → splitFirst chPercent (dec3 v) = None.
Proof.
  assert (forallb (λ v, bool_decide (splitFirst chPercent (dec3 v) = None)) (seqZ 0 256) = true) as Hall
    by (vm_compute; reflexivity).
  intros Hv. exact (bool_decide_eq_true_1 _ (octets_all _ Hall v Hv)).
Qed.

Lemma string4_noPercent n : splitFirst chPercent (string4 n) = None.
Proof.
  unfold string4. rewrite !sprint_d_octet by apply octet_range.
  repeat (apply splitFirst_app; [try done; apply splitFirst_dec3, octet_range|]).
  apply splitFirst_dec3, octet_range.
Qed.

Lemma dec3_head v s : 0 <= v < 256 → ∃ c s', dec3 v +:+ s = String c s' ∧ c ≠ chColon.
Proof.
  intros Hv. assert (∀ d, 0 <= d < 10 → digitChar d ≠ chColon) as Hc by (by apply digit_cases).
  pose proof (Z.mod_pos_bound v 10 ltac:(lia)).
  assert (0 <= v / 100 < 10) by (split; [apply Z.div_pos|apply Z.div_lt_upper_bound]; lia).
  unfold dec3. destruct (v <? 10) eqn:?; [|destruct (v <? 100) eqn:?];
    rewrite ?string_app_cons; do 2 eexists; (split; [reflexivity|]); apply Hc; try lia.
  split; [apply Z.div_pos|apply Z.div_lt_upper_bound]; lia.
Qed.

(** An embedded IPv4 address fills the last four bytes. *)
Lemma loop_embedded fuel lo ip e :
  (length ip ≤ 12)%nat →
  parseIPv6Loop (S fuel) (string4 lo) ip (Some e)
  = Some (ip ++ [octet lo 3; octet lo 2; octet lo 1; octet lo 0], Some e, "").
Proof.
  intros Hip.
  assert (parse4 (string4 lo) = Some [octet lo 3; octet lo 2; octet lo 1; octet lo 0]) as H4
    by (apply parse4_octets; apply octet_range).
  destruct (dec3_scan (octet lo 3) (sprint_d (octet lo 2) +:+ "." +:+ sprint_d (octet lo 1)
    +:+ "." +:+ sprint_d (octet lo 0)) (octet_range lo 3)) as (off & acc & Hoff & Hscan).
  rewrite <- sprint_d_octet in Hscan by apply octet_range.
  change (scanHex (string4 lo) 0 0 = Some (off, acc, String chDot (sprint_d (octet lo 2) +:+ "."
    +:+ sprint_d (octet lo 1) +:+ "." +:+ sprint_d (octet lo 0)))) in Hscan.
  cbn [parseIPv6Loop]. rewrite Hscan. cbn [mbind option_bind].
  destruct (off =? 0) eqn:?; [lia|]. rewrite decide_True by done.
  rewrite bool_decide_eq_false_2 by done. cbn [andb].
  rewrite (proj2 (Nat.ltb_ge _ _)) by lia. by rewrite H4.
Qed.

(** The group in front of it. *)
Lemma loop_before4 fuel g lo ip e :
  isGroup g →
  parseIPv6Loop (S fuel) (appendHex g +:+ ":" +:+ string4 lo) ip (Some e)
  = parseIPv6Loop fuel (string4 lo) (ip ++ bytes2 g) (Some e).
Proof.
  intros Hg. destruct (scan_group g (":" +:+ string4 lo) Hg) as (off & Hoff & Hscan); [right; by eexists|].
  cbn [parseIPv6Loop]. rewrite Hscan. cbn [mbind option_bind].
  destruct (off =? 0) eqn:?; [lia|]. rewrite string_app_cons, string_app_nil_l.
  rewrite decide_False by done. rewrite decide_True by done.
  assert (∃ c s', string4 lo = String c s' ∧ c ≠ chColon) as (c & s' & Hc & Hne).
  { unfold string4. rewrite (sprint_d_octet (octet lo 3)) by apply octet_range.
    apply dec3_head, octet_range. }
  rewrite Hc. by rewrite decide_False.
Qed.

Lemma parse6_mapped lo :
  parse6 (mapped lo)
  = Some (replicate 10 0 ++ [255; 255; octet lo 3; octet lo 2; octet lo 1; octet lo 0]).
Proof.
  unfold mapped. change ("::ffff:" +:+ string4 lo) with (String chColon (String chColon (appendHex 65535 +:+ ":" +:+ string4 lo))).
  unfold parse6. rewrite decide_True by done.
  rewrite decide_False by (by intros [_ ?]). rewrite loop_before4 by (unfold isGroup; lia).
  change (bytes2 65535) with [255; 255]. rewrite loop_embedded by (simpl; lia).
  cbn [mbind option_bind]. by rewrite decide_True.
Qed.

(** * Round trip *)

Lemma mapped_value n :
  0 <= n < 2 ^ 128 → Is4In6 n = true →
  ofBytes (replicate 10 0 ++ [255; 255; octet (n mod 2 ^ 32) 3; octet (n mod 2 ^ 32) 2;
                              octet (n mod 2 ^ 32) 1; octet (n mod 2 ^ 32) 0]) = n.
Proof.
  intros Hn H4. unfold Is4In6 in H4. apply Z.eqb_eq in H4. rewrite Z.shiftr_div_pow2 in H4 by lia.
  pose proof (ofBytes_octets (n mod 2 ^ 32) (Z.mod_pos_bound n (2 ^ 32) ltac:(lia))) as Hlo.
  unfold ofBytes in *. simpl foldl in *. pose proof (Z.div_mod n (2 ^ 32) ltac:(lia)).
  rewrite H4 in H. lia.
Qed.

Lemma ParseAddr_string6 n :
  0 <= n < 2 ^ 128 → ParseAddr (AddrString (Addr6 n "")) = Some (Addr6 n "").
Proof.
  intros Hn. unfold AddrString, withZone. rewrite decide_True, string_app_nil_r by done.
  unfold ParseAddr, parseIPv6. destruct (Is4In6 n) eqn:H4.
  - change (addrSyntax ("::ffff:" +:+ string4 (n mod 2 ^ 32))) with (Some chColon).
    cbn beta iota. rewrite decide_False, decide_True by done.
    rewrite (splitFirst_app chPercent "::ffff:") by (done || apply string4_noPercent).
    change ("::ffff:" +:+ string4 (n mod 2 ^ 32)) with (mapped (n mod 2 ^ 32)).
    rewrite parse6_mapped. cbn [mbind option_bind]. by rewrite mapped_value.
  - destruct (string6_shape n) as [-> ->]. cbn beta iota. rewrite decide_False, decide_True by done.
    rewrite parse6_string6 by done. cbn [mbind option_bind].
    by rewrite ofBytes_bytes, groups_value by (done || apply groups_range).
Qed.

(** * Single-address prefixes *)

Lemma AddrString6_colon n : stringsContains (AddrString (Addr6 n "")) ":" = true.
Proof.
  unfold AddrString, withZone. rewrite decide_True, string_app_nil_r by done.
  destruct (Is4In6 n); [done|].
  assert (∀ s, addrSyntax s = Some chColon → stringsContains s ":" = true) as Hsyn.
  { induction s as [|a s IH]; [done|]. cbn [addrSyntax]. rewrite stringsContains_colon_cons.
    destruct (decide (a = chDot)) as [->|]; [done|].
    destruct (decide (a = chColon)) as [->|]; [done|].
    destruct (decide (a = chPercent)) as [->|]; [done|].
    intros ?. by rewrite IH, orb_true_r. }
  apply Hsyn, string6_shape.
Qed.

Lemma ParsePrefix_nodeCIDR6 n :
  0 <= n < 2 ^ 128 →
  ParsePrefix (nodeCIDR (AddrString (Addr6 n ""))) = Some (MkPrefix (Addr6 n "") 128).
Proof.
  intros Hn. unfold nodeCIDR. rewrite AddrString6_colon. unfold ParsePrefix.
  change "/128" with (String chSlash "128"). rewrite splitLast_slash by done.
  cbn [mbind option_bind]. rewrite ParseAddr_string6 by done. cbn [mbind option_bind]. done.
Qed.

Lemma Contains_host6 n m z :
  0 <= n < 2 ^ 128 → 0 <= m < 2 ^ 128 →
  Contains (MkPrefix (Addr6 n "") 128) (Addr6 m z) = true ↔ m = n ∧ z = "".
Proof.
  intros Hn Hm. unfold Contains. simpl prefix_ip. simpl prefix_bits.
  rewrite andb_true_iff, bool_decide_eq_true, Z.eqb_eq, Z.sub_diag, Z.shiftl_0_r, Z.land_ones by lia.
  assert (Z.lxor m n mod 2 ^ 128 = Z.lxor m n) as ->.
  { apply Z.mod_small. split; [apply Z.lxor_nonneg; lia|].
    destruct (Z.eq_dec (Z.lxor m n) 0) as [->|]; [lia|].
    apply Z.log2_lt_pow2; [|].
    - assert (0 <= Z.lxor m n) by (apply Z.lxor_nonneg; lia). lia.
    - eapply Z.le_lt_trans; [apply Z.log2_lxor; lia|].
      assert (∀ x, 0 <= x < 2 ^ 128 → Z.log2 x < 128) as Hlog.
      { intros x Hx. destruct (Z.eq_dec x 0) as [->|]; [done|]. apply Z.log2_lt_pow2; lia. }
      apply Z.max_lub_lt; by apply Hlog. }
  rewrite Z.lxor_eq_0_iff. tauto.
Qed.
