(* ===== verification/NetipRange.v ===== *)
(** Addresses and prefixes that parse are in range, and a prefix contains the
    address it was written with. *)
From S2P Require Import Prelude Netip Resources NetipFacts Netip6Facts.
From Stdlib Require Import Ascii.
Local Open Scope Z_scope.

Definition isByte (b : Z) : Prop := 0 <= b < 256.

(** In range and without a zone. *)
Definition plainAddr (a : Addr) : Prop :=
  match a with
  | AddrZero => False
  | Addr4 n => 0 <= n < 2 ^ 32
  | Addr6 n z => 0 <= n < 2 ^ 128 ∧ z = ""
  end.

Definition validPrefix (p : Prefix) : Prop :=
  plainAddr (prefix_ip p) ∧
  match prefix_ip p with
  | AddrZero => False
  | Addr4 _ => 0 <= prefix_bits p <= 32
  | Addr6 _ _ => 0 <= prefix_bits p <= 128
  end.

(** * Bytes *)

Lemma ofBytes_range bs : Forall isByte bs → 0 <= ofBytes bs < 256 ^ Z.of_nat (length bs).
Proof.
  unfold ofBytes. intros Hall.
  assert (∀ acc k, 0 <= acc < 256 ^ Z.of_nat k →
    0 <= foldl (λ a b, a * 256 + b) acc bs < 256 ^ Z.of_nat (k + length bs)) as Hgen.
  { induction Hall as [|b bs Hb Hall IH]; intros acc k Hacc; simpl.
    - by rewrite Nat.add_0_r.
    - rewrite Nat.add_succ_r. apply (IH _ (S k)). unfold isByte in Hb.
      rewrite Nat2Z.inj_succ, Z.pow_succ_r by lia. lia. }
  apply (Hgen 0 0%nat). simpl. lia.
Qed.

Lemma digitVal_range c d : digitVal c = Some d → 0 <= d < 10.
Proof. unfold digitVal. destruct ((48 <=? code c) && _) eqn:?; [|done]. intros [= <-]. lia. Qed.

Lemma hexVal_range c d : hexVal c = Some d → 0 <= d < 16.
Proof. unfold hexVal. intros Hd. repeat (case_match; simplify_eq; try lia). Qed.

Lemma parseIPv4Fields_bytes s start prevDot val n fields bs :
  isByte val → Forall isByte fields → (length fields ≤ 3)%nat →
  parseIPv4Fields s start prevDot val n fields = Some bs → Forall isByte bs ∧ length bs = 4%nat.
Proof.
  revert start prevDot val n fields. induction s as [|c s IH]; intros start prevDot val n fields Hv Hf Hl;
    cbn [parseIPv4Fields].
  - destruct (length fields <? 3)%nat eqn:H3; [done|]. intros [= <-]. apply Nat.ltb_ge in H3.
    rewrite Forall_app, length_app, Forall_singleton. simpl. split; [done|lia].
  - destruct (digitVal c) as [d|] eqn:Hd.
    + apply digitVal_range in Hd. destruct ((n =? 1) && (val =? 0)); [done|].
      destruct (255 <? val * 10 + d) eqn:?; [done|]. apply IH; [|done..].
      unfold isByte in *. lia.
    + case_decide; [|done]. destruct (start || _ || prevDot); [done|].
      destruct (length fields =? 3)%nat eqn:H3; [done|]. apply Nat.eqb_neq in H3.
      apply IH; [unfold isByte; lia|by rewrite Forall_app, Forall_singleton|].
      rewrite length_app. simpl. lia.
Qed.

Lemma parse4_bytes s bs : parse4 s = Some bs → Forall isByte bs ∧ length bs = 4%nat.
Proof. apply parseIPv4Fields_bytes; [unfold isByte; lia|done|simpl; lia]. Qed.

Lemma scanHex_range s off acc off' acc' rest :
  0 <= acc <= 65535 → scanHex s off acc = Some (off', acc', rest) → 0 <= acc' <= 65535.
Proof.
  revert off acc. induction s as [|c s IH]; intros off acc Hacc; cbn [scanHex]; [by intros [= _ <- _]|].
  destruct (hexVal c) as [d|] eqn:Hd; [|by intros [= _ <- _]]. apply hexVal_range in Hd.
  destruct (3 <? off); [done|]. destruct (65535 <? acc * 16 + d) eqn:?; [done|]. apply IH. lia.
Qed.

Lemma group_bytes acc : 0 <= acc <= 65535 → Forall isByte [acc / 256; acc mod 256].
Proof.
  intros Ha. repeat constructor.
  - apply Z.div_pos; lia.
  - apply Z.div_lt_upper_bound; lia.
  - apply Z.mod_pos_bound; lia.
  - apply Z.mod_pos_bound; lia.
Qed.

Lemma parseIPv6Loop_bytes fuel s ip ell ip' ell' rest :
  Forall isByte ip → (length ip + 2 * fuel ≤ 16)%nat →
  parseIPv6Loop fuel s ip ell = Some (ip', ell', rest) →
  Forall isByte ip' ∧ (length ip' ≤ 16)%nat.
Proof.
  revert s ip ell. induction fuel as [|fuel IH]; intros s ip ell Hip Hl; cbn [parseIPv6Loop].
  { intros [= <- _ _]. split; [done|lia]. }
  destruct (scanHex s 0 0) as [[[off acc] rest0]|] eqn:Hs; [|done]. cbn [mbind option_bind].
  apply scanHex_range in Hs; [|lia]. destruct (off =? 0); [done|].
  assert (Forall isByte (ip ++ [acc / 256; acc mod 256])) as Hip'
    by (apply Forall_app; auto using group_bytes).
  assert (length (ip ++ [acc / 256; acc mod 256]) = (length ip + 2)%nat) as Hl' by (by rewrite length_app).
  destruct rest0 as [|c rest']; [intros [= <- _ _]; split; [done|lia]|].
  case_decide.
  - destruct (bool_decide _ && _); [done|]. destruct (16 <? length ip + 4)%nat eqn:H16; [done|].
    apply Nat.ltb_ge in H16. destruct (parse4 s) as [fs|] eqn:H4; [|done].
    cbn [mbind option_bind]. apply parse4_bytes in H4 as [? Hfs]. intros [= <- _ _].
    rewrite Forall_app, length_app, Hfs. split; [done|lia].
  - case_decide; [|done]. destruct rest' as [|c2 rest'']; [done|]. case_decide.
    + destruct ell; [done|]. destruct rest''.
      * intros [= <- _ _]. split; [done|lia].
      * apply IH; [done|lia].
    + apply IH; [done|lia].
Qed.

Lemma expandEllipsis_bytes ip ell bs :
  Forall isByte ip → (length ip ≤ 16)%nat → expandEllipsis ip ell = Some bs →
  Forall isByte bs ∧ length bs = 16%nat.
Proof.
  intros Hip Hl. unfold expandEllipsis. destruct (length ip <? 16)%nat eqn:H16; destruct ell as [e|]; try done.
  - intros [= <-]. rewrite !Forall_app, !length_app, length_replicate, length_take, length_drop.
    apply Nat.ltb_lt in H16. split; [|lia].
    split_and!; [by apply Forall_take|apply Forall_replicate; unfold isByte; lia|by apply Forall_drop].
  - intros [= <-]. apply Nat.ltb_ge in H16. split; [done|lia].
Qed.

Lemma parse6_bytes s bs : parse6 s = Some bs → Forall isByte bs ∧ length bs = 16%nat.
Proof.
  unfold parse6. destruct (match s with String c1 (String c2 s') => _ | _ => _ end) as [ell s0].
  case_decide; [intros [= <-]; split; [apply (Forall_replicate _ 16); unfold isByte; lia|done]|].
  destruct (parseIPv6Loop 8 s0 [] ell) as [[[ip ell'] rest]|] eqn:Hloop; [|done].
  cbn [mbind option_bind]. case_decide; [|done].
  apply parseIPv6Loop_bytes in Hloop as [? ?]; [|done|simpl; lia]. by apply expandEllipsis_bytes.
Qed.

(** * Prefixes *)

Lemma ParseAddr_valid s a : ParseAddr s = Some a → valid_Addr a.
Proof.
  unfold ParseAddr. destruct (addrSyntax s) as [c|]; [|done]. case_decide; [|case_decide; [|done]].
  - unfold parseIPv4. destruct (parse4 s) as [bs|] eqn:H4; [|done]. intros [= <-].
    apply parse4_bytes in H4 as [Hb Hl]. apply ofBytes_range in Hb. by rewrite Hl in Hb.
  - unfold parseIPv6. destruct (splitFirst chPercent s) as [[s' z]|].
    + case_decide; [done|]. destruct (parse6 s') as [bs|] eqn:H6; [|done]. intros [= <-].
      apply parse6_bytes in H6 as [Hb Hl]. apply ofBytes_range in Hb. by rewrite Hl in Hb.
    + destruct (parse6 s) as [bs|] eqn:H6; [|done]. intros [= <-].
      apply parse6_bytes in H6 as [Hb Hl]. apply ofBytes_range in Hb. by rewrite Hl in Hb.
Qed.

Lemma ParsePrefix_valid s p : ParsePrefix s = Some p → validPrefix p.
Proof.
  unfold ParsePrefix. destruct (splitLast chSlash s) as [[addr bitsStr]|]; [|done]. cbn [mbind option_bind].
  destruct (ParseAddr addr) as [ip|] eqn:Ha; [|done]. cbn [mbind option_bind].
  apply ParseAddr_valid in Ha. destruct ip as [|n|n z]; [done|..].
  - destruct (parseBits bitsStr) as [b|]; [|done]. cbn [mbind option_bind].
    case_decide; [|done]. by intros [= <-].
  - case_decide; [|done]. destruct (parseBits bitsStr) as [b|]; [|done]. cbn [mbind option_bind].
    case_decide; [|done]. by intros [= <-].
Qed.

Lemma Contains_self p : validPrefix p → Contains p (prefix_ip p) = true.
Proof.
  intros [Ha _]. unfold Contains. destruct (prefix_ip p) as [|n|n z]; [done|..].
  - by rewrite Z.lxor_nilpotent, Z.shiftr_0_l.
  - destruct Ha as [_ ->]. by rewrite Z.lxor_nilpotent, Z.land_0_l.
Qed.

(** The zone-free single-address prefix of a printed address. *)
Lemma nodeCIDR_host a :
  plainAddr a → ∃ p, ParsePrefix (nodeCIDR (AddrString a)) = Some p ∧
    ∀ b, valid_Addr b → Contains p b = true ↔ b = a.
Proof.
  destruct a as [|n|n z]; [done|intros Hn|intros [Hn ->]].
  - exists (MkPrefix (Addr4 n) 32). split; [by apply ParsePrefix_nodeCIDR4|].
    intros [|m|m z] Hb; [done| |done]. rewrite Contains_host4 by done. split; congruence.
  - exists (MkPrefix (Addr6 n "") 128). split; [by apply ParsePrefix_nodeCIDR6|].
    intros [|m|m z] Hb; [done|done|]. simpl in Hb. rewrite Contains_host6 by done. split.
    + by intros [-> ->].
    + by intros [= -> ->].
Qed.

Lemma Contains_plain p b :
  validPrefix p → Contains p b = true → valid_Addr b → plainAddr b.
Proof.
  intros [Hp _]. unfold Contains. destruct (prefix_ip p), b; try done.
  rewrite andb_true_iff, bool_decide_eq_true. by intros [-> _] ?.
Qed.
