(* ===== verification/NetFacts.v ===== *)
(** The network policy: which addresses the operator takes for a node's, and
    exactly whom the generated policy admits. *)
From S2P Require Import Prelude Kube V1alpha1 Client Resources Netip NetipFacts Netip6Facts NetipRange Lib Server Logic NetPolicy MemCluster.

(** * Reference definitions *)

(** The addresses of all nodes, as one sorted set. *)
Definition nodeIPsRef (nodes : list Node) : list string :=
  sortedKeys (list_to_set (concat (map nodeIdentities nodes))).

(** A server that lists [nodes]. *)
Definition nodesAnswer (nodes : list Node) (c : call) : resp c → Prop :=
  match c return resp c → Prop with
  | CList k opt =>
      match k return error + list (obj k) → Prop with
      | KNode => λ a, opt = AllObjects → a = inr nodes
      | _ => λ _, True
      end
  | _ => λ _, True
  end.

(** The peers of the one ingress rule. *)
Definition policyPeers (np : NetworkPolicy) : list NetworkPolicyPeer :=
  concat (map rule_From (nps_Ingress (np_Spec np))).

(** * Lemmas *)

Lemma foldl_union_set (f : Node → list string) nodes (set : gset string) x :
  x ∈ foldl (λ set node, list_to_set (f node) ∪ set) set nodes ↔
  x ∈ set ∨ x ∈ concat (map f nodes).
Proof.
  revert set. induction nodes as [|node nodes IH]; intros set; simpl.
  { split; [by left|]. intros [?|?%elem_of_nil]; done. }
  rewrite IH, elem_of_union, elem_of_list_to_set, elem_of_app. tauto.
Qed.

Lemma nodeIPs_exact nodes h :
  hwp (λ _ _, True) (nodesAnswer nodes) nodeIPs (λ _ res, res = Ok (nodeIPsRef nodes)) h.
Proof.
  unfold nodeIPs. apply wp_bind, wp_trigger; [done|]. intros a h' [Ha ->]. rewrite (Ha eq_refl).
  apply wp_ret. unfold nodeIPsRef. do 2 f_equal. apply set_eq. intros x.
  rewrite foldl_union_set, elem_of_list_to_set. split; [|by right].
  by intros [?%elem_of_empty|?].
Qed.

Lemma elem_of_concat_map {A} (f : A → list string) l x :
  x ∈ concat (map f l) ↔ ∃ a, a ∈ l ∧ x ∈ f a.
Proof.
  induction l as [|a l IH]; simpl.
  { split; [by intros ?%elem_of_nil|]. by intros (? & ?%elem_of_nil & _). }
  rewrite elem_of_app, IH. setoid_rewrite elem_of_cons. naive_solver.
Qed.

Lemma elem_of_nodeIPsRef nodes ip :
  ip ∈ nodeIPsRef nodes ↔ ∃ node, node ∈ nodes ∧ ip ∈ nodeIdentities node.
Proof. unfold nodeIPsRef. by rewrite elem_of_sortedKeys, elem_of_list_to_set, elem_of_concat_map. Qed.

Lemma elem_of_nodeAddresses node ip :
  ip ∈ nodeAddresses node ↔
  ∃ a, a ∈ node_Addresses node ∧ na_Address a = ip ∧
       (na_Type a = NodeInternalIP ∨ na_Type a = NodeExternalIP).
Proof.
  unfold nodeAddresses. rewrite list_elem_of_fmap. setoid_rewrite list_elem_of_filter. naive_solver.
Qed.

Lemma elem_of_cidrIdentities cidr ip :
  ip ∈ cidrIdentities cidr ↔
  ∃ p, ParsePrefix cidr = Some p ∧
    (ip = AddrString (prefix_ip p) ∨
     (Contains p (Next (prefix_ip p)) = true ∧ ip = AddrString (Next (prefix_ip p)))).
Proof.
  unfold cidrIdentities. destruct (ParsePrefix cidr) as [p|]; [|rewrite elem_of_nil; naive_solver].
  rewrite elem_of_cons. destruct (Contains _ _) eqn:Hc.
  - rewrite list_elem_of_singleton. naive_solver.
  - rewrite elem_of_nil. naive_solver congruence.
Qed.

(** * Properties *)

(** C21. Node identities: whatever else the cluster holds, [nodeIPs] returns the
    sorted duplicate-free list of the nodes' internal and external addresses and,
    per pod CIDR that parses, of its address and of the next one when the prefix
    contains it; the order of nodes and of Go's map iteration does not show. *)
Theorem nodeIPs_reference {S} (srv : server S) nodes s
    (Hsrv : ∀ s c, nodesAnswer nodes c (srv s c).1) :
  result_of (run srv nodeIPs s) = Ok (nodeIPsRef nodes) ∧
  StronglySorted String.le (nodeIPsRef nodes) ∧ NoDup (nodeIPsRef nodes) ∧
  (∀ nodes', nodes ≡ₚ nodes' → nodeIPsRef nodes = nodeIPsRef nodes') ∧
  ∀ ip, ip ∈ nodeIPsRef nodes ↔ ∃ node, node ∈ nodes ∧
    ((∃ a, a ∈ node_Addresses node ∧ na_Address a = ip ∧
           (na_Type a = NodeInternalIP ∨ na_Type a = NodeExternalIP)) ∨
     (∃ cidr p, cidr ∈ podCIDRsOf node ∧ ParsePrefix cidr = Some p ∧
        (ip = AddrString (prefix_ip p) ∨
         (Contains p (Next (prefix_ip p)) = true ∧ ip = AddrString (Next (prefix_ip p)))))).
Proof.
  split_and!; [|apply sortedKeys_sorted|apply sortedKeys_NoDup| |].
  - apply (run_post srv nodeIPs (λ _ res, res = Ok (nodeIPsRef nodes)) (nodesAnswer nodes) s Hsrv).
    apply nodeIPs_exact.
  - intros nodes' Hp. unfold nodeIPsRef. f_equal. apply set_eq. intros x.
    rewrite !elem_of_list_to_set. by rewrite Hp.
  - intros ip. rewrite elem_of_nodeIPsRef. unfold nodeIdentities.
    setoid_rewrite elem_of_app. setoid_rewrite elem_of_nodeAddresses.
    setoid_rewrite elem_of_concat_map. setoid_rewrite elem_of_cidrIdentities. naive_solver.
Qed.

Lemma nodeIPs_reference_witness :
  let srv : server unit := λ u c,
    (match c return resp c with
     | CList k _ => match k return error + list (obj k) with KNode => inr [sampleNode] | _ => inr [] end
     | c' => (memServer emptyMem c').1
     end, u) in
  (∀ s c, nodesAnswer [sampleNode] c (srv s c).1) ∧
  nodeIPsRef [sampleNode] = ["10.42.9.0"; "10.42.9.1"; "172.18.0.9"; "fd00:42::"; "fd00:42::1"] ∧
  result_of (run srv nodeIPs ()) = Ok (nodeIPsRef [sampleNode]).
Proof.
  intros srv. assert (∀ s c, nodesAnswer [sampleNode] c (srv s c).1) as Hsrv.
  { intros s c. destruct c as [| k opt | | | | | |]; try exact I. destruct k; try exact I. by intros _. }
  split_and!; [exact Hsrv|vm_compute; reflexivity|].
  exact (proj1 (nodeIPs_reference srv [sampleNode] () Hsrv)).
Defined.

(** C22. Single-host rules: for every IPv4 address and every zone-free IPv6
    address, the CIDR that [BuildNetworkPolicy] writes for its printed form
    parses, and contains that address and no other. *)
Theorem nodeCIDR_exact (a : Addr) (Ha : plainAddr a) :
  ∃ p, ParsePrefix (nodeCIDR (AddrString a)) = Some p ∧
    ∀ b, valid_Addr b → Contains p b = true ↔ b = a.
Proof. by apply nodeCIDR_host. Qed.

Lemma nodeCIDR_exact_witness :
  plainAddr (Addr6 0xfd000042000000000000000000000001 "") ∧
  nodeCIDR (AddrString (Addr6 0xfd000042000000000000000000000001 "")) = "fd00:42::1/128" ∧
  ∃ p, ParsePrefix (nodeCIDR (AddrString (Addr6 0xfd000042000000000000000000000001 ""))) = Some p ∧
    ∀ b, valid_Addr b → Contains p b = true ↔ b = Addr6 0xfd000042000000000000000000000001 "".
Proof.
  assert (plainAddr (Addr6 0xfd000042000000000000000000000001 "")) as Ha by (split; [lia|reflexivity]).
  split_and!; [exact Ha|vm_compute; reflexivity|].
  exact (nodeCIDR_exact (Addr6 0xfd000042000000000000000000000001 "") Ha).
Defined.

(** C23. A pod CIDR opens at most two addresses: each identity [nodeIPs] derives
    from a CIDR is the CIDR's own address or the next one, lies inside the CIDR,
    and becomes a rule for exactly that address. *)
Theorem cidrIdentities_inside (cidr : string) :
  (length (cidrIdentities cidr) ≤ 2)%nat ∧
  ∀ ip, ip ∈ cidrIdentities cidr → ∃ p a q,
    ParsePrefix cidr = Some p ∧ ip = AddrString a ∧
    (a = prefix_ip p ∨ a = Next (prefix_ip p)) ∧ Contains p a = true ∧
    ParsePrefix (nodeCIDR ip) = Some q ∧ ∀ b, valid_Addr b → Contains q b = true ↔ b = a.
Proof.
  split.
  { unfold cidrIdentities. destruct (ParsePrefix cidr) as [p|]; simpl; [|lia].
    destruct (Contains _ _); simpl; lia. }
  intros ip (p & Hp & Hip)%elem_of_cidrIdentities. pose proof (ParsePrefix_valid cidr p Hp) as Hvalid.
  assert (∃ a, ip = AddrString a ∧ (a = prefix_ip p ∨ a = Next (prefix_ip p)) ∧
    Contains p a = true ∧ plainAddr a) as (a & -> & Ha & Hc & Hplain).
  { destruct Hip as [->|[Hc ->]]; eexists; (split; [reflexivity|]).
    - split_and!; [by left|by apply Contains_self|by destruct Hvalid].
    - split_and!; [by right|done|]. apply (Contains_plain p); [done..|].
      assert (valid_Addr (prefix_ip p)) as Hv.
      { destruct Hvalid as [Hv _]. destruct (prefix_ip p); [done..|]. by destruct Hv. }
      destruct (Next_range _ Hv) as [Hz|?]; [|done]. rewrite Hz in Hc. unfold Contains in Hc.
      by destruct (prefix_ip p). }
  destruct (nodeCIDR_host a Hplain) as (q & Hq & Hex). by exists p, a, q.
Qed.

(** C24. Whom the policy admits: one ingress rule on TCP 2049 for the server pods,
    whose peers are exactly the target namespaces by name, the node addresses as
    single-host CIDRs and the extra CIDRs; no peer is listed exactly when there
    are no targets, no node addresses and no extra CIDRs. *)
Theorem networkPolicy_peers sv opns targets ips extra :
  let np := BuildNetworkPolicy sv opns targets ips extra in
  nps_PolicyTypes (np_Spec np) = [PolicyTypeIngress] ∧
  MatchLabels (nps_PodSelector (np_Spec np)) = serverSelector sv ∧
  map rule_Ports (nps_Ingress (np_Spec np)) = [[MkNPPort (Some ProtocolTCP) (Some 2049%Z)]] ∧
  (∀ peer, peer ∈ policyPeers np ↔
     (∃ ns, ns ∈ targets ∧ peer = namespacePeer ns) ∨
     (∃ ip, ip ∈ ips ∧ peer = cidrPeer (nodeCIDR ip)) ∨
     (∃ cidr, cidr ∈ extra ∧ peer = cidrPeer cidr)) ∧
  (policyPeers np = [] ↔ targets = [] ∧ ips = [] ∧ extra = []).
Proof.
  intros np. split_and!; [done..| |].
  - intros peer. unfold policyPeers. simpl. rewrite app_nil_r, !elem_of_app, !list_elem_of_fmap.
    naive_solver.
  - unfold policyPeers. simpl. rewrite app_nil_r.
    destruct targets, ips, extra; simpl; split; try done; by intros (? & ? & ?).
Qed.
