(* ===== verification/LiveProofs.v ===== *)
(** [reconcileLive] as a whole respects [live_allowed], and [Reconcile] respects
    [live_allowed] or [teardown_allowed] depending on the volume it reads. *)
From S2P Require Import Prelude Kube V1alpha1 Client Resources Lib Server Logic Bindings NetPolicy BackupJob Reconcile Teardown LiveSpec LiveLogic LiveServer LiveBindings StatusFacts.

(** What [Reconcile] may do for request [req]: read it first, then what the
    volume's state calls for. *)
Definition reconcile_allowed `{Lib} (r : SharedVolumeReconciler) (req : NamespacedName)
    (h : list event) (c : call) : Prop :=
  c = CGet KSharedVolume req ∨
  ∃ sv, readAt h KSharedVolume req sv ∧ sv_Name sv = nn_Name req ∧
    if Time_IsZero (DeletionTimestamp (sv_ObjectMeta sv)) then live_allowed r sv h c
    else teardown_allowed r sv h c.

Section Live.
Context `{Lib} (r : SharedVolumeReconciler).
Implicit Types (sv : SharedVolume) (h : list event).

Lemma updateStatus_spec rely sv ip ready bs h :
  serviceIP r sv h ip → readyServer r sv h ready →
  (∀ b, b ∈ bs → bindingEarned sv h b) →
  spec r rely sv h (updateStatus r sv ip ready bs) (λ _ _, True).
Proof.
  intros Hip Hready Hbs. unfold updateStatus.
  do 2 (apply spec_call; [done|]; intros ? _).
  apply spec_call; [|intros [err|sv'] _; [apply spec_err|by apply spec_ok]].
  split; [done|]. simpl. rewrite rollup_Bindings, rollup_Ready. intros (Hne & Hr & Hnil & Hall).
  destruct (Hready Hr) as [Hup Hs].
  split_and!; [exists ip; auto with hist|auto with hist..|].
  intros b Hb. destruct (Hbs b Hb) as (? & _ & Hc). split; [auto with hist|].
  do 2 apply consumerBound_mono. auto.
Qed.

Lemma ensureFinalizer_spec sv h :
  volumeRead h sv →
  spec r sv_stable sv h (ensureFinalizer sv)
    (λ h' sv', sv_core sv' = sv_core sv ∧ statusRead h' sv').
Proof.
  intros Hr. unfold ensureFinalizer.
  destruct (AddFinalizer _ _) as [fs added] eqn:Ha. destruct added.
  - eapply spec_mono; [|apply (spec_UpdateE _ _ KSharedVolume)].
    + intros tr sv' [Hev Hst]. split; [by apply (Hst sv')|].
      exists sv'. split; [right; eauto|done].
    + split; [done|]. exists sv. rewrite Ha. split_and!; [done..|]. done.
  - apply spec_ok. split; [done|]. by exists sv.
Qed.

Lemma reconcileLive_spec sv h :
  volumeRead h sv → spec r sv_stable sv h (reconcileLive r sv) (λ _ _, True).
Proof.
  intros Hr. unfold reconcileLive.
  eapply spec_bindE; [by apply ensureFinalizer_spec|]. intros tr1 sv1 [Hc1 Hst].
  apply (spec_core _ _ sv1); [done|].
  eapply spec_bindE; [by apply reconcileServer_spec|]. intros tr2 [[ip ready] sv2] (Hc2 & Hip & Hup).
  eapply (serviceIP_core _ _ sv2) in Hip; [|done]. eapply (readyServer_core _ _ sv2) in Hup; [|done].
  apply (spec_core _ _ sv2); [done|].
  eapply spec_bindE; [apply targetNamespaces_spec|]. intros tr3 targets Ht.
  eapply spec_bindE; [apply ensureBindings_spec; auto with hist|]. intros tr4 bs [Hbs _].
  eapply spec_bindE; [apply reconcileNetworkPolicy_spec|]; [by eauto with hist|]. intros tr5 _ _.
  eapply spec_bindE; [apply reconcileBackup_spec|]. intros tr6 sv3 Hc3.
  apply (spec_core _ _ sv3); [done|].
  apply wp_bind. eapply wp_mono; [|apply updateStatus_spec].
  - intros h' [sv'|e|] [Hg Hres]; [|destruct (IsConflict e)|]; apply wp_ret; by split.
  - apply (serviceIP_core _ sv2); [done|]. auto 8 with hist.
  - apply (readyServer_core _ sv2); [done|]. auto 8 with hist.
  - intros b Hb. apply (bindingEarned_core sv2); [done|]. auto 8 with hist.
Qed.

(** A weaker guard, wherever the history has got to. *)
Lemma wp_guar_grown {A} (allowed allowed' : list event → call → Prop) rely (p : prog A) Q h :
  (∀ tr c, allowed (h ++ tr) c → allowed' (h ++ tr) c) →
  hwp allowed rely p Q h → hwp allowed' rely p Q h.
Proof.
  revert h. induction p as [a|c k IH]; intros h Hal; [done|]. intros [Hg Hk]. split.
  { specialize (Hal [] c). rewrite app_nil_r in Hal. by apply Hal. }
  intros a h' [Ha ->]. apply IH; [|by apply Hk].
  intros tr c'. rewrite <- (assoc_L (++)). apply Hal.
Qed.

Lemma Reconcile_hwp req h :
  hwp (reconcile_allowed r req) sv_stable (Reconcile r req)
    (λ h' res, res = Panic → ∃ sv, readAt h' KSharedVolume req sv ∧ panicCause r sv h') h.
Proof.
  unfold Reconcile. apply wp_bind, wp_trigger; [by left|]. intros [err|sv] h' [Hst ->].
  { simpl. destruct (IsNotFound err); by apply wp_ret. }
  specialize (Hst sv eq_refl). set (h' := h ++ _).
  assert (readAt h' KSharedVolume req sv) as Hread by apply readAt_now.
  destruct (Time_IsZero _) eqn:Hz; simpl.
  - eapply wp_guar_grown; [|eapply wp_mono; [|apply reconcileLive_spec; left; by exists req]].
    + intros tr c Hc. right. exists sv. rewrite Hz. auto with hist.
    + intros h'' res [[tr ->] Hres] ->. exists sv. auto with hist.
  - eapply wp_guar_grown; [|eapply wp_mono; [|apply reconcileDelete_hwp]].
    + intros tr c Hc. right. exists sv. rewrite Hz. auto with hist.
    + intros h'' res Hres ->. done.
Qed.
End Live.
