(* ===== verification/Samples.v ===== *)
(** Scenarios on the in-memory cluster of MemCluster.v, shared by the witnesses:
    a volume with a backup brought up in passes of [Reconcile], as the cluster's
    other controllers make progress in between. *)
From S2P Require Import Prelude Kube V1alpha1 Client Resources Lib Server Bindings NetPolicy BackupJob Reconcile MemCluster.

(** One pass of the loop on the sample volume. *)
Definition passRun (m : mem) : list event * mem * outcome Result :=
  run memServer (Reconcile sampleReconciler sampleRequest) m.
Definition pass (m : mem) : mem := state_of (passRun m).

(** Another actor changes one object. *)
Definition tweak (k : kind) (key : NamespacedName) (f : obj k → obj k) (m : mem) : mem :=
  match mem_store m k !! key with
  | Some o => mem_put m k (f o)
  | None => m
  end.

Definition opKey (name : string) : NamespacedName := MkNN (OperatorNamespace sampleReconciler) name.

Definition finishJob (j : Job) : Job :=
  MkJob (job_ObjectMeta j) (job_Spec j) [MkJobCondition JobComplete ConditionTrue].
Definition startServer (d : Deployment) : Deployment :=
  MkDeployment (dep_ObjectMeta d) (dep_Replicas d) (dep_Strategy d) (dep_Selector d) (dep_Template d) 1.
Definition bindPVC (p : PersistentVolumeClaim) : PersistentVolumeClaim :=
  MkPVC (pvc_ObjectMeta p) (pvc_Spec p) ClaimBound.
Definition releasePV (pv : PersistentVolume) : PersistentVolume :=
  MkPV (pv_ObjectMeta pv)
    (pvs_with_ClaimRef (pv_Spec pv)
       (option_map (λ f, MkObjectReference (ref_APIVersion f) (ref_Kind f) (ref_Namespace f) (ref_Name f)
                           "uid-old" (ref_ResourceVersion f)) (pvs_ClaimRef (pv_Spec pv))))
    VolumeReleased.

(** Seeding: the volume asks for a restore, the first pass starts the seed job. *)
Definition seeding0 : mem := sampleCluster (sampleVolume ReclaimDelete (Some (sampleBackup RestoreAuto))).
Definition seeding1 : mem := pass seeding0.
(** The job completes; the second pass starts the server. *)
Definition seeded1 : mem := tweak KJob (opKey "nfsz-data-seed") finishJob seeding1.
Definition seeded2 : mem := pass seeded1.
(** The server comes up and every PVC binds; the third pass reports Ready. *)
Definition bound2 : mem :=
  tweak KPVC (MkNN "team-a" "data") bindPVC
    (tweak KPVC (MkNN "team-b" "data") bindPVC
      (tweak KDeployment (opKey "nfsz-data-server") startServer seeded2)).
Definition ready3 : mem := pass bound2.

(** A namespace leaves: team-b no longer carries the label; and a PV that lost
    its claim. *)
Definition left3 : mem := with_obj KNamespace (sampleNamespace "team-b" None) ready3.
Definition released3 : mem := tweak KPV (MkNN "" "nfsz-data-team-a") releasePV ready3.

(** The writes of a run, as (verb, kind) pairs. *)
Definition writes_of (x : list event * mem * outcome Result) : list (verb * kind) :=
  map (λ e, sig (ev_call e)) (filter (λ e, bool_decide ((sig (ev_call e)).1 ∈
    [VCreate; VUpdate; VStatusUpdate; VDelete]) = true) (trace_of x)).

Definition phase_of (m : mem) : option string :=
  (λ sv, Phase (sv_Status sv)) <$> mem_store m KSharedVolume !! sampleRequest.
