(* ===== verification/Safety.v ===== *)
(** Consequences of the specification for whole runs of [Reconcile] against an
    arbitrary API server: what the controller can and cannot do to a cluster. *)
From S2P Require Import Prelude Kube V1alpha1 Client Resources Lib Server Logic Bindings NetPolicy BackupJob Reconcile Teardown LiveSpec LiveLogic LiveServer LiveBindings StatusFacts LiveProofs Footprints MemCluster Samples.

(** * The rules *)

(** The volume of the request was read with this deletion state. *)
Definition liveVolume (req : NamespacedName) (h : list event) (sv : SharedVolume) : Prop :=
  readAt h KSharedVolume req sv ∧ Time_IsZero (DeletionTimestamp (sv_ObjectMeta sv)) = true.

Definition dyingVolume (req : NamespacedName) (h : list event) (sv : SharedVolume) : Prop :=
  readAt h KSharedVolume req sv ∧ Time_IsZero (DeletionTimestamp (sv_ObjectMeta sv)) = false.

(** The server Deployment starts or rolls only behind an open gate; a seed job
    starts only when the seed is wanted and no server was found. *)
Definition seed_gate (r : SharedVolumeReconciler) `{Lib} (req : NamespacedName) (h : list event)
    (c : call) : Prop :=
  (sig c = (VCreate, KDeployment) ∨ sig c = (VUpdate, KDeployment) →
     ∃ sv, liveVolume req h sv ∧ seedCleared r sv h) ∧
  (sig c = (VCreate, KJob) → ∃ sv, liveVolume req h sv ∧ seedWanted r sv h).

(** A PVC is deleted or updated only after this very version of it was read; a
    deleted one is not terminating yet; and it carries the volume's label, or was
    read at the key of the backing PVC of a volume under deletion. *)
Definition pvc_guarded (r : SharedVolumeReconciler) (req : NamespacedName) (h : list event)
    (c : call) : Prop :=
  match c with
  | CDelete k o _ =>
      match k return obj k → Prop with
      | KPVC => λ pvc, Time_IsZero (DeletionTimestamp (pvc_ObjectMeta pvc)) = true ∧
          ∃ key sv, readAt h KPVC key pvc ∧ sv_Name sv = nn_Name req ∧
            (pvcOwned sv pvc = true ∨
             (dyingVolume req h sv ∧ key = backingKey r sv ∧
              ReclaimPolicy (sv_Spec sv) ≠ ReclaimRetain))
      | _ => λ _, True
      end o
  | CUpdate k o =>
      match k return obj k → Prop with
      | KPVC => λ pvc, ∃ sv b, dyingVolume req h sv ∧ backingRead r sv h b ∧ detached sv b pvc ∧
          ReclaimPolicy (sv_Spec sv) = ReclaimRetain
      | _ => λ _, True
      end o
  | _ => True
  end.

(** Nothing is created blindly: the key was read as missing, the volume is alive,
    and the object is what the builders make of it. *)
Definition creation_guarded (r : SharedVolumeReconciler) `{Lib} (req : NamespacedName)
    (h : list event) (c : call) : Prop :=
  match c with
  | CCreate k o => missing h k (ObjectKey k o) ∧ ∃ sv, liveVolume req h sv ∧ built r sv h k o
  | _ => True
  end.

(** Services keep their ClusterIP: never updated, created only when missing,
    deleted only in the teardown of a volume whose consumers are gone. *)
Definition service_stable (r : SharedVolumeReconciler) (req : NamespacedName) (h : list event)
    (c : call) : Prop :=
  match c with
  | CUpdate KService _ => False
  | CCreate k o => k = KService → missing h KService (ObjectKey k o)
  | CDelete KService _ _ => ∃ sv, dyingVolume req h sv ∧ consumersGone sv h
  | _ => True
  end.

(** PVs: the only update is the repair of a Released PV, which clears the UID of
    its claim; a PV is deleted only when listed and its claim is gone. *)
Definition pv_guarded (req : NamespacedName) `{Lib} (h : list event) (c : call) : Prop :=
  match c with
  | CUpdate k o =>
      match k return obj k → Prop with
      | KPV => λ pv', ∃ sv ns pv ref, liveVolume req h sv ∧ targetSeen sv h ns ∧
          readAt h KPV (MkNN "" (PVName sv ns)) pv ∧ pv_Phase pv = VolumeReleased ∧
          pvs_ClaimRef (pv_Spec pv) = Some ref ∧ ref_UID ref ≠ "" ∧
          pv' = pv_with_ClaimRef pv (Some (ref_clear_UID ref))
      | _ => λ _, True
      end o
  | CDelete k o _ =>
      match k return obj k → Prop with
      | KPV => λ pv, ∃ sv, sv_Name sv = nn_Name req ∧ deletePV_allowed sv h pv
      | _ => λ _, True
      end o
  | _ => True
  end.

(** The phase Ready is written only when everything it stands for was read. *)
Definition ready_guarded (r : SharedVolumeReconciler) `{Lib} (req : NamespacedName) (h : list event)
    (c : call) : Prop :=
  match c with
  | CStatusUpdate u => Phase (sv_Status u) = PhaseReady →
      ∃ sv, liveVolume req h sv ∧ sv_core u = sv_core sv ∧
        readyEarned r sv h (Bindings (sv_Status u))
  | _ => True
  end.

(** The rolled parts: a ConfigMap, Deployment, NetworkPolicy or CronJob is
    updated only when the version read differs in the part the code compares. *)
Definition update_guarded (r : SharedVolumeReconciler) `{Lib} (req : NamespacedName)
    (h : list event) (c : call) : Prop :=
  match c with
  | CUpdate k o => k = KConfigMap ∨ k = KDeployment ∨ k = KNetworkPolicy ∨ k = KCronJob →
      ∃ sv, liveVolume req h sv ∧ updated r sv h k o
  | _ => True
  end.

(** What admission and the Deployment API guarantee of an answer: a volume has a
    valid spec, a Deployment's template has a container. *)
Definition admitted (e : event) : bool :=
  match ev_call e as c return resp c → bool with
  | CGet k _ =>
      match k return error + obj k → bool with
      | KSharedVolume => λ a, match a with inr sv => valid_Spec (sv_Spec sv) | inl _ => true end
      | KDeployment => λ a,
          match a with
          | inr d => negb (bool_decide (length (pod_Containers (tpl_Spec (dep_Template d))) = 0))
          | inl _ => true
          end
      | _ => λ _, true
      end
  | _ => λ _, true
  end (ev_resp e).

(** * Lemmas *)

Section Safety.
Context `{Lib} {S : Type} (srv : server S) (r : SharedVolumeReconciler) (req : NamespacedName).
Context (Hsrv : ∀ s c, sv_stable c (srv s c).1).

Lemma Reconcile_trace s (rule : list event → call → Prop) :
  (∀ h, rule h (CGet KSharedVolume req)) →
  (∀ h c sv, liveVolume req h sv → sv_Name sv = nn_Name req → live_allowed r sv h c → rule h c) →
  (∀ h c sv, dyingVolume req h sv → sv_Name sv = nn_Name req → teardown_allowed r sv h c → rule h c) →
  trace_guarded rule (trace_of (run srv (Reconcile r req) s)).
Proof.
  intros Hread Hlive Hdying.
  assert (trace_guarded (reconcile_allowed r req) (trace_of (run srv (Reconcile r req) s))) as Hg.
  { eapply run_guarded_rely; [exact Hsrv|]. apply Reconcile_hwp. }
  intros pre e tr Heq. destruct (Hg pre e tr Heq) as [->|(sv & Hsv & Hn & Hc)]; [apply Hread|].
  destruct (Time_IsZero _) eqn:Hz; [by apply (Hlive _ _ sv)|by apply (Hdying _ _ sv)].
Qed.
End Safety.

Lemma Forall_true {A} (f : A → bool) l : forallb f l = true → Forall (λ x, f x = true) l.
Proof. rewrite forallb_forall, list.Forall_forall. intros Hl x Hx. by apply Hl, list_elem_of_In. Qed.

(** A call of a known verb and kind. *)
Lemma sig_create c k : sig c = (VCreate, k) → ∃ o : obj k, c = CCreate k o.
Proof. destruct c; intros [= <-]; eauto. Qed.

Lemma sig_update c k : sig c = (VUpdate, k) → ∃ o : obj k, c = CUpdate k o.
Proof. destruct c; intros [= <-]; eauto. Qed.

(** Split a rule on the call it is about; the calls it leaves free are closed. *)
Ltac on_call c :=
  destruct c as [k ?|k ?|k o|k o|u|k o prop|? ? ? ? ?|]; try done; try (destruct k; try done).

(** * Properties *)

(** C5. Seed gate, for every request, API server and state: [Reconcile] creates or
    rolls the server Deployment only if the volume asks for no restore, or a
    status already recording the restore was read, or the Deployment was read as
    existing, or the seed job was read as complete; and it starts a seed job only
    if the volume asks for it, none of that is recorded and the Deployment was
    read as missing. *)
Theorem reconcile_seed_gate `{Lib} {S} (srv : server S) r req s
    (Hsrv : ∀ s c, sv_stable c (srv s c).1) :
  trace_guarded (seed_gate r req) (trace_of (run srv (Reconcile r req) s)).
Proof.
  apply Reconcile_trace; [done|by split; [intros [?|?]|]|..]; intros h c sv Hsv Hn Hc.
  - split; [intros [(o & ->)%sig_create|(o & ->)%sig_update]|intros (o & ->)%sig_create];
      exists sv; (split; [done|]); [by destruct Hc as (_ & ? & _)|by destruct Hc|by destruct Hc as (_ & ? & _)].
  - split; [intros [(o & ->)%sig_create|(o & ->)%sig_update]|intros (o & ->)%sig_create]; done.
Qed.

Lemma reconcile_seed_gate_witness :
  (∀ m c, sv_stable c (memServer m c).1) ∧
  (VCreate, KJob) ∈ writes_of (passRun seeding0) ∧
  ¬ (VCreate, KDeployment) ∈ writes_of (passRun seeding0) ∧
  (VCreate, KDeployment) ∈ writes_of (passRun seeded1) ∧
  trace_guarded (seed_gate sampleReconciler sampleRequest) (trace_of (passRun seeded1)).
Proof.
  split_and!; [exact memServer_stable|apply (bool_decide_unpack _); vm_compute; exact I..|].
  apply (reconcile_seed_gate memServer sampleReconciler sampleRequest seeded1 memServer_stable).
Defined.

(** C12. Guarded PVC writes: against a server that keeps a volume's name and spec
    stable, [Reconcile] deletes a PVC only after it read this very version, not terminating, and the version either carries the label of the
    requested volume, or was read at the key of that volume's backing PVC, for a
    version of the volume that is under deletion and whose policy is not Retain.
    The backing PVC is recognised by its key alone: whatever else sits there goes
    with it.  A PVC is updated only to detach the backing PVC of a volume under
    deletion whose policy is Retain. *)
Theorem reconcile_pvc_guarded `{Lib} {S} (srv : server S) r req s
    (Hsrv : ∀ s c, sv_stable c (srv s c).1) :
  trace_guarded (pvc_guarded r req) (trace_of (run srv (Reconcile r req) s)).
Proof.
  apply Reconcile_trace; [done|done|..]; intros h c sv Hsv Hn Hc; on_call c.
  - destruct Hc as (_ & Hz & Hown & pvs & pv & ref & _ & _ & _ & Hread). split; [done|].
    exists (claimKey ref), sv. auto.
  - destruct Hc as (_ & _ & Hret & b & Hb & Hdet). by exists sv, b.
  - destruct Hc as [Hz [(pvs & pv & ref & _ & _ & _ & Hread & Hown)|(_ & _ & Hb & Hret)]];
      (split; [done|]).
    + exists (claimKey ref), sv. auto.
    + exists (backingKey r sv), sv. auto 6.
Qed.

Lemma reconcile_pvc_guarded_witness :
  (∀ m c, sv_stable c (memServer m c).1) ∧
  (VDelete, KPVC) ∈ writes_of (passRun left3) ∧
  trace_guarded (pvc_guarded sampleReconciler sampleRequest) (trace_of (passRun left3)).
Proof.
  split_and!; [exact memServer_stable|apply (bool_decide_unpack _); vm_compute; exact I|].
  apply (reconcile_pvc_guarded memServer sampleReconciler sampleRequest left3 memServer_stable).
Defined.

(** C13. Nothing is created blindly: every object [Reconcile] creates belongs to a
    volume that is alive, was read as missing under its own key just before, and
    is exactly what the builders produce for the volume, the operator's
    configuration, the targets read and the ClusterIP read. *)
Theorem reconcile_creation_guarded `{Lib} {S} (srv : server S) r req s
    (Hsrv : ∀ s c, sv_stable c (srv s c).1) :
  trace_guarded (creation_guarded r req) (trace_of (run srv (Reconcile r req) s)).
Proof.
  apply Reconcile_trace; [done|done|..]; intros h c sv Hsv Hn Hc.
  - destruct c; try done. destruct Hc as [Hm Hb]. split; [done|]. by exists sv.
  - by destruct c.
Qed.

Lemma reconcile_creation_guarded_witness :
  (∀ m c, sv_stable c (memServer m c).1) ∧
  filter (λ p, p.1 = VCreate) (writes_of (passRun seeding0))
  = [(VCreate, KPVC); (VCreate, KConfigMap); (VCreate, KJob); (VCreate, KService); (VCreate, KPV);
     (VCreate, KPVC); (VCreate, KPV); (VCreate, KPVC); (VCreate, KNetworkPolicy); (VCreate, KCronJob)] ∧
  trace_guarded (creation_guarded sampleReconciler sampleRequest) (trace_of (passRun seeding0)).
Proof.
  split_and!; [exact memServer_stable|vm_compute; reflexivity|].
  apply (reconcile_creation_guarded memServer sampleReconciler sampleRequest seeding0 memServer_stable).
Defined.

(** C9. Ready is earned: [Reconcile] writes the phase Ready only on a volume that
    is alive, after it read a Service with a ClusterIP, was answered with a
    server Deployment that has a ready replica, found the seed gate open, and
    read in each target namespace of the status, of which there is at least one,
    the volume's own PVC as bound and not terminating. *)
Theorem reconcile_ready_earned `{Lib} {S} (srv : server S) r req s
    (Hsrv : ∀ s c, sv_stable c (srv s c).1) :
  trace_guarded (ready_guarded r req) (trace_of (run srv (Reconcile r req) s)).
Proof.
  apply Reconcile_trace; [done|done|..]; intros h c sv Hsv Hn Hc; destruct c; try done.
  - destruct Hc as [Hcore Hready]. intros Hp. exists sv. auto.
  - intros Hp. simpl in Hc. destruct Hc as [Hc _]. by rewrite Hp in Hc.
Qed.

Lemma reconcile_ready_earned_witness :
  (∀ m c, sv_stable c (memServer m c).1) ∧
  phase_of seeded2 = Some PhaseProvisioning ∧ phase_of ready3 = Some PhaseReady ∧
  trace_guarded (ready_guarded sampleReconciler sampleRequest) (trace_of (passRun bound2)).
Proof.
  split_and!; [exact memServer_stable|vm_compute; reflexivity..|].
  apply (reconcile_ready_earned memServer sampleReconciler sampleRequest bound2 memServer_stable).
Defined.

(** C14. Services keep their ClusterIP: no Service is ever updated, one is created
    only after its key was read as missing, and deleted only in the teardown of
    a volume under deletion, after every PV and claim of the volume was gone. *)
Theorem reconcile_service_stable `{Lib} {S} (srv : server S) r req s
    (Hsrv : ∀ s c, sv_stable c (srv s c).1) :
  trace_guarded (service_stable r req) (trace_of (run srv (Reconcile r req) s)).
Proof.
  apply Reconcile_trace; [done|done|..]; intros h c sv Hsv Hn Hc; on_call c.
  - intros _. by destruct Hc.
  - by destruct Hc as [_ []].
  - exists sv. by destruct Hc.
Qed.

Lemma reconcile_service_stable_witness :
  (∀ m c, sv_stable c (memServer m c).1) ∧
  (VCreate, KService) ∈ writes_of (passRun seeding0) ∧
  trace_guarded (service_stable sampleReconciler sampleRequest) (trace_of (passRun seeding0)).
Proof.
  split_and!; [exact memServer_stable|apply (bool_decide_unpack _); vm_compute; exact I|].
  apply (reconcile_service_stable memServer sampleReconciler sampleRequest seeding0 memServer_stable).
Defined.

(** C15. PVs: the only update ever made is the repair of a Released PV of a target
    namespace, which clears the UID (and resource version) of its claim and keeps
    everything else; a PV is deleted only when the volume's listing returned it
    and its claim was read as gone. *)
Theorem reconcile_pv_guarded `{Lib} {S} (srv : server S) r req s
    (Hsrv : ∀ s c, sv_stable c (srv s c).1) :
  trace_guarded (pv_guarded req) (trace_of (run srv (Reconcile r req) s)).
Proof.
  apply Reconcile_trace; [done|done|..]; intros h c sv Hsv Hn Hc; on_call c.
  - destruct Hc as (ns & pv & ref & ? & ? & ? & ? & ? & ?). by exists sv, ns, pv, ref.
  - exists sv. by destruct Hc.
  - by exists sv.
Qed.

Lemma reconcile_pv_guarded_witness :
  (∀ m c, sv_stable c (memServer m c).1) ∧
  writes_of (passRun released3) = [(VUpdate, KPV); (VStatusUpdate, KSharedVolume)] ∧
  trace_guarded (pv_guarded sampleRequest) (trace_of (passRun released3)).
Proof.
  split_and!; [exact memServer_stable|vm_compute; reflexivity|].
  apply (reconcile_pv_guarded memServer sampleReconciler sampleRequest released3 memServer_stable).
Defined.

(** C16. Updates only where something drifted: a ConfigMap, Deployment,
    NetworkPolicy or CronJob is updated only when the version just read differs
    from the desired one in the compared part, and the update replaces that part
    of the version read and nothing else. *)
Theorem reconcile_update_guarded `{Lib} {S} (srv : server S) r req s
    (Hsrv : ∀ s c, sv_stable c (srv s c).1) :
  trace_guarded (update_guarded r req) (trace_of (run srv (Reconcile r req) s)).
Proof.
  apply Reconcile_trace; [done|done|..]; intros h c sv Hsv Hn Hc; destruct c as [| | |k o| | | |]; try done.
  - intros _. by exists sv.
  - intros [->|[->|[->| ->]]]; done.
Qed.

Lemma reconcile_update_guarded_witness :
  (∀ m c, sv_stable c (memServer m c).1) ∧
  (VUpdate, KNetworkPolicy) ∈ writes_of (passRun left3) ∧
  trace_guarded (update_guarded sampleReconciler sampleRequest) (trace_of (passRun left3)).
Proof.
  split_and!; [exact memServer_stable|apply (bool_decide_unpack _); vm_compute; exact I|].
  apply (reconcile_update_guarded memServer sampleReconciler sampleRequest left3 memServer_stable).
Defined.

(** C25. Least privilege: against any API server, every call of a reconcile is
    granted by the RBAC rules generated from the kubebuilder markers. *)
Theorem reconcile_rbac `{Lib} {S} (srv : server S) r req s :
  Forall (λ e, permitted (ev_call e) = true) (trace_of (run srv (Reconcile r req) s)).
Proof.
  apply (run_footprint srv (λ c, permitted c = true)).
  eapply footprint_mono; [|apply Reconcile_fp].
  intros c Hc%bool_decide_eq_true. unfold permitted. revert Hc. generalize (sig c). intros vk.
  apply (list.Forall_forall (λ vk, forallb granted (needs vk) = true) reconcile_sigs).
  apply (bool_decide_unpack _). vm_compute. exact I.
Qed.

(** C26. No panic: a reconcile that is answered only with admitted volumes, and
    with Deployments whose template has a container, does not panic. *)
Theorem reconcile_no_panic `{Lib} {S} (srv : server S) r req s
    (Hsrv : ∀ s c, sv_stable c (srv s c).1)
    (Hadm : Forall (λ e, admitted e = true) (trace_of (run srv (Reconcile r req) s))) :
  result_of (run srv (Reconcile r req) s) ≠ Panic.
Proof.
  rewrite list.Forall_forall in Hadm.
  intros Hp. pose proof (run_wp srv _ _ _ _ [] s (Reconcile_hwp r req []) Hsrv) as [HQ _].
  destruct (HQ Hp) as (sv & Hsv & [(b & Hb & Hnone)|(d & Hd & Hnil)]).
  - apply Hadm in Hsv. destruct (valid_Spec_HostPath _ _ Hsv Hb) as [? ?]. congruence.
  - apply Hadm in Hd. unfold admitted in Hd. simpl in Hd. by rewrite Hnil in Hd.
Qed.

Lemma reconcile_no_panic_witness :
  (∀ m c, sv_stable c (memServer m c).1) ∧
  Forall (λ e, admitted e = true) (trace_of (passRun bound2)) ∧
  result_of (passRun bound2) ≠ Panic.
Proof.
  assert (Forall (λ e, admitted e = true) (trace_of (passRun bound2))) as Hadm.
  { apply Forall_true. vm_compute. reflexivity. }
  split_and!; [exact memServer_stable|exact Hadm|]. unfold passRun in Hadm |- *.
  exact (reconcile_no_panic memServer sampleReconciler sampleRequest bound2 memServer_stable Hadm).
Defined.
