(* ===== verification/FailStop.v ===== *)
(** Fail-stop: the first call that fails with an error the code does not treat as
    an answer is the last call of the reconcile, and its error is the result, but
    for the one handler that builds before it looks at the error. *)
From S2P Require Import Prelude Kube V1alpha1 Client Resources Lib Server Logic Bindings NetPolicy BackupJob Reconcile Teardown LiveSpec LiveLogic LiveServer MemCluster Samples.

(** The error of an answer that aborts the reconcile: NotFound answers a read or a
    delete, AlreadyExists a create, Conflict a status update; every other error
    is a failure. *)
Definition failure (c : call) : resp c → option error :=
  match c return resp c → option error with
  | CGet _ _ => λ a, match a with inl e => if IsNotFound e then None else Some e | inr _ => None end
  | CList _ _ => λ a, match a with inl e => Some e | inr _ => None end
  | CCreate _ _ => λ a, match a with inl e => if IsAlreadyExists e then None else Some e | inr _ => None end
  | CUpdate _ _ => λ a, match a with inl e => Some e | inr _ => None end
  | CStatusUpdate _ => λ a, match a with inl e => if IsConflict e then None else Some e | inr _ => None end
  | CDelete _ _ _ => λ a, match a with Some e => if IsNotFound e then None else Some e | None => None end
  | CEventf _ _ _ _ _ => λ _, None
  | CNow => λ _, None
  end.

Definition failed (e : event) : option error := failure (ev_call e) (ev_resp e).

(** A read of the CronJob of a volume that was read and asks for a backup without
    a destination: [reconcileBackup] builds the desired CronJob, and panics, before
    it looks at the answer. *)
Definition buildsBeforeError (r : SharedVolumeReconciler) (tr : list event) (c : call) : Prop :=
  ∃ sv b, volumeRead tr sv ∧ c = CGet KCronJob (MkNN (OperatorNamespace r) (BackupCronJobName sv)) ∧
    Backup (sv_Spec sv) = Some b ∧ HostPath (Destination b) = None.

(** The ghost state is the call that failed and its error, if any; no call may
    follow it.  The answers are those of the trace [tr]; a failed call that
    satisfies [P] may end in a panic. *)
Section Ghost.
Context (tr : list event) (P : call → Prop).

Definition unfailed (g : option (call * error)) (c : call) : Prop := g = None.
Definition fail_trans (g : option (call * error)) (c : call) (a : resp c) (g' : option (call * error)) : Prop :=
  Ev c a ∈ tr ∧ g' = pair c <$> failure c a.
Definition stops {A} (g : option (call * error)) (res : outcome A) : Prop :=
  ∀ c e, g = Some (c, e) → res = Err e ∨ (res = Panic ∧ P c).

(** And its result, if it returns one, satisfies [Q]. *)
Definition failStopQ {A} (p : prog (outcome A)) (Q : A → Prop) : Prop :=
  wp unfailed fail_trans p (λ g res, stops g res ∧ ∀ a, res = Ok a → Q a) None.

Definition failStop {A} (p : prog (outcome A)) : Prop := wp unfailed fail_trans p stops None.
End Ghost.

(** A cluster whose API server refuses every read of a node. *)
Definition noNodesServer : server mem := λ m c,
  match c return resp c * mem with
  | CList KNode _ => (inl (OtherError "nodes are unavailable"), m)
  | c' => memServer m c'
  end.

(** * Rules *)

Section Rules.
Context {tr : list event} {P : call → Prop}.
Local Abbreviation failStop := (failStop tr P).

Lemma failStop_ret {A} (res : outcome A) : failStop (Ret res).
Proof. by intros c e. Qed.

Lemma failStop_bindEQ {A B} (p : prog (outcome A)) (f : A → prog (outcome B)) (Q : A → Prop) :
  failStopQ tr P p Q → (∀ a, Q a → failStop (f a)) → failStop (bindE p f).
Proof.
  intros Hp Hf. apply wp_bindE. eapply wp_mono; [|exact Hp].
  intros [[c e]|] res [Hs HQ].
  - destruct (Hs c e eq_refl) as [-> | [-> HP]]; intros ? ? [= <- <-]; auto.
  - destruct res; [by apply Hf, HQ|by intros ? ?..].
Qed.

Lemma failStop_bindE {A B} (p : prog (outcome A)) (f : A → prog (outcome B)) :
  failStop p → (∀ a, failStop (f a)) → failStop (bindE p f).
Proof.
  intros Hp Hf. apply (failStop_bindEQ _ _ (λ _, True)); [|auto].
  eapply wp_mono; [|exact Hp]. by auto.
Qed.

Lemma failStop_orPanic {A B} (o : option A) (f : A → prog (outcome B)) :
  (∀ a, failStop (f a)) → failStop (orPanic o f).
Proof. intros Hf. by destruct o; [apply Hf|]. Qed.

(** A call: a failure is returned at once, any other answer is handled. *)
Lemma failStop_call {A} c (k : resp c → prog (outcome A)) :
  (∀ a e, failure c a = Some e → k a = Ret (Err e) ∨ (k a = Ret Panic ∧ P c)) →
  (∀ a, Ev c a ∈ tr → failure c a = None → failStop (k a)) →
  failStop (trigger c ≫= k).
Proof.
  intros He Hk. apply wp_bind, wp_trigger; [done|]. intros a g [Ha ->].
  destruct (failure c a) as [e|] eqn:Hf; [|by apply Hk].
  destruct (He a e Hf) as [-> | [-> HP]]; apply wp_ret; intros ? ? [= <- <-]; auto.
Qed.

(** What every answer leads to, whatever was done before. *)
Lemma failStop_result {A} allowed (p : prog (outcome A)) (R : outcome A → Prop) (Q : A → Prop) h :
  hwp allowed any_answer p (λ _, R) h → (∀ a, R (Ok a) → Q a) → failStop p → failStopQ tr P p Q.
Proof.
  intros Hr HRQ. unfold FailStop.failStop, failStopQ. generalize (@None (call * error)).
  revert h Hr. induction p as [res|c k IH]; intros h Hr g.
  { intros Hs. split; [done|]. intros a ->. by apply HRQ. }
  destruct Hr as [_ Hr]. intros [Hg Hk]. split; [done|]. intros a g' Ht.
  eapply IH; [by apply (Hr a)|by apply Hk].
Qed.
End Rules.

(** Open a call and decide its failure. *)
Ltac fs_call :=
  apply failStop_call;
  [ simpl; intros ? ? ?; repeat (case_match; simplify_eq/=); by left
  | let Hf := fresh in intros ? _ Hf; simpl in Hf; cbn beta ].

Ltac fs_step :=
  lazymatch goal with
  | |- failStop _ _ (Ret _) => apply failStop_ret
  | |- failStop _ _ (bindE _ _) => apply failStop_bindE; [|intros ?]
  | |- failStop _ _ (orPanic _ _) => apply failStop_orPanic; intros ?
  | |- failStop _ _ (mbind _ (trigger _)) => fs_call
  | |- failStop _ _ (mbind _ (Get _ _)) => fs_call
  | |- failStop _ _ (mbind _ (ListObjs _ _)) => fs_call
  | |- failStop _ _ (mbind _ (Create _ _)) => fs_call
  | |- failStop _ _ (mbind _ (Update _ _)) => fs_call
  | |- failStop _ _ (mbind _ (StatusUpdate _)) => fs_call
  | |- failStop _ _ (mbind _ (Delete _ _ _)) => fs_call
  | |- failStop _ _ (mbind _ (Eventf _ _ _ _ _)) => fs_call
  | |- failStop _ _ (mbind _ Now) => fs_call
  | |- failStop _ _ (let '(_, _) := ?x in _) => destruct x as [? ?]
  | |- failStop _ _ (match ?x with _ => _ end) => destruct x eqn:?; try done
  | |- failStop _ _ _ => progress cbn beta iota zeta
  end.

Ltac fs_auto := repeat fs_step.

(** * Components *)

Section Components.
Context `{Lib} (r : SharedVolumeReconciler) {tr : list event} {P : call → Prop}.
Local Abbreviation failStop := (failStop tr P).

Lemma createOwned_failStop k sv (o : obj k) : failStop (createOwned k sv o).
Proof. unfold createOwned. fs_auto. Qed.

Lemma createIfMissing_failStop k sv (o : obj k) : failStop (createIfMissing k sv o).
Proof. unfold createIfMissing. fs_auto. apply createOwned_failStop. Qed.

Lemma UpdateE_failStop k (o : obj k) : failStop (UpdateE k o).
Proof. unfold UpdateE. fs_auto. Qed.

Lemma DeleteIgnoreNotFound_failStop k (o : obj k) prop : failStop (DeleteIgnoreNotFound k o prop).
Proof. unfold DeleteIgnoreNotFound. fs_auto. Qed.

Lemma setRestored_failStop {A} sv st reason msg (k : SharedVolume * bool → prog (outcome A)) :
  (∀ x, failStop (k x)) → failStop (setRestoredCondition sv st reason msg ≫= k).
Proof.
  intros Hk. unfold setRestoredCondition. apply wp_bind, wp_bind, wp_trigger; [done|].
  intros now g [_ ->]. destruct (SetStatusCondition _ _ _) as [cs b]. apply wp_ret. apply Hk.
Qed.

Ltac fs_leaf :=
  lazymatch goal with
  | |- FailStop.failStop _ _ (createOwned ?k ?sv ?o) => apply (createOwned_failStop k sv o)
  | |- FailStop.failStop _ _ (createIfMissing ?k ?sv ?o) => apply (createIfMissing_failStop k sv o)
  | |- FailStop.failStop _ _ (UpdateE ?k ?o) => apply (UpdateE_failStop k o)
  | |- FailStop.failStop _ _ (DeleteIgnoreNotFound ?k ?o ?p) => apply (DeleteIgnoreNotFound_failStop k o p)
  | |- FailStop.failStop _ _ (mbind _ (setRestoredCondition _ _ _ _)) => apply setRestored_failStop; intros [? ?]
  end.
Ltac fs_solve := repeat first [fs_leaf | fs_step].

Lemma reconcileServer_failStop sv : failStop (reconcileServer r sv).
Proof.
  unfold reconcileServer, ensureConfigMap, reconcileSeed, ensureDeployment, ensureService.
  fs_solve.
Qed.

Lemma namedTargets_failStop names set : failStop (namedTargets names set).
Proof. revert set. induction names as [|n names IH]; intros set; cbn [namedTargets]; fs_solve; apply IH. Qed.

Lemma targetNamespaces_failStop sv : failStop (targetNamespaces sv).
Proof. unfold targetNamespaces. fs_solve. apply namedTargets_failStop. Qed.

Lemma reconcileBinding_failStop sv ns ip : failStop (reconcileBinding sv ns ip).
Proof. unfold reconcileBinding, ensurePV. fs_solve. Qed.

Lemma reconcileBindings_failStop sv targets ip : failStop (reconcileBindings sv targets ip).
Proof.
  induction targets as [|ns targets IH]; cbn [reconcileBindings]; fs_solve; [|apply IH].
  apply reconcileBinding_failStop.
Qed.

Lemma cleanupLoop_failStop sv targets pvs : failStop (cleanupLoop sv targets pvs).
Proof. induction pvs as [|pv pvs IH]; cbn [cleanupLoop]; fs_solve; apply IH. Qed.

Lemma ensureBindings_failStop sv targets ip : failStop (ensureBindings sv targets ip).
Proof.
  unfold ensureBindings, cleanupStaleBindings.
  fs_solve; [apply reconcileBindings_failStop|apply cleanupLoop_failStop].
Qed.

Lemma reconcileNetworkPolicy_failStop sv targets : failStop (reconcileNetworkPolicy r sv targets).
Proof. unfold reconcileNetworkPolicy, nodeIPs. fs_solve. Qed.

Lemma reconcileBackup_failStop sv :
  (BuildBackupCronJob sv (OperatorNamespace r) (BackupImage r) = None → Backup (sv_Spec sv) ≠ None →
   P (CGet KCronJob (MkNN (OperatorNamespace r) (BackupCronJobName sv)))) →
  failStop (reconcileBackup r sv).
Proof.
  intros HP. unfold reconcileBackup. apply failStop_call.
  - simpl. intros [err|cj] e; [|done]. destruct (IsNotFound err) eqn:Hn; [done|]. intros [= ->].
    destruct (Backup _); [|by left]. destruct (BuildBackupCronJob _ _ _); simpl; [by left|]. right. auto.
  - intros a _ Hf. simpl in Hf. cbn beta. fs_solve.
Qed.

Lemma teardownLoop_failStop sv pvs n : failStop (teardownLoop sv pvs n).
Proof.
  revert n. induction pvs as [|pv pvs IH]; intros n; cbn [teardownLoop]; fs_solve; apply IH.
Qed.

Lemma deleteStack_failStop objs : failStop (deleteStack objs).
Proof.
  induction objs as [|[k o] objs IH]; [apply failStop_ret|].
  apply failStop_bindE; [apply DeleteIgnoreNotFound_failStop|intros _; apply IH].
Qed.

Lemma reconcileDelete_failStop sv : failStop (reconcileDelete r sv).
Proof.
  unfold reconcileDelete, markTerminating, teardownBacking.
  fs_solve; [apply teardownLoop_failStop|apply deleteStack_failStop].
Qed.

(** The status update is the one call whose error the caller inspects again. *)
Lemma updateStatus_failStop sv ip ready bs :
  failStop (u ← updateStatus r sv ip ready bs;
            match u with
            | Err err => if IsConflict err then Ret (Ok (MkResult true 0)) else Ret (Err err)
            | Panic => Ret Panic
            | Ok _ => Ret (Ok noResult)
            end).
Proof.
  unfold updateStatus. apply wp_bind.
  do 2 (apply wp_bind, wp_trigger; [done|]; intros ? ? [_ ->]).
  apply wp_bind, wp_trigger; [done|]. intros [err|sv'] g [_ ->]; simpl; apply wp_ret; [|by apply wp_ret].
  destruct (IsConflict err) eqn:Hc; apply wp_ret; intros ? ? ?; simplify_eq/=; auto.
Qed.

End Components.

(** * The whole reconcile *)

(** Building the CronJob of a volume with a backup fails only without a destination. *)
Lemma BuildBackupCronJob_None sv ns image b :
  Backup (sv_Spec sv) = Some b → BuildBackupCronJob sv ns image = None → HostPath (Destination b) = None.
Proof.
  unfold BuildBackupCronJob, backupPodSpec. intros Hb. rewrite Hb. cbn [mbind option_bind].
  by destruct (HostPath (Destination b)).
Qed.

Section Whole.
Context `{Lib} (r : SharedVolumeReconciler) (tr : list event).
Local Abbreviation failStop := (failStop tr (buildsBeforeError r tr)).
Local Abbreviation failStopQ := (failStopQ tr (buildsBeforeError r tr)).

(** The volume goes on as the server returned it. *)
Lemma ensureFinalizer_failStop sv : volumeRead tr sv →
  failStopQ (ensureFinalizer sv) (λ sv', ∃ sv0, volumeRead tr sv0 ∧ sv_core sv' = sv_core sv0).
Proof.
  intros Hr. unfold ensureFinalizer. destruct (AddFinalizer _ _) as [fs []].
  - unfold UpdateE, Update. apply wp_bind, wp_trigger; [done|].
    intros [err|sv'] g [Ha ->]; apply wp_ret; (split; [intros ? ? ?; simplify_eq/=; auto|]); [done|].
    intros ? [= <-]. exists sv'. split; [right; eauto|done].
  - apply wp_ret. split; [by intros ? ?|]. intros ? [= <-]. by exists sv.
Qed.

(** The server stack hands on the same volume, but for its conditions. *)
Lemma reconcileServer_core sv :
  failStopQ (reconcileServer r sv) (λ x, sv_core x.2 = sv_core sv).
Proof.
  eapply (failStop_result _ _ (λ res, ∀ x, res = Ok x → sv_core x.2 = sv_core sv)
            _ [Ev (CGet KSharedVolume sampleRequest) (inr sv)]);
    [|by intros a Ha; apply Ha|apply reconcileServer_failStop].
  eapply wp_mono; [|apply reconcileServer_spec; exists sv; split; [left; eexists; by left|done]].
  intros h' res [_ Hpost] [[ip ready] sv'] ->. by destruct Hpost.
Qed.

Lemma reconcileLive_failStop sv : volumeRead tr sv → failStop (reconcileLive r sv).
Proof.
  intros Hr. unfold reconcileLive.
  eapply failStop_bindEQ; [by apply ensureFinalizer_failStop|]. intros sv1 (sv0 & Hr0 & Hc1).
  eapply failStop_bindEQ; [apply reconcileServer_core|]. intros [[ip ready] sv2] Hc2. simpl in Hc2.
  apply failStop_bindE; [apply targetNamespaces_failStop|intros targets].
  apply failStop_bindE; [apply ensureBindings_failStop|intros bs].
  apply failStop_bindE; [apply reconcileNetworkPolicy_failStop|intros ?].
  apply failStop_bindE; [|intros sv3; apply updateStatus_failStop].
  apply reconcileBackup_failStop. intros Hnone Hsome.
  assert (sv_core sv2 = sv_core sv0) as Hc by congruence.
  destruct (Backup (sv_Spec sv2)) as [b|] eqn:Hb; [|done].
  exists sv0, b. split_and!; [done| | |by eapply BuildBackupCronJob_None].
  - change (BackupCronJobName sv0) with (BackupCronJobName (sv_core sv0)). by rewrite <- Hc.
  - change (Backup (sv_Spec (sv_core sv0)) = Some b). by rewrite <- Hc.
Qed.

Lemma Reconcile_failStop req : failStop (Reconcile r req).
Proof.
  unfold Reconcile. apply failStop_call.
  { simpl. intros [err|sv] e; [|done]. destruct (IsNotFound err) eqn:Hn; [done|]. intros [= ->]. by left. }
  intros [err|sv] Hev _; [by simpl; destruct (IsNotFound err)|].
  destruct (negb _); [apply reconcileDelete_failStop|apply reconcileLive_failStop; left; eauto].
Qed.
End Whole.

(** * From the ghost state to traces *)

Lemma failStop_run {S A} tr P (srv : server S) (p : prog (outcome A)) s pre e post err :
  failStop tr P p → (∀ e, e ∈ trace_of (run srv p s) → e ∈ tr) →
  trace_of (run srv p s) = pre ++ e :: post → failed e = Some err →
  post = [] ∧ (result_of (run srv p s) = Err err ∨ (result_of (run srv p s) = Panic ∧ P (ev_call e))).
Proof.
  unfold failStop. generalize (@None (call * error)). intros g.
  revert g s pre. induction p as [a|c k IH]; intros g s pre Hp.
  { by destruct pre. }
  destruct Hp as [Hg Hk]. simpl. destruct (srv s c) as [a s1] eqn:Es.
  specialize (Hk a (pair c <$> failure c a)). specialize (IH a (pair c <$> failure c a) s1).
  destruct (run srv (k a) s1) as [[tr1 s2] res] eqn:Er. unfold trace_of, result_of in *. simpl in *.
  intros Htr. specialize (Hk (conj (Htr (Ev c a) (list_elem_of_here _ _)) eq_refl)).
  destruct pre as [|e' pre]; simpl; intros Heq Hfail; simplify_eq.
  2: { eapply IH; [done| |reflexivity|done]. intros e1 ?. apply Htr. by right. }
  unfold failed in Hfail. simpl in Hfail. rewrite Hfail in Hk.
  destruct (k a) as [res'|c' k'] eqn:Ek.
  - simpl in Er. simplify_eq. split; [done|]. by apply (Hk c err).
  - by destruct Hk as [? _].
Qed.

(** * A panic in place of an error *)

(** A volume that was stored without admission: its backup has no destination. *)
Definition lostDestination : SharedVolume :=
  sampleVolume ReclaimDelete (Some (MkBackupSpec "0 3 * * *" (MkBackupDestination None) None RestoreNever)).

(** A cluster whose API server refuses every read of a CronJob. *)
Definition noCronJobsServer : server mem := λ m c,
  match c return resp c * mem with
  | CGet KCronJob _ => (inl (OtherError "cron jobs are unavailable"), m)
  | c' => memServer m c'
  end.

(** The refused read is the last call, and the reconcile panics. *)
Lemma missing_destination_panics :
  let x := run noCronJobsServer (Reconcile sampleReconciler sampleRequest) (sampleCluster lostDestination) in
  option_map failed (last (trace_of x)) = Some (Some (OtherError "cron jobs are unavailable")) ∧
  result_of x = Panic.
Proof. vm_compute. split; reflexivity. Qed.

(** * Property *)

(** C18. Fail-stop: whatever the API server answers, the first answer that is a
    failure (any error but NotFound to a read or delete, AlreadyExists to a
    create, Conflict to a status update) ends the reconcile: it is the last call
    of the run, and its error is the result, so the request is retried.  The one
    way to end in a panic instead: the failed call is the read of the backup
    CronJob of a volume, told by the server in this run, whose backup has no
    destination, where the CronJob is built before the error is looked at. *)
Theorem reconcile_fail_stop `{Lib} {S} (srv : server S) r req s pre e post err
    (Htrace : trace_of (run srv (Reconcile r req) s) = pre ++ e :: post)
    (Hfail : failed e = Some err) :
  post = [] ∧
  (result_of (run srv (Reconcile r req) s) = Err err ∨
   (result_of (run srv (Reconcile r req) s) = Panic ∧
    ∃ sv b, volumeRead (trace_of (run srv (Reconcile r req) s)) sv ∧
      ev_call e = CGet KCronJob (MkNN (OperatorNamespace r) (BackupCronJobName sv)) ∧
      Backup (sv_Spec sv) = Some b ∧ HostPath (Destination b) = None)).
Proof.
  destruct (failStop_run (trace_of (run srv (Reconcile r req) s))
    (buildsBeforeError r (trace_of (run srv (Reconcile r req) s))) srv (Reconcile r req) s pre e post err) as [Hp Hres];
    [apply Reconcile_failStop|done|exact Htrace|exact Hfail|].
  split; [exact Hp|exact Hres].
Qed.

Lemma reconcile_fail_stop_witness :
  ∃ pre : list event,
    trace_of (run noNodesServer (Reconcile sampleReconciler sampleRequest) bound2)
    = pre ++ Ev (CList KNode AllObjects) (inl (OtherError "nodes are unavailable")) :: [] ∧
    length pre = 13 ∧
    result_of (run noNodesServer (Reconcile sampleReconciler sampleRequest) bound2)
    = Err (OtherError "nodes are unavailable").
Proof.
  exists (take 13 (trace_of (run noNodesServer (Reconcile sampleReconciler sampleRequest) bound2))).
  assert (trace_of (run noNodesServer (Reconcile sampleReconciler sampleRequest) bound2)
    = take 13 (trace_of (run noNodesServer (Reconcile sampleReconciler sampleRequest) bound2))
      ++ Ev (CList KNode AllObjects) (inl (OtherError "nodes are unavailable")) :: []) as Htr
    by (vm_compute; reflexivity).
  split_and!; [exact Htr|vm_compute; reflexivity|].
  destruct (proj2 (reconcile_fail_stop noNodesServer sampleReconciler sampleRequest bound2 _ _ _
    (OtherError "nodes are unavailable") Htr eq_refl)) as [Herr|(_ & sv & b & _ & Hcall & _)];
    [exact Herr|discriminate Hcall].
Defined.
