(* ===== verification/Achieve.v ===== *)
(** What a handler has achieved once it succeeds, on histories: the dual of the
    guards of Logic.v.  [achieves rely h p Q] says that from history [h], against
    answers that satisfy [rely], the history only grows and a successful result
    satisfies [Q]. *)
From S2P Require Import Prelude Kube V1alpha1 Client Resources Lib Server Logic LiveSpec.

Definition achieves {A} (rely : ∀ c, resp c → Prop) (h : list event) (p : prog (outcome A))
    (Q : list event → A → Prop) : Prop :=
  hwp (λ _ _, True) rely p (λ h' res, grown h h' ∧ ∀ a, res = Ok a → Q h' a) h.

(** * Monotonicity *)

Lemma createdFrom_mono `{Lib} h tr k sv (o o' : obj k) :
  createdFrom h k sv o o' → createdFrom (h ++ tr) k sv o o'.
Proof.
  intros (refs & Hr & Hc). exists refs. split; [done|]. cbn zeta in *.
  destruct Hc as [?|(? & err & ? & ?)]; [left|right]; [by apply elem_of_app_hist|].
  split; [done|]. exists err. split; [by apply elem_of_app_hist|done].
Qed.

Lemma grown_elem h h' (e : event) : grown h h' → e ∈ h → e ∈ h'.
Proof. intros [tr ->]. apply elem_of_app_hist. Qed.

(** * Rules *)

Section Rules.
Context {rely : ∀ c, resp c → Prop}.
Abbreviation achieves := (achieves rely).
Local Open Scope go_scope.

Lemma ach_ok {A} h (a : A) (Q : list event → A → Prop) : Q h a → achieves h (Ret (Ok a)) Q.
Proof. intros HQ. apply wp_ret. split; [apply grown_refl|]. by intros ? [= <-]. Qed.

Lemma ach_err {A} h e (Q : list event → A → Prop) : achieves h (Ret (Err e)) Q.
Proof. apply wp_ret. by split; [apply grown_refl|]. Qed.

Lemma ach_mono {A} h (p : prog (outcome A)) (Q Q' : list event → A → Prop) :
  (∀ tr a, Q (h ++ tr) a → Q' (h ++ tr) a) → achieves h p Q → achieves h p Q'.
Proof.
  intros HQ. apply wp_mono. intros h' res [[tr ->] Hres]. split; [apply grown_app|]. auto.
Qed.

Lemma ach_later {A} h tr (p : prog (outcome A)) (Q : list event → A → Prop) :
  achieves (h ++ tr) p Q →
  hwp (λ _ _, True) rely p (λ h' res, grown h h' ∧ ∀ a, res = Ok a → Q h' a) (h ++ tr).
Proof.
  apply wp_mono. intros h' res [Hg Hres]. split; [|done]. eapply grown_trans; [apply grown_app|exact Hg].
Qed.

Lemma ach_bindE {A B} h (p : prog (outcome A)) (f : A → prog (outcome B))
    (Q1 : list event → A → Prop) (Q2 : list event → B → Prop) :
  achieves h p Q1 → (∀ tr a, Q1 (h ++ tr) a → achieves (h ++ tr) (f a) Q2) →
  achieves h (bindE p f) Q2.
Proof.
  intros Hp Hf. apply wp_bindE. eapply wp_mono; [|exact Hp].
  intros h' [a|e|] [[tr ->] Ha]; [apply ach_later, Hf; auto|by split; [apply grown_app|]..].
Qed.

Lemma ach_call {A} h c (f : resp c → prog (outcome A)) (Q : list event → A → Prop) :
  (∀ a, achieves (h ++ [Ev c a]) (f a) Q) → achieves h (trigger c ≫= f) Q.
Proof. intros Hf. apply wp_bind, wp_trigger; [done|]. intros a h' [_ ->]. apply ach_later, Hf. Qed.

Lemma ach_createOwned `{Lib} h k sv (o : obj k) :
  achieves h (createOwned k sv o) (λ h' o', createdFrom h' k sv o o').
Proof.
  eapply wp_mono; [|by apply createOwned_hwp]. intros h' res (Hg & Ho & _). by split.
Qed.

Lemma ach_Update h k (o : obj k) : achieves h (UpdateE k o) (λ _ _, True).
Proof. eapply wp_mono; [|by apply UpdateE_hwp]. intros h' res (Hg & _ & _). by split. Qed.

Lemma ach_Delete h k (o : obj k) prop :
  achieves h (DeleteIgnoreNotFound k o prop) (λ h' _, deleted h' k o prop).
Proof.
  eapply wp_mono; [|by apply DeleteIgnoreNotFound_hwp]. intros h' res (Hg & Hd & _).
  split; [done|]. intros [] ->. by apply Hd.
Qed.
End Rules.

