(* ===== verification/BindingFacts.v ===== *)
(** What the bindings of a volume achieve: the loop over the targets reports the
    consumer PVC each namespace holds, and stale pairs are torn down in order. *)
From S2P Require Import Prelude Kube V1alpha1 Client Resources Lib Server Logic Bindings Teardown LiveSpec LiveBindings Achieve MemCluster Samples.

(** The phase a consumer PVC's [Get] stands for. *)
Definition phaseOf (sv : SharedVolume) (a : error + PersistentVolumeClaim) : string :=
  match a with
  | inl _ => BindingPending
  | inr pvc =>
      if pvcOwned sv pvc then
        if Time_IsZero (DeletionTimestamp (pvc_ObjectMeta pvc)) then
          if decide (pvc_Phase pvc = ClaimBound) then BindingBound else BindingPending
        else BindingTerminating
      else BindingConflict
  end.

(** The key of the consumer PVC in a namespace. *)
Definition consumerKey (sv : SharedVolume) (ns : string) : NamespacedName :=
  MkNN ns (ConsumerPVCName sv).

(** The warning a conflicting PVC is reported with. *)
Definition conflictWarned (sv : SharedVolume) (h : list event) (ns : string) : Prop :=
  Ev (CEventf sv EventTypeWarning "PVCConflict" "Reconcile" (pvcConflictNote ns (ConsumerPVCName sv))) tt ∈ h.

(** The PV was answered for, by a successful read, creation or repair. *)
Definition pairAnswered `{Lib} (sv : SharedVolume) (ip : string) (h : list event) (ns : string) : Prop :=
  (∃ pv, readAt h KPV (MkNN "" (PVName sv ns)) pv) ∨
  (∃ pv, createdFrom h KPV sv (BuildPV sv ns ip) pv).

(** What one entry of the status says of the history. *)
Definition bindingTold `{Lib} (sv : SharedVolume) (ip : string) (h : list event) (ns : string)
    (b : NamespaceBinding) : Prop :=
  nb_Namespace b = ns ∧ nb_PVCName b = sv_Name sv ∧ pairAnswered sv ip h ns ∧
  ∃ a, Ev (CGet KPVC (consumerKey sv ns)) a ∈ h ∧ nb_Phase b = phaseOf sv a ∧
    match a with
    | inl err => IsNotFound err = true ∧ ∃ pvc, createdFrom h KPVC sv (BuildConsumerPVC sv ns) pvc
    | inr pvc => pvcOwned sv pvc = false → conflictWarned sv h ns
    end.

(** What a stale pair has come to: its claim is being deleted, or it is gone and
    the PV deleted. *)
Definition staleHandled (sv : SharedVolume) (h : list event) (pv : PersistentVolume)
    (ref : ObjectReference) : Prop :=
  (∃ pvc, readAt h KPVC (claimKey ref) pvc ∧ pvcOwned sv pvc = true ∧
     (Time_IsZero (DeletionTimestamp (pvc_ObjectMeta pvc)) = false ∨ deleted h KPVC pvc None)) ∨
  (claimGone sv h ref ∧ deleted h KPV pv None).

(** Three namespaces of a volume [sv]: a bound claim in the first, somebody else's
    in the second, none in the others. *)
Definition namespacesServer (sv : SharedVolume) : server unit := λ u c,
  (match c return resp c with
   | CGet k key =>
       match k return error + obj k with
       | KPVC => if decide (nn_Namespace key = "team-a") then inr (bindPVC (BuildConsumerPVC sv "team-a"))
                 else if decide (nn_Namespace key = "team-b")
                 then inr (MkPVC (objectMeta (sv_Name sv) "team-b" None) (pvc_Spec (BuildConsumerPVC sv "team-b")) ClaimBound)
                 else inl NotFoundError
       | _ => inl NotFoundError
       end
   | CList k opt => inr []
   | CCreate k o => inr o
   | CUpdate k o => inr o
   | CStatusUpdate sv => inr sv
   | CDelete _ _ _ => None
   | CEventf _ _ _ _ _ => tt
   | CNow => 0%Z
   end, u).

(** * The loop over the targets *)

Section Loop.
Context `{Lib} (sv : SharedVolume) (ip : string).

Lemma pairAnswered_mono h tr ns : pairAnswered sv ip h ns → pairAnswered sv ip (h ++ tr) ns.
Proof.
  intros [[pv ?]|[pv ?]]; [left|right]; exists pv; [by apply elem_of_app_hist|by apply createdFrom_mono].
Qed.

Lemma bindingTold_mono h tr ns b : bindingTold sv ip h ns b → bindingTold sv ip (h ++ tr) ns b.
Proof.
  intros (? & ? & ? & a & ? & ? & Ha). split_and!; [done|done|by apply pairAnswered_mono|].
  exists a. split_and!; [by apply elem_of_app_hist|done|].
  destruct a as [err|pvc]; [|intros Hc; by apply elem_of_app_hist, Ha].
  destruct Ha as [? [pvc ?]]. split; [done|]. exists pvc. by apply createdFrom_mono.
Qed.

Lemma ensurePV_answered ns h : achieves any_answer h (ensurePV sv ns ip) (λ h' _, pairAnswered sv ip h' ns).
Proof.
  unfold ensurePV. apply ach_call. intros [err|pv].
  - destruct (IsNotFound err); [|apply ach_err].
    eapply ach_bindE; [apply (ach_createOwned _ KPV)|]. intros tr pv Hpv. apply ach_ok. right. by exists pv.
  - assert (∀ tr, pairAnswered sv ip ((h ++ [Ev (CGet KPV (MkNN "" (PVName sv ns))) (inr pv)]) ++ tr) ns) as Hp.
    { intros tr. apply pairAnswered_mono. left. exists pv. apply event_now. }
    pose proof (Hp []) as Hp0. rewrite app_nil_r in Hp0.
    destruct (pvs_ClaimRef _); [|by apply ach_ok]. case_decide; [|by apply ach_ok].
    eapply ach_bindE; [apply (ach_Update _ KPV)|]. intros tr _ _. by apply ach_ok.
Qed.

Lemma reconcileBinding_told ns h :
  achieves any_answer h (reconcileBinding sv ns ip)
    (λ h' phase, bindingTold sv ip h' ns (MkNamespaceBinding ns (ConsumerPVCName sv) phase)).
Proof.
  unfold reconcileBinding. eapply ach_bindE; [apply ensurePV_answered|]. intros tr [] Hp.
  apply ach_call. change (ObjectKey KPVC (BuildConsumerPVC sv ns)) with (consumerKey sv ns).
  intros a.
  set (h1 := (h ++ tr) ++ [Ev (CGet KPVC (consumerKey sv ns)) a]).
  assert (Ev (CGet KPVC (consumerKey sv ns)) a ∈ h1) as Ha by apply event_now.
  assert (pairAnswered sv ip h1 ns) as Hp1 by by apply pairAnswered_mono.
  clearbody h1. destruct a as [err|pvc].
  - destruct (IsNotFound err) eqn:Hnf; [|apply ach_err].
    eapply ach_bindE; [apply (ach_createOwned _ KPVC)|]. intros tr' pvc Hpvc. apply ach_ok.
    split_and!; [done|done|by apply pairAnswered_mono|]. exists (inl err).
    split_and!; [by apply elem_of_app_hist|done|done|by exists pvc].
  - assert (∀ phase, phase = phaseOf sv (inr pvc) → pvcOwned sv pvc = true →
      achieves any_answer h1 (Ret (Ok phase)) (λ h' phase, bindingTold sv ip h' ns
        (MkNamespaceBinding ns (ConsumerPVCName sv) phase))) as Hret.
    { intros phase -> Ho. apply ach_ok. split_and!; [done..|]. exists (inr pvc).
      split_and!; [done|done|]. intros Hn. congruence. }
    simpl in Hret. destruct (pvcOwned sv pvc) eqn:Hown; simpl.
    2: { apply ach_call. intros []. apply ach_ok. split_and!; [done|done|by apply pairAnswered_mono|].
         exists (inr pvc). split_and!; [by apply elem_of_app_hist|by simpl; rewrite Hown|].
         intros _. apply event_now. }
    destruct (Time_IsZero _); simpl; [case_decide|]; by apply Hret.
Qed.

Lemma reconcileBindings_told targets h :
  achieves any_answer h (reconcileBindings sv targets ip) (λ h' bs, Forall2 (bindingTold sv ip h') targets bs).
Proof.
  revert h. induction targets as [|ns targets IH]; intros h; cbn [reconcileBindings].
  { apply ach_ok. constructor. }
  eapply ach_bindE; [apply reconcileBinding_told|]. intros tr phase Hb.
  eapply ach_bindE; [apply IH|]. intros tr' bs Hbs. apply ach_ok.
  constructor; [by apply bindingTold_mono|done].
Qed.

(** * Stale pairs *)

Lemma staleHandled_mono h tr pv ref : staleHandled sv h pv ref → staleHandled sv (h ++ tr) pv ref.
Proof.
  intros [(pvc & ? & ? & Hd)|[Hc Hd]]; [left|right].
  - exists pvc. split_and!; [by apply elem_of_app_hist|done|].
    destruct Hd; [by left|right; by apply deleted_mono].
  - split; [|by apply deleted_mono]. destruct Hc as [(err & ? & ?)|(pvc & ? & ?)]; [left|right];
      eexists; (split; [by apply elem_of_app_hist|done]).
Qed.

Lemma cleanupLoop_handled targets pvs h :
  achieves any_answer h (cleanupLoop sv targets pvs)
    (λ h' _, ∀ pv ref, pv ∈ pvs → pvs_ClaimRef (pv_Spec pv) = Some ref → ref_Namespace ref ∉ targets →
       staleHandled sv h' pv ref).
Proof.
  revert h. induction pvs as [|pv pvs IH]; intros h; cbn [cleanupLoop].
  { apply ach_ok. by intros ? ? ?%elem_of_nil. }
  assert (∀ h1, (∀ ref, pvs_ClaimRef (pv_Spec pv) = Some ref → ref_Namespace ref ∉ targets →
      staleHandled sv h1 pv ref) → achieves any_answer h1 (cleanupLoop sv targets pvs)
    (λ h' _, ∀ pv' ref, pv' ∈ pv :: pvs → pvs_ClaimRef (pv_Spec pv') = Some ref →
       ref_Namespace ref ∉ targets → staleHandled sv h' pv' ref)) as Hrest.
  { intros h1 Hpv. eapply ach_mono; [|apply IH]. intros tr [] Hall pv' ref [->|Hin]%elem_of_cons Href Hns.
    - apply staleHandled_mono. by apply Hpv.
    - by apply (Hall pv'). }
  destruct (pvs_ClaimRef (pv_Spec pv)) as [ref|] eqn:Href; [|by apply Hrest].
  destruct (slicesContains targets _) eqn:Ht.
  { apply Hrest. intros ? [= <-] Hn. by apply slicesContains_true in Ht. }
  change (MkNN (ref_Namespace ref) (ref_Name ref)) with (claimKey ref). apply ach_call. intros a.
  set (h1 := h ++ [Ev (CGet KPVC (claimKey ref)) a]).
  assert (Ev (CGet KPVC (claimKey ref)) a ∈ h1) as Ha by apply event_now. clearbody h1.
  assert (claimGone sv h1 ref → achieves any_answer h1 (bindE (DeleteIgnoreNotFound KPV pv None)
    (λ _, cleanupLoop sv targets pvs)) (λ h' _, ∀ pv' ref, pv' ∈ pv :: pvs →
       pvs_ClaimRef (pv_Spec pv') = Some ref → ref_Namespace ref ∉ targets → staleHandled sv h' pv' ref)) as Hgone.
  { intros Hg. eapply ach_bindE; [apply (ach_Delete _ KPV)|]. intros tr [] Hd. apply Hrest.
    intros ? [= <-] _. right. split; [|done]. destruct Hg as [(err & ? & ?)|(pvc & ? & ?)]; [left|right];
      eexists; (split; [by apply elem_of_app_hist|done]). }
  destruct a as [err|pvc].
  - destruct (IsNotFound err) eqn:Hnf; [|apply ach_err]. apply Hgone. left. by exists err.
  - destruct (pvcOwned sv pvc) eqn:Hown; [|apply Hgone; right; by exists pvc].
    destruct (Time_IsZero _) eqn:Hz.
    + eapply ach_bindE; [apply (ach_Delete _ KPVC)|]. intros tr [] Hd. apply Hrest.
      intros ? [= <-] _. left. exists pvc. split_and!; [by apply elem_of_app_hist|done|by right].
    + eapply ach_bindE; [by apply (ach_ok _ tt (λ _ _, True))|]. intros tr [] _. apply Hrest.
      intros ? [= <-] _. left. exists pvc. split_and!; [by apply elem_of_app_hist|done|by left].
Qed.
End Loop.

(** * Properties *)

(** C11. The bindings in the status are what the namespaces hold: whatever the
    server answers, when [reconcileBindings] succeeds it returns one entry per
    target, in order, whose PV was read or created, and whose phase is the one
    the consumer PVC's read stands for: Bound for an owned, bound PVC, Terminating
    for an owned PVC being deleted, Conflict, with a warning event, for a PVC
    that is not the volume's, and Pending otherwise, the PVC being created when
    it was missing. *)
Theorem bindings_reported `{Lib} {S} (srv : server S) sv targets ip s :
  let x := run srv (reconcileBindings sv targets ip) s in
  ∀ bs, result_of x = Ok bs → Forall2 (bindingTold sv ip (trace_of x)) targets bs.
Proof.
  apply (run_post srv (reconcileBindings sv targets ip)
    (λ h res, ∀ bs, res = Ok bs → Forall2 (bindingTold sv ip h) targets bs) any_answer s); [done|].
  eapply wp_mono; [|apply reconcileBindings_told]. by intros h res [_ ?].
Qed.

Lemma bindings_reported_witness :
  let sv := sampleVolume ReclaimDelete None in
  let x := run (namespacesServer sv) (reconcileBindings sv ["team-a"; "team-b"; "team-c"] "10.96.0.7") () in
  let bs := [MkNamespaceBinding "team-a" "data" BindingBound;
             MkNamespaceBinding "team-b" "data" BindingConflict;
             MkNamespaceBinding "team-c" "data" BindingPending] in
  result_of x = Ok bs ∧
  Forall2 (bindingTold sv "10.96.0.7" (trace_of x)) ["team-a"; "team-b"; "team-c"] bs.
Proof.
  intros sv x bs. assert (result_of x = Ok bs) as Hx by (vm_compute; reflexivity).
  split; [exact Hx|].
  exact (bindings_reported (namespacesServer sv) sv ["team-a"; "team-b"; "team-c"] "10.96.0.7" () bs Hx).
Defined.

(** C8. Leaving a namespace is safe: [cleanupStaleBindings] only reads and deletes;
    it deletes a PVC only when it is owned, not yet being deleted and the claim of
    a listed PV whose namespace is no target, and a PV only when its namespace is
    no target and its claim was read as absent or foreign; and when it succeeds
    every listed pair outside the targets is on its way: the claim is being
    deleted, or it is gone and the PV is deleted. *)
Theorem cleanup_order `{Lib} {S} (srv : server S) sv targets s :
  let x := run srv (cleanupStaleBindings sv targets) s in
  trace_guarded (cleanup_allowed sv targets) (trace_of x) ∧
  (result_of x = Ok tt → ∃ pvs, listed sv (trace_of x) pvs ∧
     ∀ pv ref, pv ∈ pvs → pvs_ClaimRef (pv_Spec pv) = Some ref → ref_Namespace ref ∉ targets →
       staleHandled sv (trace_of x) pv ref).
Proof.
  split; [eapply run_guarded, cleanupStaleBindings_hwp|].
  apply (run_post srv (cleanupStaleBindings sv targets)
    (λ h res, res = Ok tt → ∃ pvs, listed sv h pvs ∧ ∀ pv ref, pv ∈ pvs →
       pvs_ClaimRef (pv_Spec pv) = Some ref → ref_Namespace ref ∉ targets → staleHandled sv h pv ref)
    any_answer s); [done|].
  assert (achieves any_answer [] (cleanupStaleBindings sv targets) (λ h _, ∃ pvs, listed sv h pvs ∧ ∀ pv ref, pv ∈ pvs →
       pvs_ClaimRef (pv_Spec pv) = Some ref → ref_Namespace ref ∉ targets → staleHandled sv h pv ref)) as Hach.
  { apply ach_call. intros [err|pvs]; [apply ach_err|].
    eapply ach_mono; [|apply cleanupLoop_handled]. intros tr [] Hall. exists pvs.
    split; [|done]. apply elem_of_app_hist, event_now. }
  eapply wp_mono; [|exact Hach]. intros h res [_ Hr] Hok. by apply (Hr tt).
Qed.
