(* ===== verification/Quiescent.v ===== *)
(** The steady state: on a cluster where everything is as it should be, a
    reconcile writes nothing but the status, and reports it. *)
From S2P Require Import Prelude Kube V1alpha1 Client Resources Lib Server Logic Bindings NetPolicy BackupJob Reconcile StatusFacts BindingFacts Footprints Targets Netip NetFacts MemCluster Samples.

(** * A cluster at rest *)

(** What an API server that nobody writes to answers. *)
Record snapshot := MkSnapshot {
  snap_get : ∀ k : kind, NamespacedName → error + obj k;
  snap_list : ∀ k : kind, ListOption → error + list (obj k)
}.

(** What is there is read as it is; what is not is reported missing, in whatever
    words. *)
Definition agrees {A} (told a : error + A) : Prop :=
  match told with
  | inr o => a = inr o
  | inl err => ∃ err', a = inl err' ∧ IsNotFound err' = IsNotFound err
  end.

(** The answers of the snapshot.  The volume itself is read once, at the head of
    the reconcile; a status update may be refused. *)
Definition snapAnswers (w : snapshot) (c : call) : resp c → Prop :=
  match c return resp c → Prop with
  | CGet k key => λ a, k ≠ KSharedVolume → agrees (snap_get w k key) a
  | CList k opt => λ a, k ≠ KSharedVolume → a = snap_list w k opt
  | _ => λ _, True
  end.

Section Steady.
Context `{Lib} (r : SharedVolumeReconciler) (w : snapshot) (sv : SharedVolume).

Definition opkey (name : string) : NamespacedName := MkNN (OperatorNamespace r) name.

(** Every part is in place and as the builders make it, where the code compares. *)
Record steady (nss : list NamespaceObj) (nodes : list Node) (svc : Service)
    (phase : string → string) : Prop := {
  st_finalizer : (AddFinalizer (Finalizers (sv_ObjectMeta sv)) finalizerName) = (Finalizers (sv_ObjectMeta sv), false);
  st_backing : ∃ pvc, snap_get w KPVC (opkey (BackingPVCName sv)) = inr pvc;
  st_config : ∃ cm, snap_get w KConfigMap (opkey (ConfigMapName sv)) = inr cm ∧
    mapIndex (cm_Data cm) ganeshaConfKey = Config;
  st_deploy : ∃ d, snap_get w KDeployment (opkey (ServerName sv)) = inr d ∧
    templateDrifted (dep_Template d)
      (dep_Template (BuildServerDeployment sv (OperatorNamespace r) (GaneshaImage r)
         (BuildConfigMap sv (OperatorNamespace r)))) = Some false;
  st_service : snap_get w KService (opkey (ServerName sv)) = inr svc ∧ svc_ClusterIP svc ≠ "";
  st_names : NoDup (map ns_name nss);
  st_selector : selectorOk sv;
  st_namespaces : ∀ c a, snapAnswers w c a → nsAnswers nss c a;
  st_nodes : ∀ c a, snapAnswers w c a → nodesAnswer nodes c a;
  st_pvs : ∀ ns, ns ∈ targetsRef sv nss →
    ∃ pv, snap_get w KPV (MkNN "" (PVName sv ns)) = inr pv ∧
      (pv_Phase pv ≠ VolumeReleased ∨ ∀ ref, pvs_ClaimRef (pv_Spec pv) = Some ref → ref_UID ref = "");
  st_pvcs : ∀ ns, ns ∈ targetsRef sv nss →
    ∃ pvc, snap_get w KPVC (consumerKey sv ns) = inr pvc ∧ phase ns = phaseOf sv (inr pvc);
  st_listed : ∃ pvs, snap_list w KPV (byVolume sv) = inr pvs ∧
    ∀ pv ref, pv ∈ pvs → pvs_ClaimRef (pv_Spec pv) = Some ref → ref_Namespace ref ∈ targetsRef sv nss;
  st_policy :
    if decide (NetworkPolicyField (sv_Spec sv) = NetworkPolicyDisabled) then
      ∃ err, snap_get w KNetworkPolicy (opkey (ServerName sv)) = inl err ∧ IsNotFound err = true
    else ∃ np, snap_get w KNetworkPolicy (opkey (ServerName sv)) = inr np ∧
      SemanticDeepEqual (np_Spec np) (np_Spec (BuildNetworkPolicy sv (OperatorNamespace r) (targetsRef sv nss)
                                                 (nodeIPsRef nodes) (AllowCIDRs r))) = true;
  st_backup :
    match Backup (sv_Spec sv) with
    | None => ∃ err, snap_get w KCronJob (opkey (BackupCronJobName sv)) = inl err ∧ IsNotFound err = true
    | Some _ => ∃ cj want, snap_get w KCronJob (opkey (BackupCronJobName sv)) = inr cj ∧
        BuildBackupCronJob sv (OperatorNamespace r) (BackupImage r) = Some want ∧
        backupCronJobDrifted cj want = Some false
    end
}.

(** The bindings reported at rest. *)
Definition restBindings (phase : string → string) (targets : list string) : list NamespaceBinding :=
  map (λ ns, MkNamespaceBinding ns (ConsumerPVCName sv) (phase ns)) targets.
(** No write but the status of this volume, reporting [bs]. *)
Definition quiet (bs : list NamespaceBinding) (h : list event) (c : call) : Prop :=
  isWrite c = true → ∃ u, c = CStatusUpdate u ∧ sv_core u = sv_core sv ∧ Bindings (sv_Status u) = bs.
End Steady.

(** The status update was refused, a conflict asking for another pass. *)
Definition statusRefused (h : list event) (res : outcome Result) : Prop :=
  ∃ u e, Ev (CStatusUpdate u) (inl e) ∈ h ∧
    res = if IsConflict e then Ok (MkResult true 0) else Err e.

(** * A sample cluster at rest *)

(** A volume with a backup for the namespaces [team-a] and [team-b], everything
    in place: the objects are the builders', completed by the server-side fields. *)
Definition restVolume : SharedVolume :=
  set_Finalizers [finalizerName] (sampleVolume ReclaimDelete (Some (sampleBackup RestoreAuto))).

Definition restService : Service :=
  let s := BuildService restVolume (OperatorNamespace sampleReconciler) in
  MkService (svc_ObjectMeta s) (svc_Selector s) (svc_Ports s) "10.96.0.7".

Definition restPolicy : NetworkPolicy :=
  BuildNetworkPolicy restVolume (OperatorNamespace sampleReconciler)
    ["team-a"; "team-b"] (nodeIPsRef [sampleNode]) (AllowCIDRs sampleReconciler).

Definition restGet (k : kind) (key : NamespacedName) : error + obj k :=
  match k return error + obj k with
  | KSharedVolume => inr restVolume
  | KPVC =>
      if decide (key = opKey "nfsz-data") then inr (BuildBackingPVC restVolume (OperatorNamespace sampleReconciler))
      else inr (bindPVC (BuildConsumerPVC restVolume (nn_Namespace key)))
  | KConfigMap => inr (BuildConfigMap restVolume (OperatorNamespace sampleReconciler))
  | KDeployment =>
      inr (startServer (BuildServerDeployment restVolume (OperatorNamespace sampleReconciler)
             (GaneshaImage sampleReconciler) (BuildConfigMap restVolume (OperatorNamespace sampleReconciler))))
  | KService => inr restService
  | KPV => inr (BuildPV restVolume (if decide (nn_Name key = "nfsz-data-team-a") then "team-a" else "team-b")
                  "10.96.0.7")
  | KNetworkPolicy => inr restPolicy
  | KCronJob =>
      match BuildBackupCronJob restVolume (OperatorNamespace sampleReconciler) (BackupImage sampleReconciler) with
      | Some cj => inr cj
      | None => inl NotFoundError
      end
  | k' => (nsServer sampleNamespaces () (CGet k' key)).1
  end.

Definition restList (k : kind) (opt : ListOption) : error + list (obj k) :=
  match k return error + list (obj k) with
  | KNode => inr [sampleNode]
  | KPV => inr [BuildPV restVolume "team-a" "10.96.0.7"; BuildPV restVolume "team-b" "10.96.0.7"]
  | k' => (nsServer sampleNamespaces () (CList k' opt)).1
  end.

Definition restSnapshot : snapshot := MkSnapshot restGet restList.

(** The server of a snapshot: it takes status updates and ignores other writes. *)
Definition frozen (w : snapshot) : server unit := λ u c,
  (match c return resp c with
   | CGet k key => snap_get w k key
   | CList k opt => snap_list w k opt
   | CStatusUpdate sv => inr sv
   | c' => (nsServer [] () c').1
   end, u).

(** * Components at rest *)

Section Rest.
Context `{Lib} {L : LibLaws} (r : SharedVolumeReconciler) (w : snapshot) (sv0 : SharedVolume).
Context (nss : list NamespaceObj) (nodes : list Node) (svc : Service) (phase : string → string).
Context (St : steady r w sv0 nss nodes svc phase).
Abbreviation bs0 := (restBindings sv0 phase (targetsRef sv0 nss)).
Abbreviation rest p Q := (hwp (quiet sv0 bs0) (snapAnswers w) p Q).
Local Open Scope go_scope.

(** A read answered from the snapshot. *)
Lemma rest_get {A} k key (f : error + obj k → prog A) Q h o :
  snap_get w k key = inr o → bool_decide (k = KSharedVolume) = false → (∀ h', rest (f (inr o)) Q h') →
  rest (Get k key ≫= f) Q h.
Proof.
  intros Hg Hk%bool_decide_eq_false Hf. apply wp_bind, wp_trigger; [done|]. intros a h' [Ha _].
  cbn [snapAnswers] in Ha. specialize (Ha Hk). rewrite Hg in Ha. cbn [agrees] in Ha. subst a. apply Hf.
Qed.

Lemma rest_missing {A} k key (f : error + obj k → prog A) Q h err :
  snap_get w k key = inl err → IsNotFound err = true → bool_decide (k = KSharedVolume) = false →
  (∀ e h', IsNotFound e = true → rest (f (inl e)) Q h') →
  rest (Get k key ≫= f) Q h.
Proof.
  intros Hg He Hk%bool_decide_eq_false Hf. apply wp_bind, wp_trigger; [done|]. intros a h' [Ha _].
  cbn [snapAnswers] in Ha. specialize (Ha Hk). rewrite Hg in Ha. destruct Ha as (e & -> & Hn).
  apply Hf. by rewrite Hn.
Qed.

Lemma rest_list {A} k opt (f : error + list (obj k) → prog A) Q h a :
  snap_list w k opt = a → bool_decide (k = KSharedVolume) = false → (∀ h', rest (f a) Q h') →
  rest (ListObjs k opt ≫= f) Q h.
Proof.
  intros <- Hk%bool_decide_eq_false Hf. apply wp_bind, wp_trigger; [done|]. intros a h' [Ha _].
  cbn [snapAnswers] in Ha. rewrite (Ha Hk). apply Hf.
Qed.

Lemma rest_now {A} (f : Time → prog A) Q h : (∀ t h', rest (f t) Q h') → rest (Now ≫= f) Q h.
Proof. intros Hf. apply wp_bind, wp_trigger; [done|]. intros a h' _. apply Hf. Qed.

Lemma rest_setRestored {A} sv st reason msg (k : SharedVolume * bool → prog A) Q h :
  (∀ cs b h', rest (k (with_Status sv (set_Conditions cs (sv_Status sv)), b)) Q h') →
  rest (setRestoredCondition sv st reason msg ≫= k) Q h.
Proof.
  intros Hk. unfold setRestoredCondition. apply wp_bind, rest_now. intros t h'.
  destruct (SetStatusCondition _ _ _) as [cs b]. apply wp_ret, Hk.
Qed.

Lemma rest_createIfMissing k sv (o o' : obj k) Q h :
  snap_get w k (ObjectKey k o) = inr o' → bool_decide (k = KSharedVolume) = false → (∀ h', Q h' (Ok tt)) →
  rest (createIfMissing k sv o) Q h.
Proof. intros Hg Hk HQ. unfold createIfMissing. apply (rest_get _ _ _ _ _ _ Hg Hk). intros h'. by apply wp_ret. Qed.

(** The server stack exists: the gate is open whatever the conditions say. *)
Lemma reconcileSeed_rest h :
  rest (reconcileSeed r sv0) (λ _ res, ∃ st, res = Ok (true, with_Status sv0 st)) h.
Proof.
  unfold reconcileSeed. assert (sv0 = with_Status sv0 (sv_Status sv0)) as Heq by (by destruct sv0).
  destruct (seedNotInPlay sv0); [apply wp_ret; exists (sv_Status sv0); by rewrite <- Heq|].
  destruct (IsStatusConditionTrue _ _); [apply wp_ret; exists (sv_Status sv0); by rewrite <- Heq|].
  destruct (st_deploy _ _ _ _ _ _ _ St) as (d & Hd & _).
  apply (rest_get _ _ _ _ _ _ Hd eq_refl). intros h'. apply rest_setRestored. intros cs b h2.
  apply wp_ret. by eexists.
Qed.

Lemma reconcileServer_rest h :
  rest (reconcileServer r sv0)
    (λ _ res, ∃ ready st, res = Ok (svc_ClusterIP svc, ready, with_Status sv0 st)) h.
Proof.
  unfold reconcileServer. apply wp_bindE.
  destruct (st_backing _ _ _ _ _ _ _ St) as (pvc & Hpvc).
  apply (rest_createIfMissing KPVC sv0 (BuildBackingPVC sv0 (OperatorNamespace r)) pvc); [exact Hpvc|reflexivity|].
  intros h1.
  apply wp_bindE. unfold ensureConfigMap.
  destruct (st_config _ _ _ _ _ _ _ St) as (cm & Hcm & Hconf).
  apply (rest_get KConfigMap _ _ _ _ _ Hcm eq_refl). intros h2. rewrite decide_False by (rewrite Hconf; by intros []).
  apply wp_ret, wp_bindE. eapply wp_mono; [|apply reconcileSeed_rest]. intros h3 res (st & ->).
  apply wp_bindE. unfold ensureDeployment.
  destruct (st_deploy _ _ _ _ _ _ _ St) as (d & Hd & Hdrift).
  apply (rest_get KDeployment _ _ _ _ _ Hd eq_refl). intros h4. apply wp_bindE.
  change (templateDrifted _ _) with (templateDrifted (dep_Template d)
      (dep_Template (BuildServerDeployment sv0 (OperatorNamespace r) (GaneshaImage r)
         (BuildConfigMap sv0 (OperatorNamespace r))))).
  rewrite Hdrift. cbn [orPanic]. apply wp_ret, wp_ret, wp_bindE. unfold ensureService.
  destruct (st_service _ _ _ _ _ _ _ St) as (Hsvc & _).
  apply (rest_get KService _ _ _ _ _ Hsvc eq_refl). intros h5. apply wp_ret, wp_ret. by eexists _, _.
Qed.

Section Versions.
Context (st : SharedVolumeStatus).
Abbreviation sv := (with_Status sv0 st).

Lemma targetNamespaces_rest h :
  rest (targetNamespaces sv) (λ _ res, res = Ok (targetsRef sv0 nss)) h.
Proof.
  apply (hwp_with_footprint (λ c, within targets_sigs c = true)).
  - apply targetNamespaces_fp.
  - intros h' c Hc Hw. exfalso. revert Hc Hw. unfold within. by destruct c.
  - eapply wp_rely_mono; [apply (st_namespaces _ _ _ _ _ _ _ St)|].
    apply (targetNamespaces_exact nss sv (st_names _ _ _ _ _ _ _ St) h).
    exact (st_selector _ _ _ _ _ _ _ St).
Qed.

Lemma ensurePV_rest ns ip h :
  ns ∈ targetsRef sv0 nss → rest (ensurePV sv ns ip) (λ _ res, res = Ok tt) h.
Proof.
  intros Hns. unfold ensurePV. destruct (st_pvs _ _ _ _ _ _ _ St ns Hns) as (pv & Hpv & Hrel).
  apply (rest_get KPV _ _ _ _ _ Hpv eq_refl). intros h1.
  destruct (pvs_ClaimRef _) as [ref|] eqn:Href; [|by apply wp_ret].
  rewrite decide_False; [by apply wp_ret|].
  intros [Hph Huid]. destruct Hrel as [?|Hall]; [done|]. by apply Huid, Hall.
Qed.

Lemma reconcileBinding_rest ns ip h :
  ns ∈ targetsRef sv0 nss → rest (reconcileBinding sv ns ip) (λ _ res, res = Ok (phase ns)) h.
Proof.
  intros Hns. unfold reconcileBinding. apply wp_bindE.
  eapply wp_mono; [|by apply ensurePV_rest]. intros h1 res ->.
  destruct (st_pvcs _ _ _ _ _ _ _ St ns Hns) as (pvc & Hpvc & ->).
  apply (rest_get KPVC _ _ _ _ _ Hpvc eq_refl). intros h2.
  change (pvcOwned sv pvc) with (pvcOwned sv0 pvc). unfold phaseOf.
  destruct (pvcOwned sv0 pvc); cbn [negb]; [|by apply wp_bind, wp_trigger; [|intros; apply wp_ret]].
  destruct (Time_IsZero _); cbn [negb]; [case_decide|]; by apply wp_ret.
Qed.

Lemma reconcileBindings_rest targets ip h :
  targets ⊆ targetsRef sv0 nss →
  rest (reconcileBindings sv targets ip) (λ _ res, res = Ok (restBindings sv0 phase targets)) h.
Proof.
  revert h. induction targets as [|ns targets IH]; intros h Hsub; cbn [reconcileBindings]; [by apply wp_ret|].
  apply wp_bindE. eapply wp_mono; [|apply reconcileBinding_rest; set_solver]. intros h1 res ->.
  apply wp_bindE. eapply wp_mono; [|apply IH; set_solver]. intros h2 res ->. by apply wp_ret.
Qed.

Lemma cleanupLoop_rest targets pvs h :
  (∀ pv ref, pv ∈ pvs → pvs_ClaimRef (pv_Spec pv) = Some ref → ref_Namespace ref ∈ targets) →
  rest (cleanupLoop sv targets pvs) (λ _ res, res = Ok tt) h.
Proof.
  induction pvs as [|pv pvs IH]; intros Hall; cbn [cleanupLoop]; [by apply wp_ret|].
  assert (rest (cleanupLoop sv targets pvs) (λ _ res, res = Ok tt) h) as IH'.
  { apply IH. intros pv' ref ?. apply Hall. by right. }
  destruct (pvs_ClaimRef (pv_Spec pv)) as [ref|] eqn:Href; [|done].
  rewrite (proj2 (slicesContains_true _ _)); [done|]. apply (Hall pv ref); [by left|done].
Qed.

Lemma ensureBindings_rest h :
  rest (ensureBindings sv (targetsRef sv0 nss) (svc_ClusterIP svc))
    (λ _ res, res = Ok (restBindings sv0 phase (targetsRef sv0 nss))) h.
Proof.
  unfold ensureBindings. rewrite decide_True by apply (st_service _ _ _ _ _ _ _ St). apply wp_bindE.
  eapply wp_mono; [|by apply reconcileBindings_rest]. intros h1 res ->. apply wp_bindE.
  unfold cleanupStaleBindings. destruct (st_listed _ _ _ _ _ _ _ St) as (pvs & Hpvs & Hall).
  apply (rest_list KPV _ _ _ _ _ Hpvs eq_refl). intros h2.
  eapply wp_mono; [|by apply cleanupLoop_rest]. intros h3 res ->. by apply wp_ret.
Qed.

Lemma nodeIPs_rest h : rest nodeIPs (λ _ res, res = Ok (nodeIPsRef nodes)) h.
Proof.
  apply (hwp_with_footprint (λ c, isWrite c = false)).
  - unfold nodeIPs. by fp_auto.
  - intros h' c Hc Hw. congruence.
  - eapply wp_rely_mono; [apply (st_nodes _ _ _ _ _ _ _ St)|]. apply nodeIPs_exact.
Qed.

Lemma reconcileNetworkPolicy_rest h :
  rest (reconcileNetworkPolicy r sv (targetsRef sv0 nss)) (λ _ res, res = Ok tt) h.
Proof.
  unfold reconcileNetworkPolicy. pose proof (st_policy _ _ _ _ _ _ _ St) as Hp. case_decide as Hdis.
  - destruct Hp as (err & Hg & Hnf). apply (rest_missing KNetworkPolicy _ _ _ _ _ Hg Hnf eq_refl). intros e h1 ->.
    cbn [negb]. rewrite decide_True by done. by apply wp_ret.
  - destruct Hp as (np & Hg & Hsem). apply (rest_get KNetworkPolicy _ _ _ _ _ Hg eq_refl). intros h1.
    rewrite decide_False by done. apply wp_bindE.
    eapply wp_mono; [|apply nodeIPs_rest]. intros h2 res ->.
    change (BuildNetworkPolicy sv) with (BuildNetworkPolicy sv0).
    cbn zeta. rewrite Hsem. by apply wp_ret.
Qed.

Lemma reconcileBackup_rest h :
  rest (reconcileBackup r sv) (λ _ res, ∃ st', res = Ok (with_Status sv0 st')) h.
Proof.
  unfold reconcileBackup. pose proof (st_backup _ _ _ _ _ _ _ St) as Hb.
  change (Backup (sv_Spec sv)) with (Backup (sv_Spec sv0)). destruct (Backup (sv_Spec sv0)) as [b|].
  - destruct Hb as (cj & want & Hg & Hbuild & Hdrift).
    apply (rest_get KCronJob _ _ _ _ _ Hg eq_refl). intros h1.
    change (BuildBackupCronJob sv) with (BuildBackupCronJob sv0). rewrite Hbuild. cbn [orPanic].
    rewrite Hdrift. cbn [orPanic]. apply wp_bindE, wp_ret, wp_ret. by eexists.
  - destruct Hb as (err & Hg & Hnf). apply (rest_missing KCronJob _ _ _ _ _ Hg Hnf eq_refl). intros e h1 ->.
    apply wp_ret. by eexists.
Qed.

Lemma updateStatus_rest ip ready h :
  rest (updateStatus r sv ip ready bs0)
    (λ h' res, match res with
               | Ok _ => True
               | Err e => ∃ u, Ev (CStatusUpdate u) (inl e) ∈ h'
               | Panic => False
               end) h.
Proof.
  unfold updateStatus. do 2 (apply rest_now; intros ? ?).
  apply wp_bind, wp_trigger.
  - intros _. eexists. split_and!; [done..|]. simpl. apply rollup_Bindings.
  - intros [err|sv'] hn [_ ->]; apply wp_ret; [|done]. eexists. apply event_now.
Qed.
End Versions.

Lemma reconcileLive_rest h :
  rest (reconcileLive r sv0) (λ h' res, res = Ok noResult ∨ statusRefused h' res) h.
Proof.
  unfold reconcileLive, ensureFinalizer. apply wp_bindE. rewrite (st_finalizer _ _ _ _ _ _ _ St).
  cbn beta iota zeta. apply wp_ret.
  replace (set_Finalizers (Finalizers (sv_ObjectMeta sv0)) sv0) with sv0 by (by destruct sv0 as [[]]).
  apply wp_bindE. eapply wp_mono; [|apply reconcileServer_rest]. intros h1 res (ready & st & ->).
  apply wp_bindE. eapply wp_mono; [|apply targetNamespaces_rest]. intros h2 res ->.
  apply wp_bindE. eapply wp_mono; [|apply ensureBindings_rest]. intros h3 res ->.
  apply wp_bindE. eapply wp_mono; [|apply reconcileNetworkPolicy_rest]. intros h4 res ->.
  apply wp_bindE. eapply wp_mono; [|apply reconcileBackup_rest]. intros h5 res (st' & ->).
  apply wp_bind. eapply wp_mono; [|apply updateStatus_rest].
  intros h6 [sv'|e|] Hu; [by apply wp_ret; left| |done].
  destruct Hu as [u Hu]. destruct (IsConflict e) eqn:Hc; apply wp_ret; right; exists u, e; by rewrite Hc.
Qed.
End Rest.

(** * Property *)

(** C17. Idempotence: on a cluster where every object is in place and agrees with
    the builders where the code compares, where no namespace left the targets
    and whose answers do not change, [Reconcile] succeeds without asking to be
    requeued unless its status update is refused, and its only writes are status
    updates of this volume, which keep its spec and report each target namespace
    with its PVC's phase. *)
Theorem reconcile_quiescent `{Lib} {L : LibLaws} {S} (srv : server S) (w : snapshot) r req sv nss nodes svc phase s
    (Hsv : (srv s (CGet KSharedVolume req)).1 = inr sv)
    (Hlive : Time_IsZero (DeletionTimestamp (sv_ObjectMeta sv)) = true)
    (Hsteady : steady r w sv nss nodes svc phase)
    (Hsrv : ∀ s c, snapAnswers w c (srv s c).1) :
  let x := run srv (Reconcile r req) s in
  (result_of x = Ok noResult ∨ statusRefused (trace_of x) (result_of x)) ∧
  ∀ e, e ∈ trace_of x → isWrite (ev_call e) = true →
    ∃ u, ev_call e = CStatusUpdate u ∧ sv_core u = sv_core sv ∧
      Bindings (sv_Status u) = restBindings sv phase (targetsRef sv nss).
Proof.
  intros x. subst x. rewrite (run_Reconcile_live srv r req sv s Hsv Hlive).
  set (s1 := (srv s _).2). cbn [trace_of result_of fst snd].
  destruct (run_wp srv _ _ _ _ [Ev (CGet KSharedVolume req) (inr sv)] s1
    (reconcileLive_rest r w sv nss nodes svc phase Hsteady _) Hsrv) as [Hres Hall].
  split; [exact Hres|]. intros e [->|(pre & post & Heq)%list_elem_of_split]%elem_of_cons; [done|].
  by apply (Hall pre e post).
Qed.

(** * Witness *)

Lemma agrees_refl {A} (a : error + A) : agrees a a.
Proof. destruct a; [by eexists|done]. Qed.

Lemma frozen_answers w s c : snapAnswers w c (frozen w s c).1.
Proof. destruct c; try done. intros _. apply agrees_refl. Qed.

Lemma rest_steady :
  steady sampleReconciler restSnapshot restVolume sampleNamespaces [sampleNode] restService
    (λ _, BindingBound).
Proof.
  assert (targetsRef restVolume sampleNamespaces = ["team-a"; "team-b"]) as Ht
    by (vm_compute; reflexivity).
  split; rewrite ?Ht; clear Ht.
  - reflexivity.
  - by eexists.
  - eexists. split; [reflexivity|done].
  - eexists. split; [reflexivity|vm_compute; reflexivity].
  - split; [reflexivity|discriminate].
  - apply (bool_decide_unpack _). vm_compute. exact I.
  - intros sel [= <-]. by eexists.
  - intros c a. destruct c as [k key|k opt| | | | | |]; try done; destruct k; try done; simpl; intros Ha; specialize (Ha ltac:(done)).
    + intros _. unfold restGet in Ha. simpl in Ha. destruct (nsNamed _ _); [done|]. destruct Ha as (e & -> & He). by exists e.
    + by intros sel ->.
  - intros c a. destruct c as [k key|k opt| | | | | |]; try done; destruct k; try done. simpl. intros Ha. by rewrite Ha.
  - intros ns Hns. eexists. split; [reflexivity|by left].
  - intros ns Hns. exists (bindPVC (BuildConsumerPVC restVolume ns)). split; [|reflexivity].
    simpl. rewrite decide_False; [done|]. by intros [=].
  - eexists. split; [reflexivity|]. intros pv ref Hpv.
    apply elem_of_cons in Hpv as [->|Hpv%list_elem_of_singleton]; [|subst pv]; intros [= <-]; simpl.
    + by left.
    + by right; left.
  - exists restPolicy. split; [reflexivity|vm_compute; reflexivity].
  - eexists _, _. split_and!; [reflexivity..|vm_compute; reflexivity].
Qed.

Lemma reconcile_quiescent_witness :
  let x := run (frozen restSnapshot) (Reconcile sampleReconciler sampleRequest) () in
  (frozen restSnapshot () (CGet KSharedVolume sampleRequest)).1 = inr restVolume ∧
  Time_IsZero (DeletionTimestamp (sv_ObjectMeta restVolume)) = true ∧
  steady sampleReconciler restSnapshot restVolume sampleNamespaces [sampleNode] restService
    (λ _, BindingBound) ∧
  (∀ s c, snapAnswers restSnapshot c (frozen restSnapshot s c).1) ∧
  (result_of x = Ok noResult ∨ statusRefused (trace_of x) (result_of x)).
Proof.
  intros x. split; [reflexivity|]. split; [reflexivity|]. split; [exact rest_steady|].
  split; [exact (frozen_answers restSnapshot)|].
  exact (proj1 (reconcile_quiescent (frozen restSnapshot) restSnapshot sampleReconciler sampleRequest
    restVolume sampleNamespaces [sampleNode] restService (λ _, BindingBound) ()
    eq_refl eq_refl rest_steady (frozen_answers restSnapshot))).
Defined.
