(* ===== verification/Names.v ===== *)
(** Names, labels and selectors of the generated objects (internal/controller/resources.go):
    which objects two volumes share, which pods a server's selector matches, and
    how a PV and its consumer PVC name each other. *)
From S2P Require Import Prelude Kube V1alpha1 Client Resources Lib Server Logic Bindings Reconcile MemCluster.

(** Kubernetes' [matchLabels]: every pair of the selector is among the labels. *)
Definition selects (want labels : GoMap) : Prop :=
  ∀ k v, from_option (λ t, t !! k) None want = Some v → from_option (λ t, t !! k) None labels = Some v.

(** What a label list option asks of an object. *)
Definition listedBy (opt : ListOption) (m : ObjectMeta) : Prop :=
  match opt with
  | AllObjects => True
  | MatchingLabels want => selects (Some want) (Labels m)
  | MatchingLabelsSelector s => Matches s (Labels m) = true
  end.

(** The pods the operator generates for a volume, by their template labels. *)
Definition podLabelsOf (sv : SharedVolume) (component : string) : GoMap := componentLabels sv component.

(** Every selector aimed at the server pods: the Service's, the Deployment's, the
    NetworkPolicy's and that of the backup pod's affinity. *)
Definition serverSelectors (r : SharedVolumeReconciler) (sv : SharedVolume) : list GoMap :=
  [ svc_Selector (BuildService sv (OperatorNamespace r));
    MatchLabels (dep_Selector (BuildServerDeployment sv (OperatorNamespace r) (GaneshaImage r)
                                 (BuildConfigMap sv (OperatorNamespace r))));
    MatchLabels (nps_PodSelector (np_Spec (BuildNetworkPolicy sv (OperatorNamespace r) [] [] []))) ]
  ++ match BuildBackupCronJob sv (OperatorNamespace r) (BackupImage r) with
     | Some cj => map (λ t, MatchLabels (pat_LabelSelector t))
                    (default [] (pod_Affinity (tpl_Spec (js_Template (cjs_JobSpec (cj_Spec cj))))))
     | None => []
     end.

(** The labels of every pod template of a volume: the server's, the backup job's
    and the seed job's. *)
Definition serverPod (r : SharedVolumeReconciler) (sv : SharedVolume) : GoMap :=
  tpl_Labels (dep_Template (BuildServerDeployment sv (OperatorNamespace r) (GaneshaImage r)
    (BuildConfigMap sv (OperatorNamespace r)))).

Definition jobPods (r : SharedVolumeReconciler) (sv : SharedVolume) : list GoMap :=
  match BuildBackupCronJob sv (OperatorNamespace r) (BackupImage r) with
  | Some cj => [tpl_Labels (js_Template (cjs_JobSpec (cj_Spec cj)))]
  | None => []
  end ++
  match BuildSeedJob sv (OperatorNamespace r) (BackupImage r) with
  | Some job => [tpl_Labels (js_Template (job_Spec job))]
  | None => []
  end.

(** The namespaced objects of a volume's stack, the backing PVC included. *)
Definition volumeObjects (r : SharedVolumeReconciler) (sv : SharedVolume) : list (kind * NamespacedName) :=
  (KPVC, backingKey r sv) :: map (λ ko, (projT1 ko, ObjectKey (projT1 ko) (projT2 ko))) (stackObjects r sv).

(** A PVC is created at the namespace's key, naming the PV under the pair's name. *)
Definition pairPVC (sv : SharedVolume) (ns : string) (c : call) : Prop :=
  match c with
  | CCreate k o =>
      match k return obj k → Prop with
      | KPVC => λ pvc, ObjectKey KPVC pvc = MkNN ns (ConsumerPVCName sv) ∧ pvcs_VolumeName (pvc_Spec pvc) = PVName sv ns
      | _ => λ _, True
      end o
  | _ => True
  end.

(** The PV is written back with the UID of its claim cleared. *)
Definition needsRepair (pv : PersistentVolume) (ref : ObjectReference) : Prop :=
  pv_Phase pv = VolumeReleased ∧ ref_UID ref ≠ "".

#[export] Instance needsRepair_dec pv ref : Decision (needsRepair pv ref).
Proof. unfold needsRepair. apply _. Defined.

(** Two volumes that share a PV name: the PV of a for namespace b-c, as the server
    stores it once it has been bound, is also under the name of a-b for c. *)
Definition namedVolume (name : string) : SharedVolume :=
  MkSharedVolume (objectMeta name "" None) (sampleSpec ReclaimDelete None) zeroStatus.
Definition volumeA : SharedVolume := namedVolume "a".
Definition volumeAB : SharedVolume := namedVolume "a-b".

Definition sharedClaim : ObjectReference := {|
  ref_APIVersion := "v1"; ref_Kind := "PersistentVolumeClaim"; ref_Namespace := "b-c";
  ref_Name := ConsumerPVCName volumeA; ref_UID := "7"; ref_ResourceVersion := "" |}.

Definition sharedPV (phase : string) : PersistentVolume :=
  let pv := BuildPV volumeA "b-c" "10.96.0.1" in
  MkPV (pv_ObjectMeta pv) (pv_Spec (pv_with_ClaimRef pv (Some sharedClaim))) phase.

(** * Labels *)

Lemma LabelSharedVolume_other : LabelSharedVolume ≠ LabelComponent ∧ LabelSharedVolume ≠ LabelManagedBy.
Proof. done. Qed.

Lemma componentLabels_lookup sv c k :
  from_option (λ t, t !! k) None (componentLabels sv c) =
  if decide (k = LabelComponent) then Some c
  else if decide (k = LabelSharedVolume) then Some (sv_Name sv)
  else if decide (k = LabelManagedBy) then Some managedByValue else None.
Proof.
  unfold componentLabels, mapsCopy, managedLabelsMap. simpl. rewrite (right_id_L ∅ (∪)).
  repeat case_decide; subst; by simplify_map_eq.
Qed.

Lemma serverSelector_selects sv labels :
  selects (serverSelector sv) labels ↔
  from_option (λ t, t !! LabelSharedVolume) None labels = Some (sv_Name sv) ∧
  from_option (λ t, t !! LabelComponent) None labels = Some "nfs-server".
Proof.
  unfold selects, serverSelector. simpl. split.
  - intros Hs. split; apply Hs; by simplify_map_eq.
  - intros [Hv Hc] k v. rewrite lookup_insert_Some, lookup_singleton_Some.
    by intros [[<- <-]|[_ [<- <-]]].
Qed.

Lemma serverSelector_component sv sv' c :
  selects (serverSelector sv) (componentLabels sv' c) ↔ sv_Name sv = sv_Name sv' ∧ c = "nfs-server".
Proof.
  rewrite serverSelector_selects, !componentLabels_lookup. simpl.
  split; [intros [[= ->] [= ->]]; done|by intros [-> ->]].
Qed.

Lemma serverSelectors_all r sv want : want ∈ serverSelectors r sv → want = serverSelector sv.
Proof.
  unfold serverSelectors. rewrite elem_of_app, !elem_of_cons.
  intros [[->|[->|[->|?%elem_of_nil]]]|Hin]; [done..|].
  unfold BuildBackupCronJob in Hin. destruct (Backup (sv_Spec sv)); simpl in Hin; [|by apply elem_of_nil in Hin].
  destruct (backupPodSpec _ _ _ _); simpl in Hin; [|by apply elem_of_nil in Hin].
  by apply list_elem_of_singleton in Hin as ->.
Qed.

Lemma jobPods_all r sv labels :
  labels ∈ jobPods r sv → labels = componentLabels sv "backup" ∨ labels = componentLabels sv "seed".
Proof.
  unfold jobPods, BuildBackupCronJob, BuildSeedJob. rewrite elem_of_app. intros [Hin|Hin].
  - left. destruct (Backup (sv_Spec sv)); simpl in Hin; [|by apply elem_of_nil in Hin].
    destruct (backupPodSpec _ _ _ _); simpl in Hin; [|by apply elem_of_nil in Hin].
    by apply list_elem_of_singleton in Hin.
  - right. destruct (backupPodSpec _ _ _ _); simpl in Hin; [|by apply elem_of_nil in Hin].
    by apply list_elem_of_singleton in Hin.
Qed.

Lemma byVolume_managed sv sv' : selects (Some {[LabelSharedVolume := sv_Name sv]}) (managedLabels sv') ↔
  sv_Name sv = sv_Name sv'.
Proof.
  unfold selects, managedLabels, managedLabelsMap. simpl. split.
  - intros Hs. assert (Some (sv_Name sv') = Some (sv_Name sv)) as [= ->]; [|done].
    rewrite <- (Hs LabelSharedVolume (sv_Name sv)); by simplify_map_eq.
  - intros -> k v. rewrite lookup_singleton_Some. intros [<- <-]. by simplify_map_eq.
Qed.

(** * Names *)

Lemma ServerName_inj sv sv' : ServerName sv = ServerName sv' → sv_Name sv = sv_Name sv'.
Proof. unfold ServerName. intros H%string_app_inj_l. by apply string_app_inj_r in H. Qed.
Lemma ConfigMapName_inj sv sv' : ConfigMapName sv = ConfigMapName sv' → sv_Name sv = sv_Name sv'.
Proof. unfold ConfigMapName. intros H%string_app_inj_l. by apply string_app_inj_r in H. Qed.
Lemma BackupCronJobName_inj sv sv' : BackupCronJobName sv = BackupCronJobName sv' → sv_Name sv = sv_Name sv'.
Proof. unfold BackupCronJobName. intros H%string_app_inj_l. by apply string_app_inj_r in H. Qed.
Lemma SeedJobName_inj sv sv' : SeedJobName sv = SeedJobName sv' → sv_Name sv = sv_Name sv'.
Proof. unfold SeedJobName. intros H%string_app_inj_l. by apply string_app_inj_r in H. Qed.
Lemma BackingPVCName_inj sv sv' : BackingPVCName sv = BackingPVCName sv' → sv_Name sv = sv_Name sv'.
Proof. unfold BackingPVCName. by intros H%string_app_inj_l. Qed.

(** * A PV that is there already *)

(** What [ensurePV] does after it has read [pv], with a claim. *)
Lemma ensurePV_read `{Lib} {S} (srv : server S) s sv ns ip pv ref :
  let get := CGet KPV (MkNN "" (PVName sv ns)) in
  let put := CUpdate KPV (pv_with_ClaimRef pv (Some (ref_clear_UID ref))) in
  (srv s get).1 = inr pv → pvs_ClaimRef (pv_Spec pv) = Some ref →
  let s1 := (srv s get).2 in
  run srv (ensurePV sv ns ip) s =
    if decide (needsRepair pv ref) then
      ([Ev get (inr pv); Ev put (srv s1 put).1], (srv s1 put).2,
       match (srv s1 put).1 with inl err => Err err | inr _ => Ok tt end)
    else ([Ev get (inr pv)], s1, Ok tt).
Proof.
  intros get put Hget Href s1. unfold ensurePV. cbn [mbind prog_bind prog_bind_def Get trigger run].
  change (ObjectKey KPV (BuildPV sv ns ip)) with (MkNN "" (PVName sv ns)). fold get.
  subst s1. destruct (srv s get) as [a s1]. cbn in Hget |- *. subst a. rewrite Href.
  change (decide (pv_Phase pv = VolumeReleased ∧ ref_UID ref ≠ "")) with (decide (needsRepair pv ref)).
  destruct (decide (needsRepair pv ref)); [|done].
  unfold bindE, UpdateE, Update, trigger. cbn [mbind prog_bind prog_bind_def run]. fold put.
  destruct (srv s1 put) as [[err|pv'] s2]; reflexivity.
Qed.

Lemma reconcileBinding_pairPVC `{Lib} sv ns ip : footprint (pairPVC sv ns) (reconcileBinding sv ns ip).
Proof.
  assert (∀ k o, (∀ refs, pairPVC sv ns (CCreate k (obj_SetOwnerReferences k refs o))) →
    footprint (pairPVC sv ns) (createOwned k sv o)) as Hcreate.
  { intros k o Hc. unfold createOwned. destruct (SetControllerReference _ _) as [err|refs]; [apply footprint_Ret|].
    apply footprint_Vis; [apply Hc|]. intros [err|o']; [destruct (IsAlreadyExists err)|]; apply footprint_Ret. }
  unfold reconcileBinding, ensurePV. apply footprint_bindE.
  - apply footprint_Vis; [done|]. intros [err|pv].
    + destruct (IsNotFound err); [|apply footprint_Ret]. apply footprint_bindE; [by apply (Hcreate KPV)|done].
    + destruct (pvs_ClaimRef _) as [ref|]; [|done]. destruct (decide _); [|done].
      apply footprint_bindE; [|done]. apply footprint_Vis; [done|]. by intros [err|pv'].
  - intros _. apply footprint_Vis; [done|]. intros [err|pvc].
    + destruct (IsNotFound err); [|done]. apply footprint_bindE; [by apply (Hcreate KPVC)|done].
    + destruct (negb _); [by apply footprint_Vis|]. destruct (negb _); [done|]. by destruct (decide _).
Qed.

(** * Properties *)

(** C32. A server is reached by its own clients only: every selector the operator
    writes for a volume's server (Service, Deployment, NetworkPolicy, backup
    affinity) matches the server pods of that volume and of no other, and never
    the pods of a backup or seed job. *)
Theorem server_selected (r : SharedVolumeReconciler) sv sv' :
  Forall (λ want, (selects want (serverPod r sv') ↔ sv_Name sv = sv_Name sv') ∧
                  Forall (λ labels, ~ selects want labels) (jobPods r sv'))
    (serverSelectors r sv).
Proof.
  apply Forall_forall. intros want ->%serverSelectors_all. split.
  - unfold serverPod. cbn. rewrite serverSelector_component. by split; [intros [? _]|].
  - apply Forall_forall. intros labels [-> | ->]%jobPods_all; rewrite serverSelector_component; by intros [_ ?].
Qed.

(** C31. A PV and its consumer PVC are pre-bound to each other: the PV is reserved
    for the key of the PVC and the PVC names the PV, with the same access mode,
    storage class and capacity; the PV points at the server's address; both are
    found by the label the operator lists by, by that volume and no other. *)
Theorem binding_pair (sv sv' : SharedVolume) (ns ip : string) :
  let pv := BuildPV sv ns ip in
  let pvc := BuildConsumerPVC sv ns in
  (∃ ref, pvs_ClaimRef (pv_Spec pv) = Some ref ∧ ref_UID ref = "" ∧
     MkNN (ref_Namespace ref) (ref_Name ref) = ObjectKey KPVC pvc) ∧
  pvcs_VolumeName (pvc_Spec pvc) = Name (pv_ObjectMeta pv) ∧
  pvcs_AccessModes (pvc_Spec pvc) = pvs_AccessModes (pv_Spec pv) ∧
  pvcs_StorageClassName (pvc_Spec pvc) = Some (pvs_StorageClassName (pv_Spec pv)) ∧
  pvcs_Requests (pvc_Spec pvc) = pvs_Capacity (pv_Spec pv) ∧
  pvs_ReclaimPolicy (pv_Spec pv) = PersistentVolumeReclaimRetain ∧
  pvs_NFS (pv_Spec pv) = Some (MkNFS ip "/") ∧
  (listedBy (byVolume sv') (pv_ObjectMeta pv) ↔ sv_Name sv' = sv_Name sv) ∧
  (pvcOwned sv' pvc = true ↔ sv_Name sv' = sv_Name sv).
Proof.
  intros pv pvc. split_and!; [|done..| |].
  - eexists. split_and!; [reflexivity|done|done].
  - apply byVolume_managed.
  - unfold pvcOwned. rewrite bool_decide_eq_true. unfold pvc, BuildConsumerPVC, managedLabels, managedLabelsMap.
    cbn [pvc_ObjectMeta Labels objectMeta]. rewrite mapIndex_insert. by split.
Qed.

(** Two volumes never share an object of their stacks: an object of one volume
    (backing PVC, policy, Deployment, Service, ConfigMap, jobs) has the same kind
    and key as an object of another only when the volumes have the same name. *)
Theorem stacks_disjoint (r : SharedVolumeReconciler) sv sv' :
  sv_Name sv = sv_Name sv' ∨ Forall (λ o, o ∉ volumeObjects r sv') (volumeObjects r sv).
Proof.
  destruct (decide (sv_Name sv = sv_Name sv')) as [|Hne]; [by left|]. right. apply Forall_forall.
  unfold volumeObjects, stackObjects. cbn [map projT1 projT2]. intros o.
  rewrite !elem_of_cons, elem_of_nil. intros Ho Ho'. apply Hne.
  destruct Ho as [-> |[-> |[-> |[-> |[-> |[-> |[-> |[]]]]]]]];
    (destruct Ho' as [Heq|[Heq|[Heq|[Heq|[Heq|[Heq|[Heq|[]]]]]]]]; try discriminate Heq);
    apply (f_equal (nn_Name ∘ snd)) in Heq;
    first [exact (BackingPVCName_inj sv sv' Heq)|exact (ServerName_inj sv sv' Heq)
          |exact (ConfigMapName_inj sv sv' Heq)|exact (BackupCronJobName_inj sv sv' Heq)
          |exact (SeedJobName_inj sv sv' Heq)].
Qed.

(** When two PVs share a name: within one volume the name determines the
    namespace, but across volumes it does not.  Two pairs have the same PV name
    exactly when they are the same pair, or when one volume's name is the other's
    followed by a dash and a word that the other namespace begins with. *)
Theorem PVName_collision (sv sv' : SharedVolume) (ns ns' : string) :
  PVName sv ns = PVName sv' ns' ↔
  (sv_Name sv = sv_Name sv' ∧ ns = ns') ∨
  (∃ w, sv_Name sv' = sv_Name sv +:+ "-" +:+ w ∧ ns = w +:+ "-" +:+ ns') ∨
  (∃ w, sv_Name sv = sv_Name sv' +:+ "-" +:+ w ∧ ns' = w +:+ "-" +:+ ns).
Proof.
  assert (∀ a b n n' : string, a +:+ "-" +:+ n = b +:+ "-" +:+ n' →
    (String.length a ≤ String.length b)%nat →
    (a = b ∧ n = n') ∨ ∃ w, b = a +:+ "-" +:+ w ∧ n = w +:+ "-" +:+ n') as Hcut.
  { intros a b n n' Heq Hlen. destruct (string_app_split _ _ _ _ Heq Hlen) as (x & -> & Hx).
    destruct x as [|c x]; [left|right].
    - split; [by rewrite string_app_nil_r|]. rewrite string_app_nil_l in Hx. by apply string_app_inj_l in Hx.
    - rewrite !string_app_cons, string_app_nil_l in Hx. injection Hx as <- Hx. by exists x. }
  unfold PVName. split.
  - intros H%string_app_inj_l.
    destruct (decide (String.length (sv_Name sv) ≤ String.length (sv_Name sv'))%nat) as [Hl|Hl].
    + destruct (Hcut _ _ _ _ H Hl) as [?|?]; [by left|by right; left].
    + symmetry in H. destruct (Hcut _ _ _ _ H) as [[? ?]|?]; [lia|by left|by right; right].
  - intros [[-> ->]|[(w & Hs & ->)|(w & Hs & ->)]]; [done|..]; rewrite Hs, !string_app_assoc; done.
Qed.

(** C34. A PV that is already under the pair's name but reserved for another
    namespace is taken over as it is.  [ensurePV] only reads it and succeeds, or,
    when it is Released with the UID of a claim, writes that same PV back with the
    UID cleared, still reserved for the same claim of the other namespace; and a
    consumer PVC created by [reconcileBinding] names that PV all the same, from a
    namespace it is not reserved for. *)
Theorem pv_adopted {S} `{Lib} (srv : server S) (s : S) sv ns ip pv ref
    (Hget : (srv s (CGet KPV (MkNN "" (PVName sv ns)))).1 = inr pv)
    (Href : pvs_ClaimRef (pv_Spec pv) = Some ref) (Hother : ref_Namespace ref ≠ ns) :
  let get := Ev (CGet KPV (MkNN "" (PVName sv ns))) (inr pv) in
  let x := run srv (ensurePV sv ns ip) s in
  (~ needsRepair pv ref → trace_of x = [get] ∧ result_of x = Ok tt) ∧
  (needsRepair pv ref → ∃ u ref' a, trace_of x = [get; Ev (CUpdate KPV u) a] ∧
     pv_ObjectMeta u = pv_ObjectMeta pv ∧ pvs_NFS (pv_Spec u) = pvs_NFS (pv_Spec pv) ∧
     pvs_ClaimRef (pv_Spec u) = Some ref' ∧ ref_UID ref' = "" ∧
     ref_Namespace ref' = ref_Namespace ref ∧ ref_Name ref' = ref_Name ref ∧
     (result_of x = Ok tt ↔ ∃ pv', a = inr pv')) ∧
  (∀ pvc a, Ev (CCreate KPVC pvc) a ∈ trace_of (run srv (reconcileBinding sv ns ip) s) →
     pvcs_VolumeName (pvc_Spec pvc) = PVName sv ns ∧ ref_Namespace ref ≠ nn_Namespace (ObjectKey KPVC pvc)).
Proof.
  intros get x. pose proof (ensurePV_read srv s sv ns ip pv ref Hget Href) as Hrun.
  cbv zeta in Hrun. fold x in Hrun. split_and!.
  - intros Hn. rewrite Hrun. destruct (decide (needsRepair pv ref)); done.
  - intros Hr. destruct (decide (needsRepair pv ref)) as [_|?]; [|done].
    eexists _, (ref_clear_UID ref), _. rewrite Hrun. split; [reflexivity|]. split_and!; [done..|].
    unfold result_of. cbn [snd]. destruct (srv _ (CUpdate KPV _)).1 as [err|pv']; [|by split; eauto].
    split; [done|]. by intros (pv' & ?).
  - intros pvc a Hin. pose proof (run_footprint srv _ _ s (reconcileBinding_pairPVC sv ns ip)) as Hf.
    unfold events_in in Hf. rewrite Forall_forall in Hf. destruct (Hf _ Hin) as [Hk Hv].
    split; [exact Hv|]. by rewrite Hk.
Qed.

Lemma pv_adopted_witness :
  PVName volumeAB "c" = PVName volumeA "b-c" ∧
  (let x := run memServer (ensurePV volumeAB "c" "10.96.0.2") (with_obj KPV (sharedPV "Bound") emptyMem) in
   length (trace_of x) = 1 ∧ result_of x = Ok tt) ∧
  let m := with_obj KPV (sharedPV VolumeReleased) emptyMem in
  needsRepair (sharedPV VolumeReleased) sharedClaim ∧
  (∃ u ref' a, trace_of (run memServer (ensurePV volumeAB "c" "10.96.0.2") m)
     = [Ev (CGet KPV (MkNN "" "nfsz-a-b-c")) (inr (sharedPV VolumeReleased)); Ev (CUpdate KPV u) a] ∧
     pvs_ClaimRef (pv_Spec u) = Some ref' ∧ ref_Namespace ref' = "b-c") ∧
  (∀ pvc a, Ev (CCreate KPVC pvc) a ∈ trace_of (run memServer (reconcileBinding volumeAB "c" "10.96.0.2") m) →
     pvcs_VolumeName (pvc_Spec pvc) = "nfsz-a-b-c" ∧ ref_Namespace sharedClaim ≠ nn_Namespace (ObjectKey KPVC pvc)).
Proof.
  assert (ref_Namespace sharedClaim ≠ "c") as Hns by (intros [=]).
  assert (∀ phase, (memServer (with_obj KPV (sharedPV phase) emptyMem)
            (CGet KPV (MkNN "" (PVName volumeAB "c")))).1 = inr (sharedPV phase)) as Hget
    by (intros phase; reflexivity).
  split; [reflexivity|]. split.
  { destruct (pv_adopted memServer (with_obj KPV (sharedPV "Bound") emptyMem) volumeAB "c" "10.96.0.2"
      (sharedPV "Bound") sharedClaim (Hget "Bound") eq_refl Hns) as [H1 _].
    destruct H1 as [Htr Hres]; [intros [[=] _]|]. split; [exact (f_equal length Htr)|exact Hres]. }
  intros m. assert (needsRepair (sharedPV VolumeReleased) sharedClaim) as Hr by (split; [reflexivity|intros [=]]).
  split; [exact Hr|].
  destruct (pv_adopted memServer m volumeAB "c" "10.96.0.2" (sharedPV VolumeReleased) sharedClaim
    (Hget VolumeReleased) eq_refl Hns) as (_ & H2 & H3).
  split; [|exact H3]. destruct (H2 Hr) as (u & ref' & a & Htr & _ & _ & Hc & _ & Hn & _).
  exists u, ref', a. split; [exact Htr|]. split; [exact Hc|exact Hn].
Defined.
