(* ===== verification/Drift.v ===== *)
(** Drift: when an existing object is taken to differ from the wanted one, and
    that what is written for it no longer differs, so that no pass repeats the
    write of the one before. *)
From S2P Require Import Prelude Kube V1alpha1 Client Sha256 Resources Lib Server Bindings NetPolicy BackupJob MemCluster.

(** The server answers reads of this key with this object. *)
Definition holds {S} (srv : server S) (k : kind) (key : NamespacedName) (o : obj k) : Prop :=
  ∀ s, ∃ s', srv s (CGet k key) = (inr o, s').

(** A server that holds one object and nothing else. *)
Definition holding (k : kind) (key : NamespacedName) (o : obj k) : server unit := λ u c,
  (match c return resp c with
   | CGet k' key' =>
       match decide (k = k') with
       | left e => if decide (key' = key) then inr (eq_rect k obj o k' e) else inl NotFoundError
       | right _ => inl NotFoundError
       end
   | CList _ _ => inr []
   | CCreate _ o => inr o
   | CUpdate _ o => inr o
   | CStatusUpdate sv => inr sv
   | CDelete _ _ _ => None
   | CEventf _ _ _ _ _ => tt
   | CNow => 0%Z
   end, u).

(** Whether a Released claim is to be cleared, the test of [ensurePV]. *)
Definition needsRepair (pv : PersistentVolume) : bool :=
  match pvs_ClaimRef (pv_Spec pv) with
  | Some ref => bool_decide (pv_Phase pv = VolumeReleased) && bool_decide (ref_UID ref ≠ "")
  | None => false
  end.

(** The claim cleared as [ensurePV] clears it. *)
Definition repaired (pv : PersistentVolume) : PersistentVolume :=
  pv_with_ClaimRef pv (ref_clear_UID <$> pvs_ClaimRef (pv_Spec pv)).

(** A CronJob that runs what the volume asks for. *)
Definition cronInSync (sv : SharedVolume) (image : string) (cj : CronJob) : Prop :=
  ∃ b h c, Backup (sv_Spec sv) = Some b ∧ HostPath (Destination b) = Some h ∧
    cjs_Schedule (cj_Spec cj) = Schedule b ∧
    default false (cjs_Suspend (cj_Spec cj)) = default false (Suspend b) ∧
    pod_Containers (cronPod cj) = [c] ∧ ctr_Image c = image ∧
    ctr_Command c = ["sh"; "-c"; backupScript (sv_Name sv)] ∧
    backupHostPath (cronPod cj) = hpd_Path h.

(** * Lemmas *)

Lemma templateDrifted_refl t c :
  head (pod_Containers (tpl_Spec t)) = Some c → templateDrifted t t = Some false.
Proof.
  intros Hc. unfold templateDrifted. rewrite Hc. simpl.
  by rewrite !bool_decide_eq_false_2 by (intros Hn; by apply Hn).
Qed.

Lemma BuildBackupCronJob_pod sv opns image cj :
  BuildBackupCronJob sv opns image = Some cj →
  ∃ b h c, Backup (sv_Spec sv) = Some b ∧ HostPath (Destination b) = Some h ∧
    cjs_Schedule (cj_Spec cj) = Schedule b ∧ cjs_Suspend (cj_Spec cj) = Suspend b ∧
    pod_Containers (cronPod cj) = [c] ∧ ctr_Image c = image ∧
    ctr_Command c = ["sh"; "-c"; backupScript (sv_Name sv)] ∧
    backupHostPath (cronPod cj) = hpd_Path h.
Proof.
  unfold BuildBackupCronJob, backupPodSpec. destruct (Backup (sv_Spec sv)) as [b|] eqn:Hb; [|done].
  simpl. destruct (HostPath (Destination b)) as [h|] eqn:Hh; [|done]. simpl. intros [= <-].
  do 3 eexists. split_and!; reflexivity || done.
Qed.

(** [backupCronJobDrifted], decided. *)
Lemma backupCronJobDrifted_false existing desired w :
  pod_Containers (cronPod desired) = [w] →
  backupCronJobDrifted existing desired = Some false ↔
  cjs_Schedule (cj_Spec existing) = cjs_Schedule (cj_Spec desired) ∧
  default false (cjs_Suspend (cj_Spec existing)) = default false (cjs_Suspend (cj_Spec desired)) ∧
  ∃ c, pod_Containers (cronPod existing) = [c] ∧ ctr_Image c = ctr_Image w ∧
    ctr_Command c = ctr_Command w ∧ backupHostPath (cronPod existing) = backupHostPath (cronPod desired).
Proof.
  intros Hw. unfold backupCronJobDrifted. rewrite Hw.
  case_decide as H1; [split; [done|by intros [? _]]|].
  case_decide as H2; [split; [done|by intros (_ & ? & _)]|].
  destruct (pod_Containers (cronPod existing)) as [|c [|c2 cs]] eqn:Hc.
  1,3: split; [done|]; intros (_ & _ & ? & ? & _); done.
  simpl. case_decide as H3.
  { split; [done|]. intros (_ & _ & ? & [= <-] & ? & _). done. }
  unfold slicesEqual. case_bool_decide as H4; simpl.
  2: { split; [done|]. intros (_ & _ & ? & [= <-] & _ & ? & _). done. }
  case_bool_decide as H5; (split; [|intros (_ & _ & ? & [= <-] & _ & _ & ?)]); try done.
  intros _. try apply dec_stable in H5. eauto 10.
Qed.

Section Settle.
Context `{Lib} {L : LibLaws} (r : SharedVolumeReconciler) {S : Type} (srv : server S).

Lemma run_Get {A} k key o (f : error + obj k → prog A) s (Q : list event * S * A → Prop) :
  holds srv k key o →
  (∀ s' tr s'' a, run srv (f (inr o)) s' = (tr, s'', a) → Q (Ev (CGet k key) (inr o) :: tr, s'', a)) →
  Q (run srv (Get k key ≫= f) s).
Proof.
  intros Hh HQ. destruct (Hh s) as [s' Hs]. cbn [mbind prog_bind prog_bind_def Get trigger run]. rewrite Hs.
  destruct (run srv (f (inr o)) s') as [[tr s''] a] eqn:E. by eapply HQ.
Qed.

Lemma run_bindE_ok {A B} (p : prog (outcome A)) (f : A → prog (outcome B)) s tr s1 a :
  run srv p s = (tr, s1, Ok a) →
  run srv (bindE p f) s = (tr ++ trace_of (run srv (f a) s1), state_of (run srv (f a) s1), result_of (run srv (f a) s1)).
Proof.
  unfold bindE. revert s tr. induction p as [o|c k IH]; intros s tr; cbn [mbind prog_bind prog_bind_def run].
  { intros [= <- -> ->]. by destruct (run srv (f a) s1) as [[? ?] ?]. }
  destruct (srv s c) as [x s2]. destruct (run srv (k x) s2) as [[tr' s3] o] eqn:E. intros [= <- -> ->].
  specialize (IH x s2 tr' E). cbn [mbind prog_bind] in IH. by rewrite IH.
Qed.

(** Only this read, and the result [a]. *)
Definition readOnly {A} k key (o : obj k) (a : A) (x : list event * S * A) : Prop :=
  trace_of x = [Ev (CGet k key) (inr o)] ∧ result_of x = a.

Lemma run_read {A} k key o (f : error + obj k → prog A) s a :
  holds srv k key o → f (inr o) = Ret a → readOnly k key o a (run srv (Get k key ≫= f) s).
Proof.
  intros Hh Hf. apply (run_Get k key o); [done|]. intros s' tr s'' a' Hr. rewrite Hf in Hr.
  cbn in Hr. by simplify_eq.
Qed.

Lemma deployment_settles sv cm d s :
  let want := BuildServerDeployment sv (OperatorNamespace r) (GaneshaImage r) cm in
  let d' := dep_with_Template d (dep_Template want) in
  holds srv KDeployment (serverKey r sv) d' →
  readOnly KDeployment (serverKey r sv) d' (Ok (0 <? dep_ReadyReplicas d)%Z)
    (run srv (ensureDeployment r sv cm) s).
Proof.
  intros want d' Hh. apply run_read; [exact Hh|]. fold want.
  rewrite (templateDrifted_refl (dep_Template want) _ eq_refl : templateDrifted (dep_Template d') _ = _). done.
Qed.

Lemma configMap_settles sv old s :
  let cm := BuildConfigMap sv (OperatorNamespace r) in
  let key := MkNN (OperatorNamespace r) (ConfigMapName sv) in
  holds srv KConfigMap key (cm_with_Data old (cm_Data cm)) →
  readOnly KConfigMap key (cm_with_Data old (cm_Data cm)) (Ok cm) (run srv (ensureConfigMap sv cm) s).
Proof.
  intros cm key Hh. apply run_read; [exact Hh|]. rewrite decide_False; [done|]. intros Hn. by apply Hn.
Qed.

Lemma pv_settles sv ns ip pv s :
  holds srv KPV (MkNN "" (PVName sv ns)) (repaired pv) →
  readOnly KPV (MkNN "" (PVName sv ns)) (repaired pv) (Ok tt) (run srv (ensurePV sv ns ip) s).
Proof.
  intros Hh. apply run_read; [exact Hh|]. unfold repaired, pv_with_ClaimRef, pvs_with_ClaimRef.
  cbn [pv_Spec pvs_ClaimRef]. destruct (pvs_ClaimRef (pv_Spec pv)); cbn [fmap option_fmap option_map]; [|done].
  rewrite decide_False; [done|]. by intros [_ ?].
Qed.

Lemma cronJob_settles sv b old want s :
  Backup (sv_Spec sv) = Some b →
  BuildBackupCronJob sv (OperatorNamespace r) (BackupImage r) = Some want →
  let key := MkNN (OperatorNamespace r) (BackupCronJobName sv) in
  let cj := cj_with_Spec old (cj_Spec want) in
  holds srv KCronJob key cj →
  readOnly KCronJob key cj (Ok (with_LastBackupTime sv (cj_LastSuccessfulTime old)))
    (run srv (reconcileBackup r sv) s).
Proof.
  intros Hb Hw key cj Hh. apply run_read; [exact Hh|]. rewrite Hb, Hw. cbn [orPanic].
  destruct (BuildBackupCronJob_pod _ _ _ _ Hw) as (_ & _ & c & _ & _ & _ & _ & Hc & _).
  assert (backupCronJobDrifted cj want = Some false) as ->; [|done].
  apply (backupCronJobDrifted_false cj want c Hc). split_and!; [done..|]. by exists c.
Qed.

Lemma networkPolicy_settles sv targets nodes old s :
  NetworkPolicyField (sv_Spec sv) ≠ NetworkPolicyDisabled →
  let ips := sortedKeys (foldl (λ set node, list_to_set (nodeIdentities node) ∪ set) ∅ nodes) in
  let np := np_with_Spec old (np_Spec (BuildNetworkPolicy sv (OperatorNamespace r) targets ips (AllowCIDRs r))) in
  holds srv KNetworkPolicy (serverKey r sv) np →
  (∀ s, ∃ s', srv s (CList KNode AllObjects) = (inr nodes, s')) →
  let x := run srv (reconcileNetworkPolicy r sv targets) s in
  trace_of x = [Ev (CGet KNetworkPolicy (serverKey r sv)) (inr np); Ev (CList KNode AllObjects) (inr nodes)] ∧
  result_of x = Ok tt.
Proof.
  intros Hen ips np Hh Hl x. subst x. pattern (run srv (reconcileNetworkPolicy r sv targets) s).
  apply (run_Get KNetworkPolicy (serverKey r sv) np); [exact Hh|].
  intros s' tr s'' a. rewrite decide_False by done. destruct (Hl s') as [s1 Hs1].
  rewrite (run_bindE_ok nodeIPs _ s' [Ev (CList KNode AllObjects) (inr nodes)] s1 ips).
  - unfold np, np_with_Spec. cbn [np_Spec]. rewrite SemanticDeepEqual_refl. by intros [= <- <- <-].
  - unfold nodeIPs. cbn [mbind prog_bind prog_bind_def ListObjs trigger run]. by rewrite Hs1.
Qed.
End Settle.

(** * Properties *)

(** C28. No write is repeated: on a server that holds what the reconcile wrote for a
    drifted object (the Deployment with the wanted template, the ConfigMap with
    the wanted data, the PV with its claim cleared, the CronJob and the
    NetworkPolicy with the wanted spec), the step that wrote it only reads. *)
Theorem updates_settle `{Lib} {L : LibLaws} {S} (srv : server S) r sv :
  (∀ cm d s,
     let d' := dep_with_Template d
                 (dep_Template (BuildServerDeployment sv (OperatorNamespace r) (GaneshaImage r) cm)) in
     holds srv KDeployment (serverKey r sv) d' →
     readOnly KDeployment (serverKey r sv) d' (Ok (0 <? dep_ReadyReplicas d)%Z)
       (run srv (ensureDeployment r sv cm) s)) ∧
  (∀ old s,
     let cm := BuildConfigMap sv (OperatorNamespace r) in
     let key := MkNN (OperatorNamespace r) (ConfigMapName sv) in
     holds srv KConfigMap key (cm_with_Data old (cm_Data cm)) →
     readOnly KConfigMap key (cm_with_Data old (cm_Data cm)) (Ok cm) (run srv (ensureConfigMap sv cm) s)) ∧
  (∀ ns ip pv s,
     holds srv KPV (MkNN "" (PVName sv ns)) (repaired pv) →
     readOnly KPV (MkNN "" (PVName sv ns)) (repaired pv) (Ok tt) (run srv (ensurePV sv ns ip) s)) ∧
  (∀ b old want s,
     Backup (sv_Spec sv) = Some b →
     BuildBackupCronJob sv (OperatorNamespace r) (BackupImage r) = Some want →
     let key := MkNN (OperatorNamespace r) (BackupCronJobName sv) in
     let cj := cj_with_Spec old (cj_Spec want) in
     holds srv KCronJob key cj →
     readOnly KCronJob key cj (Ok (with_LastBackupTime sv (cj_LastSuccessfulTime old)))
       (run srv (reconcileBackup r sv) s)) ∧
  (∀ targets nodes old s,
     NetworkPolicyField (sv_Spec sv) ≠ NetworkPolicyDisabled →
     let ips := sortedKeys (foldl (λ set node, list_to_set (nodeIdentities node) ∪ set) ∅ nodes) in
     let np := np_with_Spec old
                 (np_Spec (BuildNetworkPolicy sv (OperatorNamespace r) targets ips (AllowCIDRs r))) in
     holds srv KNetworkPolicy (serverKey r sv) np →
     (∀ s, ∃ s', srv s (CList KNode AllObjects) = (inr nodes, s')) →
     let x := run srv (reconcileNetworkPolicy r sv targets) s in
     trace_of x = [Ev (CGet KNetworkPolicy (serverKey r sv)) (inr np); Ev (CList KNode AllObjects) (inr nodes)] ∧
     result_of x = Ok tt).
Proof.
  split_and!.
  - intros cm d s. apply deployment_settles.
  - intros old s. apply configMap_settles.
  - intros ns ip pv s. apply pv_settles.
  - intros b old want s. apply cronJob_settles.
  - intros targets nodes old s. apply networkPolicy_settles.
Qed.

Lemma updates_settle_witness :
  let sv := sampleVolume ReclaimDelete None in
  let pv := BuildPV sv "team-a" "10.96.0.7" in
  let lost := MkPV (pv_ObjectMeta pv) (pvs_with_ClaimRef (pv_Spec pv)
    (Some (MkObjectReference "v1" "PersistentVolumeClaim" "team-a" "data" "uid-old" "7"))) VolumeReleased in
  let key := MkNN "" (PVName sv "team-a") in
  needsRepair lost = true ∧ needsRepair (repaired lost) = false ∧
  readOnly KPV key (repaired lost) (Ok tt)
    (run (holding KPV key (repaired lost)) (ensurePV sv "team-a" "10.96.0.7") ()).
Proof.
  intros sv pv lost key. split; [reflexivity|]. split; [reflexivity|].
  apply (proj1 (proj2 (proj2 (updates_settle (holding KPV key (repaired lost)) sampleReconciler sv)))
           "team-a" "10.96.0.7" lost ()).
  intros []. exists tt. reflexivity.
Defined.

(** C29. The pod rolls exactly when its image or its configuration changed: of two
    Deployments the operator builds, one is drifted from the other when the image
    differs or the first eight bytes of the SHA-256 of the configuration do, and
    otherwise not. *)
Theorem roll_exact (sv sv' : SharedVolume) (opns opns' image image' : string) (cm cm' : ConfigMap) :
  let conf c := bytes_of_string (mapIndex (cm_Data c) ganeshaConfKey) in
  templateDrifted (dep_Template (BuildServerDeployment sv opns image cm))
                  (dep_Template (BuildServerDeployment sv' opns' image' cm'))
  = Some (negb (bool_decide (image = image' ∧ take 8 (Sum256 (conf cm)) = take 8 (Sum256 (conf cm'))))).
Proof.
  intros conf. unfold templateDrifted, BuildServerDeployment.
  cbn [dep_Template tpl_Spec tpl_Annotations pod_Containers head mbind option_bind ctr_Image].
  rewrite !mapIndex_Some, !lookup_singleton_eq. cbn [default from_option id]. f_equal.
  unfold confHash. apply eq_true_iff_eq.
  rewrite orb_true_iff, negb_true_iff, !bool_decide_eq_true, bool_decide_eq_false, shortHash_eq_iff.
  fold (conf cm) (conf cm'). destruct (decide (image = image')); tauto.
Qed.

(** C30. The backup CronJob is rewritten exactly when it no longer runs what the
    volume asks for: the drift test accepts an existing CronJob exactly when its
    schedule, its suspension (absent counting as not suspended), its image,
    command and host path are those of the spec, in a single container. *)
Theorem backup_drift_exact sv opns image existing desired
    (Hbuild : BuildBackupCronJob sv opns image = Some desired) :
  backupCronJobDrifted existing desired = Some false ↔ cronInSync sv image existing.
Proof.
  destruct (BuildBackupCronJob_pod _ _ _ _ Hbuild) as (b & h & w & Hb & Hh & Hs & Hsu & Hc & Hi & Hcmd & Hp).
  rewrite (backupCronJobDrifted_false existing desired w Hc), Hs, Hsu, Hp, Hi, Hcmd. unfold cronInSync. split.
  - intros (? & ? & c & ? & ? & ? & ?). exists b, h, c. done.
  - intros (b' & h' & c & ? & ? & ? & ? & ? & ? & ? & ?). simplify_eq. eauto 10.
Qed.

Lemma backup_drift_exact_witness :
  let sv := sampleVolume ReclaimDelete (Some (sampleBackup RestoreAuto)) in
  ∃ desired, BuildBackupCronJob sv "nfsz-system" "nfsz/backup:test" = Some desired ∧
    ∀ existing, backupCronJobDrifted existing desired = Some false ↔ cronInSync sv "nfsz/backup:test" existing.
Proof.
  intros sv. eexists. split; [reflexivity|]. intros existing.
  exact (backup_drift_exact sv "nfsz-system" "nfsz/backup:test" existing _ eq_refl).
Defined.
