(* ===== verification/Establish.v ===== *)
(** What a successful reconcile of a living volume has achieved: every object the
    volume asks for was read as wanted, created or updated in this pass, for
    exactly the namespaces that are targets. *)
From S2P Require Import Prelude Kube V1alpha1 Client Resources Lib Server Logic Bindings NetPolicy BackupJob Reconcile Teardown LiveSpec LiveLogic LiveServer LiveBindings StatusFacts LiveProofs Footprints Achieve BindingFacts Drift MemCluster Samples Quiescent.

(** The object at [key] is as [ok] asks: it was read so, created or updated so, or
    another creation won the race. *)
Definition present (h : list event) (k : kind) (key : NamespacedName) (ok : obj k → Prop) : Prop :=
  (∃ o, readAt h k key o ∧ ok o) ∨
  (∃ o o', ObjectKey k o = key ∧ ok o ∧ Ev (CCreate k o) (inr o') ∈ h) ∨
  (∃ o err, ObjectKey k o = key ∧ Ev (CCreate k o) (inl err) ∈ h ∧ IsAlreadyExists err = true) ∨
  (∃ old o o', readAt h k key old ∧ obj_meta k o = obj_meta k old ∧ ok o ∧ Ev (CUpdate k o) (inr o') ∈ h).

(** The object at [key] was read as missing, or deleted. *)
Definition absent (h : list event) (k : kind) (key : NamespacedName) : Prop :=
  missing h k key ∨ ∃ o, readAt h k key o ∧ deleted h k o None.

Definition runsServer (r : SharedVolumeReconciler) (d : Deployment) : Prop :=
  ∃ c, head (pod_Containers (tpl_Spec (dep_Template d))) = Some c ∧ ctr_Image c = GaneshaImage r.

Section Established.
Context `{Lib} (r : SharedVolumeReconciler).

(** Exactly the target namespaces. *)
Definition targetsAre (sv : SharedVolume) (h : list event) (targets : list string) : Prop :=
  ∀ ns, ns ∈ targets ↔ targetSeen sv h ns.

Definition policyFor (sv : SharedVolume) (h : list event) (targets : list string) (np : NetworkPolicy) : Prop :=
  ∃ nodes, Ev (CList KNode AllObjects) (inr nodes) ∈ h ∧
    SemanticDeepEqual (np_Spec np)
      (np_Spec (BuildNetworkPolicy sv (OperatorNamespace r) targets
        (sortedKeys (foldl (λ set node, list_to_set (nodeIdentities node) ∪ set) ∅ nodes)) (AllowCIDRs r))) = true.

Definition serverEstablished (sv : SharedVolume) (h : list event) (ip : string) : Prop :=
  present h KPVC (backingKey r sv) (λ _, True) ∧
  present h KConfigMap (MkNN (OperatorNamespace r) (ConfigMapName sv))
    (λ cm, mapIndex (cm_Data cm) ganeshaConfKey = Config) ∧
  (present h KDeployment (serverKey r sv) (runsServer r) ∨
   seedNotInPlay sv = false ∧ present h KJob (seedJobKey r sv) (λ _, True)) ∧
  serviceIP r sv h ip.

(** The bindings of the targets, and their order against the address. *)
Definition bindingsEstablished (sv : SharedVolume) (h : list event) (ip : string) (targets : list string)
    (bs : list NamespaceBinding) : Prop :=
  if decide (ip = "") then bs = []
  else ∃ sv', sv_core sv' = sv_core sv ∧ Forall2 (bindingTold sv' ip h) targets bs.

Definition policyEstablished (sv : SharedVolume) (h : list event) (targets : list string) : Prop :=
  if decide (NetworkPolicyField (sv_Spec sv) = NetworkPolicyDisabled)
  then absent h KNetworkPolicy (serverKey r sv)
  else present h KNetworkPolicy (serverKey r sv) (policyFor sv h targets).

Definition backupEstablished (sv : SharedVolume) (h : list event) : Prop :=
  let key := MkNN (OperatorNamespace r) (BackupCronJobName sv) in
  match Backup (sv_Spec sv) with
  | None => absent h KCronJob key
  | Some _ => present h KCronJob key (cronInSync sv (BackupImage r))
  end.

Definition established (sv : SharedVolume) (h : list event) : Prop :=
  ∃ ip targets bs,
    serverEstablished sv h ip ∧ targetsAre sv h targets ∧
    bindingsEstablished sv h ip targets bs ∧ policyEstablished sv h targets ∧ backupEstablished sv h ∧
    ∃ u a, Ev (CStatusUpdate u) a ∈ h ∧ Bindings (sv_Status u) = bs.
End Established.

(** What an event tells about namespaces: the answer of a read, of a list. *)
Definition nsGot (e : event) : option (NamespacedName * (error + NamespaceObj)) :=
  match ev_call e as c return resp c → option (NamespacedName * (error + NamespaceObj)) with
  | CGet k key =>
      match k return error + obj k → option (NamespacedName * (error + NamespaceObj)) with
      | KNamespace => λ a, Some (key, a)
      | _ => λ _, None
      end
  | _ => λ _, None
  end (ev_resp e).

Definition nsListed (e : event) : option (error + list NamespaceObj) :=
  match ev_call e as c return resp c → option (error + list NamespaceObj) with
  | CList k _ =>
      match k return error + list (obj k) → option (error + list NamespaceObj) with
      | KNamespace => λ a, Some a
      | _ => λ _, None
      end
  | _ => λ _, None
  end (ev_resp e).

(** Calls that do not look at namespaces. *)
Definition notNamespace (c : call) : Prop :=
  match c with
  | CGet KNamespace _ | CList KNamespace _ => False
  | _ => True
  end.

(** * Monotonicity *)

Lemma present_mono h tr k key ok : present h k key ok → present (h ++ tr) k key ok.
Proof.
  intros [(o & ? & ?)|[(o & o' & ? & ? & ?)|[(o & err & ? & ? & ?)|(old & o & o' & ? & ? & ? & ?)]]];
    [left|right; left|right; right; left|right; right; right].
  - exists o. split; [by apply readAt_mono|done].
  - exists o, o'. split_and!; [done..|by apply elem_of_app_hist].
  - exists o, err. split_and!; [done| |done]. by apply elem_of_app_hist.
  - exists old, o, o'. split_and!; [by apply readAt_mono|done..|by apply elem_of_app_hist].
Qed.

Lemma present_weaken h k key (ok ok' : obj k → Prop) :
  (∀ o, ok o → ok' o) → present h k key ok → present h k key ok'.
Proof. intros Hw. unfold present. naive_solver. Qed.

Lemma absent_mono h tr k key : absent h k key → absent (h ++ tr) k key.
Proof.
  intros [?|(o & ? & ?)]; [left; by apply missing_mono|right].
  exists o. split; [by apply readAt_mono|by apply deleted_mono].
Qed.

Lemma present_created `{Lib} h k sv (o o' : obj k) ok :
  createdFrom h k sv o o' → (∀ refs, ok (obj_SetOwnerReferences k refs o)) →
  present h k (ObjectKey k o) ok.
Proof.
  intros (refs & _ & [Hev|[_ (err & Hev & He)]]) Hok.
  - right. left. exists (obj_SetOwnerReferences k refs o), o'. split_and!; [by destruct k|done..].
  - right. right. left. exists (obj_SetOwnerReferences k refs o), err. split_and!; [by destruct k|done..].
Qed.

Lemma present_read h k key (o : obj k) (ok : obj k → Prop) : ok o → present (h ++ [Ev (CGet k key) (inr o)]) k key ok.
Proof. intros Hok. left. exists o. split; [apply readAt_now|done]. Qed.

(** * Components *)

Section Components.
Context `{Lib} {L : LibLaws} (r : SharedVolumeReconciler) (rely : ∀ c, resp c → Prop).
Abbreviation ach h p Q := (achieves rely h p Q).
Implicit Types (sv : SharedVolume) (h : list event).
Local Open Scope go_scope.

Lemma ach_any {A} h (p : prog (outcome A)) Q : achieves any_answer h p Q → ach h p Q.
Proof. by apply wp_rely_mono. Qed.

Lemma ach_spec {A} sv h (p : prog (outcome A)) Q : spec r rely sv h p Q → ach h p Q.
Proof.
  intros Hs. eapply wp_guar_mono; [|eapply wp_mono; [|exact Hs]]; [done|].
  intros h' res [Hg Hres]. split; [done|]. by intros a ->.
Qed.

Lemma ach_conj {A} h (p : prog (outcome A)) (Q1 Q2 : list event → A → Prop) :
  ach h p Q1 → ach h p Q2 → ach h p (λ h' a, Q1 h' a ∧ Q2 h' a).
Proof.
  intros H1 H2. eapply wp_mono; [|by apply wp_conj; [exact H1|exact H2]].
  intros h' res [[? Hq1] [_ Hq2]]. split; [done|]. auto.
Qed.

Lemma ach_return {A B} h (p : prog (outcome A)) (f : A → B) (P : list event → Prop) :
  ach h p (λ h' _, P h') → ach h (bindE p (λ a, Ret (Ok (f a)))) (λ h' _, P h').
Proof. intros Hp. eapply ach_bindE; [exact Hp|]. intros tr a HP. by apply ach_ok. Qed.

Lemma ach_createOwned_present k sv (o : obj k) h ok :
  (∀ refs, ok (obj_SetOwnerReferences k refs o)) →
  ach h (createOwned k sv o) (λ h' _, present h' k (ObjectKey k o) ok).
Proof.
  intros Hok. eapply ach_mono; [|apply ach_createOwned]. intros tr o' Ho. exact (present_created _ k sv o o' ok Ho Hok).
Qed.

Lemma ach_Update_present k h key (old o : obj k) (ok : obj k → Prop) :
  readAt h k key old → obj_meta k o = obj_meta k old → ok o →
  ach h (UpdateE k o) (λ h' _, present h' k key ok).
Proof.
  intros Hr Hm Hok. eapply wp_mono; [|by apply UpdateE_hwp]. intros h' res (Hg & Ho & _).
  split; [done|]. intros o' ->. destruct Hg as [tr ->]. right. right. right. exists old, o, o'.
  split_and!; [by apply readAt_mono|done|done|]. by destruct (Ho o' eq_refl).
Qed.

Lemma createIfMissing_present k sv (o : obj k) h :
  ach h (createIfMissing k sv o) (λ h' _, present h' k (ObjectKey k o) (λ _, True)).
Proof.
  apply ach_call. intros [err|o'].
  - destruct (IsNotFound err); [|apply ach_err].
    by apply ach_return, ach_createOwned_present.
  - apply ach_ok. by apply (present_read _ k).
Qed.

Lemma ensureConfigMap_present sv h :
  ach h (ensureConfigMap sv (BuildConfigMap sv (OperatorNamespace r)))
    (λ h' _, present h' KConfigMap (MkNN (OperatorNamespace r) (ConfigMapName sv))
       (λ cm, mapIndex (cm_Data cm) ganeshaConfKey = Config)).
Proof.
  apply ach_call. intros [err|cm].
  - destruct (IsNotFound err); [|apply ach_err]. by apply (ach_createOwned_present KConfigMap).
  - case_decide as Hd.
    + apply ach_return, (ach_Update_present KConfigMap _ _ cm); [apply readAt_now|done..].
    + apply ach_ok. apply (present_read _ KConfigMap). by rewrite Hd.
Qed.

Lemma reconcileSeed_present sv h :
  ach h (reconcileSeed r sv)
    (λ h' res, res.1 = false → seedNotInPlay sv = false ∧ present h' KJob (seedJobKey r sv) (λ _, True)).
Proof.
  assert (∀ {A} h (f : SharedVolume * bool → prog (outcome A)) st reason msg Q,
    (∀ x tr, ach (h ++ tr) (f x) Q) → ach h (setRestoredCondition sv st reason msg ≫= f) Q) as Hset.
  { intros A h0 f st reason msg Q Hf. unfold setRestoredCondition.
    apply wp_bind, wp_bind, wp_trigger; [done|]. intros now h' [_ ->].
    destruct (SetStatusCondition _ _ _) as [cs b]. apply wp_ret, ach_later, Hf. }
  unfold reconcileSeed. destruct (seedNotInPlay sv) eqn:Hp; [by apply ach_ok|].
  destruct (IsStatusConditionTrue _ _); [by apply ach_ok|].
  apply ach_call. intros [err|d].
  2: { apply Hset. intros [] tr. by apply ach_ok. }
  destruct (negb _); [apply ach_err|]. destruct (BuildSeedJob _ _ _) as [job|] eqn:Hj; [|by apply wp_ret].
  cbn [orPanic]. rewrite (BuildSeedJob_key r sv job Hj). apply ach_call. intros [err'|existing].
  - destruct (IsNotFound err'); [|apply ach_err].
    eapply ach_bindE; [by apply (ach_createOwned_present KJob _ _ _ (λ _, True))|]. intros tr o' Ho.
    rewrite (BuildSeedJob_key r sv job Hj) in Ho.
    apply Hset. intros [] tr'. apply ach_ok. intros _. split; [done|]. by apply present_mono.
  - set (h1 := (h ++ _) ++ _).
    assert (present h1 KJob (seedJobKey r sv) (λ _, True)) as Hpr by by apply (present_read _ KJob).
    clearbody h1. destruct (jobHasCondition existing JobComplete); [|destruct (jobHasCondition existing JobFailed)];
      apply Hset; intros [? []] tr; try (apply ach_ok; intros _; split; [done|by apply present_mono]);
      try by apply ach_ok.
    apply ach_call. intros []. apply ach_ok. intros _. split; [done|]. by apply present_mono, present_mono.
Qed.

Lemma ensureDeployment_present sv cm h :
  ach h (ensureDeployment r sv cm) (λ h' _, present h' KDeployment (serverKey r sv) (runsServer r)).
Proof.
  assert (∀ t, templateDrifted t (dep_Template (BuildServerDeployment sv (OperatorNamespace r) (GaneshaImage r) cm))
    = Some false → ∃ c, head (pod_Containers (tpl_Spec t)) = Some c ∧ ctr_Image c = GaneshaImage r) as Hdrift.
  { intros t. unfold templateDrifted. destruct (head (pod_Containers (tpl_Spec t))) as [c|]; simpl; [|done]. intros [= Hd].
    apply orb_false_iff in Hd as [Hd%bool_decide_eq_false _]. exists c. split; [done|]. by apply dec_stable. }
  apply ach_call. intros [err|d].
  - apply ach_return. destruct (IsNotFound err); [|apply ach_err].
    apply (ach_createOwned_present KDeployment). intros refs. by eexists.
  - apply ach_return. destruct (templateDrifted _ _) as [[]|] eqn:Hd; [| |by apply wp_ret]; cbn [orPanic].
    + apply (ach_Update_present KDeployment _ _ d); [apply readAt_now|done|]. by eexists.
    + apply ach_ok. apply (present_read _ KDeployment). by apply Hdrift.
Qed.

Lemma reconcileServer_established sv h :
  statusRead h sv →
  ach h (reconcileServer r sv)
    (λ h' '(ip, ready, sv'), sv_core sv' = sv_core sv ∧ serverEstablished r sv' h' ip).
Proof.
  intros Hst. unfold reconcileServer.
  eapply ach_bindE; [apply (createIfMissing_present KPVC)|]. intros tr1 [] H1.
  eapply ach_bindE; [apply ensureConfigMap_present|]. intros tr2 cm H2.
  eapply ach_bindE; [apply ach_conj; [eapply (ach_spec sv), reconcileSeed_spec; by auto with hist
                                     |apply reconcileSeed_present]|].
  intros tr3 [seeded sv'] [[Hcore _] H3]; simpl in *.
  set (h3 := ((h ++ tr1) ++ tr2) ++ tr3) in *.
  assert (present h3 KPVC (backingKey r sv') (λ _, True)) as H1'.
  { change (backingKey r sv') with (backingKey r (sv_core sv')). rewrite Hcore. by apply present_mono, present_mono. }
  assert (present h3 KConfigMap (MkNN (OperatorNamespace r) (ConfigMapName sv'))
    (λ cm, mapIndex (cm_Data cm) ganeshaConfKey = Config)) as H2'.
  { change (ConfigMapName sv') with (ConfigMapName (sv_core sv')). rewrite Hcore. by apply present_mono. }
  assert (seeded = false → seedNotInPlay sv' = false ∧ present h3 KJob (seedJobKey r sv') (λ _, True)) as H3'.
  { change (seedNotInPlay sv') with (seedNotInPlay (sv_core sv')).
    change (seedJobKey r sv') with (seedJobKey r (sv_core sv')). by rewrite Hcore. }
  clearbody h3. clear H1 H2 H3 Hst.
  eapply (ach_bindE _ _ _ (λ h' _, present h' KDeployment (serverKey r sv') (runsServer r) ∨
    (seedNotInPlay sv' = false ∧ present h' KJob (seedJobKey r sv') (λ _, True)))).
  { destruct seeded; [|apply ach_ok; right; by apply H3'].
    eapply ach_mono; [|apply ensureDeployment_present]. intros tr ready ?. by left. }
  intros tr4 ready H4. eapply ach_bindE; [apply (ach_spec sv'), ensureService_spec|].
  intros tr5 ip Hip. apply ach_ok. split; [done|]. split_and!; [by repeat apply present_mono..| |done].
  destruct H4 as [?|[? ?]]; [left|right; split; [done|]]; by apply present_mono.
Qed.

(** * Targets *)

Lemma targetSeen_get sv h name a ns :
  targetSeen sv (h ++ [Ev (CGet KNamespace (MkNN "" name)) a]) ns →
  targetSeen sv h ns ∨ (ns = name ∧ ∃ o, a = inr o ∧ nsAlive o = true).
Proof.
  intros [(Hn & o & Hr & Ho)|(sel & selector & nss & o & ? & ? & Hl & ?)].
  - unfold readAt in Hr. rewrite elem_of_app, list_elem_of_singleton in Hr. destruct Hr as [Hr|Hr].
    + left. left. split; [done|]. by exists o.
    + apply (f_equal nsGot) in Hr. cbn in Hr. right. simplify_eq. split; [done|]. by exists o.
  - left. right. rewrite elem_of_app, list_elem_of_singleton in Hl. destruct Hl as [Hl|Hl]; [|done].
    by exists sel, selector, nss, o.
Qed.

Lemma targetSeen_list sv h opt a ns :
  targetSeen sv (h ++ [Ev (CList KNamespace opt) a]) ns →
  targetSeen sv h ns ∨ ∃ nss o, a = inr nss ∧ o ∈ nss ∧ nsAlive o = true ∧ Name (ns_ObjectMeta o) = ns.
Proof.
  intros [(Hn & o & Hr & Ho)|(sel & selector & nss & o & ? & ? & Hl & Hin & Ho & Hname)].
  - unfold readAt in Hr. rewrite elem_of_app, list_elem_of_singleton in Hr. destruct Hr as [Hr|Hr]; [|done].
    left. left. split; [done|]. by exists o.
  - rewrite elem_of_app, list_elem_of_singleton in Hl. destruct Hl as [Hl|Hl].
    + left. right. by exists sel, selector, nss, o.
    + apply (f_equal nsListed) in Hl. cbn in Hl. right. exists nss, o. split_and!; [|done..]. by simplify_eq.
Qed.

Lemma targetSeen_quiet sv h tr ns :
  events_in notNamespace tr → targetSeen sv (h ++ tr) ns → targetSeen sv h ns.
Proof.
  unfold events_in. rewrite Forall_forall. intros Hq.
  intros [(Hn & o & Hr & Ho)|(sel & selector & nss & o & ? & ? & Hl & Hin & Ho & Hname)].
  - unfold readAt in Hr. rewrite elem_of_app in Hr. destruct Hr as [Hr|Hr]; [|destruct (Hq _ Hr)].
    left. split; [done|]. by exists o.
  - rewrite elem_of_app in Hl. destruct Hl as [Hl|Hl]; [|destruct (Hq _ Hl)].
    right. by exists sel, selector, nss, o.
Qed.

Definition targetsKnown sv (h : list event) (set : gset string) : Prop :=
  ∀ ns, targetSeen sv h ns → ns ∈ set.

Lemma namedTargets_known sv names set h :
  targetsKnown sv h set → ach h (namedTargets names set) (λ h' set', targetsKnown sv h' set').
Proof.
  revert set h. induction names as [|name names IH]; intros set h Hk; cbn [namedTargets]; [by apply ach_ok|].
  apply ach_call. intros [err|o].
  - destruct (IsNotFound err); [|apply ach_err]. apply IH.
    intros ns [?|(_ & o & ? & _)]%targetSeen_get; [by apply Hk|done].
  - apply IH. intros ns [Hs|(-> & o' & [= <-] & Ho)]%targetSeen_get.
    + destruct (nsAlive o); [apply elem_of_union_r|]; by apply Hk.
    + rewrite Ho. apply elem_of_union_l. by apply elem_of_singleton.
Qed.

Lemma targetNamespaces_known sv h :
  events_in notNamespace h →
  ach h (targetNamespaces sv) (λ h' targets, targetsAre sv h' targets).
Proof.
  intros Hq. eapply (ach_mono _ _ (λ h' targets, (∀ ns, ns ∈ targets → targetSeen sv h' ns) ∧
    (∀ ns, targetSeen sv h' ns → ns ∈ targets))).
  { intros tr targets [H1 H2] ns. by split; auto. }
  apply ach_conj; [eapply ach_spec, targetNamespaces_spec|].
  unfold targetNamespaces. eapply ach_bindE; [apply (namedTargets_known sv)|].
  { intros ns Hs. rewrite <- (app_nil_l h) in Hs. apply targetSeen_quiet in Hs; [|done].
    by destruct Hs as [(_ & o & Hr%elem_of_nil & _)|(? & ? & ? & ? & _ & _ & Hl%elem_of_nil & _)]. }
  intros tr set Hset. eapply (ach_bindE _ _ _ (λ h' set', targetsKnown sv h' set')).
  2: { intros tr' set' Hset'. apply ach_ok. intros ns Hns. apply elem_of_sortedKeys. by apply Hset'. }
  destruct (NsSelector _) as [sel|]; [|by apply ach_ok].
  destruct (LabelSelectorAsSelector sel) as [err|selector]; [apply ach_err|].
  apply ach_call. intros [err|nss]; [apply ach_err|]. apply ach_ok.
  intros ns [Hs|(nss' & o & [= <-] & Hin & Ho & Hname)]%targetSeen_list; apply listedTargets_elem.
  - left. by apply Hset.
  - right. by exists o.
Qed.

(** * Policy and backup *)

Lemma nodeIPs_read h :
  ach h nodeIPs (λ h' ips, ∃ nodes, Ev (CList KNode AllObjects) (inr nodes) ∈ h' ∧
    ips = sortedKeys (foldl (λ set node, list_to_set (nodeIdentities node) ∪ set) ∅ nodes)).
Proof.
  apply ach_call. intros [err|nodes]; [apply ach_err|]. apply ach_ok. exists nodes. split; [|done].
  apply event_now.
Qed.

Lemma policyFor_mono sv h tr targets np : policyFor r sv h targets np → policyFor r sv (h ++ tr) targets np.
Proof. intros (nodes & ? & ?). exists nodes. split; [by apply elem_of_app_hist|done]. Qed.

Lemma reconcileNetworkPolicy_established sv targets h :
  ach h (reconcileNetworkPolicy r sv targets) (λ h' _, policyEstablished r sv h' targets).
Proof.
  unfold policyEstablished. apply ach_call. intros [err|np].
  - destruct (IsNotFound err) eqn:Hnf; [|apply ach_err]. cbn [negb]. case_decide.
    { apply ach_ok. left. by exists err; split; [apply event_now|]. }
    eapply ach_bindE; [apply nodeIPs_read|]. intros tr ips (nodes & Hn & ->).
    set (h1 := (h ++ _) ++ tr) in *. apply ach_return. eapply ach_mono; [|apply (ach_createOwned_present KNetworkPolicy _ _ _ (policyFor r sv h1 targets))].
    + intros tr' a Hp. eapply present_weaken; [|exact Hp]. intros o. apply policyFor_mono.
    + intros refs. exists nodes. split; [done|]. apply SemanticDeepEqual_refl.
  - case_decide.
    { eapply ach_mono; [|apply (ach_Delete _ KNetworkPolicy)]. intros tr a Hd. right. exists np.
      split; [apply readAt_mono, readAt_now|done]. }
    eapply ach_bindE; [apply nodeIPs_read|]. intros tr ips (nodes & Hn & ->). cbn zeta.
    set (h1 := (h ++ _) ++ tr) in *.
    destruct (SemanticDeepEqual _ _) eqn:He; cbn [negb].
    + apply ach_ok. left. exists np. split; [apply readAt_mono, readAt_now|]. by exists nodes.
    + apply ach_return. eapply ach_mono;
        [|apply (ach_Update_present KNetworkPolicy _ (serverKey r sv) np _ (policyFor r sv h1 targets))].
      * intros tr' a Hp. eapply present_weaken; [|exact Hp]. intros o. apply policyFor_mono.
      * apply readAt_mono, readAt_now.
      * done.
      * exists nodes. split; [done|]. apply SemanticDeepEqual_refl.
Qed.

Lemma reconcileBackup_established sv h :
  ach h (reconcileBackup r sv) (λ h' _, backupEstablished r sv h').
Proof.
  unfold reconcileBackup, backupEstablished. apply ach_call. intros e.
  destruct (Backup (sv_Spec sv)) as [b|] eqn:Hb.
  - destruct (BuildBackupCronJob _ _ _) as [want|] eqn:Hw; [|by apply wp_ret]. cbn [orPanic].
    pose proof (BuildCronJob_key r sv want Hw) as Hkey.
    assert (∀ cj, cj_Spec cj = cj_Spec want → cronInSync sv (BackupImage r) cj) as Hsync.
    { intros cj Hcj. destruct (BuildBackupCronJob_pod _ _ _ _ Hw) as (b' & h0 & c & ? & ? & ? & Hs & ?).
      unfold cronInSync, cronPod. rewrite Hcj. exists b', h0, c. rewrite Hs. done. }
    destruct e as [err|cj].
    + destruct (IsNotFound err); [|apply ach_err]. apply ach_return. rewrite <- Hkey.
      apply (ach_createOwned_present KCronJob). intros refs. by apply Hsync.
    + destruct (backupCronJobDrifted cj want) as [[]|] eqn:Hd; [| |by apply wp_ret]; cbn [orPanic]; apply ach_return.
      * apply (ach_Update_present KCronJob _ _ cj); [apply readAt_now|done|by apply Hsync].
      * apply ach_ok. apply (present_read _ KCronJob).
        destruct (BuildBackupCronJob_pod _ _ _ _ Hw) as (b' & h0 & w & ? & ? & Hs & Hsu & Hc & Hi & Hcmd & Hp).
        apply (backupCronJobDrifted_false cj want w Hc) in Hd as (Hs' & Hsu' & c & ? & ? & ? & ?).
        exists b', h0, c. rewrite Hs', Hs, Hsu', Hsu. split_and!; congruence || done.
  - destruct e as [err|cj].
    + destruct (IsNotFound err) eqn:Hnf; [|apply ach_err]. apply ach_ok. left.
      by exists err; split; [apply event_now|].
    + apply ach_return. eapply ach_mono; [|apply (ach_Delete _ KCronJob)]. intros tr a Hd. right. exists cj.
      split; [apply readAt_mono, readAt_now|done].
Qed.

Lemma ensureBindings_established sv targets ip h :
  ach h (ensureBindings sv targets ip) (λ h' bs, bindingsEstablished sv h' ip targets bs).
Proof.
  unfold ensureBindings, bindingsEstablished. destruct (decide (ip = "")) as [->|Hip].
  { by apply ach_ok. }
  rewrite decide_True by done.
  eapply ach_bindE; [apply ach_any, reconcileBindings_told|]. intros tr bs Hbs.
  eapply (ach_bindE _ _ _ (λ _ _, True)).
  { eapply wp_guar_mono; [|eapply wp_mono; [|apply (cleanupStaleBindings_hwp rely sv targets)]]; [done|].
    intros h' res [Hg _]. by split. }
  intros tr' [] _. apply ach_ok. exists sv. split; [done|].
  eapply Forall2_impl; [exact Hbs|]. intros ns b. apply bindingTold_mono.
Qed.
End Components.

(** * The whole reconcile *)

Section Live.
Context `{Lib} {L : LibLaws} (r : SharedVolumeReconciler).
Abbreviation ach h p Q := (achieves sv_stable h p Q).
Abbreviation quiet := (events_in notNamespace).
Implicit Types (sv : SharedVolume) (h : list event).

Lemma quiet_app tr1 tr2 : quiet tr1 → quiet tr2 → quiet (tr1 ++ tr2).
Proof. apply Forall_app_2. Qed.

Lemma hwp_quiet {A} h (p : prog A) (Q : list event → A → Prop) :
  footprint notNamespace p → hwp (λ _ _, True) sv_stable p Q h →
  hwp (λ _ _, True) sv_stable p (λ h' a, Q h' a ∧ ∃ tr, h' = h ++ tr ∧ quiet tr) h.
Proof.
  intros Hf Hp. apply wp_conj; [exact Hp|].
  apply (hwp_footprint _ _ _ _ (λ h' _, ∃ tr, h' = h ++ tr ∧ quiet tr) _ Hf); [done|by eauto].
Qed.

(** A sequence whose first part does not look at namespaces. *)
Lemma ach_bindQ {A B} h (p : prog (outcome A)) (f : A → prog (outcome B)) Q1 Q2 :
  footprint notNamespace p → ach h p Q1 →
  (∀ tr a, quiet tr → Q1 (h ++ tr) a → ach (h ++ tr) (f a) Q2) →
  ach h (bindE p f) Q2.
Proof.
  intros Hfp Hp Hf. apply wp_bindE. eapply wp_mono; [|by apply hwp_quiet; [|exact Hp]].
  intros h' [a|e|] [[_ Ha] (tr & -> & Hq)]; [apply ach_later, Hf; auto|by split; [apply grown_app|]..].
Qed.

Lemma targetsAre_quiet sv h tr targets :
  quiet tr → targetsAre sv h targets → targetsAre sv (h ++ tr) targets.
Proof.
  intros Hq Ht ns. rewrite (Ht ns). split; [apply targetSeen_mono|by apply targetSeen_quiet].
Qed.

Lemma serverEstablished_mono sv h tr ip : serverEstablished r sv h ip → serverEstablished r sv (h ++ tr) ip.
Proof.
  intros (? & ? & Hd & ?). split_and!; [by apply present_mono..| |by apply serviceIP_mono].
  destruct Hd as [?|[? ?]]; [left|right; split; [done|]]; by apply present_mono.
Qed.

Lemma bindingsEstablished_mono sv h tr ip targets bs :
  bindingsEstablished sv h ip targets bs → bindingsEstablished sv (h ++ tr) ip targets bs.
Proof.
  unfold bindingsEstablished. case_decide; [done|]. intros (sv' & ? & Hbs). exists sv'. split; [done|].
  eapply Forall2_impl; [exact Hbs|]. intros ns b. apply bindingTold_mono.
Qed.

Lemma policyEstablished_mono sv h tr targets :
  policyEstablished r sv h targets → policyEstablished r sv (h ++ tr) targets.
Proof.
  unfold policyEstablished. case_decide; [apply absent_mono|]. intros Hp. apply present_mono.
  eapply present_weaken; [|exact Hp]. intros np. apply policyFor_mono.
Qed.

Lemma backupEstablished_mono sv h tr : backupEstablished r sv h → backupEstablished r sv (h ++ tr).
Proof.
  unfold backupEstablished. destruct (Backup _); [apply present_mono|apply absent_mono].
Qed.

Lemma updateStatus_submits sv ip ready bs h :
  hwp (λ _ _, True) sv_stable (updateStatus r sv ip ready bs)
    (λ h' _, ∃ u a, Ev (CStatusUpdate u) a ∈ h' ∧ Bindings (sv_Status u) = bs) h.
Proof.
  unfold updateStatus. do 2 (apply wp_bind, wp_trigger; [done|]; intros ? ? [_ ->]).
  apply wp_bind, wp_trigger; [done|]. intros a h' [_ ->].
  destruct a as [err|sv']; apply wp_ret; eexists _, _; (split; [apply event_now|apply rollup_Bindings]).
Qed.

Lemma fp_quiet {A} sigs (p : prog A) :
  negb (bool_decide ((VGet, KNamespace) ∈ sigs)) && negb (bool_decide ((VList, KNamespace) ∈ sigs)) = true →
  footprint (λ c, within sigs c = true) p → footprint notNamespace p.
Proof.
  rewrite andb_true_iff, !negb_true_iff, !bool_decide_eq_false. intros [Hg Hl].
  apply footprint_mono. intros c. unfold within. rewrite bool_decide_eq_true.
  destruct c as [k key|k opt| | | | | |]; try done; destruct k; try done; intros Hin; first [destruct (Hg Hin)|destruct (Hl Hin)].
Qed.

Ltac quiet_by lem := eapply fp_quiet; [|apply lem]; vm_compute; reflexivity.

Lemma ensureFinalizer_quiet sv : footprint notNamespace (ensureFinalizer sv).
Proof. unfold ensureFinalizer. fp_auto. apply (UpdateE_footprint _ KSharedVolume). exact I. Qed.

Lemma reconcileLive_established sv h :
  volumeRead h sv → quiet h →
  ach h (reconcileLive r sv) (λ h' _, established r sv h').
Proof.
  intros Hr Hq0. unfold reconcileLive.
  eapply ach_bindQ; [apply ensureFinalizer_quiet|by apply (ach_spec r _ sv), ensureFinalizer_spec|].
  intros tr1 sv1 Hq1 [Hc1 Hst1].
  eapply ach_bindQ; [quiet_by reconcileServer_fp|by apply reconcileServer_established|].
  intros tr2 [[ip ready] sv2] Hq2 [Hc2 Hserver].
  assert (quiet ((h ++ tr1) ++ tr2)) as Hq by auto using quiet_app.
  set (h2 := (h ++ tr1) ++ tr2) in *. clearbody h2. clear Hst1 Hq0 Hq1 Hq2 Hr.
  assert (sv_core sv2 = sv_core sv) as Hcore by congruence. clear Hc1 Hc2.
  eapply ach_bindE; [by apply targetNamespaces_known|]. intros tr3 targets Ht.
  eapply ach_bindQ; [quiet_by ensureBindings_fp|apply ensureBindings_established|]. intros tr4 bs Hq4 Hbs.
  eapply ach_bindQ; [quiet_by reconcileNetworkPolicy_fp|apply reconcileNetworkPolicy_established|].
  intros tr5 [] Hq5 Hnp.
  eapply ach_bindQ; [quiet_by reconcileBackup_fp|apply reconcileBackup_established|].
  intros tr6 sv3 Hq6 Hcj.
  set (h6 := (((h2 ++ tr3) ++ tr4) ++ tr5) ++ tr6).
  assert (serverEstablished r sv2 h6 ip ∧ targetsAre sv2 h6 targets ∧ bindingsEstablished sv2 h6 ip targets bs ∧
    policyEstablished r sv2 h6 targets ∧ backupEstablished r sv2 h6) as (H1 & H2 & H3 & H4 & H5).
  { split_and!; [by do 4 apply serverEstablished_mono|by do 3 (apply targetsAre_quiet; [done|])
      |by do 2 apply bindingsEstablished_mono|by apply policyEstablished_mono|done]. }
  apply wp_bind. eapply wp_mono; [|apply hwp_quiet; [quiet_by updateStatus_fp|apply updateStatus_submits]].
  fold h6. clearbody h6.
  intros h7 u [Hu (tr7 & -> & Hq7)].
  assert (established r sv (h6 ++ tr7)) as Hest.
  { change (established r (sv_core sv) (h6 ++ tr7)). rewrite <- Hcore.
    change (established r sv2 (h6 ++ tr7)). exists ip, targets, bs.
    split_and!; [by apply serverEstablished_mono|by apply targetsAre_quiet|by apply bindingsEstablished_mono
      |by apply policyEstablished_mono|by apply backupEstablished_mono|done]. }
  destruct u as [sv'|e|]; [|destruct (IsConflict e)|]; apply wp_ret; (split; [apply grown_app|by intros]).
Qed.
End Live.

(** * Properties *)

(** C1. A successful reconcile has done its work: against a server that keeps a
    volume's name and spec, when [Reconcile] of a living volume ends without an
    error, then during it the backing PVC was found or created, the ConfigMap
    found with, created with or updated to the built-in configuration, the server
    Deployment brought to the configured image or, while a restore is asked for,
    the seed job found or started; for exactly the namespaces that are targets
    the PV and PVC were found or created once the Service has an address, and
    nothing otherwise; the network policy was brought to these targets and the
    listed nodes, or is absent when disabled; the CronJob runs what the spec asks
    for, or is absent without a backup; and the status was submitted with these
    bindings. *)
Theorem reconcile_establishes `{Lib} {L : LibLaws} {S} (srv : server S) r req sv res s
    (Hsrv : ∀ s c, sv_stable c (srv s c).1)
    (Hread : (srv s (CGet KSharedVolume req)).1 = inr sv)
    (Halive : Time_IsZero (DeletionTimestamp (sv_ObjectMeta sv)) = true)
    (Hok : result_of (run srv (Reconcile r req) s) = Ok res) :
  established r sv (trace_of (run srv (Reconcile r req) s)).
Proof.
  set (h0 := [Ev (CGet KSharedVolume req) (inr sv)]).
  pose proof (run_Reconcile_live srv r req sv s Hread Halive) as Hrun.
  set (s1 := (srv s (CGet KSharedVolume req)).2) in *. cbv zeta in Hrun.
  rewrite Hrun in *. cbn [trace_of result_of state_of fst snd] in *.
  assert (hwp (λ _ _, True) sv_stable (reconcileLive r sv)
    (λ h' res, grown h0 h' ∧ ∀ a, res = Ok a → established r sv h') h0) as Hwp.
  { apply reconcileLive_established; [left; exists req; by left|]. repeat constructor. }
  destruct (run_wp srv _ _ _ _ h0 s1 Hwp Hsrv) as [[_ Hest] _]. by eapply Hest.
Qed.

Lemma reconcile_establishes_witness :
  let sv := sampleVolume ReclaimDelete (Some (sampleBackup RestoreAuto)) in
  (∀ m c, sv_stable c (memServer m c).1) ∧
  (memServer seeding0 (CGet KSharedVolume sampleRequest)).1 = inr sv ∧
  Time_IsZero (DeletionTimestamp (sv_ObjectMeta sv)) = true ∧
  result_of (passRun seeding0) = Ok noResult ∧
  established sampleReconciler sv (trace_of (passRun seeding0)).
Proof.
  intros sv. split; [exact memServer_stable|]. split; [vm_compute; reflexivity|]. split; [reflexivity|].
  assert (result_of (passRun seeding0) = Ok noResult) as Hok by (vm_compute; reflexivity).
  split; [exact Hok|].
  refine (reconcile_establishes memServer sampleReconciler sampleRequest sv noResult seeding0
    memServer_stable _ eq_refl Hok). vm_compute. reflexivity.
Defined.
