(* ===== verification/Isolation.v ===== *)
(** Isolation of volumes: whatever a reconcile writes is an object of the volume
    it was called for. *)
From S2P Require Import Prelude Kube V1alpha1 Client Resources Lib Server Logic Bindings NetPolicy BackupJob Reconcile Teardown LiveSpec LiveServer LiveProofs Safety BindingFacts Names MemCluster Samples.

(** The keys a volume owns: its stack, and its pair in each namespace. *)
Definition ownKey (r : SharedVolumeReconciler) (sv : SharedVolume) (k : kind) (key : NamespacedName) : Prop :=
  (k, key) ∈ volumeObjects r sv ∨
  (k = KPV ∧ ∃ ns, key = MkNN "" (PVName sv ns)) ∨
  (k = KPVC ∧ ∃ ns, key = consumerKey sv ns).

(** The same object, at the same version. *)
Definition sameObject (k : kind) (o o' : obj k) : Prop :=
  ObjectKey k o = ObjectKey k o' ∧
  ResourceVersion (obj_meta k o) = ResourceVersion (obj_meta k o').

(** A PV found by the volume's label, or a PVC that carries it. *)
Definition labelled (sv : SharedVolume) (h : list event) (k : kind) : obj k → Prop :=
  match k return obj k → Prop with
  | KPV => λ pv, ∃ pvs, listed sv h pvs ∧ pv ∈ pvs
  | KPVC => λ pvc, pvcOwned sv pvc = true
  | _ => λ _, False
  end.

(** Creations are at own keys; updates re-submit, under its identity, an object
    read at an own key; the one SharedVolume that is updated, or whose status is,
    is the requested one; deletions are of objects at own keys, or labelled. *)
Definition isolated (r : SharedVolumeReconciler) (req : NamespacedName) (h : list event) (c : call) : Prop :=
  match c with
  | CCreate k o => ∃ sv, sv_Name sv = nn_Name req ∧ ownKey r sv k (ObjectKey k o)
  | CUpdate KSharedVolume u => sv_Name u = nn_Name req
  | CUpdate k o => ∃ sv key old, sv_Name sv = nn_Name req ∧ ownKey r sv k key ∧ readAt h k key old ∧
      sameObject k o old
  | CStatusUpdate u => sv_Name u = nn_Name req
  | CDelete k o _ => ∃ sv, sv_Name sv = nn_Name req ∧
      (ownKey r sv k (ObjectKey k o) ∨ (∃ key, ownKey r sv k key ∧ readAt h k key o) ∨ labelled sv h k o)
  | CGet _ _ | CList _ _ | CEventf _ _ _ _ _ | CNow => True
  end.

(** * Lemmas *)

(** A key of the stack, found in the list. *)
Ltac own_stack :=
  left; unfold volumeObjects, stackObjects; cbn [map projT1 projT2]; repeat first [left; reflexivity | right].

Lemma ownedCopy_key k (o0 o : obj k) : ownedCopy k o0 o → ObjectKey k o = ObjectKey k o0.
Proof. intros [refs ->]. by destruct k. Qed.

Section Isolation.
Context `{Lib} (r : SharedVolumeReconciler).

Lemma built_own sv h k (o : obj k) : built r sv h k o → ownKey r sv k (ObjectKey k o).
Proof.
  unfold ownKey. destruct k; simpl; try done.
  - intros [Ho%ownedCopy_key|(ns & _ & Ho%ownedCopy_key)]; rewrite Ho; [left; by left|right; right; eauto].
  - intros (ns & ip & _ & _ & _ & Ho%ownedCopy_key). rewrite Ho. right. left. eauto.
  - intros Ho%ownedCopy_key. rewrite Ho. own_stack.
  - intros (_ & cm & Ho%ownedCopy_key). rewrite Ho. own_stack.
  - intros Ho%ownedCopy_key. rewrite Ho. own_stack.
  - intros (_ & ts & ips & _ & Ho%ownedCopy_key). rewrite Ho. own_stack.
  - intros (cj & Hb & Ho%ownedCopy_key). rewrite Ho, (BuildCronJob_key r sv cj Hb). own_stack.
  - intros (_ & job & Hb & Ho%ownedCopy_key). rewrite Ho, (BuildSeedJob_key r sv job Hb). own_stack.
Qed.

Lemma updated_own sv h k (u : obj k) :
  k ≠ KSharedVolume → updated r sv h k u →
  ∃ key old, ownKey r sv k key ∧ readAt h k key old ∧ sameObject k u old.
Proof.
  intros Hk. unfold ownKey, sameObject. destruct k; simpl; try done.
  - intros (ns & pv & ref & _ & Hr & _ & _ & _ & ->). exists (MkNN "" (PVName sv ns)), pv. split; [|done].
    right. left. eauto.
  - intros (cm & Hr & _ & ->). eexists _, cm. split; [|split; [exact Hr|done]]. own_stack.
  - intros (_ & d & cm & Hr & _ & ->). eexists _, d. split; [|split; [exact Hr|done]]. own_stack.
  - intros (_ & np & ts & ips & Hr & _ & _ & ->). eexists _, np. split; [|split; [exact Hr|done]]. own_stack.
  - intros (cj & want & Hr & _ & _ & ->). eexists _, cj. split; [|split; [exact Hr|done]]. own_stack.
Qed.

Lemma liveDelete_own sv h k (o : obj k) :
  liveDelete r sv h k o → (∃ key, ownKey r sv k key ∧ readAt h k key o) ∨ labelled sv h k o.
Proof.
  unfold ownKey. destruct k; simpl; try done.
  - intros (_ & Hown & _). by right.
  - intros (pvs & ? & ? & _). right. by exists pvs.
  - intros [_ Hr]. left. eexists. split; [|exact Hr]. own_stack.
  - intros [_ Hr]. left. eexists. split; [|exact Hr]. own_stack.
Qed.

Lemma stack_own sv k (o : obj k) :
  (existT k o : { k : kind & obj k }) ∈ stackObjects r sv → ownKey r sv k (ObjectKey k o).
Proof.
  intros Hin. left. unfold volumeObjects. right.
  by apply (list_elem_of_fmap_2 (λ ko, (projT1 ko, ObjectKey (projT1 ko) (projT2 ko))) _ (existT k o)).
Qed.

(** The specification of the living reconcile, and that of the teardown. *)
Lemma live_isolated sv req h c : sv_Name sv = nn_Name req → live_allowed r sv h c → isolated r req h c.
Proof.
  intros Hn. destruct c as [k key|k opt|k o|k u|u|k o prop| |]; try done; simpl.
  - intros [_ Hb]. exists sv. split; [done|]. by eapply built_own.
  - intros Hu. destruct (decide (k = KSharedVolume)) as [->|Hk].
    { destruct Hu as [Hc _]. by rewrite (sv_Name_core _ _ Hc). }
    destruct (updated_own sv h k u Hk Hu) as (key & old & ? & ? & ?).
    destruct k; try done; by exists sv, key, old.
  - intros [Hc _]. by rewrite (sv_Name_core _ _ Hc).
  - intros [_ Hd%liveDelete_own]. exists sv. auto.
Qed.

Lemma teardown_isolated sv req h c : sv_Name sv = nn_Name req → teardown_allowed r sv h c → isolated r req h c.
Proof.
  intros Hn. destruct c as [k key|k opt|k o|k u|u|k o prop| |]; try done; simpl.
  - destruct k; try done; [by intros [_ ->]|]. intros (_ & _ & _ & b & Hb & _ & _ & Hkey & Hrv & _).
    exists sv, (backingKey r sv), b. split_and!; [done|by left; left|exact Hb|done].
  - intros [_ ->]. done.
  - intros Hd. exists sv. split; [done|].
    destruct k; try (left; by apply stack_own; destruct Hd); simpl.
    + destruct Hd as [_ [(pvs & pv & ref & _ & _ & _ & _ & Hown)|(_ & _ & Hr & _)]]; [by right; right|].
      right. left. exists (backingKey r sv). split; [by left; left|exact Hr].
    + destruct Hd as (pvs & ? & ? & _). right. right. by exists pvs.
Qed.
End Isolation.

(** * Two volumes and one key *)

Lemma volumeObjects_PV r sv key : (KPV, key) ∉ volumeObjects r sv.
Proof.
  unfold volumeObjects, stackObjects. cbn [map projT1 projT2].
  rewrite !elem_of_cons, elem_of_nil. intros Hin. repeat destruct Hin as [[=]|Hin]. done.
Qed.

Lemma volumeObjects_PVC r sv key : (KPVC, key) ∈ volumeObjects r sv → key = backingKey r sv.
Proof.
  unfold volumeObjects, stackObjects. cbn [map projT1 projT2].
  rewrite !elem_of_cons, elem_of_nil. intros [[= ->]|Hin]; [done|]. repeat destruct Hin as [[=]|Hin]. done.
Qed.

Lemma ownKey_shared r sv sv' k key :
  sv_Name sv ≠ sv_Name sv' → ownKey r sv k key → ownKey r sv' k key →
  (k = KPV ∧ ∃ ns ns', key = MkNN "" (PVName sv ns) ∧ PVName sv ns = PVName sv' ns') ∨
  (k = KPVC ∧ nn_Namespace key = OperatorNamespace r ∧
   (sv_Name sv' = BackingPVCName sv ∨ sv_Name sv = BackingPVCName sv')).
Proof.
  intros Hne [Hs|[[-> [ns ->]]|[-> [ns ->]]]] [Hs'|[[Hk [ns' Hkey]]|[Hk [ns' Hkey]]]]; subst; try done.
  - destruct (stacks_disjoint r sv sv') as [?|Hd]; [done|]. rewrite Forall_forall in Hd. by destruct (Hd _ Hs).
  - by apply volumeObjects_PV in Hs.
  - apply volumeObjects_PVC in Hs. right. split_and!; [done|exact (f_equal nn_Namespace Hs)|].
    left. exact (f_equal nn_Name Hs).
  - by apply volumeObjects_PV in Hs'.
  - left. split; [done|]. exists ns, ns'. split; [done|]. exact (f_equal nn_Name Hkey).
  - apply volumeObjects_PVC in Hs'. right. split_and!; [done|exact (f_equal nn_Namespace Hs')|].
    right. exact (f_equal nn_Name Hs').
  - by destruct Hne; apply (f_equal nn_Name) in Hkey.
Qed.

(** * Properties *)

(** C33. Volumes are isolated, against a server that keeps a volume's name and spec
    stable: the only SharedVolume a reconcile updates, or whose status it updates,
    bears the name of the request; every other object it
    creates, updates or deletes is at a key of that volume (its stack and its
    backing PVC in the operator's namespace, its PV and PVC of a namespace) or, for
    a deletion, was listed by or carries its label, an update being of the version
    that was read at such a key; and two volumes share a key only as PVs whose names collide, or when one volume is
    named like the backing PVC of the other and targets the operator's namespace. *)
Theorem reconcile_isolated `{Lib} {S} (srv : server S) r req s
    (Hsrv : ∀ s c, sv_stable c (srv s c).1) :
  trace_guarded (isolated r req) (trace_of (run srv (Reconcile r req) s)) ∧
  ∀ sv sv' k key, sv_Name sv ≠ sv_Name sv' → ownKey r sv k key → ownKey r sv' k key →
    (k = KPV ∧ ∃ ns ns', key = MkNN "" (PVName sv ns) ∧ PVName sv ns = PVName sv' ns') ∨
    (k = KPVC ∧ nn_Namespace key = OperatorNamespace r ∧
     (sv_Name sv' = BackingPVCName sv ∨ sv_Name sv = BackingPVCName sv')).
Proof.
  split; [|intros sv sv' k key; apply ownKey_shared].
  apply Reconcile_trace; [done|done|..].
  - intros h c sv _ Hn. by apply live_isolated.
  - intros h c sv _ Hn. by apply teardown_isolated.
Qed.

Lemma reconcile_isolated_witness :
  (∀ m c, sv_stable c (memServer m c).1) ∧
  length (writes_of (passRun seeding0)) = 12%nat ∧
  trace_guarded (isolated sampleReconciler sampleRequest) (trace_of (passRun seeding0)).
Proof.
  split; [exact memServer_stable|]. split; [vm_compute; reflexivity|].
  exact (proj1 (reconcile_isolated memServer sampleReconciler sampleRequest seeding0 memServer_stable)).
Defined.
