(* ===== verification/Budget.v ===== *)
(** How many calls a reconcile makes: an amortised bound, by the number of names,
    namespaces and PVs it is answered with. *)
From S2P Require Import Prelude Kube V1alpha1 Client Resources Lib Server Logic Bindings NetPolicy BackupJob Reconcile MemCluster Samples.

(** * Credits *)

(** What a volume's names may cost: a read of each, and a pair for each. *)
Definition purse (sv : SharedVolume) : nat := 5 * length (Names (Namespaces (sv_Spec sv))).

(** The names a server adds in answer to an update of a volume. *)
Definition grownBy (k : kind) : obj k → error + obj k → nat :=
  match k return obj k → error + obj k → nat with
  | KSharedVolume => λ u a,
      match a with
      | inr sv => length (Names (Namespaces (sv_Spec sv))) - length (Names (Namespaces (sv_Spec u)))
      | inl _ => 0
      end
  | _ => λ _ _, 0
  end.

Definition namesAdded (e : event) : nat :=
  match ev_call e as c return resp c → nat with
  | CUpdate k u => grownBy k u
  | _ => λ _, 0
  end (ev_resp e).

(** The elements of the lists of a kind. *)
Definition listedOf (k : kind) (e : event) : nat :=
  match ev_call e as c return resp c → nat with
  | CList k' _ => λ a, match a with inr l => if decide (k' = k) then length l else 0 | inl _ => 0 end
  | _ => λ _, 0
  end (ev_resp e).

Definition total (f : event → nat) (tr : list event) : nat := sum_list (map f tr).

(** The credits an answer brings: the calls that its elements may lead to.  The
    volume that the reconcile starts with is accounted for separately. *)
Definition gain (e : event) : nat :=
  4 * listedOf KNamespace e + 2 * listedOf KPV e + 5 * namesAdded e.

Definition gains : list event → nat := total gain.

(** What a pass over the volume takes, before any namespace or PV is listed. *)
Definition baseCalls (sv : SharedVolume) : nat :=
  if negb (Time_IsZero (DeletionTimestamp (sv_ObjectMeta sv))) then 12 else 24 + purse sv.




(** A cluster that makes a pass work for its credits: the seed job is done, the
    PV of a former target still has its claim, everything else is missing. *)
Definition busyVolume : SharedVolume :=
  set_Finalizers [finalizerName] (sampleVolume ReclaimDelete (Some (sampleBackup RestoreAuto))).

Definition busyCluster : mem :=
  let job := MkJob (objectMeta (SeedJobName busyVolume) "nfsz-system" None) emptyJobSpec
               [MkJobCondition JobComplete ConditionTrue] in
  with_obj KJob job (with_obj KPV (BuildPV busyVolume "other" "10.96.0.7")
    (with_obj KPVC (BuildConsumerPVC busyVolume "other") (sampleCluster busyVolume))).

(** 34 calls of 39: what is left is the credit for the finalizer's update and those
    for the two listed PVs that are wanted. *)
Example busy_calls :
  let tr := trace_of (run memServer (Reconcile sampleReconciler sampleRequest) busyCluster) in
  length tr = 34 ∧ baseCalls busyVolume + gains tr = 39.
Proof. vm_compute. done. Qed.

(** * Soundness *)





(** * Rules *)

Section Rules.
Local Open Scope go_scope.







End Rules.


(** * Components *)

Section Components.
Context `{Lib} (r : SharedVolumeReconciler).
Local Open Scope go_scope.
Implicit Types (sv : SharedVolume).







Abbreviation seedLeft := (λ x : bool * SharedVolume, (if x.1 then 2 else 0) + purse x.2).







(** * Targets and bindings *)














(** * The rest of the pass *)








End Components.

(** * Totals *)






(** * Property *)


