(* ===== verification/Cmd.v ===== *)
(** The entry point (cmd/main.go): the environment and flag defaults, the parsing
    of the extra CIDRs, the server options, and the reconciler they configure. *)
From S2P Require Import Prelude Kube V1alpha1 Client Resources Lib MemCluster.

(** * Strings *)

(** [strings.SplitSeq(s, sep)] for a one-byte separator. *)
Fixpoint splitSeq (sep : Ascii.ascii) (s : string) : list string :=
  match s with
  | EmptyString => [""]
  | String c s =>
      if Ascii.eqb c sep then "" :: splitSeq sep s
      else match splitSeq sep s with
           | [] => [String c ""]
           | w :: ws => String c w :: ws
           end
  end.

(** The UTF-8 encodings of the code points of [unicode.IsSpace]: the six ASCII
    ones, U+0085, U+00A0, U+1680, U+2000 to U+200A, U+2028, U+2029, U+202F,
    U+205F and U+3000. *)
Definition byteString (bs : list nat) : string := foldr (λ b s, String (Ascii.ascii_of_nat b) s) "" bs.

Definition spaceCodes : list string :=
  map byteString
    ([[9]; [10]; [11]; [12]; [13]; [32]; [194; 133]; [194; 160]; [225; 154; 128]]
     ++ map (λ i, [226; 128; 128 + i]) (seq 0 11)
     ++ [[226; 128; 168]; [226; 128; 169]; [226; 128; 175]; [226; 129; 159]; [227; 128; 128]])%nat.

(** [strings.CutPrefix] *)
Fixpoint cutPrefix (p s : string) : option string :=
  match p, s with
  | EmptyString, _ => Some s
  | String a p, String b s => if Ascii.eqb a b then cutPrefix p s else None
  | String _ _, EmptyString => None
  end.

(** The rest after one leading space, when there is one. *)
Fixpoint cutSpace (codes : list string) (s : string) : option string :=
  match codes with
  | [] => None
  | code :: codes => match cutPrefix code s with Some s' => Some s' | None => cutSpace codes s end
  end.

Fixpoint trimLeftFuel (codes : list string) (fuel : nat) (s : string) : string :=
  match fuel with
  | O => s
  | S fuel => match cutSpace codes s with Some s' => trimLeftFuel codes fuel s' | None => s end
  end.

(** Each cut removes a byte at least, so the length is enough fuel. *)
Definition trimLeft (codes : list string) (s : string) : string :=
  trimLeftFuel codes (String.length s) s.

Fixpoint reverse (s : string) : string :=
  match s with
  | EmptyString => ""
  | String c s => reverse s +:+ String c ""
  end.

(** [strings.TrimSpace]: from the front, then from the back. *)
Definition TrimSpace (s : string) : string :=
  reverse (trimLeft (map reverse spaceCodes) (reverse (trimLeft spaceCodes s))).

Definition comma : Ascii.ascii := Ascii.ascii_of_nat 44.

Definition splitNonEmpty (csv : string) : list string :=
  filter (λ s, s ≠ "") (map TrimSpace (splitSeq comma csv)).

(** [os.Getenv] is "" for a variable that is not set. *)
Definition envOr (env : string → string) (key fallback : string) : string :=
  if decide (env key ≠ "") then env key else fallback.

(** * Flags *)

Record Flags := MkFlags {
  fl_operatorNamespace : string;
  fl_ganeshaImage : string;
  fl_backupImage : string;
  fl_allowCIDRs : string;
  fl_metricsAddr : string;
  fl_probeAddr : string;
  fl_enableLeaderElection : bool;
  fl_secureMetrics : bool;
  fl_webhookCertPath : string;
  fl_webhookCertName : string;
  fl_webhookCertKey : string;
  fl_metricsCertPath : string;
  fl_metricsCertName : string;
  fl_metricsCertKey : string;
  fl_enableHTTP2 : bool
}.

(** The flags before the command line is parsed. *)
Definition defaultFlags (env : string → string) : Flags := {|
  fl_operatorNamespace := envOr env "OPERATOR_NAMESPACE" "nfsz-system";
  fl_ganeshaImage := envOr env "GANESHA_IMAGE" "ghcr.io/rybo/nfsz-ganesha:latest";
  fl_backupImage := envOr env "BACKUP_IMAGE" "ghcr.io/rybo/nfsz-backup:latest";
  fl_allowCIDRs := envOr env "ALLOW_CIDRS" "";
  fl_metricsAddr := "0";
  fl_probeAddr := ":8081";
  fl_enableLeaderElection := false;
  fl_secureMetrics := true;
  fl_webhookCertPath := "";
  fl_webhookCertName := "tls.crt";
  fl_webhookCertKey := "tls.key";
  fl_metricsCertPath := "";
  fl_metricsCertName := "tls.crt";
  fl_metricsCertKey := "tls.key";
  fl_enableHTTP2 := false
|}.

(** * Server options *)

(** [tls.Config], as far as the options set it, and the option functions. *)
Record TLSConfig := MkTLSConfig { NextProtos : list string }.

Definition disableHTTP2 (c : TLSConfig) : TLSConfig := MkTLSConfig ["http/1.1"].

(** [webhook.Options] and [metricsserver.Options]; [FilterProvider] tells whether
    the authentication filter is installed. *)
Record WebhookOptions := MkWebhookOptions {
  wh_TLSOpts : list (TLSConfig → TLSConfig);
  wh_CertDir : string;
  wh_CertName : string;
  wh_KeyName : string
}.

Record MetricsOptions := MkMetricsOptions {
  ms_BindAddress : string;
  ms_SecureServing : bool;
  ms_TLSOpts : list (TLSConfig → TLSConfig);
  ms_FilterProvider : bool;
  ms_CertDir : string;
  ms_CertName : string;
  ms_KeyName : string
}.

Record ManagerOptions := MkManagerOptions {
  mo_Metrics : MetricsOptions;
  mo_WebhookServer : WebhookOptions;
  mo_HealthProbeBindAddress : string;
  mo_LeaderElection : bool;
  mo_LeaderElectionID : string
}.

Definition tlsOpts (fl : Flags) : list (TLSConfig → TLSConfig) :=
  if negb (fl_enableHTTP2 fl) then [disableHTTP2] else [].

Definition webhookServerOptions (fl : Flags) : WebhookOptions :=
  if (0 <? String.length (fl_webhookCertPath fl))%nat
  then MkWebhookOptions (tlsOpts fl) (fl_webhookCertPath fl) (fl_webhookCertName fl) (fl_webhookCertKey fl)
  else MkWebhookOptions (tlsOpts fl) "" "" "".

Definition metricsServerOptions (fl : Flags) : MetricsOptions :=
  let filter := fl_secureMetrics fl in
  if (0 <? String.length (fl_metricsCertPath fl))%nat
  then MkMetricsOptions (fl_metricsAddr fl) (fl_secureMetrics fl) (tlsOpts fl) filter
         (fl_metricsCertPath fl) (fl_metricsCertName fl) (fl_metricsCertKey fl)
  else MkMetricsOptions (fl_metricsAddr fl) (fl_secureMetrics fl) (tlsOpts fl) filter "" "" "".

Definition managerOptions (fl : Flags) : ManagerOptions :=
  MkManagerOptions (metricsServerOptions fl) (webhookServerOptions fl) (fl_probeAddr fl)
    (fl_enableLeaderElection fl) "8d61f1dc.nfsz.dev".

(** The reconciler [main] registers. *)
Definition reconcilerOf (fl : Flags) : SharedVolumeReconciler :=
  MkReconciler (fl_operatorNamespace fl) (fl_ganeshaImage fl) (fl_backupImage fl)
    (splitNonEmpty (fl_allowCIDRs fl)).

(** The list [a,b,c] the flag is written as. *)
Fixpoint joinComma (items : list string) : string :=
  match items with
  | [] => ""
  | [w] => w
  | w :: ws => w +:+ String comma (joinComma ws)
  end.

(** An item as the flag means it: not empty, no comma, no space around it. *)
Definition cleanItem (s : string) : Prop :=
  s ≠ "" ∧ comma ∉ String.list_ascii_of_string s ∧ TrimSpace s = s.

Definition applyTLS (opts : list (TLSConfig → TLSConfig)) (c : TLSConfig) : TLSConfig :=
  foldl (λ c f, f c) c opts.

Example TrimSpace_example : TrimSpace ("  10.0.0.0/8" +:+ byteString [194; 160; 9]%nat) = "10.0.0.0/8".
Proof. vm_compute. reflexivity. Qed.
Example splitNonEmpty_example : splitNonEmpty " 10.0.0.0/8, ,fd00::/8 ,," = ["10.0.0.0/8"; "fd00::/8"].
Proof. vm_compute. reflexivity. Qed.

(** * Trimming *)

Lemma cutPrefix_Some p s s' : cutPrefix p s = Some s' ↔ s = p +:+ s'.
Proof.
  revert s. induction p as [|a p IH]; intros s; simpl; [by split; [intros [= ->]|intros ->]|].
  destruct s as [|b s]; [by split; [|rewrite string_app_cons]|]. rewrite string_app_cons.
  destruct (Ascii.eqb_spec a b) as [->|Hne]; [rewrite IH; by split; [intros ->|intros [= ->]]|].
  split; [done|]. intros [= -> _]. done.
Qed.

Lemma cutSpace_Some codes s s' : cutSpace codes s = Some s' → ∃ code, code ∈ codes ∧ s = code +:+ s'.
Proof.
  induction codes as [|code codes IH]; [done|]. simpl. destruct (cutPrefix code s) as [s1|] eqn:E.
  - intros [= ->]. exists code. split; [by left|by apply cutPrefix_Some].
  - intros (code' & ? & ?)%IH. exists code'. split; [by right|done].
Qed.

Lemma cutSpace_None codes s : cutSpace codes s = None ↔ ∀ code s', code ∈ codes → s ≠ code +:+ s'.
Proof.
  induction codes as [|code codes IH]; simpl; [split; [by intros _ ? ? ?%elem_of_nil|done]|].
  destruct (cutPrefix code s) as [s1|] eqn:E.
  - apply cutPrefix_Some in E. split; [done|]. intros Hall. by destruct (Hall code s1); [left|].
  - rewrite IH. split; [|intros Hall code' s' ?; apply Hall; by right].
    intros Hall code' s' [->|?]%elem_of_cons Hs; [|by eapply Hall]. by apply cutPrefix_Some in Hs; congruence.
Qed.

Lemma trimLeftFuel_spec codes fuel s :
  Forall (λ c, c ≠ "") codes → (String.length s ≤ fuel)%nat →
  cutSpace codes (trimLeftFuel codes fuel s) = None ∧ ∃ x, s = x +:+ trimLeftFuel codes fuel s.
Proof.
  intros Hc. revert s. induction fuel as [|fuel IH]; intros s Hf; simpl.
  { assert (s = "") as -> by (destruct s; [done|simpl in Hf; lia]). split; [|by exists ""].
    apply cutSpace_None. intros code s' Hin Hs. rewrite Forall_forall in Hc. apply (Hc code Hin).
    destruct code; [done|by rewrite string_app_cons in Hs]. }
  destruct (cutSpace codes s) as [s'|] eqn:E; [|split; [done|by exists ""]].
  apply cutSpace_Some in E as (code & Hin & ->). rewrite Forall_forall in Hc. pose proof (Hc code Hin) as Hne.
  rewrite string_app_length in Hf. destruct (IH s') as [Hn [x Hx]].
  { destruct code; [done|]. simpl in Hf. lia. }
  split; [done|]. exists (code +:+ x). rewrite string_app_assoc. by rewrite <- Hx.
Qed.

Lemma trimLeft_stable codes s : cutSpace codes s = None → trimLeft codes s = s.
Proof. intros Hn. unfold trimLeft. destruct (String.length s); simpl; [done|by rewrite Hn]. Qed.

Lemma reverse_app s1 s2 : reverse (s1 +:+ s2) = reverse s2 +:+ reverse s1.
Proof.
  induction s1 as [|a s1 IH]; [by rewrite string_app_nil_l, string_app_nil_r|].
  rewrite string_app_cons. simpl. by rewrite IH, string_app_assoc.
Qed.

Lemma reverse_involutive s : reverse (reverse s) = s.
Proof. induction s as [|a s IH]; [done|]. simpl. rewrite reverse_app, IH. done. Qed.

Lemma spaceCodes_nonempty : Forall (λ c, c ≠ "") spaceCodes ∧ Forall (λ c, c ≠ "") (map reverse spaceCodes).
Proof. split; repeat constructor; by intros [=]. Qed.

(** What trimming leaves: a middle part of the string, with no space at its ends. *)
Lemma TrimSpace_spec s :
  (∃ x y, s = x +:+ TrimSpace s +:+ y) ∧ TrimSpace (TrimSpace s) = TrimSpace s.
Proof.
  destruct spaceCodes_nonempty as [Hc Hr]. unfold TrimSpace.
  destruct (trimLeftFuel_spec spaceCodes (String.length s) s Hc) as [Hn [x Hx]]; [done|].
  fold (trimLeft spaceCodes s) in Hn, Hx. set (t := trimLeft spaceCodes s) in *.
  destruct (trimLeftFuel_spec (map reverse spaceCodes) (String.length (reverse t)) (reverse t) Hr)
    as [Hn' [y Hy]]; [done|].
  fold (trimLeft (map reverse spaceCodes) (reverse t)) in Hn', Hy.
  set (u := trimLeft (map reverse spaceCodes) (reverse t)) in *.
  assert (t = reverse u +:+ reverse y) as Ht.
  { by rewrite <- reverse_app, <- Hy, reverse_involutive. }
  split; [exists x, (reverse y); by rewrite <- Ht|].
  rewrite (trimLeft_stable spaceCodes), reverse_involutive; [by rewrite trimLeft_stable|].
  apply cutSpace_None. intros code s' Hin Hs. rewrite cutSpace_None in Hn.
  apply (Hn code (s' +:+ reverse y) Hin). by rewrite Ht, Hs, string_app_assoc.
Qed.

(** * Splitting *)

Lemma list_ascii_app s1 s2 :
  String.list_ascii_of_string (s1 +:+ s2) = String.list_ascii_of_string s1 ++ String.list_ascii_of_string s2.
Proof. induction s1 as [|a s1 IH]; [done|]. rewrite string_app_cons. simpl. by rewrite IH. Qed.

Lemma splitSeq_pieces sep s : Forall (λ w, sep ∉ String.list_ascii_of_string w) (splitSeq sep s).
Proof.
  induction s as [|c s IH]; simpl; [repeat constructor; apply not_elem_of_nil|].
  destruct (Ascii.eqb_spec c sep) as [->|Hne]; [constructor; [apply not_elem_of_nil|done]|].
  destruct IH as [|w ws Hw Hws].
  - constructor; [|constructor]. simpl. rewrite elem_of_cons. intros [->|?%elem_of_nil]; done.
  - constructor; [|done]. simpl. rewrite elem_of_cons. intros [->|?]; done.
Qed.

Lemma splitSeq_ne sep s : splitSeq sep s ≠ [].
Proof. destruct s as [|c s]; simpl; [done|]. destruct (Ascii.eqb c sep); [done|]. by destruct (splitSeq sep s). Qed.

Lemma splitSeq_app sep w s :
  sep ∉ String.list_ascii_of_string w → splitSeq sep (w +:+ String sep s) = w :: splitSeq sep s.
Proof.
  induction w as [|c w IH]; intros Hw.
  { rewrite string_app_nil_l. simpl. by rewrite Ascii.eqb_refl. }
  rewrite string_app_cons. cbn [splitSeq]. simpl in Hw. rewrite elem_of_cons in Hw.
  destruct (Ascii.eqb_spec c sep) as [->|Hne]; [tauto|]. rewrite IH by tauto. done.
Qed.

Lemma splitSeq_one sep w : sep ∉ String.list_ascii_of_string w → splitSeq sep w = [w].
Proof.
  induction w as [|c w IH]; intros Hw; [done|]. cbn [splitSeq]. simpl in Hw. rewrite elem_of_cons in Hw.
  destruct (Ascii.eqb_spec c sep) as [->|Hne]; [tauto|]. rewrite IH by tauto. done.
Qed.

Lemma splitSeq_join items :
  items ≠ [] → Forall (λ w, comma ∉ String.list_ascii_of_string w) items →
  splitSeq comma (joinComma items) = items.
Proof.
  induction items as [|w [|w' ws] IH]; intros Hne Hall; [done| |].
  - apply splitSeq_one. by apply Forall_inv in Hall.
  - cbn [joinComma]. apply Forall_cons in Hall as [Hw Hws].
    rewrite splitSeq_app by done. f_equal. by apply IH.
Qed.

(** * Properties *)

(** C36. The extra CIDRs of the NetworkPolicies are clean: every item that
    [splitNonEmpty] returns is not empty, holds no comma and has no space, ASCII
    or Unicode, at either end; and a list of clean items written with commas in
    between is read back as it is. *)
Theorem splitNonEmpty_clean :
  (∀ csv, Forall cleanItem (splitNonEmpty csv)) ∧
  (∀ items, Forall cleanItem items → splitNonEmpty (joinComma items) = items).
Proof.
  split.
  - intros csv. unfold splitNonEmpty. apply Forall_forall.
    intros w [Hne (s & -> & Hs)%list_elem_of_fmap]%list_elem_of_filter.
    pose proof (splitSeq_pieces comma csv) as Hp. rewrite Forall_forall in Hp. specialize (Hp s Hs).
    destruct (TrimSpace_spec s) as [(x & y & Hxy) Hidem]. split_and!; [done| |done].
    intros Hin. apply Hp. rewrite Hxy, !list_ascii_app. set_solver.
  - intros items Hall. unfold splitNonEmpty. destruct items as [|w ws]; [done|].
    rewrite splitSeq_join; [|done|by eapply Forall_impl; [exact Hall|intros ? (_ & ? & _)]].
    induction Hall as [|w' ws' (Hne & _ & Ht) _ IH]; [done|]. cbn [map]. rewrite Ht.
    rewrite filter_cons_True by done. by rewrite IH.
Qed.

(** The servers' options follow the flags. *)
Lemma manager_options (fl : Flags) (c : TLSConfig) :
  let m := mo_Metrics (managerOptions fl) in
  let w := mo_WebhookServer (managerOptions fl) in
  applyTLS (ms_TLSOpts m) c = applyTLS (wh_TLSOpts w) c ∧
  applyTLS (ms_TLSOpts m) c = (if fl_enableHTTP2 fl then c else MkTLSConfig ["http/1.1"]) ∧
  ms_FilterProvider m = ms_SecureServing m ∧
  ms_CertDir m = fl_metricsCertPath fl ∧ wh_CertDir w = fl_webhookCertPath fl ∧
  (let fl0 := defaultFlags (λ _, "") in
   OperatorNamespace (reconcilerOf fl0) = "nfsz-system" ∧ AllowCIDRs (reconcilerOf fl0) = [] ∧
   ms_SecureServing (mo_Metrics (managerOptions fl0)) = true ∧
   ms_BindAddress (mo_Metrics (managerOptions fl0)) = "0").
Proof.
  intros m w. subst m w. unfold managerOptions, metricsServerOptions, webhookServerOptions, tlsOpts.
  split_and!; [..|vm_compute; done];
    destruct (fl_metricsCertPath fl) eqn:?, (fl_webhookCertPath fl) eqn:?, (fl_enableHTTP2 fl); done.
Qed.
