(* ===== verification/Watches.v ===== *)
(** What wakes the controller: the registration of [SetupWithManager], and for each
    kind a reconcile reads or creates which events put the volume into the queue:
    those of objects it controls, but for the ConfigMap, of the volume itself, of
    namespaces it may target, and of nodes. *)
From S2P Require Import Prelude Kube V1alpha1 Client Resources Lib Server Logic Bindings NetPolicy BackupJob Reconcile Footprints MemCluster Samples Cmd.

(** * The registration *)

(** The two map functions handed to [EnqueueRequestsFromMapFunc]. *)
Inductive mapFunc : Set := MapNamespace | MapNode.

Record controllerBuild := MkController {
  For : kind;
  Owns : list kind;
  WatchesMap : list (kind * mapFunc);
  Named : string
}.

Definition SetupWithManager : controllerBuild := {|
  For := KSharedVolume;
  Owns := [KDeployment; KService; KPVC; KPV; KNetworkPolicy; KCronJob; KJob];
  WatchesMap := [(KNamespace, MapNamespace); (KNode, MapNode)];
  Named := "sharedvolume"
|}.

(** The kinds whose events reach the controller. *)
Definition watchedKinds (b : controllerBuild) : list kind := For b :: Owns b ++ map fst (WatchesMap b).

Definition mapFuncOf (b : controllerBuild) (k : kind) : option mapFunc :=
  (λ x, x.2.2) <$> list_find (λ w, w.1 = k) (WatchesMap b).

Section Enqueue.
Context `{Lib}.
(** [handler.EnqueueRequestForOwner] for the controller owner. *)
Context (forOwner : ObjectMeta → list NamespacedName).

(** The requests an event about [o] puts into the queue. *)
Definition enqueue (b : controllerBuild) (k : kind) (o : obj k) : prog (list NamespacedName) :=
  if decide (k = For b) then Ret [ObjectKey k o]
  else if decide (k ∈ Owns b) then Ret (forOwner (obj_meta k o))
  else match mapFuncOf b k with
       | Some MapNamespace => mapNamespace (obj_meta k o)
       | Some MapNode => mapNode
       | None => Ret []
       end.
End Enqueue.

(** The group of [schema.ParseGroupVersion]: what precedes the one slash. *)
Definition apiGroup (apiVersion : string) : option string :=
  match splitSeq (Ascii.ascii_of_nat 47) apiVersion with
  | [_] => Some ""
  | [group; _] => Some group
  | _ => None
  end.

(** The name of the SharedVolume that controls the object, of any version of the group. *)
Definition controllingVolume (m : ObjectMeta) : option string :=
  ref ← GetControllerOf (OwnerReferences m);
  if decide (apiGroup (or_APIVersion ref) = Some "nfsz.dev" ∧ or_Kind ref = "SharedVolume")
  then Some (or_Name ref) else None.

(** The handler that [Owns] registers enqueues the controlling volume and nothing
    else. *)
Definition owner_handler (forOwner : ObjectMeta → list NamespacedName) : Prop :=
  ∀ m n, n ∈ forOwner m ↔ ∃ name, controllingVolume m = Some name ∧ n = MkNN "" name.

(** Such a handler, as the witness runs it. *)
Definition sampleForOwner (m : ObjectMeta) : list NamespacedName :=
  match controllingVolume m with Some name => [MkNN "" name] | None => [] end.

(** A PVC of a user's at the key of the volume's consumer PVC. *)
Definition usersPVC : PersistentVolumeClaim :=
  let pvc := BuildConsumerPVC (sampleVolume ReclaimDelete None) "team-a" in
  MkPVC (objectMeta (Name (pvc_ObjectMeta pvc)) "team-a" None) (pvc_Spec pvc) "".

(** * Whatever is created is controlled by the volume *)

Definition controlledBy (n : string) (m : ObjectMeta) : Prop := controllingVolume m = Some n.

Definition createsFor (n : string) (c : call) : Prop :=
  match c with
  | CCreate k o => controlledBy n (obj_meta k o)
  | _ => True
  end.

(** [keeps n p Q]: what [p] creates is controlled by the volume [n], and its
    result satisfies [Q]. *)
Definition keeps {A} (n : string) (p : prog (outcome A)) (Q : A → Prop) : Prop :=
  wp (λ (_ : unit) c, createsFor n c) (λ _ c a _, sv_stable c a) p
    (λ _ res, ∀ a, res = Ok a → Q a) tt.

Lemma wp_unit_events {S A} (srv : server S) (C : call → Prop) rely (p : prog A) Q s :
  (∀ s c, rely c (srv s c).1) →
  wp (λ (_ : unit) c, C c) (λ _ c a _, rely c a) p Q tt → events_in C (trace_of (run srv p s)).
Proof.
  intros Hr. revert s. induction p as [a|c k IH]; intros s; [constructor|].
  intros [Hc Hk]. cbn [run]. pose proof (Hr s c) as Ha. destruct (srv s c) as [a s1].
  specialize (IH a s1 (Hk a tt Ha)). destruct (run srv (k a) s1) as [[tr s2] b]. by constructor.
Qed.

Section Rules.
Context {n : string}.

Lemma keeps_ok {A} (a : A) (Q : A → Prop) : Q a → keeps n (Ret (Ok a)) Q.
Proof. intros HQ. apply wp_ret. by intros ? [= <-]. Qed.

Lemma keeps_err {A} e (Q : A → Prop) : keeps n (Ret (Err e)) Q.
Proof. by apply wp_ret. Qed.

Lemma keeps_panic {A} (Q : A → Prop) : keeps n (Ret Panic) Q.
Proof. by apply wp_ret. Qed.

Lemma keeps_mono {A} (p : prog (outcome A)) (Q Q' : A → Prop) :
  (∀ a, Q a → Q' a) → keeps n p Q → keeps n p Q'.
Proof. intros HQ. apply wp_mono. auto. Qed.

Lemma keeps_bind {A B} (p : prog A) (f : A → prog (outcome B)) Q1 (Q2 : B → Prop) :
  wp (λ (_ : unit) c, createsFor n c) (λ _ c a _, sv_stable c a) p (λ _ a, Q1 a) tt →
  (∀ a, Q1 a → keeps n (f a) Q2) → keeps n (p ≫= f) Q2.
Proof. intros Hp Hf. apply wp_bind. eapply wp_mono; [|exact Hp]. intros [] a. apply Hf. Qed.

Lemma keeps_bindE {A B} (p : prog (outcome A)) (f : A → prog (outcome B)) (Q1 : A → Prop) (Q2 : B → Prop) :
  keeps n p Q1 → (∀ a, Q1 a → keeps n (f a) Q2) → keeps n (bindE p f) Q2.
Proof.
  intros Hp Hf. eapply keeps_bind; [exact Hp|]. intros [a|e|] Ha; [by apply Hf, Ha|by apply keeps_err|by apply keeps_panic].
Qed.

Lemma keeps_call {A} c (f : resp c → prog (outcome A)) (Q : A → Prop) :
  createsFor n c → (∀ a, sv_stable c a → keeps n (f a) Q) → keeps n (trigger c ≫= f) Q.
Proof. intros Hc Hf. apply (keeps_bind _ _ (λ a, sv_stable c a)); [|exact Hf]. apply wp_trigger; [done|]. auto. Qed.

Lemma keeps_orPanic {A B} (o : option A) (f : A → prog (outcome B)) (Q : B → Prop) :
  (∀ a, keeps n (f a) Q) → keeps n (orPanic o f) Q.
Proof. intros Hf. destruct o; [apply Hf|apply keeps_panic]. Qed.

(** A part that creates nothing, by its footprint. *)
Lemma keeps_footprint {A} (C : call → Prop) (p : prog (outcome A)) :
  footprint C p → (∀ c, C c → createsFor n c) → keeps n p (λ _, True).
Proof.
  intros Hf HC. induction p as [a|c k IH]; [by apply wp_ret|].
  destruct Hf as [Hc Hk]. split; [by apply HC|]. intros a [] _. apply IH, (Hk a tt). done.
Qed.
End Rules.

Lemma no_creation {A} n sigs (p : prog (outcome A)) :
  forallb (λ vk, negb (bool_decide (vk.1 = VCreate))) sigs = true →
  footprint (λ c, within sigs c = true) p → keeps n p (λ _, True).
Proof.
  intros Hs Hf. apply (keeps_footprint _ _ Hf). intros c Hc. destruct c; try done.
  unfold within in Hc. apply bool_decide_eq_true in Hc. rewrite forallb_forall in Hs.
  specialize (Hs _ (proj1 (list_elem_of_In _ _) Hc)). done.
Qed.

Ltac keeps_step :=
  lazymatch goal with
  | |- keeps _ (Ret (Ok _)) _ => apply keeps_ok
  | |- keeps _ (Ret (Err _)) _ => apply keeps_err
  | |- keeps _ (Ret Panic) _ => apply keeps_panic
  | |- keeps _ (mbind _ (Get _ _)) _ => apply keeps_call; [exact I|intros ? ?]
  | |- keeps _ (mbind _ (ListObjs _ _)) _ => apply keeps_call; [exact I|intros ? ?]
  | |- keeps _ (mbind _ (Eventf _ _ _ _ _)) _ => apply keeps_call; [exact I|intros ? ?]
  | |- keeps _ (mbind _ Now) _ => apply keeps_call; [exact I|intros ? ?]
  | |- keeps _ (mbind _ (Update _ _)) _ => apply keeps_call; [exact I|intros ? ?]
  | |- keeps _ (mbind _ (StatusUpdate _)) _ => apply keeps_call; [exact I|intros ? ?]
  | |- keeps _ (mbind _ (Delete _ _ _)) _ => apply keeps_call; [exact I|intros ? ?]
  | |- keeps _ (orPanic _ _) _ => apply keeps_orPanic; intros ?
  | |- keeps _ (match ?x with _ => _ end) _ => destruct x eqn:?
  | |- keeps _ _ _ => progress cbn beta iota zeta
  end.
Ltac keeps_auto := repeat keeps_step.

Section Components.
Context `{Lib} {L : LibLaws} (r : SharedVolumeReconciler) (n : string).
Local Open Scope go_scope.
Implicit Types (sv : SharedVolume).

Lemma createOwned_keeps k sv (o : obj k) : sv_Name sv = n → keeps n (createOwned k sv o) (λ _, True).
Proof.
  intros Hn. unfold createOwned. destruct (SetControllerReference _ _) as [err|refs] eqn:Hr; [apply keeps_err|].
  apply keeps_call; [|intros a _; by keeps_auto].
  destruct (SetControllerReference_controller _ _ _ Hr) as (ref & Hc & Hv & Hk & Hname).
  unfold createsFor, controlledBy, controllingVolume.
  replace (OwnerReferences (obj_meta k (obj_SetOwnerReferences k refs o))) with refs by (by destruct k).
  rewrite Hc. cbn [mbind option_bind]. rewrite Hv, Hk, Hname, decide_True by done. by rewrite Hn.
Qed.

Lemma createIfMissing_keeps k sv (o : obj k) : sv_Name sv = n → keeps n (createIfMissing k sv o) (λ _, True).
Proof.
  intros Hn. unfold createIfMissing. keeps_auto; [|done].
  eapply keeps_bindE; [by apply createOwned_keeps|]. intros ? _. by apply keeps_ok.
Qed.

Lemma UpdateE_keeps k (o : obj k) : keeps n (UpdateE k o) (λ _, True).
Proof. unfold UpdateE. by keeps_auto. Qed.

Abbreviation named := (λ sv, sv_Name sv = n).

Lemma ensureFinalizer_keeps sv : named sv → keeps n (ensureFinalizer sv) named.
Proof.
  intros Hn. unfold ensureFinalizer, UpdateE. destruct (AddFinalizer _ _) as [fs []]; [|by apply keeps_ok].
  apply keeps_call; [exact I|]. intros [err|sv'] Hst; [apply keeps_err|]. apply keeps_ok.
  by rewrite (sv_Name_core _ _ (Hst sv' eq_refl)).
Qed.

Lemma setRestored_keeps {A} sv st reason msg (f : SharedVolume * bool → prog (outcome A)) (Q : A → Prop) :
  named sv → (∀ sv' b, named sv' → keeps n (f (sv', b)) Q) →
  keeps n (setRestoredCondition sv st reason msg ≫= f) Q.
Proof.
  intros Hn Hf. apply (keeps_bind _ _ (λ x, named x.1)); [|by intros [sv' b]; apply Hf].
  unfold setRestoredCondition. apply wp_bind, wp_trigger; [exact I|]. intros now [] _.
  destruct (SetStatusCondition _ _ _). by apply wp_ret.
Qed.

Lemma reconcileSeed_keeps sv : named sv → keeps n (reconcileSeed r sv) (λ x, named x.2).
Proof.
  intros Hn. unfold reconcileSeed. keeps_auto; try done; try (apply setRestored_keeps; [done|]; intros sv' b Hb; by keeps_auto).
  eapply keeps_bindE; [by apply createOwned_keeps|]. intros ? _.
  apply setRestored_keeps; [done|]. intros sv' b Hb. by apply keeps_ok.
Qed.

Lemma reconcileServer_keeps sv : named sv → keeps n (reconcileServer r sv) (λ x, named x.2).
Proof.
  intros Hn. unfold reconcileServer. eapply keeps_bindE; [by apply createIfMissing_keeps|]. intros ? _.
  eapply (keeps_bindE _ _ (λ _, True)).
  { unfold ensureConfigMap. keeps_auto; try done; [by apply (createOwned_keeps KConfigMap)|].
    eapply keeps_bindE; [apply (UpdateE_keeps KConfigMap)|]. intros ? _. by apply keeps_ok. }
  intros cm _. eapply keeps_bindE; [by apply reconcileSeed_keeps|]. intros [seeded sv'] Hn'.
  eapply (keeps_bindE _ _ (λ _, True)).
  { destruct seeded; [|by apply keeps_ok]. unfold ensureDeployment. apply keeps_call; [exact I|]. intros answer _.
    eapply (keeps_bindE _ _ (λ _, True)); [|intros ? _; by apply keeps_ok].
    keeps_auto; try done; [by apply (createOwned_keeps KDeployment)|apply (UpdateE_keeps KDeployment)]. }
  intros ready _. eapply (keeps_bindE _ _ (λ _, True)); [|intros ip _; by apply keeps_ok].
  unfold ensureService. keeps_auto; try done.
  eapply keeps_bindE; [by apply (createOwned_keeps KService)|]. intros ? _. by keeps_auto.
Qed.

Lemma reconcileBinding_keeps sv ns ip : named sv → keeps n (reconcileBinding sv ns ip) (λ _, True).
Proof.
  intros Hn. unfold reconcileBinding. eapply (keeps_bindE _ _ (λ _, True)).
  { unfold ensurePV. keeps_auto; try done; (eapply keeps_bindE; [|intros ? _; by apply keeps_ok]);
      [by apply (createOwned_keeps KPV)|apply (UpdateE_keeps KPV)]. }
  intros ? _. keeps_auto; try done. eapply keeps_bindE; [by apply (createOwned_keeps KPVC)|].
  intros ? _. by apply keeps_ok.
Qed.

Lemma ensureBindings_keeps sv targets ip : named sv → keeps n (ensureBindings sv targets ip) (λ _, True).
Proof.
  intros Hn. unfold ensureBindings. case_decide; [|by apply keeps_ok].
  eapply (keeps_bindE _ _ (λ _, True)).
  - induction targets as [|ns targets IH]; cbn [reconcileBindings]; [by apply keeps_ok|].
    eapply keeps_bindE; [by apply reconcileBinding_keeps|]. intros ? _.
    eapply keeps_bindE; [exact IH|]. intros ? _. by apply keeps_ok.
  - intros bs _. eapply keeps_bindE; [eapply no_creation; [|apply cleanupStaleBindings_fp]; reflexivity|].
    intros ? _. by apply keeps_ok.
Qed.

Lemma reconcileNetworkPolicy_keeps sv targets : named sv → keeps n (reconcileNetworkPolicy r sv targets) (λ _, True).
Proof.
  intros Hn. assert (keeps n nodeIPs (λ _, True)) as Hips by (unfold nodeIPs; by keeps_auto).
  unfold reconcileNetworkPolicy. keeps_auto; try done.
  - eapply keeps_bindE; [exact Hips|]. intros ips _.
    eapply keeps_bindE; [by apply (createOwned_keeps KNetworkPolicy)|]. intros ? _. by apply keeps_ok.
  - unfold DeleteIgnoreNotFound. by keeps_auto.
  - eapply keeps_bindE; [exact Hips|]. intros ips _. keeps_auto; [|done].
    eapply keeps_bindE; [apply (UpdateE_keeps KNetworkPolicy)|]. intros ? _. by apply keeps_ok.
Qed.

Lemma reconcileBackup_keeps sv : named sv → keeps n (reconcileBackup r sv) named.
Proof.
  intros Hn. unfold reconcileBackup. keeps_auto; try done.
  - eapply keeps_bindE; [by apply (createOwned_keeps KCronJob)|]. intros ? _. by apply keeps_ok.
  - eapply (keeps_bindE _ _ (λ _, True)); [|intros ? _; by apply keeps_ok].
    keeps_auto; [apply (UpdateE_keeps KCronJob)|done].
  - eapply (keeps_bindE _ _ (λ _, True)); [|intros ? _; by apply keeps_ok].
    unfold DeleteIgnoreNotFound. by keeps_auto.
Qed.

Lemma reconcileLive_keeps sv : named sv → keeps n (reconcileLive r sv) (λ _, True).
Proof.
  intros Hn. unfold reconcileLive. eapply keeps_bindE; [by apply ensureFinalizer_keeps|]. intros sv1 Hn1.
  eapply keeps_bindE; [by apply reconcileServer_keeps|]. intros [[ip ready] sv2] Hn2. simpl in Hn2.
  eapply keeps_bindE; [eapply no_creation; [|apply targetNamespaces_fp]; reflexivity|]. intros targets _.
  eapply keeps_bindE; [by apply ensureBindings_keeps|]. intros bs _.
  eapply keeps_bindE; [by apply reconcileNetworkPolicy_keeps|]. intros ? _.
  eapply keeps_bindE; [by apply reconcileBackup_keeps|]. intros sv3 Hn3.
  apply (keeps_bind _ _ (λ _, True)); [|intros [sv'|e|] _; by keeps_auto].
  eapply wp_mono; [|eapply (no_creation n); [|apply updateStatus_fp]; reflexivity]. done.
Qed.
End Components.

Lemma Reconcile_keeps `{Lib} {L : LibLaws} r req : keeps (nn_Name req) (Reconcile r req) (λ _, True).
Proof.
  unfold Reconcile. apply keeps_call; [exact I|]. intros [err|sv] Hst; [keeps_auto; done|].
  specialize (Hst sv eq_refl). destruct (negb _); [|by apply reconcileLive_keeps].
  eapply no_creation; [|apply reconcileDelete_fp]. reflexivity.
Qed.

(** * Property *)

(** The kinds of the objects a call reads. *)
Definition reads (c : call) : option kind :=
  match c with
  | CGet k _ | CList k _ => Some k
  | _ => None
  end.

Lemma reads_watched : forallb (λ vk, bool_decide (vk.1 ∉ [VGet; VList])
  || bool_decide (vk.2 ∈ watchedKinds SetupWithManager ++ [KConfigMap])) reconcile_sigs = true.
Proof. vm_compute. reflexivity. Qed.

Lemma creates_owned : forallb (λ vk, negb (bool_decide (vk.1 = VCreate))
  || bool_decide (vk.2 ∈ Owns SetupWithManager ++ [KConfigMap])) reconcile_sigs = true.
Proof. vm_compute. reflexivity. Qed.

Lemma read_watched c k :
  within reconcile_sigs c = true → reads c = Some k → k ∈ watchedKinds SetupWithManager ∨ k = KConfigMap.
Proof.
  intros Hw Hk. unfold within in Hw. apply bool_decide_eq_true in Hw.
  pose proof reads_watched as Hr. rewrite forallb_forall in Hr.
  specialize (Hr _ (proj1 (list_elem_of_In _ _) Hw)). apply orb_true_iff in Hr as [Hr|Hr].
  - apply bool_decide_eq_true in Hr. destruct Hr. destruct c; simplify_eq/=; set_solver.
  - apply bool_decide_eq_true in Hr. rewrite elem_of_app, list_elem_of_singleton in Hr.
    destruct c; simplify_eq/=; done.
Qed.

Lemma created_owned k (o : obj k) :
  within reconcile_sigs (CCreate k o) = true → k ≠ KConfigMap → k ∈ Owns SetupWithManager.
Proof.
  intros Hw Hk. unfold within in Hw. apply bool_decide_eq_true in Hw.
  pose proof creates_owned as Hr. rewrite forallb_forall in Hr.
  specialize (Hr _ (proj1 (list_elem_of_In _ _) Hw)). apply orb_true_iff in Hr as [Hr|Hr]; [done|].
  apply bool_decide_eq_true in Hr. rewrite elem_of_app, list_elem_of_singleton in Hr. by destruct Hr.
Qed.

(** An event about an object of an owned kind goes through the owner handler. *)
Lemma woken_owned `{Lib} {S} (srv : server S) forOwner s k (o : obj k) n :
  owner_handler forOwner → k ∈ Owns SetupWithManager →
  n ∈ result_of (run srv (enqueue forOwner SetupWithManager k o) s) ↔
  ∃ name, controllingVolume (obj_meta k o) = Some name ∧ n = MkNN "" name.
Proof.
  intros Ho Hin. unfold enqueue. rewrite decide_False by (intros ->; clear -Hin; cbn in Hin; set_solver).
  rewrite decide_True by exact Hin. apply Ho.
Qed.

Lemma controllingVolume_iff (m : ObjectMeta) (n : NamespacedName) :
  (∃ name, controllingVolume m = Some name ∧ n = MkNN "" name) ↔
  ∃ ref, GetControllerOf (OwnerReferences m) = Some ref ∧
    apiGroup (or_APIVersion ref) = Some "nfsz.dev" ∧ or_Kind ref = "SharedVolume" ∧ n = MkNN "" (or_Name ref).
Proof.
  unfold controllingVolume. destruct (GetControllerOf (OwnerReferences m)) as [ref|]; cbn [mbind option_bind].
  2: { split; [by intros (? & ? & ?)|by intros (? & ? & ?)]. }
  case_decide as Hd.
  - destruct Hd as [Hg Hk]. split; [intros (name & [= <-] & ->); by exists ref|].
    intros (ref' & [= <-] & _ & _ & ->). eauto.
  - split; [by intros (? & ? & ?)|]. intros (ref' & [= <-] & ? & ? & _). by destruct Hd.
Qed.

(** C39. Which events wake a volume, for a reconcile against a server that keeps a
    volume's name and spec stable.  Every kind a reconcile reads is registered
    with the controller, or is the ConfigMap, whose events enqueue nothing.  An
    object it creates, other than the ConfigMap, is of an owned kind, and every
    event about a version of it that kept its owners enqueues the volume of the
    request.  Among the objects of the owned kinds only those that a SharedVolume
    controls wake anything, and they wake that volume alone: what the reconcile
    reads but does not control, such as a user's PVC in the place of a consumer
    PVC, enqueues nothing.  An event about a volume enqueues that volume, one about
    a namespace the listed volumes that could match it, and one about a node every
    volume listed. *)
Theorem events_enqueue `{Lib} {L : LibLaws} {S S'} (srv : server S) (srv' : server S') forOwner r req s s'
    (Howner : owner_handler forOwner) (Hsrv : ∀ s c, sv_stable c (srv s c).1) :
  let tr := trace_of (run srv (Reconcile r req) s) in
  let woken k o := result_of (run srv' (enqueue forOwner SetupWithManager k o) s') in
  (∀ e k, e ∈ tr → reads (ev_call e) = Some k → k ∈ watchedKinds SetupWithManager ∨ k = KConfigMap) ∧
  (∀ cm, woken KConfigMap cm = []) ∧
  (∀ k o a o', Ev (CCreate k o) a ∈ tr → k ≠ KConfigMap →
     OwnerReferences (obj_meta k o') = OwnerReferences (obj_meta k o) → MkNN "" (nn_Name req) ∈ woken k o') ∧
  (∀ k o n, k ∈ Owns SetupWithManager →
     n ∈ woken k o ↔ ∃ ref, GetControllerOf (OwnerReferences (obj_meta k o)) = Some ref ∧
       apiGroup (or_APIVersion ref) = Some "nfsz.dev" ∧ or_Kind ref = "SharedVolume" ∧ n = MkNN "" (or_Name ref)) ∧
  (∀ sv, woken KSharedVolume sv = [ObjectKey KSharedVolume sv]) ∧
  (∀ svs, (srv' s' (CList KSharedVolume AllObjects)).1 = inr svs →
     (∀ ns, woken KNamespace ns =
        map requestFor (filter (λ sv, namespaceCouldMatch sv (ns_ObjectMeta ns) = true) svs)) ∧
     (∀ node, woken KNode node = map requestFor svs)).
Proof.
  intros tr woken.
  assert (events_in (λ c, within reconcile_sigs c = true) tr) as Hfp by apply run_footprint, Reconcile_fp.
  assert (events_in (createsFor (nn_Name req)) tr) as Hcreates.
  { eapply (wp_unit_events srv _ sv_stable); [exact Hsrv|]. apply Reconcile_keeps. }
  unfold events_in in Hfp, Hcreates. rewrite Forall_forall in Hfp, Hcreates. split_and!.
  - intros e k He Hk. by eapply read_watched; [apply Hfp|].
  - done.
  - intros k o a o' He Hk Hrefs. pose proof (created_owned k o (Hfp _ He) Hk) as Hin.
    apply (proj2 (woken_owned srv' forOwner s' k o' _ Howner Hin)). exists (nn_Name req). split; [|done].
    pose proof (Hcreates _ He) as Hc. simpl in Hc. unfold controlledBy, controllingVolume in *. by rewrite Hrefs.
  - intros k o n Hin. etransitivity; [exact (woken_owned srv' forOwner s' k o n Howner Hin)|].
    apply controllingVolume_iff.
  - done.
  - intros svs Hsvs. split; [intros ns|intros node].
    + change (woken KNamespace ns) with (result_of (run srv' (mapNamespace (ns_ObjectMeta ns)) s')).
      unfold mapNamespace, ListObjs, trigger. simpl. destruct (srv' s' _) as [b s2]. simpl in Hsvs. by subst b.
    + change (woken KNode node) with (result_of (run srv' mapNode s')).
      unfold mapNode, ListObjs, trigger. simpl. destruct (srv' s' _) as [b s2]. simpl in Hsvs. by subst b.
Qed.

Lemma events_enqueue_witness :
  owner_handler sampleForOwner ∧ (∀ m c, sv_stable c (memServer m c).1) ∧
  length (filter (λ p, p.1 = VCreate) (writes_of (passRun seeding0))) = 10%nat ∧
  (∀ k o a o', Ev (CCreate k o) a ∈ trace_of (passRun seeding0) → k ≠ KConfigMap →
     OwnerReferences (obj_meta k o') = OwnerReferences (obj_meta k o) →
     MkNN "" "data" ∈ result_of (run memServer (enqueue sampleForOwner SetupWithManager k o') seeding0)) ∧
  ObjectKey KPVC usersPVC = MkNN "team-a" (ConsumerPVCName (sampleVolume ReclaimDelete None)) ∧
  (∀ n, n ∉ result_of (run memServer (enqueue sampleForOwner SetupWithManager KPVC usersPVC) seeding0)).
Proof.
  assert (owner_handler sampleForOwner) as Ho.
  { intros m n. unfold sampleForOwner. destruct (controllingVolume m) as [name|].
    - rewrite list_elem_of_singleton. split; [eauto|]. by intros (? & [= <-] & ->).
    - rewrite elem_of_nil. split; [done|]. by intros (? & ? & _). }
  split; [exact Ho|]. split; [exact memServer_stable|]. split; [vm_compute; reflexivity|].
  destruct (events_enqueue memServer memServer sampleForOwner sampleReconciler sampleRequest seeding0 seeding0
    Ho memServer_stable) as (_ & _ & Hc & Hown & _). split; [exact Hc|]. split; [reflexivity|].
  intros n Hn. apply (Hown KPVC) in Hn; [|by right; right; left].
  destruct Hn as (ref & Hctl & _). discriminate Hctl.
Defined.
