(* ===== verification/Startup.v ===== *)
(** The start of the operator: the scheme (api/v1alpha1/groupversion_info.go and the
    [init] functions) and [main] (cmd/main.go) as a sequence of calls that may fail,
    each with the code's own handling of its error. *)
From S2P Require Import Prelude Kube V1alpha1 Client Resources Lib Cmd.

(** * The scheme *)

Record GroupVersion := MkGroupVersion { gv_Group : string; gv_Version : string }.

#[export] Instance GroupVersion_eq_dec : EqDecision GroupVersion.
Proof. solve_decision. Defined.

Definition SchemeGroupVersion : GroupVersion := MkGroupVersion "nfsz.dev" "v1alpha1".

(** The types a scheme knows. *)
Abbreviation Scheme := (list (GroupVersion * string)).

(** [SchemeBuilder.Register(&SharedVolume{}, &SharedVolumeList{})] *)
Definition SchemeBuilder : list string := ["SharedVolume"; "SharedVolumeList"].

Definition AddToScheme (s : Scheme) : Scheme := s ++ map (pair SchemeGroupVersion) SchemeBuilder.

(** * The steps of the program *)

(** [GetConfig] is [ctrl.GetConfigOrDie], which logs the failure itself. *)
Inductive setupStep :=
| AddClientGoScheme
| AddNfszScheme
| GetConfig
| NewManager (scheme : Scheme) (opts : ManagerOptions)
| SetupController (r : SharedVolumeReconciler)
| AddHealthzCheck (name : string)
| AddReadyzCheck (name : string)
| StartManager.

Inductive exitStatus := Returned | Exit (code : Z) (msg : string) | Panicked.

(** A process: a call, whose answer says whether there was an error, and what the
    code does then; or its end. *)
Inductive process :=
| Done (st : exitStatus)
| Do (s : setupStep) (k : bool → process).

(** [utilruntime.Must(s)] *)
Definition must (s : setupStep) (next : process) : process :=
  Do s (λ err, if err then Done Panicked else next).

(** [if err := s; err != nil { setupLog.Error(err, msg); os.Exit(1) }] *)
Definition orExit (s : setupStep) (msg : string) (next : process) : process :=
  Do s (λ err, if err then Done (Exit 1 msg) else next).

(** [init] and [main]. *)
Definition main (clientgo : Scheme) (fl : Flags) : process :=
  must AddClientGoScheme
  (must AddNfszScheme
  (orExit GetConfig ""
  (orExit (NewManager (AddToScheme clientgo) (managerOptions fl)) "Failed to start manager"
  (orExit (SetupController (reconcilerOf fl)) "Failed to create controller"
  (orExit (AddHealthzCheck "healthz") "Failed to set up health check"
  (orExit (AddReadyzCheck "readyz") "Failed to set up ready check"
  (orExit StartManager "Failed to run manager"
  (Done Returned)))))))).

(** Run a process against an environment that says which calls fail: the calls
    made, and how the process ends. *)
Fixpoint runSetup (fails : setupStep → bool) (p : process) : list setupStep * exitStatus :=
  match p with
  | Done st => ([], st)
  | Do s k => let '(taken, st) := runSetup fails (k (fails s)) in (s :: taken, st)
  end.

(** * Lemmas *)

(** How a failure of the call ends the process. *)
Definition endsOn (s : setupStep) (st : exitStatus) : Prop :=
  match s with
  | AddClientGoScheme | AddNfszScheme => st = Panicked
  | _ => ∃ msg, st = Exit 1 msg
  end.

Section Setup.
Context (fails : setupStep → bool).

(** [p] makes the calls [steps] in order, ends with [Returned] after the last, and
    at the first that fails as [endsOn] says. *)
Definition stepwise (steps : list setupStep) (p : process) : Prop :=
  let '(taken, st) := runSetup fails p in
  (Forall (λ s, fails s = false) steps → taken = steps ∧ st = Returned) ∧
  (∀ pre s post, steps = pre ++ s :: post → Forall (λ s', fails s' = false) pre → fails s = true →
     taken = pre ++ [s] ∧ endsOn s st).

Lemma stepwise_done : stepwise [] (Done Returned).
Proof. split; [done|]. intros pre s post Heq. by destruct pre. Qed.

Lemma stepwise_do s st0 steps p :
  endsOn s st0 → stepwise steps p → stepwise (s :: steps) (Do s (λ err, if err then Done st0 else p)).
Proof.
  intros Hend. unfold stepwise. cbn [runSetup]. destruct (fails s) eqn:Hf.
  - intros _. cbn [runSetup]. split.
    + intros Hall. apply Forall_cons in Hall as [? _]. congruence.
    + intros [|s' pre] s1 post Heq Hpre Hs; injection Heq as <- _; [done|].
      apply Forall_cons in Hpre as [? _]. congruence.
  - destruct (runSetup fails p) as [taken st]. intros [Hall Hfirst]. split.
    + intros [_ Hrest]%Forall_cons. by destruct (Hall Hrest) as [-> ->].
    + intros [|s' pre] s1 post Heq Hpre Hs; injection Heq as <- Heq; [congruence|].
      apply Forall_cons in Hpre as [_ Hpre]. by destruct (Hfirst pre s1 post Heq Hpre Hs) as [-> ?].
Qed.
End Setup.

(** * Property *)

(** C37. The operator starts only when everything is in place.  When no call of
    [main] fails it makes, in this order, the two registrations of [init], the
    client configuration, the manager, the controller, the two probes and the
    start of the manager, and returns.  At the first call that fails, whichever
    it is, nothing further is called: a failed registration panics, every other
    failure exits with code 1.  The manager is built with a scheme that knows
    SharedVolume and with the options the flags ask for (HTTP/2 off unless
    enabled, on both servers; metrics authenticated exactly when served
    securely), the controller with the reconciler they configure. *)
Theorem main_starts (fails : setupStep → bool) clientgo fl tls :
  let scheme := AddToScheme clientgo in
  let opts := managerOptions fl in
  let steps := [AddClientGoScheme; AddNfszScheme; GetConfig; NewManager scheme opts;
                SetupController (reconcilerOf fl); AddHealthzCheck "healthz"; AddReadyzCheck "readyz";
                StartManager] in
  let '(taken, st) := runSetup fails (main clientgo fl) in
  (Forall (λ s, fails s = false) steps → taken = steps ∧ st = Returned) ∧
  (∀ pre s post, steps = pre ++ s :: post → Forall (λ s', fails s' = false) pre → fails s = true →
     taken = pre ++ [s] ∧
     match s with
     | AddClientGoScheme | AddNfszScheme => st = Panicked
     | _ => ∃ msg, st = Exit 1 msg
     end) ∧
  (SchemeGroupVersion, "SharedVolume") ∈ scheme ∧
  applyTLS (ms_TLSOpts (mo_Metrics opts)) tls = (if fl_enableHTTP2 fl then tls else MkTLSConfig ["http/1.1"]) ∧
  applyTLS (wh_TLSOpts (mo_WebhookServer opts)) tls = applyTLS (ms_TLSOpts (mo_Metrics opts)) tls ∧
  ms_FilterProvider (mo_Metrics opts) = ms_SecureServing (mo_Metrics opts) ∧
  mo_LeaderElection opts = fl_enableLeaderElection fl ∧ mo_HealthProbeBindAddress opts = fl_probeAddr fl.
Proof.
  intros scheme opts steps.
  assert (stepwise fails steps (main clientgo fl)) as Hmain.
  { unfold main, must, orExit. repeat (apply stepwise_do; [first [reflexivity|eexists; reflexivity]|]).
    apply stepwise_done. }
  unfold stepwise in Hmain. destruct (runSetup fails (main clientgo fl)) as [taken st].
  destruct Hmain as [Hall Hfirst]. destruct (manager_options fl tls) as (H1 & H2 & H3 & _).
  split; [exact Hall|]. split; [exact Hfirst|]. split; [|split; [exact H2|split; [by symmetry|done]]].
  apply elem_of_app. right. by left.
Qed.
