(* ===== verification/Progress.v ===== *)
(** What handlers achieve: the teardown completes once its claims are gone, and
    the seed gate records its verdict. *)
From S2P Require Import Prelude Kube V1alpha1 Client Resources Lib Server Logic Bindings NetPolicy BackupJob Reconcile StatusFacts Teardown Targets Netip NetFacts MemCluster Samples Quiescent.

(** * Teardown against a cooperative server *)

(** Reads from a snapshot; deletes and updates succeed. *)
Definition cooperative (w : snapshot) (c : call) : resp c → Prop :=
  match c return resp c → Prop with
  | CGet k key => λ a, a = snap_get w k key
  | CList k opt => λ a, a = snap_list w k opt
  | CStatusUpdate u => λ a, ∃ u', a = inr u' ∧ sv_core u' = sv_core u
  | CDelete _ _ _ => λ a, deleteDone a
  | CUpdate k _ => λ a, ∃ o', a = inr o'
  | _ => λ _, True
  end.

(** The PV's claim is still a PVC of this volume. *)
Definition held (sv : SharedVolume) (w : snapshot) (pv : PersistentVolume) : bool :=
  match pvs_ClaimRef (pv_Spec pv) with
  | Some ref =>
      match snap_get w KPVC (claimKey ref) with
      | inr pvc => pvcOwned sv pvc
      | inl _ => false
      end
  | None => false
  end.

(** A read that is answered: the object, or NotFound. *)
Definition answered {A} (a : error + A) : Prop :=
  match a with
  | inl err => IsNotFound err = true
  | inr _ => True
  end.

Definition finalizerDropped (h : list event) : Prop :=
  ∃ u u', Ev (CUpdate KSharedVolume u) (inr u') ∈ h ∧ finalizerName ∉ Finalizers (sv_ObjectMeta u).

(** A snapshot of a cluster in teardown: two PVs, one of them still held or not,
    and the backing PVC. *)
Definition dyingVolume0 (policy : string) : SharedVolume :=
  set_Finalizers [finalizerName; "other"] (sampleVolume policy None).

Definition dyingSnapshot (policy : string) (stuck : bool) : snapshot :=
  let sv := dyingVolume0 policy in
  MkSnapshot
    (λ k key,
       match k return error + obj k with
       | KPVC => if decide (key = opKey "nfsz-data") then inr (BuildBackingPVC sv (OperatorNamespace sampleReconciler))
                 else if stuck && bool_decide (nn_Namespace key = "team-b") then inr (BuildConsumerPVC sv "team-b")
                 else inl NotFoundError
       | _ => inl NotFoundError
       end)
    (λ k opt,
       match k return error + list (obj k) with
       | KPV => inr [BuildPV sv "team-a" "10.96.0.7"; BuildPV sv "team-b" "10.96.0.7"]
       | _ => inr []
       end).

Definition cooperativeServer (w : snapshot) : server unit := λ u c,
  (match c return resp c with
   | CGet k key => snap_get w k key
   | CList k opt => snap_list w k opt
   | CCreate k o => inr o
   | CUpdate k o => inr o
   | CStatusUpdate sv => inr sv
   | CDelete _ _ _ => None
   | CEventf _ _ _ _ _ => tt
   | CNow => 0%Z
   end, u).

(** The verdict of the seed gate is what the volume it returns records. *)
Definition seedRecord `{Lib} (b : bool) (sv' : SharedVolume) : Prop :=
  seedNotInPlay sv' = true ∧ b = true ∨
  IsStatusConditionTrue (Conditions (sv_Status sv')) ConditionRestored = b.

(** * The loop *)

Lemma existsb_filter {A} (f : A → bool) l :
  existsb f l = match List.filter f l with [] => false | _ => true end.
Proof. induction l as [|x l IH]; [done|]. simpl. by destruct (f x). Qed.

Section Teardown.
Context `{Lib} {L : LibLaws} (r : SharedVolumeReconciler) (w : snapshot).
Abbreviation coop p Q h := (hwp (λ _ _, True) (cooperative w) p Q h).
Local Open Scope go_scope.

Lemma DeleteIgnoreNotFound_coop k (o : obj k) prop h :
  coop (DeleteIgnoreNotFound k o prop) (λ h' res, grown h h' ∧ res = Ok tt) h.
Proof.
  apply wp_bind, wp_trigger; [done|]. intros a h' [Ha ->].
  destruct Ha as [->|(err & -> & Hnf)]; simpl; [|rewrite Hnf]; by apply wp_ret; split; [apply grown_app|].
Qed.

Lemma coop_delete {A} k (o : obj k) prop (f : unit → prog (outcome A)) Q h :
  (∀ h', grown h h' → coop (f tt) Q h') → coop (bindE (DeleteIgnoreNotFound k o prop) f) Q h.
Proof.
  intros Hf. apply wp_bindE. eapply wp_mono; [|apply DeleteIgnoreNotFound_coop].
  intros h' res [Hg ->]. by apply Hf.
Qed.

Lemma coop_get {A} k key (f : error + obj k → prog A) Q h :
  (∀ h', grown h h' → coop (f (snap_get w k key)) Q h') → coop (Get k key ≫= f) Q h.
Proof.
  intros Hf. apply wp_bind, wp_trigger; [done|]. intros a h' [Ha ->]. cbn [cooperative] in Ha.
  subst a. apply Hf, grown_app.
Qed.

Lemma teardownLoop_coop sv pvs n h :
  (∀ pv ref, pv ∈ pvs → pvs_ClaimRef (pv_Spec pv) = Some ref →
     answered (snap_get w KPVC (claimKey ref))) →
  coop (teardownLoop sv pvs n)
    (λ h' res, grown h h' ∧ res = Ok (n + length (List.filter (held sv w) pvs))%nat) h.
Proof.
  revert n h. induction pvs as [|pv pvs IH]; intros n h Hans; cbn [teardownLoop].
  { apply wp_ret. simpl. rewrite Nat.add_0_r. split; [apply grown_refl|done]. }
  assert (∀ n h1, grown h h1 → coop (teardownLoop sv pvs n)
    (λ h' res, grown h h' ∧ res = Ok (n + length (List.filter (held sv w) pvs))%nat) h1) as IH'.
  { intros n' h1 Hg. eapply wp_mono; [|apply IH; intros pv' ref ?; apply Hans; by right].
    intros h' res [? ->]. split; [by eapply grown_trans|done]. }
  assert (∀ ref, pvs_ClaimRef (pv_Spec pv) = Some ref → answered (snap_get w KPVC (claimKey ref))) as Hpv.
  { intros ref. apply Hans. by left. }
  assert (held sv w pv = match pvs_ClaimRef (pv_Spec pv) with
    | Some ref => match snap_get w KPVC (claimKey ref) with inr pvc => pvcOwned sv pvc | inl _ => false end
    | None => false end) as Hheld by done.
  cbn [List.filter]. rewrite Hheld. clear Hheld. destruct (pvs_ClaimRef (pv_Spec pv)) as [ref|].
  2: { apply coop_delete. intros h1 Hg. by apply IH'. }
  specialize (Hpv ref eq_refl). apply coop_get. intros h1 Hg. unfold claimKey in *.
  destruct (snap_get w KPVC _) as [err|pvc].
  - simpl in Hpv. rewrite Hpv. apply coop_delete. intros h2 Hg2.
    apply IH'. by eapply grown_trans.
  - destruct (pvcOwned sv pvc).
    + simpl length. rewrite <- Nat.add_succ_comm. destruct (Time_IsZero _).
      * apply coop_delete. intros h2 Hg2. apply IH'. by eapply grown_trans.
      * apply wp_bindE, wp_ret. by apply IH'.
    + apply coop_delete. intros h2 Hg2. apply IH'. by eapply grown_trans.
Qed.

Lemma deleteStack_coop objs h : coop (deleteStack objs) (λ h' res, grown h h' ∧ res = Ok tt) h.
Proof.
  revert h. induction objs as [|[k o] objs IH]; intros h.
  { apply wp_ret. split; [apply grown_refl|done]. }
  apply coop_delete. intros h1 Hg. eapply wp_mono; [|apply IH].
  intros h' res [? ->]. split; [by eapply grown_trans|done].
Qed.

Lemma UpdateE_coop k (o : obj k) h :
  coop (UpdateE k o) (λ h' res, grown h h' ∧ ∃ o', res = Ok o' ∧ Ev (CUpdate k o) (inr o') ∈ h') h.
Proof.
  unfold UpdateE. apply wp_bind, wp_trigger; [done|]. intros a h' [[o' ->] ->]. apply wp_ret.
  split; [apply grown_app|]. exists o'. split; [done|apply event_now].
Qed.

Lemma teardownBacking_coop sv h :
  answered (snap_get w KPVC (backingKey r sv)) →
  coop (teardownBacking r sv) (λ h' res, grown h h' ∧ res = Ok tt) h.
Proof.
  intros Hans. unfold teardownBacking. apply coop_get. intros h1 Hg.
  destruct (snap_get w KPVC _) as [err|b].
  { simpl in Hans. rewrite Hans. by apply wp_ret. }
  case_decide; [case_decide|destruct (Time_IsZero _)].
  - destruct (retainPVC_total sv b) as (b' & -> & _). cbn [orPanic]. apply wp_bindE.
    eapply wp_mono; [|apply UpdateE_coop]. intros h2 res (Hg2 & o' & -> & _). apply wp_ret.
    split; [by eapply grown_trans|done].
  - by apply wp_ret.
  - eapply wp_mono; [|apply DeleteIgnoreNotFound_coop]. intros h2 res [? ->].
    split; [by eapply grown_trans|done].
  - by apply wp_ret.
Qed.
Lemma markTerminating_coop sv h :
  coop (markTerminating sv) (λ h' res, grown h h' ∧ ∃ sv', res = Ok sv' ∧ sv_core sv' = sv_core sv) h.
Proof.
  unfold markTerminating. case_decide; [|apply wp_ret; split; [apply grown_refl|by eexists]].
  apply wp_bind, wp_trigger; [done|]. intros a h' [(u' & -> & Hcore) ->]. apply wp_ret.
  split; [apply grown_app|]. by exists u'.
Qed.

(** The whole handler, by what the listed PVs' claims still hold. *)
Lemma reconcileDelete_coop sv pvs h :
  ContainsFinalizer (Finalizers (sv_ObjectMeta sv)) finalizerName = true →
  snap_list w KPV (byVolume sv) = inr pvs →
  (∀ pv ref, pv ∈ pvs → pvs_ClaimRef (pv_Spec pv) = Some ref → answered (snap_get w KPVC (claimKey ref))) →
  answered (snap_get w KPVC (backingKey r sv)) →
  coop (reconcileDelete r sv)
    (λ h' res, if existsb (held sv w) pvs then res = Ok (MkResult false requeueDelay)
               else res = Ok noResult ∧ finalizerDropped h') h.
Proof.
  intros Hf Hl Hans Hb. unfold reconcileDelete. rewrite Hf. cbn [negb]. apply wp_bindE.
  eapply wp_mono; [|apply markTerminating_coop]. intros h1 res (_ & sv' & -> & Hcore).
  assert (byVolume sv' = byVolume sv ∧ held sv' w = held sv w ∧ backingKey r sv' = backingKey r sv)
    as (Hby & Hheld & Hkey).
  { change (byVolume (sv_core sv') = byVolume (sv_core sv) ∧ held (sv_core sv') w = held (sv_core sv) w ∧
      backingKey r (sv_core sv') = backingKey r (sv_core sv)). by rewrite Hcore. }
  apply wp_bind, wp_trigger; [done|]. intros a h2 [Ha ->]. cbn [cooperative] in Ha. subst a.
  rewrite Hby, Hl. apply wp_bindE. eapply wp_mono; [|by apply teardownLoop_coop].
  intros h3 res [_ ->]. rewrite Hheld, Nat.add_0_l.
  rewrite existsb_filter. destruct (List.filter (held sv w) pvs) as [|pv l]; cbn [length Nat.ltb Nat.leb].
  2: { by apply wp_ret. }
  - apply wp_bindE.
    eapply wp_mono; [|apply deleteStack_coop]. intros h4 res [_ ->]. apply wp_bindE.
    eapply wp_mono; [|apply teardownBacking_coop; by rewrite Hkey]. intros h5 res [_ ->]. apply wp_bindE.
    eapply wp_mono; [|apply UpdateE_coop]. intros h6 res (_ & o' & -> & Hev). apply wp_ret.
    split; [done|]. eexists _, _. split; [exact Hev|]. simpl. rewrite RemoveFinalizer_elem. by intros [? _].
Qed.
End Teardown.

Lemma cooperativeServer_ok w s c : cooperative w c (cooperativeServer w s c).1.
Proof. destruct c; try exact I; try reflexivity; try (by eexists); by left. Qed.

(** * Properties *)

(** C7. The teardown completes: against a server that answers every read and
    carries out every delete and update, [reconcileDelete] ends either by asking
    to be requeued after five seconds, exactly when the claim of a listed PV is
    still one of the volume's PVCs, or without, after dropping its finalizer. *)
Theorem teardown_completes `{Lib} {L : LibLaws} {S} (srv : server S) (w : snapshot) r sv pvs s
    (Hfin : ContainsFinalizer (Finalizers (sv_ObjectMeta sv)) finalizerName = true)
    (Hlist : snap_list w KPV (byVolume sv) = inr pvs)
    (Hclaims : ∀ pv ref, pv ∈ pvs → pvs_ClaimRef (pv_Spec pv) = Some ref →
       answered (snap_get w KPVC (claimKey ref)))
    (Hbacking : answered (snap_get w KPVC (backingKey r sv)))
    (Hsrv : ∀ s c, cooperative w c (srv s c).1) :
  let x := run srv (reconcileDelete r sv) s in
  if existsb (held sv w) pvs then result_of x = Ok (MkResult false requeueDelay)
  else result_of x = Ok noResult ∧ finalizerDropped (trace_of x).
Proof.
  apply (run_post srv (reconcileDelete r sv)
    (λ h res, if existsb (held sv w) pvs then res = Ok (MkResult false requeueDelay)
              else res = Ok noResult ∧ finalizerDropped h) (cooperative w) s Hsrv).
  by apply reconcileDelete_coop.
Qed.

Lemma teardown_completes_witness :
  let sv := dyingVolume0 ReclaimRetain in
  let w := dyingSnapshot ReclaimRetain false in
  let pvs := [BuildPV sv "team-a" "10.96.0.7"; BuildPV sv "team-b" "10.96.0.7"] in
  let x := run (cooperativeServer w) (reconcileDelete sampleReconciler sv) () in
  ContainsFinalizer (Finalizers (sv_ObjectMeta sv)) finalizerName = true ∧
  snap_list w KPV (byVolume sv) = inr pvs ∧ existsb (held sv w) pvs = false ∧
  (result_of x = Ok noResult ∧ finalizerDropped (trace_of x)).
Proof.
  intros sv w pvs x.
  assert (∀ pv ref, pv ∈ pvs → pvs_ClaimRef (pv_Spec pv) = Some ref →
    answered (snap_get w KPVC (claimKey ref))) as Hclaims.
  { intros pv ref Hpv. apply elem_of_cons in Hpv as [->|Hpv%list_elem_of_singleton]; [|subst pv];
      intros [= <-]; reflexivity. }
  assert (existsb (held sv w) pvs = false) as Hheld by reflexivity.
  split; [reflexivity|]. split; [reflexivity|]. split; [exact Hheld|].
  pose proof (teardown_completes (cooperativeServer w) w sampleReconciler sv pvs () eq_refl eq_refl Hclaims I
    (cooperativeServer_ok w)) as Hx.
  rewrite Hheld in Hx. exact Hx.
Defined.

(** * The seed gate's record *)

Section Seed.
Context `{Lib} {L : LibLaws} (r : SharedVolumeReconciler).

Lemma spec_record allowed rely sv st reason msg (k : SharedVolume * bool → prog (outcome (bool * SharedVolume))) Q h :
  (∀ h c, allowed h c) →
  (∀ sv' b h', seedNotInPlay sv' = seedNotInPlay sv →
     IsStatusConditionTrue (Conditions (sv_Status sv')) ConditionRestored = bool_decide (st = ConditionTrue) →
     hwp allowed rely (k (sv', b)) Q h') →
  hwp allowed rely (setRestoredCondition sv st reason msg ≫= k) Q h.
Proof.
  intros Ha Hk. unfold setRestoredCondition. apply wp_bind, wp_bind, wp_trigger; [done|].
  intros now h' _. pose proof (SetStatusCondition_verdict now (Conditions (sv_Status sv))
    (MkCondition ConditionRestored st (Generation (sv_ObjectMeta sv)) None reason msg)) as Hv.
  cbn [cond_Type cond_Status] in Hv.
  destruct (SetStatusCondition _ _ _) as [cs b]. apply wp_ret, Hk; done.
Qed.

Lemma reconcileSeed_record sv h :
  hwp (λ _ _, True) any_answer (reconcileSeed r sv)
    (λ _ res, ∀ b sv', res = Ok (b, sv') → seedRecord b sv') h.
Proof.
  assert (∀ (b : bool) sv1, IsStatusConditionTrue (Conditions (sv_Status sv1)) ConditionRestored = b →
    ∀ b' sv', (Ok (b, sv1) : outcome (bool * SharedVolume)) = Ok (b', sv') → seedRecord b' sv') as Hrec.
  { intros b sv1 Hv b' sv' [= <- <-]. by right. }
  unfold reconcileSeed. destruct (seedNotInPlay sv) eqn:Hp.
  { apply wp_ret. intros b sv' [= <- <-]. by left. }
  destruct (IsStatusConditionTrue _ _) eqn:Hc; [by apply wp_ret, Hrec|].
  apply wp_bind, wp_trigger; [done|]. intros [err|d] h1 _.
  2: { apply spec_record; [done|]. intros sv' b h2 _ Hv. by apply wp_ret, Hrec. }
  destruct (negb _); [by apply wp_ret|]. destruct (BuildSeedJob _ _ _) as [job|]; [|by apply wp_ret].
  cbn [orPanic]. apply wp_bind, wp_trigger; [done|]. intros [err'|existing] h2 _.
  - destruct (IsNotFound err'); [|by apply wp_ret]. apply wp_bindE.
    eapply wp_mono; [|apply (createOwned_hwp _ _ KJob); done]. intros h3 [o'|e|] _; [|done..].
    apply spec_record; [done|]. intros sv' b h4 _ Hv. by apply wp_ret, Hrec.
  - destruct (jobHasCondition existing JobComplete); [|destruct (jobHasCondition existing JobFailed)];
      (apply spec_record; [done|]); intros sv' b h3 _ Hv; [by apply wp_ret, Hrec| |by apply wp_ret, Hrec].
    destruct b; [apply wp_bind, wp_trigger; [done|]; intros ? ? _|]; by apply wp_ret, Hrec.
Qed.
End Seed.

(** C27. The seed's outcome is recorded and never re-run: whatever the server
    answers, when the gate opens for a volume that asks for a restore the
    Restored condition of the volume it returns is true, when it stays closed it
    is not; and a volume whose recorded condition is true passes the gate without
    a single call. *)
Theorem seed_recorded `{Lib} {L : LibLaws} {S} (srv : server S) r sv s :
  (∀ b sv', result_of (run srv (reconcileSeed r sv) s) = Ok (b, sv') → seedRecord b sv') ∧
  (∀ sv', seedNotInPlay sv' = false → seedRecord true sv' →
     run srv (reconcileSeed r sv') s = ([], s, Ok (true, sv'))).
Proof.
  split.
  - apply (run_post srv (reconcileSeed r sv) (λ _ res, ∀ b sv', res = Ok (b, sv') → seedRecord b sv')
      any_answer s); [done|]. apply reconcileSeed_record.
  - intros sv' Hp [[Hp' _]|Hv]; [congruence|]. unfold reconcileSeed. by rewrite Hp, Hv.
Qed.

Lemma seed_recorded_witness :
  let sv := sampleVolume ReclaimDelete (Some (sampleBackup RestoreAuto)) in
  let x := run (cooperativeServer (dyingSnapshot ReclaimDelete false)) (reconcileSeed sampleReconciler sv) () in
  seedNotInPlay sv = false ∧
  (∃ sv', result_of x = Ok (false, sv') ∧ seedRecord false sv').
Proof.
  intros sv x. split; [reflexivity|].
  destruct (seed_recorded (cooperativeServer (dyingSnapshot ReclaimDelete false)) sampleReconciler sv ())
    as [Hrec _].
  eexists. split; [vm_compute; reflexivity|]. eapply Hrec. vm_compute. reflexivity.
Defined.
