(* ===== verification/Wellformed.v ===== *)
(** Well-formed objects: the names, namespaces and labels the operator generates
    against Kubernetes' documented syntax for them. *)
From S2P Require Import Prelude Kube V1alpha1 Client Resources Lib Server Logic Bindings NetPolicy BackupJob Reconcile Teardown LiveSpec LiveServer LiveProofs Safety Targets BindingFacts MemCluster Samples Cmd.

(** * Kubernetes' syntax of names *)

Abbreviation chars := String.list_ascii_of_string.

Definition lowerAlnum (c : Ascii.ascii) : bool :=
  let n := Ascii.nat_of_ascii c in
  (Nat.leb 97 n && Nat.leb n 122) || (Nat.leb 48 n && Nat.leb n 57).

Definition dash : Ascii.ascii := Ascii.ascii_of_nat 45.
Definition dot : Ascii.ascii := Ascii.ascii_of_nat 46.

Definition labelChar (c : Ascii.ascii) : bool := lowerAlnum c || Ascii.eqb c dash.

Definition alnumAt (o : option Ascii.ascii) : bool := from_option lowerAlnum false o.

(** [a-z0-9]([-a-z0-9]*[a-z0-9])? *)
Definition labelText (s : string) : bool :=
  forallb labelChar (chars s) && alnumAt (head (chars s)) && alnumAt (last (chars s)).

(** A DNS label (RFC 1123), and one that starts with a letter (RFC 1035). *)
Definition isDNSLabel (s : string) : bool := labelText s && (String.length s <=? 63)%nat.

Definition startsWithLetter (s : string) : bool :=
  match s with
  | String c _ => Nat.leb 97 (Ascii.nat_of_ascii c)
  | EmptyString => false
  end.

(** A DNS subdomain: labels' texts joined by dots. *)
Definition isDNSSubdomain (s : string) : bool :=
  forallb labelText (splitSeq dot s) && (String.length s <=? 253)%nat.

(** The value of a label, less the upper-case letters, underscores and dots that
    Kubernetes admits too. *)
Definition labelValueOk (s : string) : bool := bool_decide (s = "") || isDNSLabel s.

(** * What the API server asks of an object *)

(** The name: a Service's is an RFC 1035 label, a CronJob's at most 52 and a
    Job's at most 63 characters long. *)
Definition nameOk (k : kind) (name : string) : bool :=
  match k with
  | KService => isDNSLabel name && startsWithLetter name
  | KCronJob => isDNSSubdomain name && (String.length name <=? 52)%nat
  | KJob => isDNSSubdomain name && (String.length name <=? 63)%nat
  | KNamespace => isDNSLabel name
  | _ => isDNSSubdomain name
  end.

Definition namespaceOk (k : kind) (ns : string) : bool :=
  match k with
  | KSharedVolume | KNamespace | KNode | KPV => bool_decide (ns = "")
  | _ => isDNSLabel ns
  end.

Definition mapValues (m : GoMap) : list string :=
  match m with Some t => map snd (map_to_list t) | None => [] end.

(** The label values an object carries: its own, its pods' and its selectors'. *)
Definition podValues (t : PodTemplateSpec) : list string := mapValues (tpl_Labels t).
Definition selectorValues (s : LabelSelector) : list string := mapValues (MatchLabels s).

Definition labelValues (k : kind) (o : obj k) : list string :=
  mapValues (Labels (obj_meta k o)) ++
  match k return obj k → list string with
  | KDeployment => λ d, podValues (dep_Template d) ++ selectorValues (dep_Selector d)
  | KService => λ s, mapValues (svc_Selector s)
  | KNetworkPolicy => λ np, selectorValues (nps_PodSelector (np_Spec np)) ++
      concat (map (λ rule, concat (map (λ p, match peer_NamespaceSelector p with
                                             | Some sel => selectorValues sel
                                             | None => []
                                             end) (rule_From rule))) (nps_Ingress (np_Spec np)))
  | KCronJob => λ cj, mapValues (cjs_TemplateLabels (cj_Spec cj)) ++ podValues (js_Template (cjs_JobSpec (cj_Spec cj)))
      ++ concat (map (λ t, selectorValues (pat_LabelSelector t)) (default [] (pod_Affinity (cronPod cj))))
  | KJob => λ j, podValues (js_Template (job_Spec j))
  | _ => λ _, []
  end o.

Definition wellFormed (k : kind) (o : obj k) : bool :=
  nameOk k (Name (obj_meta k o)) && namespaceOk k (Namespace (obj_meta k o))
  && forallb labelValueOk (labelValues k o).

(** The namespaces a server knows have names that are DNS labels. *)
Definition validNamespaces (c : call) : resp c → Prop :=
  match c return resp c → Prop with
  | CGet KNamespace key => λ a : error + NamespaceObj, ∀ o, a = inr o → isDNSLabel (nn_Name key) = true
  | CList KNamespace _ => λ a : error + list NamespaceObj,
      ∀ nss, a = inr nss → ∀ o, o ∈ nss → isDNSLabel (ns_name o) = true
  | _ => λ _, True
  end.

(** A volume name that fits every generated name. *)
Definition fits (name : string) : Prop := labelText name = true ∧ (String.length name ≤ 40)%nat.

(** * Names *)

Lemma labelText_chars s c : labelText s = true → c ∈ chars s → labelChar c = true.
Proof.
  unfold labelText. rewrite !andb_true_iff. intros [[Ha _] _] Hin.
  rewrite forallb_forall in Ha. by apply Ha, list_elem_of_In.
Qed.

Lemma labelText_join a b : labelText a = true → labelText b = true → labelText (a +:+ String dash b) = true.
Proof.
  unfold labelText. rewrite !andb_true_iff. intros [[Ha Ha1] Ha2] [[Hb Hb1] Hb2].
  rewrite list_ascii_app. cbn [String.list_ascii_of_string].
  rewrite forallb_app. cbn [forallb]. rewrite Ha, Hb.
  destruct (chars a) as [|c l] eqn:E; [done|]. split; [done|].
  rewrite last_app, last_cons. by destruct (last (chars b)) eqn:El.
Qed.

Lemma labelText_nodot s : labelText s = true → dot ∉ chars s.
Proof. intros Hs Hin. by apply (labelText_chars s dot Hs) in Hin. Qed.

Lemma splitSeq_none sep s : sep ∉ chars s → splitSeq sep s = [s].
Proof.
  induction s as [|c s IH]; [done|]. cbn [String.list_ascii_of_string]. rewrite not_elem_of_cons.
  intros [Hc Hs]. simpl. destruct (Ascii.eqb_spec c sep); [done|]. by rewrite IH.
Qed.

Lemma isDNSSubdomain_label s : labelText s = true → (String.length s ≤ 253)%nat → isDNSSubdomain s = true.
Proof.
  intros Hs Hl. unfold isDNSSubdomain. rewrite splitSeq_none by by apply labelText_nodot.
  simpl. rewrite Hs. simpl. by apply Nat.leb_le.
Qed.

(** ["nfsz-" ++ s] and [s ++ "-word"] as labels joined by dashes. *)
Lemma prefixed_label s : labelText s = true → labelText ("nfsz-" +:+ s) = true.
Proof. intros Hs. change ("nfsz-" +:+ s) with ("nfsz" +:+ String dash s). by apply labelText_join. Qed.

Lemma suffixed_label s w : labelText s = true → labelText w = true →
  labelText ("nfsz-" +:+ s +:+ String dash w) = true.
Proof. intros Hs Hw. apply prefixed_label. by apply labelText_join. Qed.

Lemma leb_iff n m : (n <=? m)%nat = true ↔ n ≤ m.
Proof. apply Nat.leb_le. Qed.

(** * Label values *)

Section Values.
Context (P : string → bool).

Lemma mapValues_all m :
  forallb P (mapValues (Some m)) = true ↔ ∀ k v, m !! k = Some v → P v = true.
Proof.
  unfold mapValues. rewrite forallb_forall. setoid_rewrite <- list_elem_of_In.
  setoid_rewrite list_elem_of_fmap. split.
  - intros Hall k v Hkv. apply Hall. exists (k, v). by rewrite elem_of_map_to_list.
  - intros Hall v ([k v'] & -> & Hin%elem_of_map_to_list). by eapply Hall.
Qed.

Lemma mapValues_insert m k v :
  P v = true → forallb P (mapValues (Some m)) = true →
  forallb P (mapValues (Some (<[k:=v]> m))) = true.
Proof.
  rewrite !mapValues_all. intros Hv Hm k' v' [[<- <-]|[_ ?]]%lookup_insert_Some; [done|by eapply Hm].
Qed.

Lemma mapValues_singleton k v : P v = true → forallb P (mapValues (Some {[k:=v]})) = true.
Proof. rewrite mapValues_all. by intros Hv k' v' [<- <-]%lookup_singleton_Some. Qed.

Lemma managedLabels_values sv :
  P managedByValue = true → P (sv_Name sv) = true → forallb P (mapValues (managedLabels sv)) = true.
Proof. intros Hm Hs. apply mapValues_insert; [done|]. by apply mapValues_singleton. Qed.

Lemma serverSelector_values sv :
  P "nfs-server" = true → P (sv_Name sv) = true → forallb P (mapValues (serverSelector sv)) = true.
Proof. intros Hm Hs. apply mapValues_insert; [done|]. by apply mapValues_singleton. Qed.

Lemma componentLabels_values sv c :
  P managedByValue = true → P (sv_Name sv) = true → P c = true →
  forallb P (mapValues (componentLabels sv c)) = true.
Proof.
  intros Hm Hs Hc. apply mapValues_insert; [done|]. unfold mapsCopy. rewrite (right_id_L ∅ (∪)).
  by apply managedLabels_values.
Qed.
End Values.

(** * The builders *)

Section Builders.
Context `{Lib} (r : SharedVolumeReconciler) (sv : SharedVolume).
Context (Hop : isDNSLabel (OperatorNamespace r) = true) (Hfits : fits (sv_Name sv)).

Lemma fits_value : labelValueOk (sv_Name sv) = true.
Proof.
  destruct Hfits as [Ht Hl]. unfold labelValueOk, isDNSLabel. rewrite Ht. simpl.
  apply orb_true_iff. right. apply leb_iff. lia.
Qed.

(** Names are built by joining labels; what is left is their length. *)
Lemma fits_name k name :
  labelText name = true → (String.length name ≤ match k with KCronJob => 52 | _ => 63 end)%nat →
  (k = KService → startsWithLetter name = true) → nameOk k name = true.
Proof.
  intros Ht Hl Hs. pose proof (isDNSSubdomain_label name Ht ltac:(destruct k; lia)) as Hd.
  destruct k; simpl; try done; unfold isDNSLabel; rewrite ?Ht, ?Hd, ?Hs by done; simpl;
    rewrite ?andb_true_r; apply leb_iff; lia.
Qed.

Lemma ownedCopy_wellFormed k (o0 o : obj k) : ownedCopy k o0 o → wellFormed k o = wellFormed k o0.
Proof. intros [refs ->]. by destruct k. Qed.

Lemma suffixed_length s w : String.length ("nfsz-" +:+ s +:+ w) = (5 + String.length s + String.length w)%nat.
Proof. by rewrite !string_app_length, Nat.add_assoc. Qed.

Ltac name_ok :=
  apply fits_name; [apply suffixed_label; [apply Hfits|reflexivity]|
    eapply Nat.le_trans; [apply Nat.eq_le_incl, suffixed_length|]; destruct Hfits; simpl; lia|try done].
Ltac values_ok lem := by apply lem; first [exact fits_value|reflexivity|done].

Lemma backing_wellFormed : wellFormed KPVC (BuildBackingPVC sv (OperatorNamespace r)) = true.
Proof.
  apply andb_true_iff. split; [apply andb_true_iff; split; [|exact Hop]|].
  - destruct Hfits. apply (fits_name KPVC (BackingPVCName sv)); unfold BackingPVCName;
      [by apply prefixed_label|rewrite string_app_length; simpl; lia|done].
  - unfold labelValues. rewrite app_nil_r. values_ok managedLabels_values.
Qed.

Lemma consumer_wellFormed ns : isDNSLabel ns = true → wellFormed KPVC (BuildConsumerPVC sv ns) = true.
Proof.
  intros Hns. apply andb_true_iff. split; [apply andb_true_iff; split; [|exact Hns]|].
  - destruct Hfits. by apply fits_name; [|simpl; unfold ConsumerPVCName; lia|].
  - unfold labelValues. rewrite app_nil_r. values_ok managedLabels_values.
Qed.

Lemma PV_wellFormed ns ip : isDNSLabel ns = true → wellFormed KPV (BuildPV sv ns ip) = true.
Proof.
  intros Hns. apply andb_true_iff. split; [apply andb_true_iff; split; [|done]|].
  - unfold isDNSLabel in Hns. apply andb_true_iff in Hns as [Ht Hl%leb_iff]. destruct Hfits as [Hn Hl'].
    apply (isDNSSubdomain_label (PVName sv ns)); [by apply (suffixed_label (sv_Name sv))|].
    unfold PVName. rewrite suffixed_length, string_app_length. simpl. lia.
  - unfold labelValues. rewrite app_nil_r. values_ok managedLabels_values.
Qed.

Lemma ConfigMap_wellFormed : wellFormed KConfigMap (BuildConfigMap sv (OperatorNamespace r)) = true.
Proof.
  apply andb_true_iff. split; [apply andb_true_iff; split; [|exact Hop]|].
  - name_ok.
  - unfold labelValues. rewrite app_nil_r. values_ok managedLabels_values.
Qed.

Lemma Deployment_wellFormed cm :
  wellFormed KDeployment (BuildServerDeployment sv (OperatorNamespace r) (GaneshaImage r) cm) = true.
Proof.
  apply andb_true_iff. split; [apply andb_true_iff; split; [|exact Hop]|].
  - name_ok.
  - unfold labelValues. rewrite !forallb_app, !andb_true_iff. split_and!.
    + values_ok managedLabels_values.
    + values_ok componentLabels_values.
    + values_ok serverSelector_values.
Qed.

Lemma Service_wellFormed : wellFormed KService (BuildService sv (OperatorNamespace r)) = true.
Proof.
  apply andb_true_iff. split; [apply andb_true_iff; split; [|exact Hop]|].
  - name_ok.
  - unfold labelValues. rewrite forallb_app, andb_true_iff. split.
    + values_ok managedLabels_values.
    + values_ok serverSelector_values.
Qed.

Lemma peers_wellFormed targets cidrs :
  Forall (λ ns, isDNSLabel ns = true) targets →
  forallb labelValueOk (concat (map (λ p, match peer_NamespaceSelector p with
     | Some sel => selectorValues sel | None => [] end)
     (map namespacePeer targets ++ map cidrPeer cidrs))) = true.
Proof.
  intros Ht. rewrite map_app, concat_app, forallb_app, andb_true_iff. split.
  - induction Ht as [|ns targets Hns _ IH]; [done|]. cbn [map concat]. rewrite forallb_app, andb_true_iff.
    split; [|exact IH]. apply mapValues_singleton. unfold labelValueOk. rewrite Hns. apply orb_true_r.
  - by induction cidrs.
Qed.

Lemma NetworkPolicy_wellFormed targets ips :
  Forall (λ ns, isDNSLabel ns = true) targets →
  wellFormed KNetworkPolicy (BuildNetworkPolicy sv (OperatorNamespace r) targets ips (AllowCIDRs r)) = true.
Proof.
  intros Ht. apply andb_true_iff. split; [apply andb_true_iff; split; [|exact Hop]|].
  - name_ok.
  - unfold labelValues. rewrite !forallb_app, !andb_true_iff. split_and!.
    + values_ok managedLabels_values.
    + values_ok serverSelector_values.
    + cbn [map concat nps_Ingress np_Spec BuildNetworkPolicy rule_From]. rewrite app_nil_r.
      rewrite <- (map_map nodeCIDR cidrPeer), <- map_app. by apply peers_wellFormed.
Qed.

Lemma CronJob_wellFormed cj :
  BuildBackupCronJob sv (OperatorNamespace r) (BackupImage r) = Some cj → wellFormed KCronJob cj = true.
Proof.
  unfold BuildBackupCronJob, backupPodSpec. destruct (Backup _) as [b|]; [|done]. simpl.
  destruct (HostPath _); [|done]. simpl. intros [= <-].
  apply andb_true_iff. split; [apply andb_true_iff; split; [|exact Hop]|].
  - name_ok.
  - change (labelValues KCronJob _) with (mapValues (managedLabels sv) ++ mapValues (managedLabels sv)
      ++ mapValues (componentLabels sv "backup") ++ mapValues (serverSelector sv) ++ []).
    rewrite app_nil_r, !forallb_app, !andb_true_iff. split_and!.
    + values_ok managedLabels_values.
    + values_ok managedLabels_values.
    + values_ok componentLabels_values.
    + values_ok serverSelector_values.
Qed.

Lemma Job_wellFormed job :
  BuildSeedJob sv (OperatorNamespace r) (BackupImage r) = Some job → wellFormed KJob job = true.
Proof.
  unfold BuildSeedJob, backupPodSpec. destruct (Backup _) as [b|]; [|done]. simpl.
  destruct (HostPath _); [|done]. simpl. intros [= <-].
  apply andb_true_iff. split; [apply andb_true_iff; split; [|exact Hop]|].
  - name_ok.
  - change (labelValues KJob _) with (mapValues (managedLabels sv) ++ mapValues (componentLabels sv "seed")).
    rewrite forallb_app, andb_true_iff. split.
    + values_ok managedLabels_values.
    + values_ok componentLabels_values.
Qed.

(** A target that was seen on a server with valid namespaces. *)
Lemma targetSeen_label h ns : answers_ok validNamespaces h → targetSeen sv h ns → isDNSLabel ns = true.
Proof.
  unfold answers_ok. rewrite Forall_forall. intros Hall [(_ & o & Hr & _)|(sel & selector & nss & o & _ & _ & Hl & Hin & _ & <-)].
  - exact (Hall _ Hr o eq_refl).
  - exact (Hall _ Hl nss eq_refl o Hin).
Qed.

Lemma built_wellFormed h k (o : obj k) :
  answers_ok validNamespaces h → built r sv h k o → wellFormed k o = true.
Proof.
  intros Hh. destruct k; simpl; try done.
  - intros [->%ownedCopy_wellFormed|(ns & Hns & ->%ownedCopy_wellFormed)]; [apply backing_wellFormed|].
    by apply consumer_wellFormed, (targetSeen_label h).
  - intros (ns & ip & Hns & _ & _ & ->%ownedCopy_wellFormed). by apply PV_wellFormed, (targetSeen_label h).
  - intros ->%ownedCopy_wellFormed. apply ConfigMap_wellFormed.
  - intros (_ & cm & ->%ownedCopy_wellFormed). apply Deployment_wellFormed.
  - intros ->%ownedCopy_wellFormed. apply Service_wellFormed.
  - intros (_ & targets & ips & Ht & ->%ownedCopy_wellFormed). apply NetworkPolicy_wellFormed.
    apply Forall_forall. intros ns Hin. by apply (targetSeen_label h), Ht.
  - intros (cj & Hb & ->%ownedCopy_wellFormed). by apply CronJob_wellFormed.
  - intros (_ & job & Hb & ->%ownedCopy_wellFormed). by apply Job_wellFormed.
Qed.
End Builders.

(** * The bounds are exact *)

Lemma ServerName_ok sv :
  labelText (sv_Name sv) = true → nameOk KService (ServerName sv) = true ↔ (String.length (sv_Name sv) ≤ 51)%nat.
Proof.
  intros Ht. unfold nameOk, isDNSLabel, ServerName.
  rewrite (suffixed_label (sv_Name sv) "server" Ht eq_refl : labelText ("nfsz-" +:+ sv_Name sv +:+ "-server") = true).
  change (startsWithLetter _) with true. rewrite andb_true_r, andb_true_l, leb_iff, suffixed_length. simpl. lia.
Qed.

Lemma jobName_ok k bound sv w :
  (k = KCronJob ∧ bound = 52%nat ∨ k = KJob ∧ bound = 63%nat) →
  labelText (sv_Name sv) = true → labelText w = true →
  nameOk k ("nfsz-" +:+ sv_Name sv +:+ String dash w) = true ↔
  (String.length (sv_Name sv) + String.length w + 6 ≤ bound)%nat.
Proof.
  intros Hk Ht Hw. pose proof (suffixed_label (sv_Name sv) w Ht Hw) as Hl.
  assert (String.length ("nfsz-" +:+ sv_Name sv +:+ String dash w) = 6 + String.length (sv_Name sv) + String.length w)%nat
    as Hlen by (rewrite suffixed_length; simpl; lia).
  set (name := "nfsz-" +:+ _) in *. clearbody name. split.
  - destruct Hk as [[-> ->]|[-> ->]]; simpl; rewrite andb_true_iff; intros [_ Hb%leb_iff]; lia.
  - intros Hb. assert (isDNSSubdomain name = true) as Hd by (apply isDNSSubdomain_label; [done|];
      destruct Hk as [[-> ->]|[-> ->]]; lia).
    destruct Hk as [[-> ->]|[-> ->]]; simpl; rewrite Hd; apply leb_iff; lia.
Qed.

Lemma dotted_ServerName sv : dot ∈ chars (sv_Name sv) → nameOk KService (ServerName sv) = false.
Proof.
  intros Hd. apply not_true_is_false. unfold nameOk, isDNSLabel. rewrite !andb_true_iff. intros [[Ht _] _].
  apply (labelText_nodot _ Ht). unfold ServerName. rewrite !list_ascii_app, !elem_of_app. auto.
Qed.

(** A server with the sample volume, its Service and valid namespaces; it accepts
    every write. *)
Definition labelServer : server unit := λ u c,
  (match c return resp c with
   | CGet k key =>
       match k return error + obj k with
       | KSharedVolume => if decide (key = sampleRequest)
           then inr (sampleVolume ReclaimDelete (Some (sampleBackup RestoreNever))) else inl NotFoundError
       | KService =>
           let s := BuildService (sampleVolume ReclaimDelete None) (OperatorNamespace sampleReconciler) in
           inr (MkService (svc_ObjectMeta s) (svc_Selector s) (svc_Ports s) "10.96.0.7")
       | k' => (nsServer sampleNamespaces () (CGet k' key)).1
       end
   | c' => (nsServer sampleNamespaces () c').1
   end, u).

Lemma labelServer_ok s c : sv_stable c (labelServer s c).1 ∧ validNamespaces c (labelServer s c).1.
Proof.
  assert (Forall (λ o, isDNSLabel (ns_name o) = true) sampleNamespaces) as Hall.
  { apply (bool_decide_unpack _). vm_compute. exact I. }
  rewrite Forall_forall in Hall.
  destruct c as [k key|k opt|k o|k o|sv|k o p|sv a b d e|]; try done; [| | |].
  - destruct k; try done; simpl.
    + split; [|done]. intros sv. case_decide as Hk; [|done]. intros [= <-]. by subst key.
    + split; [done|]. intros o. destruct (nsNamed _ _) as [o'|] eqn:Hn; [|done]. intros _.
      apply nsNamed_spec in Hn as [Hin <-]; [by apply Hall|apply (bool_decide_unpack _); vm_compute; exact I].
  - destruct k; try done; simpl. split; [done|]. intros nss Hnss o Hin. apply Hall.
    destruct opt; injection Hnss as <-; try done. by apply list_elem_of_filter in Hin as [_ ?].
  - destruct k; try done; simpl. split; [|done]. by intros sv' [= ->].
  - simpl. split; [|done]. by intros sv' [= ->].
Qed.

(** * Property *)

(** C38. Well-formed objects: for a volume whose name is a DNS label of at most 40
    characters, in an operator namespace and a cluster whose namespaces are named
    by DNS labels, every object a reconcile creates has a name, a namespace and
    label values that Kubernetes' documented syntax admits for its kind.  The
    bound is that of the backup CronJob; without a backup it is 51, from the
    Service, whose name a dot in the volume's name makes invalid as well. *)
Theorem reconcile_wellformed `{Lib} {S} (srv : server S) r req s
    (Hop : isDNSLabel (OperatorNamespace r) = true) (Hfits : fits (nn_Name req))
    (Hsrv : ∀ s c, sv_stable c (srv s c).1 ∧ validNamespaces c (srv s c).1) :
  (∀ k o a, Ev (CCreate k o) a ∈ trace_of (run srv (Reconcile r req) s) → wellFormed k o = true) ∧
  ∀ sv, (labelText (sv_Name sv) = true →
           (nameOk KCronJob (BackupCronJobName sv) = true ↔ String.length (sv_Name sv) ≤ 40) ∧
           (nameOk KService (ServerName sv) = true ↔ String.length (sv_Name sv) ≤ 51) ∧
           (nameOk KJob (SeedJobName sv) = true ↔ String.length (sv_Name sv) ≤ 53))%nat ∧
        (dot ∈ chars (sv_Name sv) → nameOk KService (ServerName sv) = false).
Proof.
  split.
  2: { intros sv. split; [|apply dotted_ServerName]. intros Ht. split_and!.
    - etrans; [apply (jobName_ok KCronJob 52 sv "backup"); auto|]. simpl. lia.
    - by apply ServerName_ok.
    - etrans; [apply (jobName_ok KJob 63 sv "seed"); auto|]. simpl. lia. }
  set (rule := λ h c, answers_ok validNamespaces h →
    match c with CCreate k o => wellFormed k o = true | _ => True end).
  assert (trace_guarded rule (trace_of (run srv (Reconcile r req) s))) as Hg.
  { apply Reconcile_trace; [intros; apply Hsrv|done|..].
    - intros h c sv _ Hn Hc Hh. destruct c as [| |k o| | | | |]; try done. destruct Hc as [_ Hb].
      eapply (built_wellFormed r sv); [done|by rewrite Hn|exact Hh|exact Hb].
    - intros h c sv _ _ Hc _. by destruct c. }
  assert (answers_ok validNamespaces (trace_of (run srv (Reconcile r req) s))) as Hans.
  { apply (run_post srv (Reconcile r req) (λ h _, answers_ok validNamespaces h) validNamespaces s);
      [intros; apply Hsrv|]. generalize (Reconcile r req). intros p. generalize (Forall_nil_2 (λ e, validNamespaces (ev_call e) (ev_resp e))).
    fold (answers_ok validNamespaces []). generalize ([] : list event).
    induction p as [res|c k IH]; intros h Hh; [exact Hh|]. split; [done|].
    intros a h' [Ha ->]. apply IH. apply Forall_app. split; [exact Hh|]. by constructor. }
  intros k o a (pre & post & Heq)%list_elem_of_split. apply (Hg pre _ post Heq).
  rewrite Heq in Hans. by apply Forall_app in Hans as [? _].
Qed.

Lemma reconcile_wellformed_witness :
  isDNSLabel (OperatorNamespace sampleReconciler) = true ∧ fits (nn_Name sampleRequest) ∧
  (∀ s c, sv_stable c (labelServer s c).1 ∧ validNamespaces c (labelServer s c).1) ∧
  let tr := trace_of (run labelServer (Reconcile sampleReconciler sampleRequest) ()) in
  length (filter (λ e, (sig (ev_call e)).1 = VCreate) tr) = 9%nat ∧
  ∀ k o a, Ev (CCreate k o) a ∈ tr → wellFormed k o = true.
Proof.
  assert (fits (nn_Name sampleRequest)) as Hfits by (split; [vm_compute; reflexivity|simpl; lia]).
  assert (isDNSLabel (OperatorNamespace sampleReconciler) = true) as Hop by (vm_compute; reflexivity).
  split; [exact Hop|]. split; [exact Hfits|]. split; [exact labelServer_ok|]. intros tr.
  split; [vm_compute; reflexivity|].
  exact (proj1 (reconcile_wellformed labelServer sampleReconciler sampleRequest () Hop Hfits labelServer_ok)).
Defined.
