(* ===== verification/Api.v ===== *)
(** The API server as an abstract state machine: the documented behaviour of
    reads, writes and deletions on a cluster, as an interface the store-level
    theorems are proved against.  MemCluster's server implements it. *)
From S2P Require Import Prelude Kube V1alpha1 Client Resources Lib Server Logic Bindings NetPolicy BackupJob Reconcile MemCluster.

(** * Clusters *)

(** The objects by kind and key, and in the order they are listed. *)
Record cluster := MkCluster {
  view : ∀ k : kind, NamespacedName → option (obj k);
  items : ∀ k : kind, list (obj k)
}.

Definition terminating (m : ObjectMeta) : bool := negb (Time_IsZero (DeletionTimestamp m)).

(** Objects are found under their own key and listed once; one that is terminating
    is kept by a finalizer. *)
Record wf (cl : cluster) : Prop := {
  wf_key k key o : view cl k key = Some o → ObjectKey k o = key;
  wf_items k o : o ∈ items cl k ↔ view cl k (ObjectKey k o) = Some o;
  wf_nodup k : NoDup (map (ObjectKey k) (items cl k));
  wf_terminating k key o : view cl k key = Some o → terminating (obj_meta k o) = true →
    Finalizers (obj_meta k o) ≠ []
}.

Definition unchanged (k : kind) (cl cl' : cluster) : Prop :=
  (∀ key, view cl' k key = view cl k key) ∧ items cl' k = items cl k.

Definition same (cl cl' : cluster) : Prop := cl' = cl.

(** One key of one kind gets a new content, or none. *)
Definition stores (k : kind) (key : NamespacedName) (oo : option (obj k)) (cl cl' : cluster) : Prop :=
  (∀ key', view cl' k key' = if decide (key' = key) then oo else view cl k key') ∧
  ∀ k', k' ≠ k → unchanged k' cl cl'.

(** * What the server keeps of a submitted object *)

(** The parts of a CronJob that the operator compares. *)
Definition cronParts (cj : CronJob) : string * bool * list (string * list string) * string :=
  (cjs_Schedule (cj_Spec cj), default false (cjs_Suspend (cj_Spec cj)),
   map (λ c, (ctr_Image c, ctr_Command c)) (pod_Containers (cronPod cj)), backupHostPath (cronPod cj)).

(** Defaulting may complete an object, not change what was submitted. *)
Definition sameParts (k : kind) : obj k → obj k → Prop :=
  match k return obj k → obj k → Prop with
  | KSharedVolume => λ o o', sv_core o' = sv_core o
  | KConfigMap => λ o o', cm_Data o' = cm_Data o
  | KDeployment => λ o o',
      map ctr_Image (pod_Containers (tpl_Spec (dep_Template o')))
        = map ctr_Image (pod_Containers (tpl_Spec (dep_Template o))) ∧
      tpl_Annotations (dep_Template o') = tpl_Annotations (dep_Template o)
  | KNetworkPolicy => λ o o', np_Spec o' = np_Spec o
  | KCronJob => λ o o', cronParts o' = cronParts o
  | KService => λ o o', svc_ClusterIP o ≠ "" → svc_ClusterIP o' = svc_ClusterIP o
  | KPV => λ o o', pvs_ClaimRef (pv_Spec o') = pvs_ClaimRef (pv_Spec o) ∧ pvs_NFS (pv_Spec o') = pvs_NFS (pv_Spec o)
  | _ => λ _ _, True
  end.

(** [o'] is what [o] has become in the store. *)
Definition accepted (k : kind) (o o' : obj k) : Prop :=
  ObjectKey k o' = ObjectKey k o ∧
  Labels (obj_meta k o') = Labels (obj_meta k o) ∧
  OwnerReferences (obj_meta k o') = OwnerReferences (obj_meta k o) ∧
  (∀ f, f ∈ Finalizers (obj_meta k o) → f ∈ Finalizers (obj_meta k o')) ∧
  sameParts k o o'.

(** A new object is not terminating, and a Service gets an address. *)
Definition fresh (k : kind) : obj k → Prop :=
  match k return obj k → Prop with
  | KService => λ s, terminating (svc_ObjectMeta s) = false ∧ svc_ClusterIP s ≠ ""
  | k => λ o, terminating (obj_meta k o) = false
  end.

(** A terminating object that has lost its last finalizer is gone. *)
Definition survives (k : kind) (o : obj k) : option (obj k) :=
  if terminating (obj_meta k o) && bool_decide (Finalizers (obj_meta k o) = []) then None else Some o.

(** * One call *)

(** The answer to a call and the cluster after it; when [faulty], reads may fail
    (writes may always be refused). *)
Definition api_step (faulty : Prop) (cl : cluster) (c : call) : resp c → cluster → Prop :=
  match c return resp c → cluster → Prop with
  | CGet k key => λ a cl', same cl cl' ∧
      (match view cl k key with
       | Some o => a = inr o
       | None => ∃ e, a = inl e ∧ IsNotFound e = true
       end ∨ (faulty ∧ ∃ e, a = inl e ∧ IsNotFound e = false))
  | CList k opt => λ a cl', same cl cl' ∧
      (a = inr (filter (λ o, selected opt (Labels (obj_meta k o)) = true) (items cl k)) ∨
       (faulty ∧ ∃ e, a = inl e))
  | CCreate k o => λ a cl',
      match a with
      | inl e => same cl cl' ∧ (IsAlreadyExists e = true → is_Some (view cl k (ObjectKey k o)))
      | inr o' => view cl k (ObjectKey k o) = None ∧ accepted k o o' ∧ fresh k o' ∧
          stores k (ObjectKey k o) (Some o') cl cl'
      end
  | CUpdate k u => λ a cl',
      match a with
      | inl _ => same cl cl'
      | inr u' => ∃ old, view cl k (ObjectKey k u) = Some old ∧
          (ResourceVersion (obj_meta k u) = "" ∨ ResourceVersion (obj_meta k u) = ResourceVersion (obj_meta k old)) ∧
          accepted k u u' ∧ DeletionTimestamp (obj_meta k u') = DeletionTimestamp (obj_meta k old) ∧
          stores k (ObjectKey k u) (survives k u') cl cl'
      end
  | CStatusUpdate u => λ a cl',
      match a with
      | inl _ => same cl cl'
      | inr u' => ∃ old, view cl KSharedVolume (ObjectKey KSharedVolume u) = Some old ∧
          ObjectKey KSharedVolume u' = ObjectKey KSharedVolume u ∧ sv_core u' = sv_core u ∧
          sv_Status u' = sv_Status u ∧
          (∀ f, f ∈ Finalizers (sv_ObjectMeta old) → f ∈ Finalizers (sv_ObjectMeta u')) ∧
          DeletionTimestamp (sv_ObjectMeta u') = DeletionTimestamp (sv_ObjectMeta old) ∧
          stores KSharedVolume (ObjectKey KSharedVolume u) (survives KSharedVolume u') cl cl'
      end
  | CDelete k o _ => λ a cl',
      match a with
      | Some e => same cl cl' ∧ (IsNotFound e = true → view cl k (ObjectKey k o) = None)
      | None => ∃ old, view cl k (ObjectKey k o) = Some old ∧
          if decide (Finalizers (obj_meta k old) = []) then stores k (ObjectKey k o) None cl cl'
          else ∃ o', accepted k old o' ∧ terminating (obj_meta k o') = true ∧
                 stores k (ObjectKey k o) (Some o') cl cl'
      end
  | CEventf _ _ _ _ _ => λ _ cl', same cl cl'
  | CNow => λ _ cl', same cl cl'
  end.

(** The cluster a server's state stands for, in its good states. *)
Class Abstraction (S : Type) := {
  good : S → Prop;
  abs : S → cluster
}.

(** A server that behaves so. *)
Class ApiServer {S} `{!Abstraction S} (srv : server S) (faulty : Prop) : Prop := {
  abs_wf s : good s → wf (abs s);
  good_step s c : good s → good (srv s c).2;
  abs_step s c : good s → api_step faulty (abs s) c (srv s c).1 (abs (srv s c).2)
}.

(** * Running a handler on a cluster *)

Definition api_trans (faulty : Prop) (cl : cluster) (c : call) (a : resp c) (cl' : cluster) : Prop :=
  api_step faulty cl c a cl' ∧ wf cl'.

Section Run.
Context {S} `{!Abstraction S} (srv : server S) {faulty : Prop} `{!ApiServer srv faulty}.

Lemma run_good {A} (p : prog A) s : good s → good (state_of (run srv p s)).
Proof.
  revert s. induction p as [a|c k IH]; intros s Hs; [done|]. cbn [run].
  pose proof (good_step (faulty := faulty) s c Hs) as Hg. destruct (srv s c) as [a s1].
  specialize (IH a s1 Hg). by destruct (run srv (k a) s1) as [[? ?] ?].
Qed.

(** What [wp] over clusters says of a run; the guard holds of every call. *)
Lemma run_api {A} (p : prog A) (guar : cluster → call → Prop) Q s :
  good s → wp guar (api_trans faulty) p Q (abs s) →
  Q (abs (state_of (run srv p s))) (result_of (run srv p s)).
Proof.
  revert s. induction p as [a|c k IH]; intros s Hs; [done|]. intros [_ Hk]. cbn [run].
  pose proof (good_step (faulty := faulty) s c Hs) as Hg. pose proof (abs_step (faulty := faulty) s c Hs) as Ha.
  destruct (srv s c) as [a s1]. cbn [fst snd] in *.
  specialize (IH a s1 Hg (Hk a (abs s1) (conj Ha (abs_wf s1 Hg)))).
  by destruct (run srv (k a) s1) as [[? ?] ?].
Qed.

(** A history logic's verdict on a run whose states keep an invariant. *)
Lemma run_wp_inv {A} (I : S → Prop) allowed rely (p : prog A) Q h s :
  (∀ s h c, I s → allowed h c → rely c (srv s c).1 ∧ I (srv s c).2) →
  hwp allowed rely p Q h → I s →
  Q (h ++ trace_of (run srv p s)) (result_of (run srv p s)) ∧ I (state_of (run srv p s)) ∧
  (∀ pre e post, trace_of (run srv p s) = pre ++ e :: post → allowed (h ++ pre) (ev_call e)).
Proof.
  intros Hstep. revert h s. induction p as [a|c k IH]; intros h s.
  { intros HQ Hs. unfold trace_of, result_of; simpl. rewrite app_nil_r. split_and!; [done..|].
    intros [] ? ? ?; simplify_list_eq. }
  intros [Hg Hk] Hs. destruct (Hstep s h c Hs Hg) as [Ha Hi]. cbn [run].
  destruct (srv s c) as [a s1]. cbn [fst snd] in *.
  destruct (IH a (h ++ [Ev c a]) s1 (Hk a _ (conj Ha eq_refl)) Hi) as (HQ & Hi' & Hall).
  destruct (run srv (k a) s1) as [[tr s2] b]. unfold trace_of, state_of, result_of in *; simpl in *.
  rewrite <- app_assoc in HQ. split_and!; [done..|].
  intros [|e0 pre] e post Heq; simplify_list_eq; [done|].
  specialize (Hall pre e post eq_refl). by rewrite <- app_assoc in Hall.
Qed.
End Run.
