(* ===== verification/MemApi.v ===== *)
(** The in-memory server of MemCluster.v implements the interface of Api.v. *)
From S2P Require Import Prelude Kube V1alpha1 Client Resources Lib Server Logic Bindings NetPolicy BackupJob Reconcile MemCluster Api.

(** * States that stand for clusters *)

Definition memGood (m : mem) : Prop :=
  (0 < mem_next m)%Z ∧
  ∀ k key o, mem_store m k !! key = Some o →
    ObjectKey k o = key ∧ (terminating (obj_meta k o) = true → Finalizers (obj_meta k o) ≠ []).

#[export] Instance memAbstraction : Abstraction mem := {|
  good := memGood;
  abs m := MkCluster (λ k key, mem_store m k !! key) (λ k, map snd (map_to_list (mem_store m k)))
|}.

(** * The store *)

Lemma store_set_eq st k m : store_set st k m k = m.
Proof.
  unfold store_set. destruct (decide (k = k)) as [e|]; [|done].
  by rewrite (Eqdep_dec.UIP_dec kind_eq_dec e eq_refl).
Qed.

Lemma store_set_ne st k k' m : k' ≠ k → store_set st k m k' = st k'.
Proof. intros Hne. unfold store_set. by destruct (decide (k = k')) as [<-|]. Qed.

Lemma mem_put_stores m k (o : obj k) : stores k (ObjectKey k o) (Some o) (abs m) (abs (mem_put m k o)).
Proof.
  split.
  - intros key'. simpl. rewrite store_set_eq. case_decide as Hk; [subst; by rewrite lookup_insert_eq|].
    by rewrite lookup_insert_ne.
  - intros k' Hne. split; simpl; by rewrite store_set_ne.
Qed.

Lemma mem_remove_stores m k key : stores k key None (abs m) (abs (mem_remove m k key)).
Proof.
  split.
  - intros key'. simpl. rewrite store_set_eq. case_decide as Hk; [subst; by rewrite lookup_delete_eq|].
    by rewrite lookup_delete_ne.
  - intros k' Hne. split; simpl; by rewrite store_set_ne.
Qed.

Lemma mem_put_good m k (o : obj k) :
  memGood m → (terminating (obj_meta k o) = true → Finalizers (obj_meta k o) ≠ []) → memGood (mem_put m k o).
Proof.
  intros [Hn Hm] Ho. split; [simpl; lia|]. intros k' key o'. simpl.
  destruct (decide (k' = k)) as [->|Hne]; [|rewrite store_set_ne by done; apply Hm].
  rewrite store_set_eq. intros [[<- <-]|[_ Hl]]%lookup_insert_Some; [done|by apply Hm].
Qed.

Lemma mem_remove_good m k key : memGood m → memGood (mem_remove m k key).
Proof.
  intros [Hn Hm]. split; [simpl; lia|]. intros k' key' o'. simpl.
  destruct (decide (k' = k)) as [->|Hne]; [|rewrite store_set_ne by done; apply Hm].
  rewrite store_set_eq. intros [_ Hl]%lookup_delete_Some. by apply Hm.
Qed.

Lemma same_refl cl : same cl cl.
Proof. done. Qed.

Lemma memGood_wf m : memGood m → wf (abs m).
Proof.
  intros [_ Hm]. split; simpl.
  - intros k key o Ho. by apply Hm.
  - intros k o. rewrite list_elem_of_fmap. split.
    + intros ([key o'] & -> & Hl%elem_of_map_to_list). simpl. by destruct (Hm k key o' Hl) as [-> _].
    + intros Hl. exists (ObjectKey k o, o). split; [done|by apply elem_of_map_to_list].
  - intros k. assert (map (ObjectKey k) (map snd (map_to_list (mem_store m k))) = map fst (map_to_list (mem_store m k))) as ->.
    { rewrite map_map. apply map_ext_in. intros [key o] Hin%list_elem_of_In%elem_of_map_to_list. by apply (Hm k key o). }
    apply NoDup_fst_map_to_list.
  - intros k key o Ho. exact (proj2 (Hm k key o Ho)).
Qed.

(** * The calls *)

Lemma obj_meta_set k m (o : obj k) : obj_meta k (obj_set_meta k m o) = m.
Proof. by destruct k. Qed.

Lemma sameParts_set k m (o : obj k) : Name m = Name (obj_meta k o) → sameParts k o (obj_set_meta k m o).
Proof. intros Hn. destruct k; try done. simpl. unfold sv_core, sv_Name. simpl. by rewrite Hn. Qed.

Lemma accepted_set k m (o : obj k) :
  Name m = Name (obj_meta k o) → Namespace m = Namespace (obj_meta k o) → Labels m = Labels (obj_meta k o) →
  OwnerReferences m = OwnerReferences (obj_meta k o) → Finalizers m = Finalizers (obj_meta k o) →
  accepted k o (obj_set_meta k m o).
Proof.
  intros Hn Hns Hl Ho Hf. unfold accepted, ObjectKey. rewrite !obj_meta_set, Hn, Hns.
  split_and!; try done; [by rewrite Hf|by apply sameParts_set].
Qed.

Lemma keepStatus_meta k (old o : obj k) : obj_meta k (keepStatus k old o) = obj_meta k o.
Proof. by destruct k. Qed.

Lemma accepted_keepStatus k (old o o' : obj k) : accepted k (keepStatus k old o) o' → accepted k o o'.
Proof. by destruct k. Qed.

Lemma assignIP_meta n k (o : obj k) : obj_meta k (assignIP n k o) = obj_meta k o.
Proof. destruct k; try done. simpl. by case_decide. Qed.

Lemma assignIP_accepted n k (o o' : obj k) : accepted k o o' → accepted k o (assignIP n k o').
Proof.
  destruct k; try done. simpl. case_decide as Hip; [|done]. unfold accepted, ObjectKey. simpl.
  intros (Hk & Hl & Ho & Hf & Hp). split_and!; try done. intros Hne. by rewrite (Hp Hne) in Hip.
Qed.

Lemma assignIP_fresh n k (o : obj k) : terminating (obj_meta k o) = false → fresh k (assignIP n k o).
Proof.
  destruct k; try done. simpl. intros Ht. case_decide as Hip; [|done]. split; [done|]. simpl. by intros [=].
Qed.

Lemma stale_false old new :
  stale old new = false → ResourceVersion new = "" ∨ ResourceVersion new = ResourceVersion old.
Proof.
  unfold stale. rewrite andb_false_iff, !bool_decide_eq_false.
  intros [Hn|Hn]; [left|right]; by apply dec_stable.
Qed.

Lemma memUpdate_step m k (u : obj k) :
  memGood m →
  memGood (memUpdate m k u).2 ∧ api_step False (abs m) (CUpdate k u) (memUpdate m k u).1 (abs (memUpdate m k u).2).
Proof.
  intros Hm. unfold memUpdate. destruct (mem_store m k !! ObjectKey k u) as [old|] eqn:Ho; [|by split].
  destruct (stale _ _) eqn:Hs; [by split|]. cbv zeta.
  set (meta := stampUpdate _ _ _). set (u' := obj_set_meta k meta _).
  assert (obj_meta k u' = meta) as Hmeta by apply obj_meta_set.
  assert (accepted k u u') as Hacc.
  { apply (accepted_keepStatus k old). apply accepted_set; by rewrite keepStatus_meta. }
  assert (survives k u' = if negb (Time_IsZero (DeletionTimestamp meta)) && bool_decide (Finalizers meta = [])
    then None else Some u') as Hsurv by (unfold survives, terminating; by rewrite Hmeta).
  assert (∀ cl', stores k (ObjectKey k u) (survives k u') (abs m) cl' →
    api_step False (abs m) (CUpdate k u) (inr u') cl') as Hstep.
  { intros cl' Hst. exists old. split_and!; [exact Ho|by apply stale_false|exact Hacc|by rewrite Hmeta|exact Hst]. }
  destruct (negb _ && _) eqn:Hgone; cbn [fst snd].
  - split; [by apply mem_remove_good|]. apply Hstep. rewrite Hsurv. apply mem_remove_stores.
  - split.
    + apply mem_put_good; [done|]. unfold terminating. rewrite Hmeta. intros Ht Hnil.
      rewrite Ht in Hgone. simpl in Hgone. by apply bool_decide_eq_false in Hgone.
    + apply Hstep. rewrite Hsurv. rewrite <- (proj1 Hacc). apply mem_put_stores.
Qed.

Lemma memStatus_step m (u : SharedVolume) :
  memGood m →
  memGood (memServer m (CStatusUpdate u)).2 ∧
  api_step False (abs m) (CStatusUpdate u) (memServer m (CStatusUpdate u)).1 (abs (memServer m (CStatusUpdate u)).2).
Proof.
  intros Hm. cbn [memServer]. destruct (mem_store m KSharedVolume !! ObjectKey KSharedVolume u) as [old|] eqn:Ho; [|by split].
  destruct (stale _ _) eqn:Hs; [by split|]. cbv zeta.
  set (u' := MkSharedVolume _ _ _). destruct Hm as [Hn Hm].
  assert (terminating (sv_ObjectMeta u') = true → Finalizers (sv_ObjectMeta u') ≠ []) as Hterm
    by exact (proj2 (Hm KSharedVolume _ _ Ho)).
  split; [by apply mem_put_good|]. exists old. split_and!; [exact Ho|done..|].
  assert (survives KSharedVolume u' = Some u') as ->.
  { unfold survives. destruct (terminating _) eqn:Ht; [|done]. simpl. rewrite bool_decide_false; [done|by apply Hterm]. }
  change (ObjectKey KSharedVolume u) with (ObjectKey KSharedVolume u'). apply mem_put_stores.
Qed.

Lemma memDelete_step m k (o : obj k) prop :
  memGood m →
  memGood (memServer m (CDelete k o prop)).2 ∧
  api_step False (abs m) (CDelete k o prop) (memServer m (CDelete k o prop)).1
    (abs (memServer m (CDelete k o prop)).2).
Proof.
  intros Hm. cbn [memServer]. destruct (mem_store m k !! ObjectKey k o) as [old|] eqn:Ho; [|by split].
  destruct (Finalizers (obj_meta k old)) as [|f fs] eqn:Hf; cbn [fst snd].
  - split; [by apply mem_remove_good|]. exists old. split; [exact Ho|]. rewrite decide_True by done.
    apply mem_remove_stores.
  - set (o' := obj_set_meta _ _ _).
    assert (obj_meta k o' = stampDelete (mem_next m) (obj_meta k old)) as Hmeta by apply obj_meta_set.
    split.
    + apply mem_put_good; [done|]. rewrite Hmeta. simpl. by rewrite Hf.
    + exists old. split; [exact Ho|]. rewrite decide_False by (by rewrite Hf).
      assert (accepted k old o') as Hacc by by apply accepted_set.
      exists o'. split_and!; [exact Hacc| |].
      * rewrite Hmeta. unfold terminating. simpl. destruct (Z.eqb_spec (mem_next m) 0); [|done].
        destruct Hm. lia.
      * destruct Hm as [_ Hm]. rewrite <- (proj1 (Hm k _ old Ho)), <- (proj1 Hacc). apply mem_put_stores.
Qed.

Lemma memCreate_step m k (o : obj k) :
  memGood m →
  memGood (memServer m (CCreate k o)).2 ∧
  api_step False (abs m) (CCreate k o) (memServer m (CCreate k o)).1 (abs (memServer m (CCreate k o)).2).
Proof.
  intros Hm. cbn [memServer]. destruct (mem_store m k !! ObjectKey k o) as [old|] eqn:Ho; cbn [fst snd].
  { split; [done|]. split; [apply same_refl|]. intros _. by exists old. }
  set (o1 := obj_set_meta k _ o). assert (terminating (obj_meta k o1) = false) as Ht.
  { unfold o1. by rewrite obj_meta_set. }
  assert (accepted k o (assignIP (mem_next m) k o1)) as Hacc by by apply assignIP_accepted, accepted_set.
  split.
  - apply mem_put_good; [done|]. rewrite assignIP_meta, Ht. done.
  - split_and!; [exact Ho|exact Hacc|by apply assignIP_fresh|].
    rewrite <- (proj1 Hacc). apply mem_put_stores.
Qed.

#[export] Instance memApi : ApiServer memServer False.
Proof.
  split; [apply memGood_wf|..]; intros m c Hm.
  - destruct c as [k key|k opt|k o|k u|u|k o prop| |]; try done.
    + by apply memCreate_step.
    + by apply memUpdate_step.
    + by apply memStatus_step.
    + by apply memDelete_step.
  - destruct c as [k key|k opt|k o|k u|u|k o prop| |]; try (split; done).
    + split; [apply same_refl|]. left. simpl. destruct Hm as [_ Hm].
      destruct (mem_store m k !! key) as [o|] eqn:Ho; [|by eexists].
      rewrite decide_True; [done|by apply Hm].
    + split; [apply same_refl|]. by left.
    + by apply memCreate_step.
    + by apply memUpdate_step.
    + by apply memStatus_step.
    + by apply memDelete_step.
Qed.

(** Other actors' objects keep a good state good. *)
Lemma emptyMem_good : memGood emptyMem.
Proof. split; [done|]. intros k key o Ho. simpl in Ho. unfold emptyStore in Ho. by rewrite lookup_empty in Ho. Qed.

Lemma with_obj_good k (o : obj k) m :
  memGood m → terminating (obj_meta k o) = false → memGood (with_obj k o m).
Proof. intros Hm Ho. apply mem_put_good; [done|]. by rewrite Ho. Qed.
