(* ===== verification/Settle.v ===== *)
(** What one pass leaves in a cluster nobody else writes to: rules for handlers on
    the cluster of Api.v, and for each component the state it has brought about. *)
From S2P Require Import Prelude Kube V1alpha1 Client Resources Lib Server Logic Bindings NetPolicy BackupJob Reconcile Footprints Targets Netip NetFacts LiveServer Drift MemCluster Api.

(** * Handlers on a cluster *)

(** From a well-formed cluster [cl], with answers that are true, [p] ends in a
    well-formed cluster, and a success satisfies [Q]. *)
Definition sat {A} (cl : cluster) (p : prog (outcome A)) (Q : cluster → A → Prop) : Prop :=
  wf cl → wp (λ _ _, True) (api_trans False) p (λ cl' o, wf cl' ∧ ∀ a, o = Ok a → Q cl' a) cl.

(** The kinds whose objects the listed calls leave alone. *)
Definition untouched (sigs : list (verb * kind)) (k : kind) : bool :=
  forallb (λ vk, negb (bool_decide (vk.2 = k) && bool_decide (vk.1 ∈ [VCreate; VUpdate; VStatusUpdate; VDelete]))) sigs.

(** * What is in place *)

Section Places.
Context `{Lib} (r : SharedVolumeReconciler) (sv : SharedVolume).

Definition wantedTemplate : PodTemplateSpec :=
  dep_Template (BuildServerDeployment sv (OperatorNamespace r) (GaneshaImage r) (BuildConfigMap sv (OperatorNamespace r))).

Definition backingIn (cl : cluster) : Prop := is_Some (view cl KPVC (backingKey r sv)).

Definition configIn (cl : cluster) : Prop :=
  ∃ cm, view cl KConfigMap (MkNN (OperatorNamespace r) (ConfigMapName sv)) = Some cm ∧
    mapIndex (cm_Data cm) ganeshaConfKey = Config.

(** The Deployment, if any, needs no roll. *)
Definition deployIn (cl : cluster) : Prop :=
  ∀ d, view cl KDeployment (serverKey r sv) = Some d → templateDrifted (dep_Template d) wantedTemplate = Some false.

(** The Service, if there already, has its address. *)
Definition addressed (cl : cluster) : Prop :=
  ∀ svc, view cl KService (serverKey r sv) = Some svc → svc_ClusterIP svc ≠ "".

(** Nothing is left to seed before the server runs. *)
Definition gateOpen (cl : cluster) : Prop :=
  seedNotInPlay sv = true ∨ is_Some (view cl KDeployment (serverKey r sv)).

Definition serviceIn (ip : string) (cl : cluster) : Prop :=
  ∃ svc, view cl KService (serverKey r sv) = Some svc ∧ svc_ClusterIP svc = ip.

(** A PV that waits for no repair. *)
Definition pvSettled (pv : PersistentVolume) : Prop :=
  pv_Phase pv ≠ VolumeReleased ∨ ∀ ref, pvs_ClaimRef (pv_Spec pv) = Some ref → ref_UID ref = "".

Definition pvIn (ns : string) (cl : cluster) : Prop :=
  ∃ pv, view cl KPV (MkNN "" (PVName sv ns)) = Some pv ∧ pvSettled pv.

Definition pvcIn (ns : string) (cl : cluster) : Prop := is_Some (view cl KPVC (MkNN ns (ConsumerPVCName sv))).

(** Every PV listed for the volume belongs to one of [targets]. *)
Definition noStale (targets : list string) (cl : cluster) : Prop :=
  ∀ key pv ref, view cl KPV key = Some pv → selected (byVolume sv) (Labels (pv_ObjectMeta pv)) = true →
    pvs_ClaimRef (pv_Spec pv) = Some ref → ref_Namespace ref ∈ targets.

Definition wantedPolicy (targets : list string) (nodes : list Node) : NetworkPolicySpec :=
  np_Spec (BuildNetworkPolicy sv (OperatorNamespace r) targets (nodeIPsRef nodes) (AllowCIDRs r)).

Definition policyIn (targets : list string) (cl : cluster) : Prop :=
  NetworkPolicyField (sv_Spec sv) ≠ NetworkPolicyDisabled →
  ∃ np, view cl KNetworkPolicy (serverKey r sv) = Some np ∧
    SemanticDeepEqual (np_Spec np) (wantedPolicy targets (items cl KNode)) = true.

Definition backupIn (cl : cluster) : Prop :=
  Backup (sv_Spec sv) ≠ None →
  ∃ cj want, view cl KCronJob (MkNN (OperatorNamespace r) (BackupCronJobName sv)) = Some cj ∧
    BuildBackupCronJob sv (OperatorNamespace r) (BackupImage r) = Some want ∧
    backupCronJobDrifted cj want = Some false.
End Places.

(** * Rules *)

Section Rules.
Local Open Scope go_scope.
Implicit Types (cl : cluster).

Lemma sat_ok {A} cl (a : A) (Q : cluster → A → Prop) : Q cl a → sat cl (Ret (Ok a)) Q.
Proof. intros HQ Hwf. apply wp_ret. split; [done|]. by intros ? [= <-]. Qed.

Lemma sat_err {A} cl e (Q : cluster → A → Prop) : sat cl (Ret (Err e)) Q.
Proof. intros Hwf. by apply wp_ret. Qed.

Lemma sat_panic {A} cl (Q : cluster → A → Prop) : sat cl (Ret Panic) Q.
Proof. intros Hwf. by apply wp_ret. Qed.

Lemma sat_mono {A} cl (p : prog (outcome A)) (Q Q' : cluster → A → Prop) :
  (∀ cl' a, wf cl' → Q cl' a → Q' cl' a) → sat cl p Q → sat cl p Q'.
Proof.
  intros HQ Hp Hwf. eapply wp_mono; [|by apply Hp]. intros cl' o [Hwf' Ho]. split; [done|]. auto.
Qed.

Lemma sat_bindE {A B} cl (p : prog (outcome A)) (f : A → prog (outcome B)) Q1 (Q2 : cluster → B → Prop) :
  sat cl p Q1 → (∀ cl' a, wf cl' → Q1 cl' a → sat cl' (f a) Q2) → sat cl (bindE p f) Q2.
Proof.
  intros Hp Hf Hwf. apply wp_bindE. eapply wp_mono; [|by apply Hp].
  intros cl' [a|e|] [Hwf' Ha]; [by apply Hf; auto|done..].
Qed.

Lemma sat_orPanic {A B} cl (o : option A) (f : A → prog (outcome B)) (Q : cluster → B → Prop) :
  (∀ a, o = Some a → sat cl (f a) Q) → sat cl (orPanic o f) Q.
Proof. intros Hf. destruct o; [by apply Hf|apply sat_panic]. Qed.

(** A read finds what is there. *)
Lemma sat_get {A} cl k key (f : error + obj k → prog (outcome A)) (Q : cluster → A → Prop) :
  (∀ o, view cl k key = Some o → sat cl (f (inr o)) Q) →
  (∀ e, view cl k key = None → IsNotFound e = true → sat cl (f (inl e)) Q) →
  sat cl (Get k key ≫= f) Q.
Proof.
  intros Hs Hn Hwf. apply wp_bind, wp_trigger; [done|]. intros a cl' [[-> [Ha|[[] _]]] _].
  destruct (view cl k key) as [o|]; [subst a; by apply Hs|]. destruct Ha as (e & -> & He). by apply Hn.
Qed.

Lemma sat_list {A} cl k opt (f : error + list (obj k) → prog (outcome A)) (Q : cluster → A → Prop) :
  sat cl (f (inr (filter (λ o, selected opt (Labels (obj_meta k o)) = true) (items cl k)))) Q →
  sat cl (ListObjs k opt ≫= f) Q.
Proof.
  intros Hs Hwf. apply wp_bind, wp_trigger; [done|]. intros a cl' [[-> [->|[[] _]]] _]. by apply Hs.
Qed.

Lemma sat_now {A} cl (f : Time → prog (outcome A)) (Q : cluster → A → Prop) :
  (∀ t, sat cl (f t) Q) → sat cl (Now ≫= f) Q.
Proof. intros Hs Hwf. apply wp_bind, wp_trigger; [done|]. intros a cl' [-> _]. by apply Hs. Qed.

Lemma sat_event {A} cl sv t rs ac n (f : () → prog (outcome A)) (Q : cluster → A → Prop) :
  sat cl (f tt) Q → sat cl (Eventf sv t rs ac n ≫= f) Q.
Proof. intros Hs Hwf. apply wp_bind, wp_trigger; [done|]. intros [] cl' [-> _]. by apply Hs. Qed.

(** Creating what was not there: nobody else did. *)
Lemma sat_createOwned `{Lib} cl k sv (o : obj k) :
  view cl k (ObjectKey k o) = None →
  sat cl (createOwned k sv o)
    (λ cl' o', ∃ refs, accepted k (obj_SetOwnerReferences k refs o) o' ∧ fresh k o' ∧
       view cl' k (ObjectKey k o) = Some o' ∧ stores k (ObjectKey k o) (Some o') cl cl').
Proof.
  intros Hn Hwf. unfold createOwned. destruct (SetControllerReference _ _) as [err|refs]; [by apply wp_ret|].
  assert (ObjectKey k (obj_SetOwnerReferences k refs o) = ObjectKey k o) as Hkey by by destruct k.
  apply wp_bind, wp_trigger; [done|]. intros [err|o'] cl' [Hstep Hwf']; cbn [api_step] in Hstep; rewrite Hkey in Hstep.
  - destruct Hstep as [-> Ha]. destruct (IsAlreadyExists err); apply wp_ret; [|done].
    rewrite Hn in Ha. by destruct (Ha eq_refl).
  - destruct Hstep as (_ & Hacc & Hf & Hst). apply wp_ret. split; [done|]. intros ? [= <-].
    exists refs. split; [exact Hacc|]. split; [exact Hf|]. split; [|exact Hst].
    destruct Hst as [Hv _]. by rewrite Hv, decide_True.
Qed.

(** Re-submitting an object that is there with another part. *)
Lemma sat_UpdateE cl k (old u : obj k) :
  view cl k (ObjectKey k u) = Some old →
  (∀ f, f ∈ Finalizers (obj_meta k old) → f ∈ Finalizers (obj_meta k u)) →
  sat cl (UpdateE k u)
    (λ cl' u', accepted k u u' ∧ DeletionTimestamp (obj_meta k u') = DeletionTimestamp (obj_meta k old) ∧
       view cl' k (ObjectKey k u) = Some u' ∧ stores k (ObjectKey k u) (Some u') cl cl').
Proof.
  intros Hold Hf Hwf. apply wp_bind, wp_trigger; [done|]. intros [err|u'] cl' [Hstep Hwf'].
  { apply wp_ret. by split. }
  destruct Hstep as (old' & Hold' & _ & Hacc & Hdel & Hst). assert (old' = old) as -> by congruence.
  assert (survives k u' = Some u') as Hs.
  { unfold survives, terminating. rewrite Hdel. fold (terminating (obj_meta k old)).
    destruct (terminating (obj_meta k old)) eqn:Ht; [|done]. simpl. rewrite bool_decide_false; [done|].
    pose proof (wf_terminating _ Hwf _ _ _ Hold Ht) as Hne. intros Hnil.
    destruct Hacc as (_ & _ & _ & Hfin & _). destruct (Finalizers (obj_meta k old)) as [|f fs]; [done|].
    specialize (Hfin f (Hf f ltac:(by left))). rewrite Hnil in Hfin. by apply elem_of_nil in Hfin. }
  rewrite Hs in Hst. apply wp_ret. split; [done|]. intros ? [= <-].
  split; [exact Hacc|]. split; [exact Hdel|]. split; [|exact Hst].
  destruct Hst as [Hv _]. by rewrite Hv, decide_True.
Qed.

(** Deleting what no finalizer holds. *)
Lemma sat_delete cl k (o : obj k) prop :
  (∀ old, view cl k (ObjectKey k o) = Some old → Finalizers (obj_meta k old) = []) →
  sat cl (DeleteIgnoreNotFound k o prop) (λ cl' _, view cl' k (ObjectKey k o) = None).
Proof.
  intros Hf Hwf. unfold DeleteIgnoreNotFound. apply wp_bind, wp_trigger; [done|]. intros [e|] cl' [Hstep Hwf'].
  - destruct Hstep as [-> Hn]. unfold IgnoreNotFound. destruct (IsNotFound e) eqn:He; apply wp_ret; [|done].
    split; [done|]. intros _ _. by apply Hn.
  - destruct Hstep as (old & Hold & Hd). rewrite decide_True in Hd by by apply Hf.
    apply wp_ret. split; [done|]. intros _ _. destruct Hd as [Hv _]. by rewrite Hv, decide_True.
Qed.

(** Whatever happens, the cluster stays well-formed. *)
Lemma sat_any {A} cl (p : prog (outcome A)) : sat cl p (λ _ _, True).
Proof.
  intros Hwf. revert cl Hwf. induction p as [a|c k IH]; intros cl Hwf; [by apply wp_ret|].
  split; [done|]. intros a cl' [_ Hwf']. by apply IH.
Qed.

(** * Frames *)

Lemma unchanged_refl k cl : unchanged k cl cl.
Proof. done. Qed.

Lemma unchanged_trans k cl1 cl2 cl3 : unchanged k cl1 cl2 → unchanged k cl2 cl3 → unchanged k cl1 cl3.
Proof. intros [H1 H2] [H3 H4]. split; [intros key; by rewrite H3|congruence]. Qed.

(** A call only changes the kind it writes. *)
Lemma step_unchanged (faulty : Prop) sigs k cl c a cl' :
  within sigs c = true → untouched sigs k = true → api_step faulty cl c a cl' → unchanged k cl cl'.
Proof.
  unfold within. intros Hc%bool_decide_eq_true Hu. unfold untouched in Hu. rewrite forallb_forall in Hu.
  specialize (Hu _ (proj1 (list_elem_of_In _ _) Hc)).
  assert (∀ k' v, sig c = (v, k') → v ∈ [VCreate; VUpdate; VStatusUpdate; VDelete] → k ≠ k') as Hne.
  { intros k' v Hs Hv ->. rewrite Hs in Hu. simpl in Hu. by rewrite !bool_decide_true in Hu by done. }
  clear Hu Hc. destruct c as [k1 key|k1 opt|k1 o|k1 u|u|k1 o prop| |]; cbn [api_step].
  - intros [-> _]. done.
  - intros [-> _]. done.
  - specialize (Hne _ _ eq_refl ltac:(set_solver)). destruct a; [intros [-> _]; done|].
    intros (_ & _ & _ & _ & Hst). by apply Hst.
  - specialize (Hne _ _ eq_refl ltac:(set_solver)). destruct a; [intros ->; done|].
    intros (old & _ & _ & _ & _ & _ & Hst). by apply Hst.
  - specialize (Hne _ _ eq_refl ltac:(set_solver)). destruct a; [intros ->; done|].
    intros (old & _ & _ & _ & _ & _ & _ & _ & Hst). by apply Hst.
  - specialize (Hne _ _ eq_refl ltac:(set_solver)). destruct a; [intros [-> _]; done|].
    intros (old & _ & Hd). case_decide; [by apply Hd|]. destruct Hd as (o' & _ & _ & _ & Hst). by apply Hst.
  - intros ->. done.
  - intros ->. done.
Qed.

Lemma wp_unchanged {A} sigs (p : prog A) cl :
  footprint (λ c, within sigs c = true) p →
  wp (λ _ _, True) (api_trans False) p (λ cl' _, ∀ k, untouched sigs k = true → unchanged k cl cl') cl.
Proof.
  intros Hf. cut (∀ cl1, (∀ k, untouched sigs k = true → unchanged k cl cl1) →
    wp (λ _ _, True) (api_trans False) p (λ cl' _, ∀ k, untouched sigs k = true → unchanged k cl cl') cl1).
  { intros Hc. by apply Hc. }
  induction p as [a|c k IH]; intros cl1 H1; [done|]. destruct Hf as [Hc Hk]. split; [done|].
  intros a cl2 [Hstep _]. apply IH; [by apply (Hk a tt)|]. intros k' Hu.
  eapply unchanged_trans; [by apply H1|]. by eapply step_unchanged.
Qed.

Lemma sat_frame {A} sigs cl (p : prog (outcome A)) (Q : cluster → A → Prop) :
  footprint (λ c, within sigs c = true) p → sat cl p Q →
  sat cl p (λ cl' a, Q cl' a ∧ ∀ k, untouched sigs k = true → unchanged k cl cl').
Proof.
  intros Hf Hp Hwf. eapply wp_mono; [|apply wp_conj; [by apply Hp|by apply wp_unchanged]].
  intros cl' o [[Hwf' Ho] Hu]. split; [done|]. auto.
Qed.

(** A handler that only reads, by its history logic. *)
Lemma sat_reads {A} cl rely (p : prog (outcome A)) (Q : outcome A → Prop) :
  footprint (λ c, isWrite c = false) p → (∀ c a, isWrite c = false → api_step False cl c a cl → rely c a) →
  hwp (λ _ _, True) rely p (λ _ res, Q res) [] →
  sat cl p (λ cl' a, cl' = cl ∧ Q (Ok a)).
Proof.
  intros Hf Hr. generalize ([] : list event) as h. intros h Hp Hwf.
  revert h Hp. induction p as [res|c k IH]; intros h Hp.
  { apply wp_ret. split; [done|]. intros a ->. done. }
  destruct Hf as [Hc Hk]. destruct Hp as [_ Hp]. split; [done|]. intros a cl' [Hstep Hwf'].
  assert (cl' = cl) as ->. { destruct c; try done; by destruct Hstep. }
  apply (IH a) with (h := h ++ [Ev c a]); [by apply (Hk a tt)|]. apply Hp. split; [by apply Hr|done].
Qed.
End Rules.

(** * The server stack *)

(** Drift is decided by the images and the annotations. *)
Lemma templateDrifted_parts t t' want :
  map ctr_Image (pod_Containers (tpl_Spec t')) = map ctr_Image (pod_Containers (tpl_Spec t)) →
  tpl_Annotations t' = tpl_Annotations t →
  templateDrifted t' want = templateDrifted t want.
Proof.
  intros Hi Ha. unfold templateDrifted. rewrite Ha.
  destruct (pod_Containers (tpl_Spec t')) as [|c' cs'], (pod_Containers (tpl_Spec t)) as [|c cs]; try done.
  cbn in Hi. injection Hi as Hc _. cbn [head]. cbn. by rewrite Hc.
Qed.

Section Components.
Context `{Lib} {L : LibLaws} (r : SharedVolumeReconciler).
Local Open Scope go_scope.
Implicit Types (sv : SharedVolume) (cl : cluster).

Lemma createIfMissing_sat k sv (o : obj k) cl :
  sat cl (createIfMissing k sv o) (λ cl' _, is_Some (view cl' k (ObjectKey k o))).
Proof.
  unfold createIfMissing. apply sat_get.
  - intros o' Ho. apply sat_ok. by exists o'.
  - intros e Hn ->. eapply sat_bindE; [by apply sat_createOwned|].
    intros cl' o' _ (refs & _ & _ & Hv & _). apply sat_ok. by exists o'.
Qed.

Lemma ensureConfigMap_sat sv cl :
  sat cl (ensureConfigMap sv (BuildConfigMap sv (OperatorNamespace r)))
    (λ cl' cm, configIn r sv cl' ∧ mapIndex (cm_Data cm) ganeshaConfKey = Config).
Proof.
  unfold ensureConfigMap. apply sat_get.
  - intros cm Hcm. case_decide as Hd.
    + intros Hwf. revert Hwf. pose proof Hcm as Hkey.
      intros Hwf. apply (wf_key _ Hwf) in Hkey.
      assert (ObjectKey KConfigMap (cm_with_Data cm (cm_Data (BuildConfigMap sv (OperatorNamespace r))))
        = ObjectKey KConfigMap (BuildConfigMap sv (OperatorNamespace r))) as Hk by exact Hkey.
      revert Hwf. eapply sat_bindE; [apply (sat_UpdateE cl KConfigMap cm); [by rewrite Hk|done]|].
      intros cl' u' _ (Hacc & _ & Hv & _). apply sat_ok. split; [|done]. exists u'. rewrite Hk in Hv.
      split; [exact Hv|]. destruct Hacc as (_ & _ & _ & _ & Hp). simpl in Hp. by rewrite Hp.
    + apply sat_ok. split; [|done]. exists cm. split; [exact Hcm|].
      by destruct (decide (mapIndex (cm_Data cm) ganeshaConfKey = Config)).
  - intros e Hn ->. eapply sat_mono; [|by apply (sat_createOwned cl KConfigMap)].
    intros cl' cm _ (refs & Hacc & _ & Hv & _). destruct Hacc as (_ & _ & _ & _ & Hp). simpl in Hp.
    split; [|by rewrite Hp]. exists cm. by rewrite Hp.
Qed.

Lemma sat_setRestored {A} cl sv st reason msg (f : SharedVolume * bool → prog (outcome A)) (Q : cluster → A → Prop) :
  (∀ cs b, sat cl (f (with_Status sv (set_Conditions cs (sv_Status sv)), b)) Q) →
  sat cl (setRestoredCondition sv st reason msg ≫= f) Q.
Proof.
  intros Hf. unfold setRestoredCondition.
  intros Hwf. apply wp_bind, wp_bind, wp_trigger; [done|]. intros now cl' [-> _].
  destruct (SetStatusCondition _ _ _) as [cs b]. apply wp_ret, Hf, Hwf.
Qed.

(** The same volume, but for its status. *)
Definition statusOf sv sv' : Prop := ∃ st, sv' = with_Status sv st.

Lemma statusOf_refl sv : statusOf sv sv.
Proof. exists (sv_Status sv). by destruct sv. Qed.

Lemma reconcileSeed_sat sv cl :
  sat cl (reconcileSeed r sv)
    (λ cl' x, statusOf sv x.2 ∧
       (x.1 = false → seedNotInPlay sv = false ∧ view cl' KDeployment (serverKey r sv) = None)).
Proof.
  unfold reconcileSeed. destruct (seedNotInPlay sv); [apply sat_ok; split; [apply statusOf_refl|done]|].
  destruct (IsStatusConditionTrue _ _); [apply sat_ok; split; [apply statusOf_refl|done]|].
  apply sat_get; [intros d Hd; apply sat_setRestored; intros cs b; apply sat_ok; by split; [eexists|]|].
  intros e Hn ->. cbn [negb]. apply sat_orPanic. intros job Hjob. apply sat_get.
  - intros existing Hex. destruct (jobHasCondition existing JobComplete); [|destruct (jobHasCondition existing JobFailed)];
      apply sat_setRestored; intros cs b; [| |by apply sat_ok; split; [eexists|]].
    { apply sat_ok. by split; [eexists|]. }
    destruct b; [apply sat_event|]; apply sat_ok; by split; [eexists|].
  - intros e' Hj ->. eapply sat_bindE; [by apply sat_createOwned|].
    intros cl' o' _ (refs & _ & _ & _ & [_ Hst]). apply sat_setRestored. intros cs b. apply sat_ok.
    split; [by eexists|]. intros _. split; [done|]. by rewrite (proj1 (Hst KDeployment ltac:(done))).
Qed.

Lemma wantedTemplate_conf sv cm cur :
  mapIndex (cm_Data cm) ganeshaConfKey = Config →
  templateDrifted cur (dep_Template (BuildServerDeployment sv (OperatorNamespace r) (GaneshaImage r) cm))
    = templateDrifted cur (wantedTemplate r sv).
Proof.
  intros Hcm. assert (confHash cm = confHash (BuildConfigMap sv (OperatorNamespace r))) as Hh.
  { unfold confHash. rewrite Hcm. reflexivity. }
  unfold templateDrifted, wantedTemplate, BuildServerDeployment. cbn [dep_Template tpl_Spec tpl_Annotations pod_Containers head].
  by rewrite Hh.
Qed.

Lemma templateDrifted_want sv cm :
  let want := dep_Template (BuildServerDeployment sv (OperatorNamespace r) (GaneshaImage r) cm) in
  templateDrifted want want = Some false.
Proof. intros want. by eapply templateDrifted_refl. Qed.

Lemma ensureDeployment_sat sv cm cl :
  mapIndex (cm_Data cm) ganeshaConfKey = Config →
  sat cl (ensureDeployment r sv cm)
    (λ cl' _, deployIn r sv cl' ∧ is_Some (view cl' KDeployment (serverKey r sv))).
Proof.
  intros Hcm. unfold ensureDeployment. set (want := BuildServerDeployment _ _ _ cm).
  assert (ObjectKey KDeployment want = serverKey r sv) as Hkey by done.
  assert (∀ d cl', sameParts KDeployment want d → view cl' KDeployment (serverKey r sv) = Some d →
    deployIn r sv cl' ∧ is_Some (view cl' KDeployment (serverKey r sv))) as Hsame.
  { intros d cl' [Hi Ha] Hv. split; [|by eexists]. intros d'. rewrite Hv. intros [= <-].
    rewrite <- (wantedTemplate_conf sv cm) by done.
    rewrite (templateDrifted_parts _ _ _ Hi Ha). apply templateDrifted_want. }
  apply sat_get; rewrite Hkey.
  - intros d Hd. eapply (sat_bindE _ _ _ (λ cl' _, deployIn r sv cl' ∧ is_Some _)); [|intros cl' d' _ HQ; by apply sat_ok].
    apply sat_orPanic. intros [] Hdrift.
    + intros Hwf. pose proof (wf_key _ Hwf _ _ _ Hd) as Hk. revert Hwf.
      eapply sat_mono; [|apply (sat_UpdateE cl KDeployment d)]; [|by rewrite <- Hd, <- Hk|done].
      intros cl' u' _ (Hacc & _ & Hv & _). change (ObjectKey KDeployment (dep_with_Template d (dep_Template want)))
        with (ObjectKey KDeployment d) in Hv. rewrite Hk in Hv.
      apply (Hsame u'); [|done]. destruct Hacc as (_ & _ & _ & _ & Hp). exact Hp.
    + apply sat_ok. split; [|by eexists]. intros d'. rewrite Hd. intros [= <-]. rewrite <- Hdrift.
      symmetry. by apply wantedTemplate_conf.
  - intros e Hn ->. eapply (sat_bindE _ _ _ (λ cl' _, deployIn r sv cl' ∧ is_Some _)); [|intros cl' d' _ HQ; by apply sat_ok].
    eapply sat_mono; [|by apply (sat_createOwned cl KDeployment)].
    intros cl' d _ (refs & Hacc & _ & Hv & _). rewrite Hkey in Hv. apply (Hsame d); [|done].
    destruct Hacc as (_ & _ & _ & _ & Hp). exact Hp.
Qed.

Lemma ensureService_sat sv cl :
  sat cl (ensureService r sv) (λ cl' ip, serviceIn r sv ip cl' ∧ (addressed r sv cl → ip ≠ "")).
Proof.
  unfold ensureService. apply sat_get.
  - intros svc Hsvc. apply sat_ok. split; [by exists svc|]. intros Ha. by apply (Ha svc).
  - intros e Hn ->. eapply sat_bindE; [by apply (sat_createOwned cl KService)|].
    intros cl' o' _ (refs & _ & [_ Hip] & Hv & _). apply sat_get; [|intros; apply sat_err].
    intros svc Hsvc. apply sat_ok. split; [by exists svc|]. intros _.
    change (view cl' KService (serverKey r sv) = Some o') in Hv.
    change (view cl' KService (serverKey r sv) = Some svc) in Hsvc. congruence.
Qed.

(** What the parts of the server stack write. *)
Lemma createIfMissing_fp k sv (o : obj k) : footprint (λ c, within [(VGet, k); (VCreate, k)] c = true) (createIfMissing k sv o).
Proof. apply createIfMissing_footprint; intros; apply bool_decide_eq_true; set_solver. Qed.

Lemma ensureConfigMap_fp sv cm :
  footprint (λ c, within [(VGet, KConfigMap); (VCreate, KConfigMap); (VUpdate, KConfigMap)] c = true) (ensureConfigMap sv cm).
Proof. unfold ensureConfigMap. fp_solve. Qed.

Lemma ensureDeployment_fp sv cm :
  footprint (λ c, within [(VGet, KDeployment); (VCreate, KDeployment); (VUpdate, KDeployment)] c = true) (ensureDeployment r sv cm).
Proof. unfold ensureDeployment. fp_solve. Qed.

Lemma ensureService_fp sv :
  footprint (λ c, within [(VGet, KService); (VCreate, KService)] c = true) (ensureService r sv).
Proof. unfold ensureService. fp_solve. Qed.

(** Parts in place stay in place when their kind is left alone. *)
Lemma backingIn_frame sv cl cl' : unchanged KPVC cl cl' → backingIn r sv cl → backingIn r sv cl'.
Proof. intros [Hu _]. unfold backingIn. by rewrite Hu. Qed.
Lemma configIn_frame sv cl cl' : unchanged KConfigMap cl cl' → configIn r sv cl → configIn r sv cl'.
Proof. intros [Hu _]. unfold configIn. by rewrite Hu. Qed.
Lemma deployIn_frame sv cl cl' : unchanged KDeployment cl cl' → deployIn r sv cl → deployIn r sv cl'.
Proof. intros [Hu _]. unfold deployIn. by rewrite Hu. Qed.
Lemma serviceIn_frame sv ip cl cl' : unchanged KService cl cl' → serviceIn r sv ip cl → serviceIn r sv ip cl'.
Proof. intros [Hu _]. unfold serviceIn. by rewrite Hu. Qed.

Definition stackIn sv (ip : string) cl : Prop :=
  backingIn r sv cl ∧ configIn r sv cl ∧ deployIn r sv cl ∧ serviceIn r sv ip cl.

Lemma reconcileServer_sat sv cl :
  sat cl (reconcileServer r sv)
    (λ cl' x, statusOf sv x.2 ∧ stackIn sv x.1.1 cl' ∧ (addressed r sv cl → x.1.1 ≠ "") ∧
       (gateOpen r sv cl → is_Some (view cl' KDeployment (serverKey r sv)))).
Proof.
  unfold reconcileServer, stackIn.
  eapply sat_bindE; [eapply sat_frame; [apply createIfMissing_fp|apply createIfMissing_sat]|].
  intros cl1 [] _ [Hb Hu1].
  eapply sat_bindE; [eapply sat_frame; [apply ensureConfigMap_fp|apply ensureConfigMap_sat]|].
  intros cl2 cm _ [[Hc Hcm] Hu2].
  eapply sat_bindE; [eapply sat_frame; [apply reconcileSeed_fp|apply reconcileSeed_sat]|].
  intros cl3 [seeded sv'] _ [[Hst Hseed] Hu3]. cbn [fst snd] in *. destruct Hst as [st ->].
  eapply (sat_bindE _ _ _ (λ cl' _, (deployIn r sv cl' ∧
    (gateOpen r sv cl → is_Some (view cl' KDeployment (serverKey r sv)))) ∧
    ∀ k, untouched [(VGet, KDeployment); (VCreate, KDeployment); (VUpdate, KDeployment)] k = true → unchanged k cl3 cl')).
  { destruct seeded.
    - eapply sat_frame; [apply ensureDeployment_fp|].
      eapply sat_mono; [|exact (ensureDeployment_sat (with_Status sv st) cm cl3 Hcm)].
      intros cl' b _ [Hd He]. split; [exact Hd|]. intros _. exact He.
    - apply sat_ok. destruct (Hseed eq_refl) as [Hplay Hnone]. split; [|done]. split; [intros d; by rewrite Hnone|].
      intros [|[d Hd]]; [congruence|]. exfalso.
      rewrite (proj1 (Hu3 KDeployment eq_refl)), (proj1 (Hu2 KDeployment eq_refl)), (proj1 (Hu1 KDeployment eq_refl)) in Hnone.
      congruence. }
  intros cl4 ready _ [[Hd Hgate] Hu4].
  eapply sat_bindE; [eapply sat_frame; [apply ensureService_fp|apply ensureService_sat]|].
  intros cl5 ip _ [[Hs Ha] Hu5]. apply sat_ok. cbn [fst snd]. split; [by eexists|]. split; [split_and!|split].
  - do 4 (eapply backingIn_frame; [first [by apply Hu5|by apply Hu4|by apply Hu3|by apply Hu2]|]). exact Hb.
  - do 3 (eapply configIn_frame; [first [by apply Hu5|by apply Hu4|by apply Hu3]|]). exact Hc.
  - eapply deployIn_frame; [by apply Hu5|]. exact Hd.
  - exact Hs.
  - intros H0. apply Ha. intros svc.
    change (serverKey r (with_Status sv st)) with (serverKey r sv).
    rewrite (proj1 (Hu4 KService eq_refl)), (proj1 (Hu3 KService eq_refl)), (proj1 (Hu2 KService eq_refl)),
      (proj1 (Hu1 KService eq_refl)). apply H0.
  - intros Hg. rewrite (proj1 (Hu5 KDeployment eq_refl)). by apply Hgate.
Qed.
End Components.
