(* ===== verification/SettleBindings.v ===== *)
(** What one pass leaves in a quiet cluster, continued: targets, bindings, network
    policy, backup CronJob and status. *)
From S2P Require Import Prelude Kube V1alpha1 Client Resources Lib Server Logic Bindings NetPolicy BackupJob Reconcile Footprints Targets Netip NetFacts LiveServer Drift MemCluster Api Settle.

(** Namespaces are cluster-scoped. *)
Definition namespacesScoped (cl : cluster) : Prop :=
  ∀ o, o ∈ items cl KNamespace → Namespace (ns_ObjectMeta o) = "".

(** PVs and PVCs only gain: what is in place stays. *)
Section Grow.
Context `{Lib} (sv : SharedVolume).

Definition pairsGrow (targets : list string) (cl cl' : cluster) : Prop :=
  (∀ ns, pvIn sv ns cl → pvIn sv ns cl') ∧
  (∀ key, is_Some (view cl KPVC key) → is_Some (view cl' KPVC key)) ∧
  (noStale sv targets cl → noStale sv targets cl').

Lemma pairsGrow_refl targets cl : pairsGrow targets cl cl.
Proof. done. Qed.

Lemma pairsGrow_trans targets cl1 cl2 cl3 :
  pairsGrow targets cl1 cl2 → pairsGrow targets cl2 cl3 → pairsGrow targets cl1 cl3.
Proof. intros (H1 & H2 & H3) (H4 & H5 & H6). split_and!; auto. Qed.

(** A PV is stored that is settled, and of a target if it is listed. *)
Lemma pairsGrow_PV targets key pv cl cl' :
  stores KPV key (Some pv) cl cl' → pvSettled pv →
  (noStale sv targets cl → selected (byVolume sv) (Labels (pv_ObjectMeta pv)) = true →
     ∀ ref, pvs_ClaimRef (pv_Spec pv) = Some ref → ref_Namespace ref ∈ targets) →
  pairsGrow targets cl cl'.
Proof.
  intros [Hv Hst] Hs Ht. split_and!.
  - intros ns (pv' & Hpv' & Hs'). unfold pvIn. rewrite Hv. case_decide; [by eexists|eauto].
  - intros key' Hsome. by rewrite (proj1 (Hst KPVC ltac:(done))).
  - intros Hn key' pv' ref. rewrite Hv. case_decide; [|by apply Hn].
    intros [= <-] Hl Href. by apply (Ht Hn Hl).
Qed.

Lemma pairsGrow_PVC targets key pvc cl cl' : stores KPVC key (Some pvc) cl cl' → pairsGrow targets cl cl'.
Proof.
  intros [Hv Hst]. pose proof (proj1 (Hst KPV ltac:(done))) as Hpv. split_and!.
  - intros ns. unfold pvIn. by setoid_rewrite Hpv.
  - intros key'. rewrite Hv. by case_decide.
  - intros Hn key' pv ref. rewrite Hpv. apply Hn.
Qed.
End Grow.

Section Bindings.
Context `{Lib} {L : LibLaws} (r : SharedVolumeReconciler).
Local Open Scope go_scope.
Implicit Types (sv : SharedVolume) (cl : cluster).

(** * Targets *)

Lemma namespace_key cl o : wf cl → namespacesScoped cl → o ∈ items cl KNamespace → ObjectKey KNamespace o = MkNN "" (ns_name o).
Proof. intros Hwf Hns Ho. unfold ObjectKey. simpl. by rewrite (Hns o Ho). Qed.

Lemma namespaces_NoDup cl : wf cl → namespacesScoped cl → NoDup (map ns_name (items cl KNamespace)).
Proof.
  intros Hwf Hns. pose proof (wf_nodup _ Hwf KNamespace) as Hnd.
  assert (map (ObjectKey KNamespace) (items cl KNamespace) = map (MkNN "") (map ns_name (items cl KNamespace))) as Heq.
  { rewrite map_map. apply map_ext_in. intros o Ho%list_elem_of_In. by apply (namespace_key cl). }
  rewrite Heq in Hnd. by apply NoDup_fmap_1 in Hnd.
Qed.

Lemma namespaces_answered cl c a :
  wf cl → namespacesScoped cl → isWrite c = false → api_step False cl c a cl → nsAnswers (items cl KNamespace) c a.
Proof.
  intros Hwf Hns Hw Hstep. destruct c as [k key|k opt| | | | | |]; try done; destruct k; try done.
  - destruct Hstep as [_ [Ha|[[] _]]]. simpl. intros Hkey.
    assert (key = MkNN "" (nn_Name key)) as Hk by (destruct key; simpl in *; congruence).
    destruct (nsNamed (items cl KNamespace) (nn_Name key)) as [o|] eqn:Hn.
    + apply (nsNamed_spec _ _ o (namespaces_NoDup cl Hwf Hns)) in Hn as [Hin Hname].
      pose proof Hin as Hview. apply (wf_items _ Hwf KNamespace) in Hview.
      rewrite (namespace_key cl o Hwf Hns Hin), Hname, <- Hk in Hview. by rewrite Hview in Ha.
    + destruct (view cl KNamespace key) as [o|] eqn:Hv; [|exact Ha]. exfalso.
      pose proof (wf_key _ Hwf _ _ _ Hv) as Hok. rewrite <- Hok in Hv. apply (wf_items _ Hwf KNamespace) in Hv.
      assert (nsNamed (items cl KNamespace) (nn_Name key) = Some o) as Hs; [|congruence].
      apply (nsNamed_spec _ _ o (namespaces_NoDup cl Hwf Hns)). split; [done|]. by rewrite <- Hok.
  - destruct Hstep as [_ [Ha|[[] _]]]. simpl. intros sel ->. exact Ha.
Qed.

Lemma targetNamespaces_reads sv : footprint (λ c, isWrite c = false) (targetNamespaces sv).
Proof.
  eapply footprint_mono; [|apply targetNamespaces_fp]. intros c. unfold within. by destruct c.
Qed.

Lemma namedTargets_sat cl names set : sat cl (namedTargets names set) (λ cl' _, cl' = cl).
Proof.
  revert set. induction names as [|n names IH]; intros set; cbn [namedTargets]; [by apply sat_ok|].
  apply sat_get; [intros o _; destruct (nsAlive o); apply IH|]. intros e _ ->. apply IH.
Qed.

(** A resolution that succeeds has read the selector. *)
Lemma targetNamespaces_selector sv cl : sat cl (targetNamespaces sv) (λ _ _, selectorOk sv).
Proof.
  unfold targetNamespaces, selectorOk. eapply sat_bindE; [apply namedTargets_sat|]. intros cl1 set _ _.
  destruct (NsSelector _) as [sel|]; [|eapply sat_bindE; [by apply (sat_ok _ _ (λ _ _, True))|intros; by apply sat_ok]].
  destruct (LabelSelectorAsSelector sel) as [err|selector] eqn:Hs.
  - eapply (sat_bindE _ _ _ (λ _ _, False)); [apply sat_err|by intros].
  - eapply (sat_bindE _ _ _ (λ _ _, True)); [apply sat_list; by apply sat_ok|]. intros cl2 set' _ _.
    apply sat_ok. intros ? [= <-]. eauto.
Qed.

Lemma sat_conj {A} cl (p : prog (outcome A)) (Q1 Q2 : cluster → A → Prop) :
  sat cl p Q1 → sat cl p Q2 → sat cl p (λ cl' a, Q1 cl' a ∧ Q2 cl' a).
Proof.
  intros H1 H2 Hwf. eapply wp_mono; [|apply wp_conj; [by apply H1|by apply H2]].
  intros cl' o [[? ?] [_ ?]]. split; [done|]. auto.
Qed.

Lemma targetNamespaces_sat sv cl :
  namespacesScoped cl →
  sat cl (targetNamespaces sv)
    (λ cl' targets, cl' = cl ∧ targets = targetsRef sv (items cl KNamespace) ∧ selectorOk sv).
Proof.
  intros Hns Hwf. revert Hwf. intros Hwf.
  assert (selectorOk sv ∨ ~ selectorOk sv) as [Hok|Hno].
  { unfold selectorOk. destruct (NsSelector _) as [sel|]; [|by left].
    destruct (LabelSelectorAsSelector sel) as [err|selector] eqn:Hs.
    - right. intros Hall. destruct (Hall sel eq_refl). congruence.
    - left. intros ? [= <-]. eauto. }
  - revert Hwf. eapply sat_mono; [|intros Hwf; apply (sat_reads cl (nsAnswers (items cl KNamespace)) (targetNamespaces sv)
      (λ res, res = Ok (targetsRef sv (items cl KNamespace)))); [| | |exact Hwf]].
    + intros cl' a _ [-> [= <-]]. auto.
    + apply targetNamespaces_reads.
    + intros c a. by apply namespaces_answered.
    + apply targetNamespaces_exact; [by apply namespaces_NoDup|done].
  - revert Hwf. eapply sat_mono; [|apply targetNamespaces_selector]. intros cl' a _ Hs. by destruct Hno.
Qed.

(** * Bindings *)

Lemma ensurePV_sat sv targets ns ip cl :
  ns ∈ targets → sat cl (ensurePV sv ns ip) (λ cl' _, pvIn sv ns cl' ∧ pairsGrow sv targets cl cl').
Proof.
  intros Hns. unfold ensurePV. apply sat_get; change (ObjectKey KPV (BuildPV sv ns ip)) with (MkNN "" (PVName sv ns)).
  - intros pv Hpv.
    assert (pvSettled pv → sat cl (Ret (Ok tt)) (λ cl' _, pvIn sv ns cl' ∧ pairsGrow sv targets cl cl')) as Hdone.
    { intros Hs. apply sat_ok. split; [by exists pv|apply pairsGrow_refl]. }
    destruct (pvs_ClaimRef (pv_Spec pv)) as [ref|] eqn:Href; [|apply Hdone; right; congruence].
    case_decide as Hrel.
    + intros Hwf. pose proof (wf_key _ Hwf _ _ _ Hpv) as Hk. revert Hwf.
      set (u := pv_with_ClaimRef pv (Some (ref_clear_UID ref))).
      assert (ObjectKey KPV u = MkNN "" (PVName sv ns)) as Hku by exact Hk.
      eapply sat_bindE; [apply (sat_UpdateE cl KPV pv u); [by rewrite Hku|done]|].
      rewrite Hku. intros cl' u' _ (Hacc & _ & Hv & Hst). destruct Hacc as (_ & Hl & _ & _ & [Hc _]).
      assert (pvSettled u') as Hs'. { right. rewrite Hc. by intros ? [= <-]. }
      apply sat_ok. split; [by exists u'|]. eapply pairsGrow_PV; [exact Hst|exact Hs'|].
      intros Hn Hsel ref'. rewrite Hc. intros [= <-]. simpl.
      apply (Hn _ pv ref Hpv); [|done]. change (Labels (obj_meta KPV u') = Labels (pv_ObjectMeta pv)) in Hl.
      by rewrite <- Hl.
    + apply Hdone. apply not_and_l in Hrel as [Hp|Hu]; [by left|right].
      intros ? Hr. rewrite Href in Hr. injection Hr as <-. by destruct (decide (ref_UID ref = "")).
  - intros e Hn ->. eapply sat_bindE; [by apply (sat_createOwned cl KPV)|].
    intros cl' pv _ (refs & Hacc & _ & Hv & Hst). destruct Hacc as (_ & _ & _ & _ & [Hc _]).
    assert (pvSettled pv) as Hs by (right; rewrite Hc; by intros ? [= <-]).
    apply sat_ok. split; [by exists pv|]. eapply pairsGrow_PV; [exact Hst|exact Hs|].
    intros _ _ ref. rewrite Hc. by intros [= <-].
Qed.

Lemma reconcileBinding_sat sv targets ns ip cl :
  ns ∈ targets →
  sat cl (reconcileBinding sv ns ip) (λ cl' _, pvIn sv ns cl' ∧ pvcIn sv ns cl' ∧ pairsGrow sv targets cl cl').
Proof.
  intros Hns. unfold reconcileBinding. eapply sat_bindE; [by apply ensurePV_sat|].
  intros cl1 [] _ [Hpv Hg]. apply sat_get; change (ObjectKey KPVC (BuildConsumerPVC sv ns)) with (MkNN ns (ConsumerPVCName sv)).
  - intros pvc Hpvc.
    assert (∀ phase : string, sat (A := string) cl1 (Ret (Ok phase)) (λ cl' _, pvIn sv ns cl' ∧ pvcIn sv ns cl' ∧ pairsGrow sv targets cl cl')) as Hdone.
    { intros phase. apply sat_ok. split_and!; [done|by exists pvc|done]. }
    destruct (negb (pvcOwned sv pvc)); [by apply sat_event|]. destruct (negb _); [done|]. by case_decide.
  - intros e Hn ->. eapply sat_bindE; [by apply (sat_createOwned cl1 KPVC)|].
    intros cl' pvc _ (refs & _ & _ & Hv & Hst). apply sat_ok.
    pose proof (pairsGrow_PVC sv targets _ _ _ _ Hst) as Hg2.
    split_and!; [by apply Hg2|by exists pvc|by eapply pairsGrow_trans].
Qed.

Lemma reconcileBindings_sat sv all targets ip cl :
  targets ⊆ all →
  sat cl (reconcileBindings sv targets ip)
    (λ cl' _, (∀ ns, ns ∈ targets → pvIn sv ns cl' ∧ pvcIn sv ns cl') ∧ pairsGrow sv all cl cl').
Proof.
  revert cl. induction targets as [|ns targets IH]; intros cl Hsub; cbn [reconcileBindings].
  { apply sat_ok. split; [by intros ? ?%elem_of_nil|apply pairsGrow_refl]. }
  eapply sat_bindE; [apply (reconcileBinding_sat sv all); set_solver|]. intros cl1 phase _ (Hpv & Hpvc & Hg).
  eapply sat_bindE; [apply IH; set_solver|]. intros cl2 bs _ [Hall Hg2]. apply sat_ok.
  split; [|by eapply pairsGrow_trans]. intros ns' [->|Hin]%elem_of_cons; [|by apply Hall].
  split; [by apply Hg2|]. by apply Hg2.
Qed.

(** With no stale PV there is nothing to clean up. *)
Lemma cleanupStaleBindings_sat sv targets cl :
  noStale sv targets cl → sat cl (cleanupStaleBindings sv targets) (λ cl' _, cl' = cl).
Proof.
  intros Hn Hwf. unfold cleanupStaleBindings. revert Hwf. intros Hwf.
  assert (∀ pv ref, pv ∈ filter (λ o : obj KPV, selected (byVolume sv) (Labels (obj_meta KPV o)) = true) (items cl KPV) →
    pvs_ClaimRef (pv_Spec pv) = Some ref → ref_Namespace ref ∈ targets) as Hall.
  { intros pv ref [Hs Hin]%list_elem_of_filter Href. apply (wf_items _ Hwf KPV) in Hin. by eapply Hn. }
  revert Hwf. apply sat_list. revert Hall. generalize (filter (λ o : obj KPV, selected (byVolume sv) (Labels (obj_meta KPV o)) = true) (items cl KPV)).
  intros pvs. induction pvs as [|pv pvs IH]; intros Hall; cbn [cleanupLoop]; [by apply sat_ok|].
  assert (sat cl (cleanupLoop sv targets pvs) (λ cl' _, cl' = cl)) as Hrest.
  { apply IH. intros pv' ref ?. apply Hall. by right. }
  destruct (pvs_ClaimRef (pv_Spec pv)) as [ref|] eqn:Href; [|exact Hrest].
  rewrite (proj2 (slicesContains_true _ _)); [exact Hrest|]. apply (Hall pv); [by left|done].
Qed.

Lemma ensureBindings_sat sv targets ip cl :
  ip ≠ "" → noStale sv targets cl →
  sat cl (ensureBindings sv targets ip)
    (λ cl' _, (∀ ns, ns ∈ targets → pvIn sv ns cl' ∧ pvcIn sv ns cl') ∧ pairsGrow sv targets cl cl').
Proof.
  intros Hip Hn. unfold ensureBindings. rewrite decide_True by done.
  eapply sat_bindE; [by apply (reconcileBindings_sat sv targets)|]. intros cl1 bs _ [Hall Hg].
  eapply sat_bindE; [by apply cleanupStaleBindings_sat, Hg|]. intros cl2 [] _ ->. by apply sat_ok.
Qed.

(** * Policy and backup *)

Lemma filter_all {A} (P : A → Prop) `{∀ x, Decision (P x)} (l : list A) : (∀ x, P x) → filter P l = l.
Proof. intros HP. induction l as [|x l IH]; [done|]. by rewrite filter_cons_True, IH. Qed.

Lemma nodeIPs_sat cl : sat cl nodeIPs (λ cl' ips, cl' = cl ∧ ips = nodeIPsRef (items cl KNode)).
Proof.
  eapply sat_mono; [|apply (sat_reads cl (nodesAnswer (items cl KNode)) nodeIPs
    (λ res, res = Ok (nodeIPsRef (items cl KNode))))].
  - by intros cl' a _ [-> [= <-]].
  - unfold nodeIPs. by fp_auto.
  - intros c a Hw Hstep. destruct c as [k key|k opt| | | | | |]; try done; destruct k; try done.
    intros ->. destruct Hstep as [_ [->|[[] _]]]. f_equal. by apply filter_all.
  - apply nodeIPs_exact.
Qed.

(** Finalizers do not hold what has to go. *)
Definition policyFree sv cl : Prop :=
  NetworkPolicyField (sv_Spec sv) = NetworkPolicyDisabled →
  ∀ np, view cl KNetworkPolicy (serverKey r sv) = Some np → Finalizers (np_ObjectMeta np) = [].
Definition policyGone sv cl : Prop :=
  NetworkPolicyField (sv_Spec sv) = NetworkPolicyDisabled → view cl KNetworkPolicy (serverKey r sv) = None.

Lemma enabledPolicy_sat sv targets cl :
  NetworkPolicyField (sv_Spec sv) ≠ NetworkPolicyDisabled →
  sat cl (reconcileNetworkPolicy r sv targets) (λ cl' _, policyIn r sv targets cl').
Proof.
  intros Hen. unfold reconcileNetworkPolicy. fold (serverKey r sv).
  destruct (decide (NetworkPolicyField (sv_Spec sv) = NetworkPolicyDisabled)) as [|_]; [done|].
  assert (∀ cl' np, np_Spec np = wantedPolicy r sv targets (items cl KNode) → unchanged KNode cl cl' →
    view cl' KNetworkPolicy (serverKey r sv) = Some np → policyIn r sv targets cl') as Hin.
  { intros cl' np Hs [_ Hu] Hv _. exists np. split; [exact Hv|]. rewrite Hs, Hu. apply SemanticDeepEqual_refl. }
  apply sat_get.
  - intros np Hnp.     eapply sat_bindE; [apply nodeIPs_sat|]. intros cl1 ips _ [-> ->].
    change (np_Spec (BuildNetworkPolicy sv _ _ _ _)) with (wantedPolicy r sv targets (items cl KNode)). cbv zeta.
    destruct (SemanticDeepEqual _ _) eqn:Hsem; cbn [negb].
    + apply sat_ok. intros _. by exists np.
    + intros Hwf. pose proof (wf_key _ Hwf _ _ _ Hnp) as Hk. revert Hwf.
      set (u := np_with_Spec np _). assert (ObjectKey KNetworkPolicy u = serverKey r sv) as Hku by exact Hk.
      eapply sat_bindE; [apply (sat_UpdateE cl KNetworkPolicy np u); [by rewrite Hku|done]|].
      rewrite Hku. intros cl' u' _ (Hacc & _ & Hv & Hst). apply sat_ok.
      destruct Hacc as (_ & _ & _ & _ & Hp). simpl in Hp. apply (Hin cl' u'); [done|by apply Hst|done].
  - intros e Hn ->. cbn [negb].     eapply sat_bindE; [apply nodeIPs_sat|]. intros cl1 ips _ [-> ->].
    eapply sat_bindE; [by apply (sat_createOwned cl KNetworkPolicy)|].
    intros cl' np _ (refs & Hacc & _ & Hv & Hst). apply sat_ok.
    destruct Hacc as (_ & _ & _ & _ & Hp). simpl in Hp. apply (Hin cl' np); [done|by apply Hst|done].
Qed.

Lemma reconcileNetworkPolicy_sat sv targets cl :
  sat cl (reconcileNetworkPolicy r sv targets)
    (λ cl' _, policyIn r sv targets cl' ∧ (policyFree sv cl → policyGone sv cl')).
Proof.
  assert (NetworkPolicyField (sv_Spec sv) = NetworkPolicyDisabled ∨ NetworkPolicyField (sv_Spec sv) ≠ NetworkPolicyDisabled)
    as [Hdis|Hen] by (destruct (decide (NetworkPolicyField (sv_Spec sv) = NetworkPolicyDisabled)); auto).
  { unfold reconcileNetworkPolicy. fold (serverKey r sv). assert (∀ cl', policyIn r sv targets cl') as Hin by (intros cl' Hne; done). apply sat_get.
    - intros np Hnp Hwf. pose proof (wf_key _ Hwf _ _ _ Hnp) as Hk. revert Hwf. cbv beta iota.
      destruct (decide (NetworkPolicyField (sv_Spec sv) = NetworkPolicyDisabled)) as [_|?]; [|done].
      intros Hwf. assert (policyFree sv cl ∨ ~ policyFree sv cl) as [Hfree|Hheld].
      { unfold policyFree. rewrite Hnp. destruct (decide (Finalizers (np_ObjectMeta np) = [])) as [Hf|Hf].
        - left. by intros _ ? [= <-].
        - right. intros Hall. by apply Hf, (Hall Hdis np). }
      + revert Hwf. eapply sat_mono; [|apply (sat_delete cl KNetworkPolicy np None); rewrite Hk; by apply Hfree].
        intros cl' [] _ Hv. split; [apply Hin|]. intros _ _. by rewrite <- Hk.
      + revert Hwf. eapply sat_mono; [|apply sat_any]. intros cl' [] _ _. by split; [apply Hin|].
    - intros e Hn ->. cbn [negb].
      destruct (decide (NetworkPolicyField (sv_Spec sv) = NetworkPolicyDisabled)) as [_|?]; [|done]. apply sat_ok. split; [apply Hin|]. by intros _ _. }
  eapply sat_mono; [|by apply (enabledPolicy_sat sv targets cl)].
  intros cl' [] _ Hp. split; [exact Hp|]. by intros _ ?.
Qed.

(** CronJobs with the same compared parts drift alike. *)
Lemma cronParts_drifted cj cj' want :
  cronParts cj' = cronParts cj → backupCronJobDrifted cj' want = backupCronJobDrifted cj want.
Proof.
  unfold cronParts. intros [= Hs Hsu Hc Hp]. unfold backupCronJobDrifted. rewrite Hs, Hsu, Hp.
  do 2 (case_decide; [done|]).
  destruct (pod_Containers (cronPod cj')) as [|c1 [|? ?]], (pod_Containers (cronPod cj)) as [|c2 [|? ?]]; try done.
  simpl in Hc. injection Hc as Hi Hcmd. by rewrite Hi, Hcmd.
Qed.

Lemma wanted_drifted sv want cj :
  BuildBackupCronJob sv (OperatorNamespace r) (BackupImage r) = Some want → cj_Spec cj = cj_Spec want →
  backupCronJobDrifted cj want = Some false.
Proof.
  intros Hb Hs. destruct (BuildBackupCronJob_pod _ _ _ _ Hb) as (b & h & c & _ & _ & _ & _ & Hc & _ & _ & _).
  apply (backupCronJobDrifted_false cj want c Hc). unfold cronPod in *. rewrite Hs. eauto 10.
Qed.

Definition backupFree sv cl : Prop :=
  Backup (sv_Spec sv) = None →
  ∀ cj, view cl KCronJob (MkNN (OperatorNamespace r) (BackupCronJobName sv)) = Some cj → Finalizers (cj_ObjectMeta cj) = [].
Definition backupGone sv cl : Prop :=
  Backup (sv_Spec sv) = None → view cl KCronJob (MkNN (OperatorNamespace r) (BackupCronJobName sv)) = None.

Lemma unwantedBackup_sat sv cl :
  Backup (sv_Spec sv) = None →
  sat cl (reconcileBackup r sv) (λ cl' sv', statusOf sv sv' ∧ (backupFree sv cl → backupGone sv cl')).
Proof.
  intros Hb. unfold reconcileBackup, backupFree, backupGone. rewrite Hb. set (key := MkNN _ _). apply sat_get.
  - intros cj Hcj Hwf. pose proof (wf_key _ Hwf _ _ _ Hcj) as Hk. revert Hwf.
    eapply (sat_bindE _ _ _ (λ cl' _, Finalizers (cj_ObjectMeta cj) = [] → view cl' KCronJob key = None)).
    + intros Hwf. destruct (decide (Finalizers (cj_ObjectMeta cj) = [])) as [Hf|Hf].
      * revert Hwf. eapply sat_mono; [|apply (sat_delete cl KCronJob cj None)].
        { intros cl' [] _ Hv _. by rewrite <- Hk. }
        intros old. rewrite Hk, Hcj. by intros [= <-].
      * revert Hwf. eapply sat_mono; [|apply sat_any]. by intros cl' [] _ _ ?.
    + intros cl' [] _ Hv. apply sat_ok. split; [by eexists|]. intros Hfree _. apply Hv. by apply (Hfree eq_refl).
  - intros e Hn ->. apply sat_ok. split; [by eexists|]. by intros _ _.
Qed.

Lemma reconcileBackup_sat sv cl :
  sat cl (reconcileBackup r sv)
    (λ cl' sv', statusOf sv sv' ∧ backupIn r sv cl' ∧ (backupFree sv cl → backupGone sv cl')).
Proof.
  destruct (Backup (sv_Spec sv)) as [b|] eqn:Hb.
  2: { eapply sat_mono; [|by apply unwantedBackup_sat]. intros cl' sv' _ [? Hg]. split_and!; [done| |exact Hg].
       intros Hne. congruence. }
  eapply (sat_mono _ _ (λ cl' sv', statusOf sv sv' ∧ backupIn r sv cl')).
  { intros cl' sv' _ [? ?]. split_and!; [done..|]. intros _ Hno. congruence. }
  unfold reconcileBackup. set (key := MkNN (OperatorNamespace r) (BackupCronJobName sv)). rewrite Hb. apply sat_get.
  - intros cj Hcj. apply sat_orPanic. intros want Hw. apply sat_orPanic. intros drifted Hd.
    eapply (sat_bindE _ _ _ (λ cl' _, backupIn r sv cl')).
    2: { intros cl' cj' _ Hin. apply sat_ok. by split; [eexists|]. }
    destruct drifted; [|by apply sat_ok; intros _; exists cj, want].
    intros Hwf. pose proof (wf_key _ Hwf _ _ _ Hcj) as Hk. revert Hwf.
    set (u := cj_with_Spec cj _). assert (ObjectKey KCronJob u = key) as Hku by exact Hk.
    eapply sat_mono; [|apply (sat_UpdateE cl KCronJob cj u); [by rewrite Hku|done]].
    rewrite Hku. intros cl' u' _ (Hacc & _ & Hv & _) _. exists u', want. split_and!; [exact Hv|exact Hw|].
    destruct Hacc as (_ & _ & _ & _ & Hp). rewrite (cronParts_drifted _ _ _ Hp). by apply (wanted_drifted sv).
  - intros e Hn ->. apply sat_orPanic. intros want Hw. pose proof (BuildCronJob_key r sv want Hw) as Hkey.
    eapply sat_bindE; [apply (sat_createOwned cl KCronJob); by rewrite Hkey|].
    rewrite Hkey. intros cl' cj _ (refs & Hacc & _ & Hv & _). apply sat_ok. split; [apply statusOf_refl|].
    intros _. exists cj, want. split_and!; [exact Hv|exact Hw|].
    destruct Hacc as (_ & _ & _ & _ & Hp). rewrite (cronParts_drifted _ _ _ Hp). by apply (wanted_drifted sv).
Qed.
End Bindings.
