(* ===== verification/Converge.v ===== *)
(** Convergence: on a cluster nobody else writes to, one pass of [Reconcile] that
    succeeds brings everything in place, and every pass after it writes nothing
    but the status. *)
From S2P Require Import Prelude Kube V1alpha1 Client Resources Lib Server Logic Bindings NetPolicy BackupJob Reconcile Footprints BindingFacts Targets Netip NetFacts LiveServer Drift MemCluster Samples Quiescent Api MemApi Settle SettleBindings.

(** * Everything in place *)

Section Placed.
Context `{Lib} (r : SharedVolumeReconciler).

(** The volume is stored under [key], alive and with its finalizer. *)
Definition volumeIn (key : NamespacedName) (sv : SharedVolume) (cl : cluster) : Prop :=
  ∃ v, view cl KSharedVolume key = Some v ∧ sv_core v = sv_core sv ∧
    finalizerName ∈ Finalizers (sv_ObjectMeta v) ∧ terminating (sv_ObjectMeta v) = false.

Record placed (sv : SharedVolume) (targets : list string) (ip : string) (cl : cluster) : Prop := {
  pl_stack : stackIn r sv ip cl;
  pl_server : is_Some (view cl KDeployment (serverKey r sv));
  pl_address : ip ≠ "";
  pl_scoped : namespacesScoped cl;
  pl_targets : targets = targetsRef sv (items cl KNamespace);
  pl_selector : selectorOk sv;
  pl_pairs ns : ns ∈ targets → pvIn sv ns cl ∧ pvcIn sv ns cl;
  pl_stale : noStale sv targets cl;
  pl_policy : policyIn r sv targets cl;
  pl_noPolicy : policyGone r sv cl;
  pl_backup : backupIn r sv cl;
  pl_noBackup : backupGone r sv cl
}.

(** What one pass needs of the cluster it starts from: the seed gate is open, no
    namespace has left the targets, an existing Service has its address, and no
    finalizer holds the policy or CronJob that has to go. *)
Record startable (sv : SharedVolume) (cl : cluster) : Prop := {
  sb_scoped : namespacesScoped cl;
  sb_stale : noStale sv (targetsRef sv (items cl KNamespace)) cl;
  sb_gate : gateOpen r sv cl;
  sb_service : addressed r sv cl;
  sb_policy : policyFree r sv cl;
  sb_backup : backupFree r sv cl
}.

(** A cluster as the snapshot of Quiescent.v. *)
Definition snapshotOf (cl : cluster) : snapshot := MkSnapshot
  (λ k key, match view cl k key with Some o => inr o | None => inl NotFoundError end)
  (λ k opt, inr (filter (λ o, selected opt (Labels (obj_meta k o)) = true) (items cl k))).

(** The phase each namespace's PVC is reported with. *)
Definition phaseIn (sv : SharedVolume) (cl : cluster) (ns : string) : string :=
  phaseOf sv (snap_get (snapshotOf cl) KPVC (consumerKey sv ns)).

(** [n] passes of [Reconcile], one after the other. *)
Definition passes {S} (srv : server S) (req : NamespacedName) (n : nat) (s : S) : S :=
  Nat.iter n (λ s, state_of (run srv (Reconcile r req) s)) s.
End Placed.

(** * The volume itself *)

Section Volume.
Context `{Lib} {L : LibLaws} (r : SharedVolumeReconciler).
Local Open Scope go_scope.
Implicit Types (sv : SharedVolume) (cl : cluster).

Lemma volumeIn_frame key sv cl cl' : unchanged KSharedVolume cl cl' → volumeIn key sv cl → volumeIn key sv cl'.
Proof. intros [Hu _]. unfold volumeIn. by setoid_rewrite Hu. Qed.

Lemma ensureFinalizer_fp sv : footprint (λ c, within [(VUpdate, KSharedVolume)] c = true) (ensureFinalizer sv).
Proof. unfold ensureFinalizer. fp_solve. Qed.

Lemma ensureFinalizer_sat key sv cl :
  view cl KSharedVolume key = Some sv → terminating (sv_ObjectMeta sv) = false →
  sat cl (ensureFinalizer sv) (λ cl' sv', sv_core sv' = sv_core sv ∧ volumeIn key sv cl').
Proof.
  intros Hsv Halive Hwf. pose proof (wf_key _ Hwf _ _ _ Hsv) as Hk. revert Hwf. unfold ensureFinalizer.
  pose proof (AddFinalizer_elem (Finalizers (sv_ObjectMeta sv)) finalizerName) as Hin.
  pose proof (AddFinalizer_changed (Finalizers (sv_ObjectMeta sv)) finalizerName) as Hch.
  destruct (AddFinalizer _ _) as [fs [|]]; cbn [fst snd] in *.
  - set (u := set_Finalizers fs sv). assert (ObjectKey KSharedVolume u = key) as Hku by exact Hk.
    eapply sat_mono; [|apply (sat_UpdateE cl KSharedVolume sv u); [by rewrite Hku|]].
    + rewrite Hku. intros cl' u' _ (Hacc & Hdel & Hv & _). destruct Hacc as (_ & _ & _ & Hf & Hp).
      assert (sv_core u' = sv_core sv) as Hc by exact Hp. split; [exact Hc|]. exists u'.
      split_and!; [exact Hv|exact Hc| |].
      * apply Hf. apply Hin. by left.
      * change (DeletionTimestamp (sv_ObjectMeta u') = DeletionTimestamp (sv_ObjectMeta sv)) in Hdel.
        unfold terminating. by rewrite Hdel.
    + intros f Hf. apply Hin. by right.
  - apply sat_ok. split; [done|]. exists sv. split_and!; try done. symmetry in Hch.
    apply negb_false_iff in Hch. by apply bool_decide_eq_true in Hch.
Qed.

(** A status update of the volume leaves it alive, and everything else alone. *)
Lemma statusStep_keeps key sv cl u a cl' :
  volumeIn key sv cl → sv_core u = sv_core sv → api_step False cl (CStatusUpdate u) a cl' →
  volumeIn key sv cl' ∧ ∀ k, k ≠ KSharedVolume → unchanged k cl cl'.
Proof.
  intros Hin Hu Hstep. destruct a as [e|u']; cbn [api_step] in Hstep; [by rewrite Hstep|].
  destruct Hstep as (old & Hold & Hk & Hc & _ & Hf & Hd & Hv & Hst). split; [|by intros k Hne; apply Hst].
  destruct Hin as (v & Hsv & Hcv & Hfv & Hal). unfold volumeIn. setoid_rewrite Hv. case_decide as Hkey; [|eauto 10].
  subst key. assert (v = old) as -> by congruence. assert (terminating (sv_ObjectMeta u') = false) as Ht.
  { unfold terminating. by rewrite Hd. }
  exists u'. unfold survives. change (obj_meta KSharedVolume u') with (sv_ObjectMeta u'). rewrite Ht.
  split_and!; [done|congruence|by apply Hf|done].
Qed.

Lemma updateStatus_keeps key sv sv' ip ready bs cl :
  sv_core sv' = sv_core sv → volumeIn key sv cl →
  wp (λ _ _, True) (api_trans False) (updateStatus r sv' ip ready bs)
    (λ cl' _, volumeIn key sv cl' ∧ ∀ k, k ≠ KSharedVolume → unchanged k cl cl') cl.
Proof.
  intros Hc Hin. unfold updateStatus. apply wp_bind, wp_trigger; [done|]. intros t1 cl1 [-> _].
  apply wp_bind, wp_trigger; [done|]. intros t2 cl2 [-> _].
  apply wp_bind, wp_trigger; [done|]. intros a cl' [Hstep _].
  destruct (statusStep_keeps key sv _ (with_Status sv' _) _ _ Hin Hc Hstep) as [Hv Hu].
  by destruct a; apply wp_ret.
Qed.
End Volume.

(** * One pass *)

Section Pass.
Context `{Lib} {L : LibLaws} (r : SharedVolumeReconciler).
Local Open Scope go_scope.
Implicit Types (sv : SharedVolume) (cl : cluster).

Lemma placed_core sv sv' targets ip cl : sv_core sv' = sv_core sv → placed r sv targets ip cl → placed r sv' targets ip cl.
Proof.
  intros Hc Hp. assert (placed r (sv_core sv) targets ip cl) as Hp' by by destruct Hp.
  rewrite <- Hc in Hp'. by destruct Hp'.
Qed.

Lemma startable_core sv sv' cl : sv_core sv' = sv_core sv → startable r sv cl → startable r sv' cl.
Proof.
  intros Hc Hp. assert (startable r (sv_core sv) cl) as Hp' by by destruct Hp.
  rewrite <- Hc in Hp'. by destruct Hp'.
Qed.

(** Only the volume itself is touched. *)
Lemma startable_frame sv cl cl' :
  (∀ k, k ≠ KSharedVolume → unchanged k cl cl') → startable r sv cl → startable r sv cl'.
Proof.
  intros Hu [H1 H2 H3 H4 H5 H6].
  pose proof (proj2 (Hu KNamespace ltac:(discriminate))) as Hns.
  pose proof (proj1 (Hu KPV ltac:(discriminate))) as Hpv.
  pose proof (proj1 (Hu KDeployment ltac:(discriminate))) as Hd.
  pose proof (proj1 (Hu KService ltac:(discriminate))) as Hs.
  pose proof (proj1 (Hu KNetworkPolicy ltac:(discriminate))) as Hnp.
  pose proof (proj1 (Hu KCronJob ltac:(discriminate))) as Hcj.
  split.
  - intros o. rewrite Hns. apply H1.
  - intros key pv ref. rewrite Hpv, Hns. apply H2.
  - unfold gateOpen. rewrite Hd. exact H3.
  - intros svc. rewrite Hs. apply H4.
  - intros Hdis np. rewrite Hnp. by apply H5.
  - intros Hno cj. rewrite Hcj. by apply H6.
Qed.

(** What is placed does not depend on the volume's own entry. *)
Lemma placed_frame sv targets ip cl cl' :
  (∀ k, k ≠ KSharedVolume → unchanged k cl cl') → placed r sv targets ip cl → placed r sv targets ip cl'.
Proof.
  intros Hu [(Hb & Hc & Hdep & Hsvc) H2 H3 H4 H5 H6 H7 H8 H9 H10 H11 H12].
  assert (∀ k key, bool_decide (k = KSharedVolume) = false → view cl' k key = view cl k key) as Hv.
  { intros k key Hk%bool_decide_eq_false. by apply Hu. }
  pose proof (proj2 (Hu KNamespace ltac:(discriminate))) as Hns.
  pose proof (proj2 (Hu KNode ltac:(discriminate))) as Hno.
  split.
  - split; [unfold backingIn; rewrite Hv by reflexivity; exact Hb|].
    split; [unfold configIn; rewrite Hv by reflexivity; exact Hc|].
    split; [unfold deployIn; rewrite Hv by reflexivity; exact Hdep|unfold serviceIn; rewrite Hv by reflexivity; exact Hsvc].
  - rewrite Hv by reflexivity. exact H2.
  - exact H3.
  - unfold namespacesScoped. rewrite Hns. exact H4.
  - rewrite Hns. exact H5.
  - exact H6.
  - intros ns Hin. unfold pvIn, pvcIn. rewrite !Hv by reflexivity. by apply H7.
  - intros key pv ref. rewrite Hv by reflexivity. apply H8.
  - intros Hen. rewrite Hv, Hno by reflexivity. by apply H9.
  - intros Hdis. rewrite Hv by reflexivity. by apply H10.
  - intros Hbk. rewrite Hv by reflexivity. by apply H11.
  - intros Hbk. rewrite Hv by reflexivity. by apply H12.
Qed.

(** The status report ends the pass, whatever is answered. *)
Lemma reportStatus_sat key sv st targets ip ready bs cl :
  volumeIn key sv cl → placed r sv targets ip cl →
  sat cl (u ← updateStatus r (with_Status sv st) ip ready bs;
          match u with
          | Err err => if IsConflict err then Ret (Ok (MkResult true 0)) else Ret (Err err)
          | Panic => Ret Panic
          | Ok _ => Ret (Ok noResult)
          end)
    (λ cl' _, volumeIn key sv cl' ∧ ∃ targets, placed r sv targets ip cl').
Proof.
  intros Hv Hp Hwf. apply wp_bind.
  eapply wp_mono; [|apply wp_conj; [apply (sat_any cl _ Hwf)|by apply (updateStatus_keeps r key sv (with_Status sv st))]].
  intros cl' u [[Hwf' _] [Hv' Hu]].
  assert (volumeIn key sv cl' ∧ ∃ targets, placed r sv targets ip cl') as HQ.
  { split; [exact Hv'|]. exists targets. by eapply placed_frame. }
  destruct u as [sv'|e|]; [|destruct (IsConflict e)|]; apply wp_ret; split; [done|by intros..|done|by intros|done|by intros|done|by intros].
Qed.

(** The second half of a pass, once the server stack stands. *)
Lemma reconcileRest_sat key sv ip ready cl :
  volumeIn key sv cl → stackIn r sv ip cl → is_Some (view cl KDeployment (serverKey r sv)) → ip ≠ "" →
  startable r sv cl →
  sat cl (targets ←! targetNamespaces sv;
          bindings ←! ensureBindings sv targets ip;
          _ ←! reconcileNetworkPolicy r sv targets;
          sv' ←! reconcileBackup r sv;
          u ← updateStatus r sv' ip ready bindings;
          match u with
          | Err err => if IsConflict err then Ret (Ok (MkResult true 0)) else Ret (Err err)
          | Panic => Ret Panic
          | Ok _ => Ret (Ok noResult)
          end)
    (λ cl' _, volumeIn key sv cl' ∧ ∃ targets, placed r sv targets ip cl').
Proof.
  intros Hv (Hb & Hc & Hdep & Hsvc) Hd Hip [Hns Hstale _ _ Hpf Hbf].
  eapply sat_bindE; [by apply targetNamespaces_sat|]. intros cl0 targets _ (-> & Htg & Hsel).
  rewrite <- Htg in Hstale.
  eapply sat_bindE; [eapply sat_frame; [apply ensureBindings_fp|by apply ensureBindings_sat]|].
  intros cl1 bs _ [[Hpairs (_ & Hgrow & Hst)] Hu1].
  eapply sat_bindE; [eapply sat_frame; [apply reconcileNetworkPolicy_fp|apply reconcileNetworkPolicy_sat]|].
  intros cl2 [] _ [[Hpol Hgone] Hu2].
  eapply sat_bindE; [eapply sat_frame; [apply reconcileBackup_fp|apply reconcileBackup_sat]|].
  intros cl3 sv3 _ [(Hsv3 & Hbk & Hnobk) Hu3].
  assert (∀ k key, untouched (bindings_sigs ++ cleanup_sigs) k = true → untouched netpol_sigs k = true →
    untouched backup_sigs k = true → view cl3 k key = view cl k key) as Hview.
  { intros k key' H1 H2 H3. by rewrite (proj1 (Hu3 k H3)), (proj1 (Hu2 k H2)), (proj1 (Hu1 k H1)). }
  assert (∀ k, untouched netpol_sigs k = true → untouched backup_sigs k = true → ∀ key, view cl3 k key = view cl1 k key) as Hv13.
  { intros k H2 H3 key'. by rewrite (proj1 (Hu3 k H3)), (proj1 (Hu2 k H2)). }
  assert (items cl3 KNamespace = items cl KNamespace) as Hit.
  { by rewrite (proj2 (Hu3 KNamespace eq_refl)), (proj2 (Hu2 KNamespace eq_refl)), (proj2 (Hu1 KNamespace eq_refl)). }
  assert (placed r sv targets ip cl3) as Hp.
  { split.
    - split; [unfold backingIn; rewrite (Hv13 KPVC) by reflexivity; by apply Hgrow|].
      split; [unfold configIn; rewrite Hview by reflexivity; exact Hc|].
      split; [unfold deployIn; rewrite Hview by reflexivity; exact Hdep|].
      unfold serviceIn; rewrite Hview by reflexivity; exact Hsvc.
    - rewrite Hview by reflexivity. exact Hd.
    - exact Hip.
    - unfold namespacesScoped. rewrite Hit. exact Hns.
    - rewrite Hit. exact Htg.
    - exact Hsel.
    - intros ns Hin. unfold pvIn, pvcIn. rewrite (Hv13 KPV), (Hv13 KPVC) by reflexivity. by apply Hpairs.
    - intros key' pv ref. rewrite (Hv13 KPV) by reflexivity. by apply Hst.
    - intros Hen. rewrite (proj1 (Hu3 KNetworkPolicy eq_refl)), (proj2 (Hu3 KNode eq_refl)). by apply Hpol.
    - intros Hdis. rewrite (proj1 (Hu3 KNetworkPolicy eq_refl)). apply Hgone; [|exact Hdis].
      intros _ np. rewrite (proj1 (Hu1 KNetworkPolicy eq_refl)). by apply Hpf.
    - exact Hbk.
    - intros Hno. apply Hnobk; [|exact Hno]. intros _ cj.
      rewrite (proj1 (Hu2 KCronJob eq_refl)), (proj1 (Hu1 KCronJob eq_refl)). by apply Hbf. }
  assert (volumeIn key sv cl3) as Hv3 by (unfold volumeIn; by setoid_rewrite Hview).
  destruct Hsv3 as [st ->]. by apply (reportStatus_sat key sv st targets).
Qed.

Lemma untouched_volume sigs k :
  forallb (λ vk, bool_decide (vk.2 = KSharedVolume)) sigs = true → k ≠ KSharedVolume → untouched sigs k = true.
Proof.
  unfold untouched. rewrite !forallb_forall. intros Hall Hk vk Hin. specialize (Hall vk Hin).
  apply bool_decide_eq_true in Hall. rewrite Hall, bool_decide_false by congruence. done.
Qed.

(** The server stack leaves the rest startable. *)
Lemma startable_server sv cl cl' :
  (∀ k, untouched server_sigs k = true → unchanged k cl cl') → startable r sv cl →
  is_Some (view cl' KDeployment (serverKey r sv)) → addressed r sv cl' → startable r sv cl'.
Proof.
  intros Hu [H1 H2 _ _ H5 H6] Hd Ha. split.
  - unfold namespacesScoped. rewrite (proj2 (Hu KNamespace eq_refl)). exact H1.
  - intros key pv ref. rewrite (proj2 (Hu KNamespace eq_refl)), (proj1 (Hu KPV eq_refl)). apply H2.
  - by right.
  - exact Ha.
  - intros Hdis np. rewrite (proj1 (Hu KNetworkPolicy eq_refl)). by apply H5.
  - intros Hno cj. rewrite (proj1 (Hu KCronJob eq_refl)). by apply H6.
Qed.

Lemma reconcileLive_sat key sv cl :
  view cl KSharedVolume key = Some sv → terminating (sv_ObjectMeta sv) = false → startable r sv cl →
  sat cl (reconcileLive r sv) (λ cl' _, volumeIn key sv cl' ∧ ∃ targets ip, placed r sv targets ip cl').
Proof.
  intros Hsv Hal Hstart. unfold reconcileLive.
  eapply sat_bindE; [eapply sat_frame; [apply ensureFinalizer_fp|by apply (ensureFinalizer_sat key)]|].
  intros cl1 sv1 _ [[Hc1 Hv1] Hu1].
  assert (startable r sv1 cl1) as Hs1.
  { apply (startable_core sv); [done|]. eapply startable_frame; [|exact Hstart]. intros k Hk.
    apply Hu1. by apply untouched_volume. }
  assert (volumeIn key sv1 cl1) as Hv1'.
  { destruct Hv1 as (v & H1 & H2 & H3). exists v. split; [exact H1|]. split; [congruence|exact H3]. }
  eapply (sat_mono _ _ (λ cl' _, volumeIn key sv1 cl' ∧ ∃ targets ip, placed r sv1 targets ip cl')).
  { intros cl' _ _ [(v & H1 & H2 & H3) (targets & ip & Hp)]. split.
    - exists v. split; [exact H1|]. split; [congruence|exact H3].
    - exists targets, ip. by apply (placed_core sv1). }
  clear - L Hs1 Hv1'. eapply sat_bindE; [eapply sat_frame; [apply reconcileServer_fp|apply reconcileServer_sat]|].
  intros cl2 [[ip ready] sv2] _ [(Hst & Hstack & Ha & Hg) Hu2]. cbn [fst snd] in *. destruct Hst as [st ->].
  pose proof (sb_gate _ _ _ Hs1) as Hgate. pose proof (sb_service _ _ _ Hs1) as Hadd.
  specialize (Ha Hadd). specialize (Hg Hgate).
  eapply sat_mono; [|apply (reconcileRest_sat key (with_Status sv1 st) ip ready cl2)].
  - intros cl' _ _ [Hv (targets & Hp)]. split; [exact Hv|]. exists targets, ip.
    by apply (placed_core (with_Status sv1 st)).
  - exact (volumeIn_frame key sv1 _ _ (Hu2 KSharedVolume eq_refl) Hv1').
  - exact Hstack.
  - exact Hg.
  - exact Ha.
  - apply (startable_core sv1); [done|]. apply (startable_server sv1 cl1); [done..|].
    destruct Hstack as (_ & _ & _ & svc & Hsvc & Hip). intros svc' Hsvc'. congruence.
Qed.

(** * From what is placed to the steady state *)

Lemma snapshotOf_answers cl c (a : resp c) cl' : isWrite c = false → api_step False cl c a cl' → snapAnswers (snapshotOf cl) c a.
Proof.
  intros Hw. destruct c as [k key|k opt| | | | | |]; try done; intros [_ [Ha|[[] _]]] _; [|exact Ha].
  simpl. destruct (view cl k key) as [o|]; [exact Ha|]. destruct Ha as (e & -> & He). by exists e.
Qed.

Lemma snapshotOf_get cl k key o : view cl k key = Some o → snap_get (snapshotOf cl) k key = inr o.
Proof. simpl. by intros ->. Qed.

Lemma snapshotOf_none cl k key :
  view cl k key = None → ∃ err, snap_get (snapshotOf cl) k key = inl err ∧ IsNotFound err = true.
Proof. simpl. intros ->. by exists NotFoundError. Qed.

Lemma snapshotOf_namespaces cl c a :
  wf cl → namespacesScoped cl → snapAnswers (snapshotOf cl) c a → nsAnswers (items cl KNamespace) c a.
Proof.
  intros Hwf Hns Ha. destruct c as [k key|k opt| | | | | |]; try done; destruct k; try done;
    apply (namespaces_answered cl); try done; (split; [done|left]); specialize (Ha ltac:(discriminate)); [|exact Ha].
  simpl in Ha. destruct (view cl KNamespace key) as [o|]; [exact Ha|]. destruct Ha as (e & -> & He). by exists e.
Qed.

Lemma placed_steady sv v targets ip cl :
  wf cl → placed r sv targets ip cl → sv_core v = sv_core sv → finalizerName ∈ Finalizers (sv_ObjectMeta v) →
  ∃ svc, steady r (snapshotOf cl) v (items cl KNamespace) (items cl KNode) svc (phaseIn v cl).
Proof.
  intros Hwf Hp Hc Hfin. apply (placed_core sv v) in Hp; [|done]. clear sv Hc.
  destruct Hp as [([pvc Hb] & (cm & Hcm & Hconf) & Hdep & (svc & Hsvc & Hip)) [d Hd] Hne Hns -> Hsel Hpairs Hst Hpol Hgone Hbk Hnobk].
  exists svc. split.
  - pose proof (AddFinalizer_changed (Finalizers (sv_ObjectMeta v)) finalizerName) as Hch.
    pose proof (AddFinalizer_same (Finalizers (sv_ObjectMeta v)) finalizerName) as Hsame.
    rewrite bool_decide_true in Hch by done. destruct (AddFinalizer _ _) as [fs b]. cbn [fst snd] in *.
    subst b. by rewrite Hsame.
  - exists pvc. by apply snapshotOf_get.
  - exists cm. split; [by apply snapshotOf_get|done].
  - exists d. split; [by apply snapshotOf_get|by apply Hdep].
  - split; [by apply snapshotOf_get|congruence].
  - by apply namespaces_NoDup.
  - exact Hsel.
  - intros c a Ha. apply (snapshotOf_namespaces cl c a Hwf Hns Ha).
  - intros c a Ha. destruct c as [k key|k opt| | | | | |]; try done; destruct k; try done.
    intros ->. rewrite (Ha ltac:(discriminate)). simpl. f_equal. by apply filter_all.
  - intros ns Hin. destruct (Hpairs ns Hin) as [(pv & Hpv & Hs) _]. exists pv. split; [by apply snapshotOf_get|exact Hs].
  - intros ns Hin. destruct (Hpairs ns Hin) as [_ [pvc' Hpvc]]. exists pvc'.
    assert (snap_get (snapshotOf cl) KPVC (consumerKey v ns) = inr pvc') as Hg by by apply snapshotOf_get.
    split; [exact Hg|]. unfold phaseIn. by rewrite Hg.
  - eexists. split; [reflexivity|]. intros pv ref [Hsel' Hin]%list_elem_of_filter Href.
    apply (wf_items _ Hwf KPV) in Hin. by eapply Hst.
  - case_decide as Hdis.
    + apply snapshotOf_none. by apply Hgone.
    + destruct (Hpol Hdis) as (np & Hnp & Hsem). exists np. split; [by apply snapshotOf_get|exact Hsem].
  - destruct (Backup (sv_Spec v)) as [b|] eqn:Hb'.
    + destruct Hbk as (cj & want & Hcj & Hw & Hdr); [congruence|]. exists cj, want.
      split; [by apply snapshotOf_get|done].
    + apply snapshotOf_none. by apply Hnobk.
Qed.
End Pass.

(** * Later passes *)

Section Later.
Context `{Lib} {L : LibLaws} (r : SharedVolumeReconciler).
Context {S} `{!Abstraction S} (srv : server S) `{!ApiServer srv False}.
Context (key : NamespacedName) (sv : SharedVolume) (cl : cluster).

(** The state still shows [cl], but for the status of the volume. *)
Definition atRest (s : S) : Prop :=
  good s ∧ volumeIn key sv (abs s) ∧ ∀ k, k ≠ KSharedVolume → unchanged k cl (abs s).

Lemma atRest_step s c :
  atRest s → (isWrite c = true → ∃ u, c = CStatusUpdate u ∧ sv_core u = sv_core sv) →
  snapAnswers (snapshotOf cl) c (srv s c).1 ∧ atRest (srv s c).2.
Proof.
  intros (Hg & Hv & Hu) Hc. pose proof (good_step (faulty := False) s c Hg) as Hg'.
  pose proof (abs_step (faulty := False) s c Hg) as Hstep. destruct (isWrite c) eqn:Hw.
  - destruct (Hc eq_refl) as (u & -> & Hcu). split; [done|].
    destruct (statusStep_keeps _ _ _ _ _ _ Hv Hcu Hstep) as [Hv' Hu']. split; [exact Hg'|].
    split; [exact Hv'|]. intros k Hk. by eapply unchanged_trans; [apply Hu|apply Hu'].
  - assert (abs (srv s c).2 = abs s) as Heq by (destruct c; try done; by destruct Hstep).
    split; [|by split; [|rewrite Heq]].
    pose proof (snapshotOf_answers _ _ _ _ Hw Hstep) as Ha. clear - Ha Hu.
    destruct c as [k key'|k opt| | | | | |]; try done; intros Hk; specialize (Ha Hk).
    + simpl in *. by rewrite (proj1 (Hu k Hk)) in Ha.
    + simpl in *. by rewrite (proj2 (Hu k Hk)) in Ha.
Qed.

Lemma atRest_pass targets ip s :
  wf cl → placed r sv targets ip cl → atRest s →
  let y := run srv (Reconcile r key) s in
  ((result_of y = Ok noResult ∨ statusRefused (trace_of y) (result_of y)) ∧
   ∀ e, e ∈ trace_of y → isWrite (ev_call e) = true →
     ∃ u, ev_call e = CStatusUpdate u ∧ sv_core u = sv_core sv ∧
       Bindings (sv_Status u) = restBindings sv (phaseIn sv cl) (targetsRef sv (items cl KNamespace))) ∧
  atRest (state_of y).
Proof.
  intros Hwf Hp Hs y. subst y. pose proof Hs as (Hg & (v & Hv & Hc & Hfin & Hal) & _).
  assert ((srv s (CGet KSharedVolume key)).1 = inr v) as Hread.
  { destruct (abs_step (faulty := False) s (CGet KSharedVolume key) Hg) as [_ [Ha|[[] _]]].
    by rewrite Hv in Ha. }
  rewrite (run_Reconcile_live srv r key v s Hread) by by apply negb_false_iff.
  destruct (atRest_step s (CGet KSharedVolume key) Hs) as [_ Hs1]; [done|].
  destruct (placed_steady r sv v targets ip cl Hwf Hp Hc Hfin) as [svc Hsteady].
  set (s1 := (srv s _).2) in *. cbn [trace_of result_of state_of fst snd].
  pose proof (reconcileLive_rest r _ v _ _ _ _ Hsteady [Ev (CGet KSharedVolume key) (inr v)]) as Hrest.
  destruct (run_wp_inv srv atRest _ _ _ _ _ s1 (λ s h c Hs Hq, atRest_step s c Hs
    (λ Hw, let '(ex_intro _ u (conj H1 (conj H2 _))) := Hq Hw in
           ex_intro _ u (conj H1 (eq_trans H2 Hc)))) Hrest Hs1) as (Hres & Hs2 & Hall).
  split; [|exact Hs2]. split; [exact Hres|].
  intros e [->|(pre & post & Heq)%list_elem_of_split]%elem_of_cons Hw; [done|].
  destruct (Hall pre e post Heq Hw) as (u & H1 & H2 & H3). exists u.
  split; [exact H1|]. split; [congruence|]. rewrite H3.
  change (restBindings (sv_core v) (phaseIn (sv_core v) cl) (targetsRef (sv_core v) (items cl KNamespace))
    = restBindings (sv_core sv) (phaseIn (sv_core sv) cl) (targetsRef (sv_core sv) (items cl KNamespace))).
  by rewrite Hc.
Qed.

Lemma atRest_passes targets ip n s :
  wf cl → placed r sv targets ip cl → atRest s → atRest (passes r srv key n s).
Proof.
  intros Hwf Hp Hs. induction n as [|n IH]; [done|].
  exact (proj2 (atRest_pass targets ip _ Hwf Hp IH)).
Qed.
End Later.

(** A successful pass ends at rest. *)
Lemma pass_atRest `{Lib} {L : LibLaws} r {S} `{!Abstraction S} (srv : server S) `{!ApiServer srv False} req sv s res :
  good s → view (abs s) KSharedVolume req = Some sv → terminating (sv_ObjectMeta sv) = false →
  startable r sv (abs s) →
  let x := run srv (Reconcile r req) s in
  result_of x = Ok res →
  let cl := abs (state_of x) in
  wf cl ∧ atRest req sv cl (state_of x) ∧ ∃ targets ip, placed r sv targets ip cl.
Proof.
  intros Hg Hsv Hal Hstart x. subst x.
  pose proof (abs_step (faulty := False) s (CGet KSharedVolume req) Hg) as [Hsame [Hread|[[] _]]].
  rewrite Hsv in Hread. rewrite (run_Reconcile_live srv r req sv s Hread) by by apply negb_false_iff.
  pose proof (good_step (faulty := False) s (CGet KSharedVolume req) Hg) as Hg1.
  set (s1 := (srv s _).2) in *. cbn [state_of result_of fst snd]. intros Hres. unfold same in Hsame.
  rewrite <- Hsame in Hsv, Hstart.
  pose proof (reconcileLive_sat r req sv (abs s1) Hsv Hal Hstart (abs_wf s1 Hg1)) as Hwp.
  apply (run_api srv (faulty := False)) in Hwp as [Hwf Hok]; [|exact Hg1].
  destruct (Hok res Hres) as [Hv Hp]. split; [exact Hwf|]. split; [|exact Hp].
  split; [by apply (run_good srv (faulty := False))|]. by split.
Qed.

(** * Property *)

(** C2. Convergence: the API server behaves as documented and nobody else writes.
    Let the volume be alive and the cluster [startable] for it: namespaces are
    cluster-scoped; nothing is to be seeded, or the server's Deployment exists; every
    PV with the volume's label is claimed from a namespace that is a target; the
    Service, if there, has an address; and no finalizer holds a policy or CronJob
    that has to go.  Once one pass of [Reconcile] succeeds, however many
    of the volume's objects there were and however far they had drifted, every later
    pass, the first and the [n]-th after it, succeeds unless its status update is
    refused, and writes nothing but the status of this volume, which keeps its spec
    and reports every target namespace with the phase of its PVC. *)
Theorem reconcile_converges `{Lib} {L : LibLaws} r {S} `{!Abstraction S} (srv : server S) `{!ApiServer srv False} req sv s res
    (Hgood : good s)
    (Hsv : view (abs s) KSharedVolume req = Some sv)
    (Halive : terminating (sv_ObjectMeta sv) = false)
    (Hstart : startable r sv (abs s))
    (Hok : result_of (run srv (Reconcile r req) s) = Ok res) :
  let s1 := state_of (run srv (Reconcile r req) s) in
  ∀ n, let y := run srv (Reconcile r req) (passes r srv req n s1) in
    (result_of y = Ok noResult ∨ statusRefused (trace_of y) (result_of y)) ∧
    ∀ e, e ∈ trace_of y → isWrite (ev_call e) = true →
      ∃ u, ev_call e = CStatusUpdate u ∧ sv_core u = sv_core sv ∧
        Bindings (sv_Status u) =
          restBindings sv (phaseIn sv (abs s1)) (targetsRef sv (items (abs s1) KNamespace)).
Proof.
  intros s1 n. subst s1.
  destruct (pass_atRest r srv req sv s res Hgood Hsv Halive Hstart Hok) as (Hwf & Hrest & targets & ip & Hp).
  apply (atRest_pass r srv req sv _ targets ip); [exact Hwf|exact Hp|].
  by apply (atRest_passes r srv req sv _ targets ip).
Qed.

(** * Witness *)

(** A volume with a backup that seeds nothing, on a cluster that has only its
    namespaces and node. *)
Definition freshVolume : SharedVolume := sampleVolume ReclaimDelete (Some (sampleBackup RestoreNever)).

Lemma namespacesScoped_check cl :
  forallb (λ o, bool_decide (Namespace (ns_ObjectMeta o) = "")) (items cl KNamespace) = true → namespacesScoped cl.
Proof.
  rewrite forallb_forall. intros Hall o Ho%list_elem_of_In. by apply Hall, bool_decide_eq_true in Ho.
Qed.

Lemma no_entry {A} (key : NamespacedName) (a : A) : (∅ : gmap NamespacedName A) !! key = Some a → False.
Proof. by rewrite lookup_empty. Qed.

Lemma freshCluster_good : good (sampleCluster freshVolume).
Proof. by repeat (apply with_obj_good; [|reflexivity]); apply emptyMem_good. Qed.

Lemma freshCluster_startable : startable sampleReconciler freshVolume (abs (sampleCluster freshVolume)).
Proof.
  split.
  - apply namespacesScoped_check. vm_compute. reflexivity.
  - intros key pv ref Hpv. change ((∅ : gmap NamespacedName PersistentVolume) !! key = Some pv) in Hpv.
    destruct (no_entry _ _ Hpv).
  - left. reflexivity.
  - intros svc Hsvc. change ((∅ : gmap NamespacedName Service) !! serverKey sampleReconciler freshVolume = Some svc) in Hsvc.
    destruct (no_entry _ _ Hsvc).
  - intros Hx. discriminate Hx.
  - intros Hx. discriminate Hx.
Qed.

Lemma reconcile_converges_witness :
  let s := sampleCluster freshVolume in
  let s1 := state_of (run memServer (Reconcile sampleReconciler sampleRequest) s) in
  let y := run memServer (Reconcile sampleReconciler sampleRequest) (passes sampleReconciler memServer sampleRequest 2 s1) in
  view (abs s) KSharedVolume sampleRequest = Some freshVolume ∧
  terminating (sv_ObjectMeta freshVolume) = false ∧
  result_of (run memServer (Reconcile sampleReconciler sampleRequest) s) = Ok noResult ∧
  (result_of y = Ok noResult ∨ statusRefused (trace_of y) (result_of y)).
Proof.
  intros s s1 y. split; [vm_compute; reflexivity|]. split; [reflexivity|]. split; [vm_compute; reflexivity|].
  refine (proj1 (reconcile_converges sampleReconciler memServer sampleRequest freshVolume s noResult
    freshCluster_good _ eq_refl freshCluster_startable _ 2)); vm_compute; reflexivity.
Defined.
