(* ===== verification/Interleave.v ===== *)
(** Reconciles among other actors: the operator's worker, one call at a time, and
    whatever else happens to the cluster in between, as a transition system.  The
    invariant: a living PV of a volume points at that volume's Service. *)
From S2P Require Import Prelude Kube V1alpha1 Client Resources Lib Server Logic Bindings NetPolicy BackupJob Reconcile Footprints LiveServer Names MemCluster Samples Api MemApi Settle.

(** * Other actors *)

Section System.
Context `{Lib} (r : SharedVolumeReconciler) (faulty : Prop).

Definition labelledFor (sv : SharedVolume) (pv : PersistentVolume) : Prop :=
  selected (byVolume sv) (Labels (pv_ObjectMeta pv)) = true.

Definition alive (pv : PersistentVolume) : Prop := terminating (pv_ObjectMeta pv) = false.

(** PVs that are the operator's business: by name or by label. *)
Definition operatorPV (key : NamespacedName) (pv : PersistentVolume) : Prop :=
  ∃ sv, labelledFor sv pv ∨ ∃ ns, key = MkNN "" (PVName sv ns).

(** What the others (binders, kubelets, users, the garbage collector) may do: all,
    but make a PV under a name or label of the operator's, change the labels or NFS
    source of one, or delete a Service of a server or change its address. *)
Definition env (cl cl' : cluster) : Prop :=
  wf cl' ∧
  (∀ key pv', view cl' KPV key = Some pv' → alive pv' → operatorPV key pv' →
     ∃ pv, view cl KPV key = Some pv ∧ alive pv ∧ Labels (pv_ObjectMeta pv) = Labels (pv_ObjectMeta pv') ∧
       pvs_NFS (pv_Spec pv) = pvs_NFS (pv_Spec pv')) ∧
  (∀ sv svc, view cl KService (serverKey r sv) = Some svc → svc_ClusterIP svc ≠ "" →
     ∃ svc', view cl' KService (serverKey r sv) = Some svc' ∧ svc_ClusterIP svc' = svc_ClusterIP svc).

(** One worker: it is between reconciles, or has a call to make. *)
Definition system : Type := cluster * prog (outcome Result).

Inductive actor := Operator | Others.

Inductive sysStep : actor → system → system → Prop :=
| sys_start cl res req : sysStep Operator (cl, Ret res) (cl, Reconcile r req)
| sys_call cl c a cl' (k : resp c → prog (outcome Result)) :
    api_step faulty cl c a cl' → wf cl' → sysStep Operator (cl, Vis c k) (cl', k a)
| sys_crash cl p : sysStep Operator (cl, p) (cl, Ret Panic)
| sys_env cl cl' p : env cl cl' → sysStep Others (cl, p) (cl', p).

Definition anyStep (st st' : system) : Prop := ∃ who, sysStep who st st'.

(** * The invariant *)

(** The volume's Service exists and its address is [ip]. *)
Definition serviceAt (sv : SharedVolume) (ip : string) (cl : cluster) : Prop :=
  ip ≠ "" ∧ ∃ svc, view cl KService (serverKey r sv) = Some svc ∧ svc_ClusterIP svc = ip.

(** [pv] points at the Service of the volume it is labelled for. *)
Definition pointsHome (pv : PersistentVolume) (cl : cluster) : Prop :=
  ∀ sv, labelledFor sv pv → ∃ nfs, pvs_NFS (pv_Spec pv) = Some nfs ∧ serviceAt sv (nfs_Server nfs) cl.

Definition pointed (cl : cluster) : Prop :=
  ∀ key pv, view cl KPV key = Some pv → alive pv → pointsHome pv cl.

(** No living PV of the volume is left. *)
Definition noPVs (sv : SharedVolume) (cl : cluster) : Prop :=
  ∀ key pv, view cl KPV key = Some pv → alive pv → labelledFor sv pv → False.

(** The calls that keep it. *)
Definition safeCall (cl : cluster) (c : call) : Prop :=
  match c with
  | CCreate k o => match k return obj k → Prop with
                   | KPV => λ pv, pointsHome pv cl
                   | _ => λ _, True
                   end o
  | CUpdate k u => match k return obj k → Prop with
                   | KPV => λ u, ∀ old, view cl KPV (ObjectKey KPV u) = Some old → alive old → pointsHome u cl
                   | KService => λ _, False
                   | _ => λ _, True
                   end u
  | CDelete k o _ => match k return obj k → Prop with
                     | KService => λ s, ∀ sv, ObjectKey KService s = serverKey r sv → noPVs sv cl
                     | _ => λ _, True
                     end o
  | _ => True
  end.
End System.

(** * The invariant under one step *)

Section Steps.
Context `{Lib} (r : SharedVolumeReconciler) (faulty : Prop).

Lemma env_refl cl : wf cl → env r cl cl.
Proof. intros Hwf. split; [exact Hwf|]. split; eauto 10. Qed.

Lemma labelledFor_labels sv pv pv' :
  Labels (pv_ObjectMeta pv) = Labels (pv_ObjectMeta pv') → labelledFor sv pv' → labelledFor sv pv.
Proof. unfold labelledFor. by intros ->. Qed.

Lemma env_trans cl1 cl2 cl3 : env r cl1 cl2 → env r cl2 cl3 → env r cl1 cl3.
Proof.
  intros (_ & Hp1 & Hs1) (Hw & Hp2 & Hs2). split; [exact Hw|]. split.
  - intros key pv3 Hv Ha [sv Ho]. destruct (Hp2 key pv3 Hv Ha (ex_intro _ sv Ho)) as (pv2 & Hv2 & Ha2 & Hl2 & Hn2).
    destruct (Hp1 key pv2 Hv2 Ha2) as (pv1 & Hv1 & Ha1 & Hl1 & Hn1).
    { exists sv. destruct Ho as [Hl|Hk]; [left; by eapply labelledFor_labels|by right]. }
    exists pv1. split_and!; [done..| |]; congruence.
  - intros sv svc Hv Hip. destruct (Hs1 sv svc Hv Hip) as (svc2 & Hv2 & Hip2).
    destruct (Hs2 sv svc2 Hv2) as (svc3 & Hv3 & Hip3); [congruence|]. exists svc3. split; congruence.
Qed.

(** What the others cannot undo. *)
Lemma serviceAt_env sv ip cl cl' : env r cl cl' → serviceAt r sv ip cl → serviceAt r sv ip cl'.
Proof.
  intros (_ & _ & Hs) [Hip (svc & Hv & <-)]. split; [done|]. destruct (Hs sv svc Hv Hip) as (svc' & ? & ?). eauto.
Qed.

Lemma pointsHome_env pv cl cl' : env r cl cl' → pointsHome r pv cl → pointsHome r pv cl'.
Proof. intros He Hp sv Hl. destruct (Hp sv Hl) as (nfs & Hn & Hs). eauto using serviceAt_env. Qed.

Lemma noPVs_env sv cl cl' : env r cl cl' → noPVs sv cl → noPVs sv cl'.
Proof.
  intros (_ & Hp & _) Hno key pv' Hv Ha Hl.
  destruct (Hp key pv' Hv Ha) as (pv & Hv' & Ha' & Hls & _); [exists sv; by left|].
  apply (Hno key pv Hv' Ha'). by eapply labelledFor_labels.
Qed.

Lemma pointed_env cl cl' : env r cl cl' → pointed r cl → pointed r cl'.
Proof.
  intros He Hp key pv' Hv Ha sv Hl. pose proof He as (_ & Hpv & _).
  destruct (Hpv key pv' Hv Ha) as (pv & Hv' & Ha' & Hls & Hn); [exists sv; by left|].
  destruct (Hp key pv Hv' Ha' sv) as (nfs & Hnfs & Hs); [by eapply labelledFor_labels|].
  exists nfs. split; [congruence|]. by eapply serviceAt_env.
Qed.
End Steps.

(** The invariant survives a call the operator may make. *)
Section Calls.
Context `{Lib} (r : SharedVolumeReconciler) (faulty : Prop).

Lemma serviceAt_unchanged sv ip cl cl' : unchanged KService cl cl' → serviceAt r sv ip cl → serviceAt r sv ip cl'.
Proof. intros [Hu _] [Hip Hs]. split; [done|]. by rewrite Hu. Qed.

(** A living PV of [cl'] that points home there is found, if some PV of [cl] with
    its labels and source did so and Services have not changed for its volume. *)
Lemma pointsHome_from pv pv' cl cl' :
  Labels (pv_ObjectMeta pv') = Labels (pv_ObjectMeta pv) → pvs_NFS (pv_Spec pv') = pvs_NFS (pv_Spec pv) →
  (∀ sv ip, labelledFor sv pv → serviceAt r sv ip cl → serviceAt r sv ip cl') →
  pointsHome r pv cl → pointsHome r pv' cl'.
Proof.
  intros Hl Hn Hs Hp sv Hsv. assert (labelledFor sv pv) as Hsv' by (by eapply labelledFor_labels).
  destruct (Hp sv Hsv') as (nfs & Hnfs & Hat). exists nfs. split; [congruence|]. by apply Hs.
Qed.

Lemma pointed_unchanged cl cl' :
  unchanged KPV cl cl' → unchanged KService cl cl' → pointed r cl → pointed r cl'.
Proof.
  intros [Hu _] Hs Hp key pv Hv Ha. rewrite Hu in Hv. apply (pointsHome_from pv pv cl cl'); [done..| |by eapply Hp].
  intros sv ip _. by apply serviceAt_unchanged.
Qed.

(** One PV is written, and points home. *)
Lemma pointed_storesPV key oo cl cl' :
  stores KPV key oo cl cl' → (∀ pv', oo = Some pv' → alive pv' → ∃ pv, pointsHome r pv cl ∧
    Labels (pv_ObjectMeta pv') = Labels (pv_ObjectMeta pv) ∧ pvs_NFS (pv_Spec pv') = pvs_NFS (pv_Spec pv)) →
  pointed r cl → pointed r cl'.
Proof.
  intros [Hv Hst] Hoo Hp key' pv' Hview Ha. pose proof (Hst KService ltac:(discriminate)) as Hsvc. rewrite Hv in Hview.
  destruct (decide (key' = key)) as [->|].
  - destruct (Hoo pv' Hview Ha) as (pv & Hhome & Hl & Hn). eapply pointsHome_from; [exact Hl|exact Hn| |exact Hhome].
    intros sv ip _. by apply serviceAt_unchanged.
  - apply (pointsHome_from pv' pv' cl cl'); [done..| |by eapply Hp]. intros sv ip _. by apply serviceAt_unchanged.
Qed.

(** One Service is written that no living PV needs. *)
Lemma pointed_storesService key oo cl cl' :
  stores KService key oo cl cl' → (∀ sv, key = serverKey r sv → noPVs sv cl) → pointed r cl → pointed r cl'.
Proof.
  intros [Hv Hst] Hno Hp key' pv Hview Ha. rewrite (proj1 (Hst KPV ltac:(discriminate))) in Hview.
  apply (pointsHome_from pv pv cl cl'); [done..| |by eapply Hp].
  intros sv ip Hl [Hip Hs]. split; [done|]. rewrite Hv. case_decide as Hk; [|done].
  destruct (Hno sv (eq_sym Hk) key' pv Hview Ha Hl).
Qed.

(** A Service that is missing has no living PV. *)
Lemma pointed_missing sv cl : pointed r cl → view cl KService (serverKey r sv) = None → noPVs sv cl.
Proof. intros Hp Hn key pv Hv Ha Hl. destruct (Hp key pv Hv Ha sv Hl) as (nfs & _ & _ & svc & Hs & _). congruence. Qed.

(** A kind that is neither. *)
Lemma pointed_other k key oo cl cl' :
  stores k key oo cl cl' → k ≠ KPV → k ≠ KService → pointed r cl → pointed r cl'.
Proof. intros [_ Hst] H1 H2. apply pointed_unchanged; apply Hst; congruence. Qed.

Lemma pointed_same cl cl' : same cl cl' → pointed r cl → pointed r cl'.
Proof. by intros ->. Qed.

Lemma pointed_create k (o : obj k) a cl cl' :
  safeCall r cl (CCreate k o) → api_step faulty cl (CCreate k o) a cl' → pointed r cl → pointed r cl'.
Proof.
  intros Hsafe Hstep. destruct a as [e|o']; cbn [api_step] in Hstep; [by apply pointed_same, Hstep|].
  destruct Hstep as (Hnone & (_ & Hl & _ & _ & Hp) & _ & Hst).
  destruct (decide (k = KPV)) as [->|H1]; [|destruct (decide (k = KService)) as [->|H2]; [|exact (pointed_other k _ _ _ _ Hst H1 H2)]].
  - apply (pointed_storesPV _ _ _ _ Hst). intros pv' [= <-] _. exists o. split; [exact Hsafe|]. split; [exact Hl|exact (proj2 Hp)].
  - intros Hpt. apply (pointed_storesService _ _ _ _ Hst); [|exact Hpt].
    intros sv Hk. apply (pointed_missing sv cl Hpt). by rewrite <- Hk.
Qed.

Lemma pointed_update k (u : obj k) a cl cl' :
  safeCall r cl (CUpdate k u) → api_step faulty cl (CUpdate k u) a cl' → pointed r cl → pointed r cl'.
Proof.
  intros Hsafe Hstep. destruct a as [e|u']; cbn [api_step] in Hstep; [by apply pointed_same|].
  destruct Hstep as (old & Hold & _ & (_ & Hl & _ & _ & Hp) & Hd & Hst).
  destruct (decide (k = KPV)) as [->|H1]; [|destruct (decide (k = KService)) as [->|H2]; [destruct Hsafe|exact (pointed_other k _ _ _ _ Hst H1 H2)]].
  apply (pointed_storesPV _ _ _ _ Hst). intros pv' Hs Ha. exists u.
  assert (pv' = u') as ->. { unfold survives in Hs. destruct (_ && _); congruence. }
  split; [|split; [exact Hl|exact (proj2 Hp)]]. apply (Hsafe old Hold). unfold alive, terminating in *.
  change (DeletionTimestamp (pv_ObjectMeta u') = DeletionTimestamp (pv_ObjectMeta old)) in Hd. by rewrite <- Hd.
Qed.

Lemma pointed_delete k (o : obj k) prop a cl cl' :
  safeCall r cl (CDelete k o prop) → api_step faulty cl (CDelete k o prop) a cl' → pointed r cl → pointed r cl'.
Proof.
  intros Hsafe Hstep. destruct a as [e|]; cbn [api_step] in Hstep; [by apply pointed_same, Hstep|].
  destruct Hstep as (old & Hold & Hd).
  assert (∃ oo, stores k (ObjectKey k o) oo cl cl' ∧ ∀ o', oo = Some o' → terminating (obj_meta k o') = true) as (oo & Hst & Hoo).
  { destruct (decide (Finalizers (obj_meta k old) = [])); [by exists None|].
    destruct Hd as (o' & _ & Ht & Hst). exists (Some o'). split; [done|]. by intros ? [= <-]. }
  destruct (decide (k = KPV)) as [->|H1]; [|destruct (decide (k = KService)) as [->|H2]; [|exact (pointed_other k _ _ _ _ Hst H1 H2)]].
  - apply (pointed_storesPV _ _ _ _ Hst). intros pv' -> Ha. specialize (Hoo pv' eq_refl).
    unfold alive in Ha. change (terminating (pv_ObjectMeta pv') = true) in Hoo. congruence.
  - exact (pointed_storesService _ _ _ _ Hst Hsafe).
Qed.

Lemma pointed_step cl c a cl' :
  safeCall r cl c → api_step faulty cl c a cl' → pointed r cl → pointed r cl'.
Proof.
  destruct c as [k key|k opt|k o|k u|u|k o prop| |]; intros Hsafe Hstep.
  - by apply pointed_same, Hstep.
  - by apply pointed_same, Hstep.
  - exact (pointed_create k o a cl cl' Hsafe Hstep).
  - exact (pointed_update k u a cl cl' Hsafe Hstep).
  - destruct a as [e|u']; cbn [api_step] in Hstep; [by apply pointed_same|].
    destruct Hstep as (old & _ & _ & _ & _ & _ & _ & Hst). by apply (pointed_other KSharedVolume _ _ _ _ Hst).
  - exact (pointed_delete k o prop a cl cl' Hsafe Hstep).
  - by apply pointed_same.
  - by apply pointed_same.
Qed.
End Calls.

(** * A logic for handlers amid other actors *)

Section Amid.
Context `{Lib} (r : SharedVolumeReconciler) (faulty : Prop).
Local Open Scope go_scope.
Implicit Types (cl : cluster) (R : cluster → Prop).

(** A call is made after whatever the others did since the last one; it must then
    be safe, and may rely on the invariant. *)
Definition amidGuar cl (c : call) : Prop := ∀ cl1, env r cl cl1 → pointed r cl1 → safeCall r cl1 c.
Definition amidTrans cl (c : call) (a : resp c) cl' : Prop :=
  ∃ cl1, env r cl cl1 ∧ pointed r cl1 ∧ api_step faulty cl1 c a cl' ∧ wf cl' ∧ pointed r cl'.

(** [p] makes safe calls only, and a success satisfies [P]. *)
Definition mid {A} cl (p : prog (outcome A)) (P : cluster → A → Prop) : Prop :=
  wp amidGuar amidTrans p (λ cl' o, ∀ a, o = Ok a → P cl' a) cl.

(** An assertion the others cannot undo. *)
Definition stable R : Prop := ∀ cl cl', env r cl cl' → R cl → R cl'.

(** Pairs whose calls are safe at any time. *)
Definition harmless (sigs : list (verb * kind)) : bool :=
  forallb (λ vk, negb (bool_decide (vk ∈ [(VCreate, KPV); (VUpdate, KPV); (VUpdate, KService); (VDelete, KService)]))) sigs.

Lemma mid_ok {A} cl (a : A) (P : cluster → A → Prop) : P cl a → mid cl (Ret (Ok a)) P.
Proof. intros HP. apply wp_ret. by intros ? [= <-]. Qed.
Lemma mid_err {A} cl e (P : cluster → A → Prop) : mid cl (Ret (Err e)) P.
Proof. by apply wp_ret. Qed.
Lemma mid_panic {A} cl (P : cluster → A → Prop) : mid cl (Ret Panic) P.
Proof. by apply wp_ret. Qed.

Lemma mid_mono {A} cl (p : prog (outcome A)) (P P' : cluster → A → Prop) :
  (∀ cl' a, P cl' a → P' cl' a) → mid cl p P → mid cl p P'.
Proof. intros HP. apply wp_mono. intros cl' o Ho a Ha. by apply HP, Ho. Qed.

Lemma mid_bindE {A B} cl (p : prog (outcome A)) (f : A → prog (outcome B)) P1 (P2 : cluster → B → Prop) :
  mid cl p P1 → (∀ cl' a, P1 cl' a → mid cl' (f a) P2) → mid cl (bindE p f) P2.
Proof.
  intros Hp Hf. apply wp_bindE. eapply wp_mono; [|exact Hp]. intros cl' [a|e|] Ho; [by apply Hf, Ho|done..].
Qed.

(** One call; [R] is what is known before it. *)
Lemma mid_call {A} R cl c (f : resp c → prog (outcome A)) (P : cluster → A → Prop) :
  stable R → R cl → (∀ cl1, wf cl1 → R cl1 → safeCall r cl1 c) →
  (∀ cl1 a cl', R cl1 → wf cl1 → pointed r cl1 → api_step faulty cl1 c a cl' → wf cl' → pointed r cl' → mid cl' (f a) P) →
  mid cl (trigger c ≫= f) P.
Proof.
  intros Hst HR Hsafe Hf. apply wp_bind, wp_trigger.
  - intros cl1 He _. apply Hsafe; [apply He|by eapply Hst].
  - intros a cl' (cl1 & He & Hp & Hstep & Hwf & Hp'). apply (Hf cl1 a cl'); [by eapply Hst|apply He|done..].
Qed.

(** A read sees the cluster as it is, or fails. *)
Lemma mid_get {A} R cl k key (f : error + obj k → prog (outcome A)) (P : cluster → A → Prop) :
  stable R → R cl →
  (∀ cl1 o, R cl1 → wf cl1 → pointed r cl1 → view cl1 k key = Some o → mid cl1 (f (inr o)) P) →
  (∀ cl1 e, R cl1 → pointed r cl1 → (IsNotFound e = true → view cl1 k key = None) → mid cl1 (f (inl e)) P) →
  mid cl (Get k key ≫= f) P.
Proof.
  intros Hst HR Hs Hn. apply (mid_call R); [done|done|done|].
  intros cl1 a cl' HR1 Hwf Hp [-> Ha] _ _. destruct (view cl1 k key) as [o|] eqn:Hv.
  - destruct Ha as [-> |(_ & e & -> & He)]; [by apply (Hs cl1)|]. apply (Hn cl1); [done|done|congruence].
  - destruct Ha as [(e & -> & He)|(_ & e & -> & He)]; by apply (Hn cl1).
Qed.

(** A handler whose calls are safe under [R] and keep it. *)
Lemma mid_frame {A} R sigs cl (p : prog (outcome A)) :
  footprint (λ c, within sigs c = true) p → stable R →
  (∀ c cl1, within sigs c = true → R cl1 → safeCall r cl1 c) →
  (∀ c cl1 a cl', within sigs c = true → R cl1 → api_step faulty cl1 c a cl' → R cl') →
  R cl → mid cl p (λ cl' _, R cl').
Proof.
  intros Hf Hst Hsafe Hkeep HR.
  enough (wp amidGuar amidTrans p (λ cl' _, R cl') cl) as Hwp.
  { eapply wp_mono; [|exact Hwp]. intros cl' o HR' a _. exact HR'. }
  revert cl HR. induction p as [res|c k IH]; intros cl HR; [done|]. destruct Hf as [Hc Hk]. split.
  - intros cl1 He _. apply Hsafe; [done|by eapply Hst].
  - intros a cl' (cl1 & He & _ & Hstep & _). apply IH; [by apply (Hk a tt)|].
    apply (Hkeep c cl1 a cl' Hc); [by eapply Hst|exact Hstep].
Qed.

Lemma harmless_safe sigs c cl : harmless sigs = true → within sigs c = true → safeCall r cl c.
Proof.
  unfold harmless, within. rewrite forallb_forall. intros Hall Hc%bool_decide_eq_true.
  specialize (Hall _ (proj1 (list_elem_of_In _ _) Hc)). apply negb_true_iff, bool_decide_eq_false in Hall.
  destruct c as [k key|k opt|k o|k u|u|k o prop| |]; try exact I; destruct k; try exact I; exfalso; apply Hall.
  - left.
  - do 1 right; left.
  - do 2 right; left.
  - do 3 right; left.
Qed.

Lemma mid_harmless {A} sigs cl (p : prog (outcome A)) :
  footprint (λ c, within sigs c = true) p → harmless sigs = true → mid cl p (λ _ _, True).
Proof.
  intros Hf Hs. apply (mid_frame (λ _, True) sigs cl p Hf); try done. intros c cl1 Hc _. by eapply harmless_safe.
Qed.

Lemma stable_serviceAt sv ip : stable (serviceAt r sv ip).
Proof. intros cl cl'. apply serviceAt_env. Qed.

Lemma stable_True : stable (λ _, True).
Proof. done. Qed.

Lemma mid_keep {A} sv ip sigs cl (p : prog (outcome A)) :
  footprint (λ c, within sigs c = true) p → harmless sigs = true → untouched sigs KService = true →
  serviceAt r sv ip cl → mid cl p (λ cl' _, serviceAt r sv ip cl').
Proof.
  intros Hf Hs Hu. apply (mid_frame (serviceAt r sv ip) sigs cl p Hf).
  - apply stable_serviceAt.
  - intros c cl1 Hc _. by eapply harmless_safe.
  - intros c cl1 a cl' Hc Hsv Hstep. by eapply serviceAt_unchanged; [eapply step_unchanged|].
Qed.
End Amid.

(** * The living reconcile *)

Section Living.
Context `{Lib} {L : LibLaws} (r : SharedVolumeReconciler) (faulty : Prop).
Local Open Scope go_scope.
Implicit Types (cl : cluster) (sv : SharedVolume).
Abbreviation mid := (mid r faulty).

Lemma labelledFor_built sv sv' ns ip : labelledFor sv (BuildPV sv' ns ip) → sv_Name sv = sv_Name sv'.
Proof.
  unfold labelledFor, byVolume, selected, matchLabels. rewrite map_to_list_singleton. cbn [forallb fst snd].
  rewrite andb_true_r, andb_true_iff, bool_decide_eq_true. unfold BuildPV, managedLabels, managedLabelsMap.
  cbn [pv_ObjectMeta Labels objectMeta]. rewrite mapIndex_insert. by intros [_ ?].
Qed.

(** What the operator's own PVs point at. *)
Lemma builtPV_home sv ns ip refs cl :
  serviceAt r sv ip cl → pointsHome r (obj_SetOwnerReferences KPV refs (BuildPV sv ns ip)) cl.
Proof.
  intros Hs sv' Hl. pose proof (labelledFor_built sv' sv ns ip Hl) as Hn. exists (MkNFS ip "/").
  split; [done|]. unfold serviceAt, serverKey, ServerName. rewrite Hn. exact Hs.
Qed.

Lemma mid_createOwned R cl k sv (o : obj k) :
  stable r R → R cl →
  (∀ cl1 refs, R cl1 → safeCall r cl1 (CCreate k (obj_SetOwnerReferences k refs o))) →
  (∀ cl1 refs a cl', R cl1 → api_step faulty cl1 (CCreate k (obj_SetOwnerReferences k refs o)) a cl' → R cl') →
  mid cl (createOwned k sv o) (λ cl' _, R cl').
Proof.
  intros Hst HR Hsafe Hkeep. unfold createOwned. destruct (SetControllerReference _ _) as [e|refs]; [apply mid_err|].
  apply (mid_call r faulty R); [done|done|by intros; apply Hsafe|].
  intros cl1 [e|o'] cl' HR1 _ _ Hstep _ _.
  - destruct (IsAlreadyExists e); [apply mid_ok; by eapply Hkeep|apply mid_err].
  - apply mid_ok. by eapply Hkeep.
Qed.

Lemma ensureService_mid sv cl :
  mid cl (ensureService r sv) (λ cl' ip, ip ≠ "" → serviceAt r sv ip cl').
Proof.
  unfold ensureService. apply (mid_get r faulty (λ _, True)); [done|done| |].
  - intros cl1 svc _ _ _ Hv. apply mid_ok. intros Hip. split; [done|]. by exists svc.
  - intros cl1 e _ _ _. destruct (IsNotFound e); [|apply mid_err].
    eapply mid_bindE; [by apply (mid_createOwned (λ _, True))|]. intros cl2 o' _.
    apply (mid_get r faulty (λ _, True)); [done|done| |].
    + intros cl3 svc _ _ _ Hv. apply mid_ok. intros Hip. split; [done|]. by exists svc.
    + intros cl3 e' _ _ _. apply mid_err.
Qed.

Lemma reconcileServer_mid sv cl :
  mid cl (reconcileServer r sv) (λ cl' x, x.1.1 ≠ "" → serviceAt r x.2 x.1.1 cl').
Proof.
  unfold reconcileServer.
  eapply mid_bindE; [by eapply mid_harmless; [apply createIfMissing_fp|]|]. intros cl1 [] _.
  eapply mid_bindE; [by eapply mid_harmless; [apply ensureConfigMap_fp|]|]. intros cl2 cm _.
  eapply mid_bindE; [by eapply mid_harmless; [apply reconcileSeed_fp|]|]. intros cl3 [seeded sv'] _.
  eapply (mid_bindE _ _ _ _ _ (λ _ _, True)).
  { destruct seeded; [by eapply mid_harmless; [apply ensureDeployment_fp|]|by apply mid_ok]. }
  intros cl4 ready _. eapply mid_bindE; [apply ensureService_mid|]. intros cl5 ip Hip. by apply mid_ok.
Qed.

(** A repair re-submits what was read: it points home, or the PV is not alive. *)
Definition repairable (key : NamespacedName) (pv : PersistentVolume) (cl : cluster) : Prop :=
  ∀ old, view cl KPV key = Some old → alive old → pointsHome r pv cl.

Lemma stable_repairable sv ns pv : stable r (repairable (MkNN "" (PVName sv ns)) pv).
Proof.
  intros cl cl' He Hr old' Hv Ha. pose proof He as (_ & Hpv & _).
  destruct (Hpv _ old' Hv Ha) as (old & Hv' & Ha' & _); [exists sv; right; by exists ns|].
  eapply pointsHome_env; [exact He|]. by apply (Hr old).
Qed.

Lemma ensurePV_mid sv ns ip cl :
  serviceAt r sv ip cl → mid cl (ensurePV sv ns ip) (λ cl' _, serviceAt r sv ip cl').
Proof.
  intros Hs. unfold ensurePV. change (ObjectKey KPV (BuildPV sv ns ip)) with (MkNN "" (PVName sv ns)).
  assert (∀ k' oo key cl1 cl2, stores k' key oo cl1 cl2 → k' ≠ KService → serviceAt r sv ip cl1 → serviceAt r sv ip cl2) as Hst.
  { intros k' oo key cl1 cl2 [_ Hu] Hk. apply serviceAt_unchanged, Hu. congruence. }
  apply (mid_get r faulty (serviceAt r sv ip)); [apply stable_serviceAt|exact Hs| |].
  - intros cl1 pv Hs1 Hwf Hp Hv. destruct (pvs_ClaimRef (pv_Spec pv)) as [ref|]; [|by apply mid_ok].
    case_decide as Hrel; [|by apply mid_ok]. clear Hrel. set (u := pv_with_ClaimRef pv _).
    pose proof (wf_key _ Hwf _ _ _ Hv) as Hk. assert (ObjectKey KPV u = MkNN "" (PVName sv ns)) as Hku by exact Hk.
    assert (repairable (MkNN "" (PVName sv ns)) u cl1) as Hrep.
    { intros old Hold Ha. assert (old = pv) as -> by congruence. exact (Hp _ _ Hv Ha). }
    clearbody u. clear Hk Hv Hp Hwf. eapply (mid_bindE _ _ _ _ _ (λ cl' _, serviceAt r sv ip cl')); [|by intros; apply mid_ok].
    apply (mid_call r faulty (λ cl', serviceAt r sv ip cl' ∧ repairable (MkNN "" (PVName sv ns)) u cl')).
    + intros c c' He [H1 H2]. split; [by eapply stable_serviceAt|by eapply stable_repairable].
    + by split.
    + intros c _ [_ Hr] old. rewrite Hku. apply Hr.
    + intros c [e|u'] c' [H1 _] _ _ Hstep _ _; [apply mid_err|]. apply mid_ok.
      destruct Hstep as (old & _ & _ & _ & _ & Hstore). eapply Hst; [exact Hstore|discriminate|exact H1].
  - intros cl1 e Hs1 _ _. destruct (IsNotFound e); [|apply mid_err].
    eapply mid_bindE; [|by intros cl2 o' Ho; apply mid_ok, Ho].
    apply (mid_createOwned (serviceAt r sv ip)); [apply stable_serviceAt|exact Hs1| |].
    + intros c refs Hc. by apply builtPV_home.
    + intros c refs [e'|o'] c' Hc Hstep; cbn [api_step] in Hstep; [by destruct Hstep as [-> _]|].
      destruct Hstep as (_ & _ & _ & Hstore). eapply Hst; [exact Hstore|discriminate|exact Hc].
Qed.

(** Likewise for an address that may not be there yet. *)
Lemma mid_keep' {A} sv ip sigs cl (p : prog (outcome A)) :
  footprint (λ c, within sigs c = true) p → harmless sigs = true → untouched sigs KService = true →
  (ip ≠ "" → serviceAt r sv ip cl) → mid cl p (λ cl' _, ip ≠ "" → serviceAt r sv ip cl').
Proof.
  intros Hf Hh Hu Hs. destruct (decide (ip = "")) as [->|Hip].
  - eapply mid_mono; [|by eapply mid_harmless]. by intros cl' a _ [].
  - eapply mid_mono; [|eapply mid_keep; [done..|by apply Hs]]. by intros cl' a Hs' _.
Qed.

Definition pair_sigs : list (verb * kind) := [(VGet, KPVC); (VCreate, KPVC); (VEvent, KSharedVolume)].

Lemma reconcileBinding_mid sv ns ip cl :
  serviceAt r sv ip cl → mid cl (reconcileBinding sv ns ip) (λ cl' _, serviceAt r sv ip cl').
Proof.
  intros Hs. unfold reconcileBinding. eapply mid_bindE; [by apply ensurePV_mid|]. intros cl1 [] Hs1.
  apply (mid_keep r faulty sv ip pair_sigs); [|reflexivity|reflexivity|exact Hs1]. unfold pair_sigs. fp_solve.
Qed.

Lemma reconcileBindings_mid sv targets ip cl :
  serviceAt r sv ip cl → mid cl (reconcileBindings sv targets ip) (λ _ _, True).
Proof.
  revert cl. induction targets as [|ns targets IH]; intros cl Hs; cbn [reconcileBindings]; [by apply mid_ok|].
  eapply mid_bindE; [by apply reconcileBinding_mid|]. intros cl1 phase Hs1.
  eapply mid_bindE; [by apply IH|]. intros cl2 bs _. by apply mid_ok.
Qed.

Lemma ensureBindings_mid sv targets ip cl :
  (ip ≠ "" → serviceAt r sv ip cl) → mid cl (ensureBindings sv targets ip) (λ _ _, True).
Proof.
  intros Hs. unfold ensureBindings. destruct (decide (ip ≠ "")) as [Hip|]; [|by apply mid_ok].
  eapply mid_bindE; [by apply reconcileBindings_mid, Hs|]. intros cl1 bs _.
  eapply mid_bindE; [by eapply mid_harmless; [apply cleanupStaleBindings_fp|]|]. intros cl2 [] _. by apply mid_ok.
Qed.

Definition after_sigs : list (verb * kind) := netpol_sigs ++ backup_sigs ++ status_sigs.

Lemma reconcileLive_mid sv cl : mid cl (reconcileLive r sv) (λ _ _, True).
Proof.
  unfold reconcileLive.
  eapply mid_bindE; [eapply (mid_harmless r faulty [(VUpdate, KSharedVolume)]); [unfold ensureFinalizer; fp_solve|done]|].
  intros cl1 sv1 _. eapply mid_bindE; [apply reconcileServer_mid|]. intros cl2 [[ip ready] sv2] Hs. cbn [fst snd] in Hs.
  eapply mid_bindE; [by apply (mid_keep' sv2 ip targets_sigs); [apply targetNamespaces_fp|..]|].
  intros cl3 targets Hs3. eapply mid_bindE; [by apply ensureBindings_mid|]. intros cl4 bs _.
  apply (mid_harmless r faulty after_sigs); [|reflexivity]. unfold after_sigs. fp_solve.
  - fp_part reconcileNetworkPolicy_fp.
  - fp_part reconcileBackup_fp.
  - fp_part updateStatus_fp.
Qed.
End Living.

(** * The teardown *)

Section Dying.
Context `{Lib} {L : LibLaws} (r : SharedVolumeReconciler) (faulty : Prop).
Local Open Scope go_scope.
Implicit Types (cl : cluster) (sv : SharedVolume).
Abbreviation mid := (mid r faulty).

(** The volume's living PVs are under [keys]. *)
Definition covered sv (keys : list NamespacedName) cl : Prop :=
  ∀ key pv, view cl KPV key = Some pv → alive pv → labelledFor sv pv → key ∈ keys.

Lemma covered_noPVs sv cl : covered sv [] cl → noPVs sv cl.
Proof. intros Hc key pv Hv Ha Hl. by apply (elem_of_nil key), (Hc key pv). Qed.

Lemma stable_covered sv keys : stable r (covered sv keys).
Proof.
  intros cl cl' (_ & Hp & _) Hc key pv' Hv Ha Hl.
  destruct (Hp key pv' Hv Ha) as (pv & Hv' & Ha' & Hls & _); [exists sv; by left|].
  apply (Hc key pv Hv' Ha'). by eapply labelledFor_labels.
Qed.

(** Only PVs that are created or updated are new. *)
Lemma covered_step sv keys cl c a cl' :
  bool_decide (sig c ∈ [(VCreate, KPV); (VUpdate, KPV)]) = false → api_step faulty cl c a cl' → covered sv keys cl → covered sv keys cl'.
Proof.
  intros Hc%bool_decide_eq_false Hstep. destruct (decide (sig c = (VDelete, KPV))) as [Hd|Hd].
  - destruct c as [| | | | |k o prop| |]; try discriminate Hd. injection Hd as ->.
    destruct a as [e|]; cbn [api_step] in Hstep; [by destruct Hstep as [-> _]|].
    destruct Hstep as (old & _ & Hd). intros Hcov key pv Hv Ha Hl. case_decide.
    + destruct Hd as [Hv' _]. rewrite Hv' in Hv. case_decide; [discriminate Hv|]. exact (Hcov key pv Hv Ha Hl).
    + destruct Hd as (o' & _ & Ht & [Hv' _]). rewrite Hv' in Hv. case_decide; [|exact (Hcov key pv Hv Ha Hl)].
      injection Hv as <-. unfold alive in Ha. change (terminating (pv_ObjectMeta o') = true) in Ht. congruence.
  - assert (unchanged KPV cl cl') as [Hu _].
    { apply (step_unchanged faulty [sig c] KPV cl c a cl'); [|  |exact Hstep].
      - unfold within. apply bool_decide_eq_true. by left.
      - unfold untouched. cbn [forallb]. rewrite andb_true_r. apply negb_true_iff, andb_false_iff.
        rewrite !bool_decide_eq_false. destruct (decide ((sig c).2 = KPV)) as [Hk|]; [|by left]. right. intros Hin.
        destruct (sig c) as [v k] eqn:Hsig. cbn in Hk, Hin. subst k.
        rewrite !elem_of_cons, elem_of_nil in Hin. destruct Hin as [->|[->|[->|[->|[]]]]]; [by apply Hc; left|by apply Hc; right; left| |by apply Hd].
        destruct c; discriminate Hsig. }
    intros Hcov key pv. rewrite Hu. apply Hcov.
Qed.

(** Deleting a PV leaves one key less. *)
Lemma mid_deletePV sv pv keys cl :
  covered sv (ObjectKey KPV pv :: keys) cl →
  mid cl (DeleteIgnoreNotFound KPV pv None) (λ cl' _, covered sv keys cl').
Proof.
  intros Hc. unfold DeleteIgnoreNotFound.
  apply (mid_call r faulty (covered sv (ObjectKey KPV pv :: keys))); [apply stable_covered|exact Hc|done|].
  intros cl1 a cl' Hc1 _ _ Hstep _ _. pose proof (covered_step sv _ cl1 (CDelete KPV pv None) a cl' eq_refl Hstep Hc1) as Hc'.
  enough ((match a with Some e => IsNotFound e | None => true end) = true → covered sv keys cl') as Hgone.
  { destruct a as [e|]; [|by apply mid_ok, Hgone]. destruct (IsNotFound e); [by apply mid_ok, Hgone|apply mid_err]. }
  intros Ha key pv' Hv Hal Hl. pose proof (Hc' key pv' Hv Hal Hl) as [->|Hin]%elem_of_cons; [exfalso|exact Hin].
  destruct a as [e|]; cbn [api_step] in Hstep.
  - destruct Hstep as [-> Hn]. specialize (Hn Ha). congruence.
  - destruct Hstep as (old & _ & Hd). case_decide.
    + destruct Hd as [Hv' _]. rewrite Hv', decide_True in Hv by done. discriminate Hv.
    + destruct Hd as (o' & _ & Ht & [Hv' _]). rewrite Hv', decide_True in Hv by done. injection Hv as <-.
      unfold alive in Hal. change (terminating (pv_ObjectMeta o') = true) in Ht. congruence.
Qed.

(** What the loop over the listed PVs has still to visit, while nothing remains. *)
Definition toVisit sv (pvs : list PersistentVolume) (n : nat) cl : Prop := n = 0%nat → covered sv (map (ObjectKey KPV) pvs) cl.

Lemma stable_toVisit sv pvs n : stable r (toVisit sv pvs n).
Proof. intros cl cl' He Hv Hn. by eapply stable_covered, Hv. Qed.

Lemma mid_visit sv pv pvs n cl :
  toVisit sv (pv :: pvs) n cl → mid cl (DeleteIgnoreNotFound KPV pv None) (λ cl' _, toVisit sv pvs n cl').
Proof.
  intros Hv. destruct n as [|n].
  - eapply mid_mono; [|exact (mid_deletePV sv pv (map (ObjectKey KPV) pvs) cl (Hv eq_refl))]. intros cl' a Hc _. exact Hc.
  - eapply mid_mono; [|eapply (mid_harmless r faulty [(VDelete, KPV)]); [fp_solve|reflexivity]]. intros cl' a _ Hn. discriminate Hn.
Qed.

Lemma teardownLoop_mid sv pvs n cl :
  toVisit sv pvs n cl → mid cl (teardownLoop sv pvs n) (λ cl' m, m = 0%nat → noPVs sv cl').
Proof.
  revert n cl. induction pvs as [|pv pvs IH]; intros n cl Hv; cbn [teardownLoop].
  { apply mid_ok. intros Hn. by apply covered_noPVs, Hv. }
  assert (∀ cl1, toVisit sv (pv :: pvs) n cl1 →
    mid cl1 (_ ←! DeleteIgnoreNotFound KPV pv None; teardownLoop sv pvs n) (λ cl' m, m = 0%nat → noPVs sv cl')) as Hdel.
  { intros cl1 Hv1. eapply mid_bindE; [by apply mid_visit|]. intros cl2 [] Hv2. by apply IH. }
  destruct (pvs_ClaimRef (pv_Spec pv)) as [ref|]; [|by apply Hdel].
  apply (mid_get r faulty (toVisit sv (pv :: pvs) n)); [apply stable_toVisit|exact Hv| |].
  - intros cl1 pvc Hv1 _ _ _. destruct (pvcOwned sv pvc); [|by apply Hdel].
    eapply (mid_bindE _ _ _ _ _ (λ _ _, True)); [|intros cl2 [] _; apply IH; intros Hn; discriminate Hn].
    destruct (Time_IsZero _); [|by apply mid_ok].
    eapply (mid_harmless r faulty [(VDelete, KPVC)]); [fp_solve|reflexivity].
  - intros cl1 e Hv1 _ _. destruct (IsNotFound e); [by apply Hdel|apply mid_err].
Qed.

Lemma deleteStack_mid sv objs cl :
  Forall (λ ko, ∀ cl1 prop, noPVs sv cl1 → safeCall r cl1 (CDelete (projT1 ko) (projT2 ko) prop)) objs →
  noPVs sv cl → mid cl (deleteStack objs) (λ _ _, True).
Proof.
  intros Hs Hno. assert (covered sv [] cl) as Hc by (intros key pv Hv Ha Hl; exact (False_ind _ (Hno key pv Hv Ha Hl))). clear Hno.
  revert cl Hc. induction Hs as [|[k o] objs Ho Hs IH]; intros cl Hc; cbn [deleteStack]; [by apply mid_ok|].
  eapply (mid_bindE _ _ _ _ _ (λ cl' _, covered sv [] cl')); [|by intros cl' [] Hc'; apply IH].
  unfold DeleteIgnoreNotFound. apply (mid_call r faulty (covered sv [])); [apply stable_covered|exact Hc| |].
  - intros cl1 _ Hc1. by apply Ho, covered_noPVs.
  - intros cl1 a cl' Hc1 _ _ Hstep _ _.
    assert (covered sv [] cl') as Hc'.
    { apply (covered_step sv [] cl1 (CDelete k o (Some DeletePropagationBackground)) a cl'); [by destruct k|exact Hstep|exact Hc1]. }
    destruct a as [e|]; [destruct (IsNotFound e); [by apply mid_ok|apply mid_err]|by apply mid_ok].
Qed.

Lemma stackObjects_safe sv :
  Forall (λ ko, ∀ cl1 prop, noPVs sv cl1 → safeCall r cl1 (CDelete (projT1 ko) (projT2 ko) prop)) (stackObjects r sv).
Proof.
  assert (∀ svc prop cl1, ObjectKey KService svc = serverKey r sv → noPVs sv cl1 → safeCall r cl1 (CDelete KService svc prop)) as Hsvc.
  { intros svc prop cl1 Hs Hno sv' Hk. rewrite Hs in Hk. apply (f_equal nn_Name) in Hk. apply (ServerName_inj sv sv') in Hk as Hn.
    intros key pv Hv Ha Hl. apply (Hno key pv Hv Ha). unfold labelledFor, byVolume in *. by rewrite Hn. }
  unfold stackObjects. repeat (apply Forall_cons; split); try (intros cl1 prop _; exact I); [|by apply Forall_nil].
  intros cl1 prop. by apply Hsvc.
Qed.

Definition finish_sigs : list (verb * kind) :=
  [(VGet, KPVC); (VUpdate, KPVC); (VDelete, KPVC); (VUpdate, KSharedVolume)].

Lemma reconcileDelete_mid sv cl : mid cl (reconcileDelete r sv) (λ _ _, True).
Proof.
  unfold reconcileDelete. destruct (negb _); [by apply mid_ok|].
  eapply mid_bindE; [eapply (mid_harmless r faulty [(VStatusUpdate, KSharedVolume)]); [unfold markTerminating; fp_solve|reflexivity]|].
  intros cl1 sv1 _. apply (mid_call r faulty (λ _, True)); [done|done|done|].
  intros cl2 a cl3 _ Hwf _ [-> Ha] _ _. destruct Ha as [->|(_ & e & ->)]; [|apply mid_err].
  eapply mid_bindE; [apply (teardownLoop_mid sv1 _ 0)|].
  { intros _ key pv Hv Hal Hl. pose proof (wf_key _ Hwf _ _ _ Hv) as Hk. rewrite <- Hk.
    apply list_elem_of_fmap_2, list_elem_of_filter. split; [exact Hl|]. apply (wf_items _ Hwf KPV). by rewrite Hk. }
  intros cl4 remaining Hno. destruct remaining as [|m]; cbn [Nat.ltb Nat.leb]; [|by apply mid_ok].
  eapply mid_bindE; [by apply (deleteStack_mid sv1); [apply stackObjects_safe|apply Hno]|]. intros cl5 [] _.
  apply (mid_harmless r faulty finish_sigs); [|reflexivity]. unfold finish_sigs, teardownBacking. fp_solve.
Qed.

Lemma Reconcile_mid req cl : mid cl (Reconcile r req) (λ _ _, True).
Proof.
  unfold Reconcile. apply (mid_get r faulty (λ _, True)); [done|done| |].
  - intros cl1 sv _ _ _ _. destruct (negb _); [apply reconcileDelete_mid|apply reconcileLive_mid].
  - intros cl1 e _ _ _. destruct (IgnoreNotFound _); [apply mid_err|by apply mid_ok].
Qed.
End Dying.

(** * Reachable states *)

Section Reachable.
Context `{Lib} {L : LibLaws} (r : SharedVolumeReconciler) (faulty : Prop).

(** The invariant of the system: the cluster's, and that the rest of the handler in
    flight is safe. *)
Definition inv (st : system) : Prop :=
  wf st.1 ∧ pointed r st.1 ∧ mid r faulty st.1 st.2 (λ _ _, True).

Lemma mid_env {A} cl cl' (p : prog (outcome A)) :
  env r cl cl' → mid r faulty cl p (λ _ _, True) → mid r faulty cl' p (λ _ _, True).
Proof.
  intros He. destruct p as [o|c k]; [by intros _ a _|]. intros [Hg Hk]. split.
  - intros cl1 He1. apply Hg. by eapply env_trans.
  - intros a cl2 (cl1 & He1 & Hrest). apply Hk. exists cl1. split; [by eapply env_trans|exact Hrest].
Qed.

Lemma inv_step st st' : anyStep r faulty st st' → inv st → inv st'.
Proof.
  intros [who Hs] (Hwf & Hp & Hm). destruct Hs as [cl res req|cl c a cl' k Hstep Hwf'|cl p|cl cl' p He]; cbn [fst snd] in *.
  - split_and!; [done..|]. apply Reconcile_mid.
  - destruct Hm as [Hg Hk]. pose proof (Hg cl (env_refl r cl Hwf) Hp) as Hsafe.
    pose proof (pointed_step r faulty cl c a cl' Hsafe Hstep Hp) as Hp'.
    split; [exact Hwf'|]. split; [exact Hp'|]. apply Hk. exists cl. by split; [apply env_refl|].
  - split_and!; [done..|]. by intros a.
  - split; [apply He|]. split; [by eapply pointed_env|]. by eapply mid_env.
Qed.

Lemma inv_reachable st st' : rtc (anyStep r faulty) st st' → inv st → inv st'.
Proof. induction 1 as [|st st1 st2 Hs _ IH]; [done|]. intros Hi. by apply IH, (inv_step st). Qed.
End Reachable.

(** A run of a handler, undisturbed, is a path of the system. *)
Lemma run_reachable `{Lib} r (faulty : Prop) {S} `{!Abstraction S} (srv : server S) `{!ApiServer srv faulty} p s :
  good s → rtc (anyStep r faulty) (abs s, p) (abs (state_of (run srv p s)), Ret (result_of (run srv p s))).
Proof.
  revert s. induction p as [o|c k IH]; intros s Hg; [apply rtc_refl|]. cbn [run].
  pose proof (good_step (faulty := faulty) s c Hg) as Hg1. pose proof (abs_step (faulty := faulty) s c Hg) as Hstep.
  destruct (srv s c) as [a s1]. cbn [fst snd] in *. specialize (IH a s1 Hg1).
  destruct (run srv (k a) s1) as [[tr s2] o]. eapply rtc_l; [|exact IH].
  exists Operator. apply sys_call; [exact Hstep|]. by apply (abs_wf (faulty := faulty)).
Qed.

(** * Property *)

(** C3. PVs keep pointing home, in a cluster where only the operator makes or
    repairs PVs and only it deletes server Services.  Suppose that at first each PV
    that carries a volume's label and is not being deleted points at the address
    of that volume's Service, which exists.  The operator's one worker then
    reconciles volumes, call by call; reads and writes may fail at any time and the
    process may die and start again anywhere.  In between the other actors change
    the cluster as [env] lets them: anything, but they neither delete a server's
    Service nor change its address, make no PV under an operator's name or label,
    and leave the labels and NFS source of those there are.  Then the same holds in
    every state that is reached: the teardown removes the Service only after the
    last of its PVs is gone, and no pass makes one, or writes one back, against
    another address.  Without the condition on Services it fails, see
    [recreated_service_dangles]. *)
Theorem pvs_point_home `{Lib} {L : LibLaws} r (faulty : Prop) cl0 res st
    (Hwf : wf cl0)
    (Hinit : pointed r cl0)
    (Hreach : rtc (anyStep r faulty) (cl0, Ret res) st) :
  pointed r st.1.
Proof.
  apply (inv_reachable r faulty (cl0, Ret res) st Hreach).
  split; [exact Hwf|]. split; [exact Hinit|]. by intros a.
Qed.

(** * The condition on Services is needed *)

(** A pass, then somebody deletes the Service of the server, then another pass. *)
Definition served1 : mem := pass (sampleCluster (sampleVolume ReclaimDelete None)).
Definition unserved : mem :=
  match mem_store served1 KService !! opKey "nfsz-data-server" with
  | Some svc => (memServer served1 (CDelete KService svc None)).2
  | None => served1
  end.
Definition served2 : mem := pass unserved.

(** The address of a volume's Service, and the source of its PV for a namespace if
    that carries its label and is not being deleted. *)
Definition addressIn (m : mem) (sv : SharedVolume) : option string :=
  svc_ClusterIP <$> mem_store m KService !! serverKey sampleReconciler sv.
Definition sourceIn (m : mem) (sv : SharedVolume) (ns : string) : option string :=
  pv ← mem_store m KPV !! MkNN "" (PVName sv ns);
  if negb (terminating (pv_ObjectMeta pv)) && selected (byVolume sv) (Labels (pv_ObjectMeta pv))
  then nfs_Server <$> pvs_NFS (pv_Spec pv) else None.

Lemma addressIn_pointed m sv ns source :
  pointed sampleReconciler (abs m) → sourceIn m sv ns = Some source → addressIn m sv = Some source.
Proof.
  intros Hp. unfold sourceIn, addressIn. destruct (mem_store m KPV !! _) as [pv|] eqn:Hv; cbn [mbind option_bind]; [|done].
  destruct (terminating _) eqn:Ht; [done|]. destruct (selected _ _) eqn:Hl; [|done]. cbn [negb andb].
  destruct (Hp _ pv Hv Ht sv Hl) as (nfs & Hnfs & _ & svc & Hsvc & Hip).
  rewrite Hnfs. intros [= <-]. rewrite <- Hip.
  exact (f_equal (fmap svc_ClusterIP) Hsvc).
Qed.

(** A Service that somebody deletes is made again by the next pass, at another
    address, and the PVs of the volume are left as they are, so that they no longer
    point home. *)
Lemma recreated_service_dangles :
  let sv := sampleVolume ReclaimDelete None in
  addressIn served1 sv = Some "10.96.0.10" ∧ sourceIn served1 sv "team-a" = Some "10.96.0.10" ∧
  addressIn unserved sv = None ∧ bool_decide ((VCreate, KService) ∈ writes_of (passRun unserved)) = true ∧
  addressIn served2 sv = Some "10.96.0.18" ∧ sourceIn served2 sv "team-a" = Some "10.96.0.10" ∧
  ~ pointed sampleReconciler (abs served2).
Proof.
  intros sv. do 5 (split; [vm_compute; reflexivity|]).
  assert (sourceIn served2 sv "team-a" = Some "10.96.0.10") as Hsrc by (vm_compute; reflexivity).
  assert (addressIn served2 sv = Some "10.96.0.18") as Hip by (vm_compute; reflexivity).
  split; [exact Hsrc|]. revert Hsrc Hip. generalize served2. intros m Hsrc Hip Hp.
  pose proof (addressIn_pointed m sv "team-a" _ Hp Hsrc) as Heq. rewrite Hip in Heq. discriminate Heq.
Qed.

(** * Witness *)

(** The first pass over a sample volume makes a PV, and it points home. *)
Definition bornVolume : SharedVolume := sampleVolume ReclaimDelete None.

Lemma born_good : good (sampleCluster bornVolume).
Proof. by repeat (apply with_obj_good; [|reflexivity]); apply emptyMem_good. Qed.

Lemma noPV_pointed cl r : (∀ key pv, view cl KPV key = Some pv → False) → pointed r cl.
Proof. intros Hno key pv Hv. destruct (Hno key pv Hv). Qed.

Lemma born_pointed : pointed sampleReconciler (abs (sampleCluster bornVolume)).
Proof.
  apply noPV_pointed. intros key pv Hv.
  change ((∅ : gmap NamespacedName PersistentVolume) !! key = Some pv) in Hv.
  rewrite lookup_empty in Hv. discriminate Hv.
Qed.

Lemma pvs_point_home_witness :
  let s := sampleCluster bornVolume in
  let x := run memServer (Reconcile sampleReconciler sampleRequest) s in
  let st := (abs (state_of x), Ret (result_of x)) in
  wf (abs s) ∧ pointed sampleReconciler (abs s) ∧
  rtc (anyStep sampleReconciler False) (abs s, Ret (Ok noResult)) st ∧
  pointed sampleReconciler st.1 ∧
  match view st.1 KPV (MkNN "" "nfsz-data-team-a"), view st.1 KService (opKey "nfsz-data-server") with
  | Some pv, Some svc => option_map nfs_Server (pvs_NFS (pv_Spec pv)) = Some (svc_ClusterIP svc)
  | _, _ => False
  end.
Proof.
  intros s x st. pose proof (memGood_wf s born_good) as Hwf.
  assert (rtc (anyStep sampleReconciler False) (abs s, Ret (Ok noResult)) st) as Hpath.
  { eapply rtc_l; [exists Operator; apply (sys_start _ _ _ _ sampleRequest)|].
    exact (run_reachable sampleReconciler False memServer _ s born_good). }
  split; [exact Hwf|]. split; [exact born_pointed|]. split; [exact Hpath|].
  split; [exact (pvs_point_home sampleReconciler False (abs s) (Ok noResult) st Hwf born_pointed Hpath)|].
  vm_compute. reflexivity.
Defined.
