(* ===== verification/Share.v ===== *)
(** The contract of a volume seen from outside: a server with one address for life,
    and exports that are open only while it is.  The operator among other actors
    refines it, call by call. *)
From S2P Require Import Prelude Kube V1alpha1 Client Resources Lib Server Logic Bindings NetPolicy BackupJob Reconcile Footprints LiveServer Names MemCluster Samples Api MemApi Settle Interleave.

(** * The abstract machine *)

(** The server's address, and the address each export (a PV) was given. *)
Record share := MkShare { sh_server : option string; sh_exports : gmap NamespacedName string }.

Inductive shareStep : share → share → Prop :=
| sh_open ip : ip ≠ "" → shareStep (MkShare None ∅) (MkShare (Some ip) ∅)
| sh_close ip : shareStep (MkShare (Some ip) ∅) (MkShare None ∅)
| sh_export ip ex key : ex !! key = None → shareStep (MkShare (Some ip) ex) (MkShare (Some ip) (<[key := ip]> ex))
| sh_drop srv ex key : shareStep (MkShare srv ex) (MkShare srv (delete key ex)).

(** One step, or none. *)
Definition shareMove (s s' : share) : Prop := s' = s ∨ shareStep s s'.

(** * What a cluster shows of it *)

Section Share.
Context `{Lib} (r : SharedVolumeReconciler) (sv : SharedVolume).

Definition serverOf (svc : option Service) : option string :=
  svc ← svc; if decide (svc_ClusterIP svc = "") then None else Some (svc_ClusterIP svc).

Definition exportOf (pv : PersistentVolume) : option string :=
  if terminating (pv_ObjectMeta pv) then None
  else if selected (byVolume sv) (Labels (pv_ObjectMeta pv)) then Some (default "" (nfs_Server <$> pvs_NFS (pv_Spec pv)))
  else None.

Definition exportsOf (cl : cluster) : gmap NamespacedName string :=
  omap exportOf (list_to_map (map (λ pv, (ObjectKey KPV pv, pv)) (items cl KPV)) : gmap NamespacedName PersistentVolume).

Definition shareOf (cl : cluster) : share :=
  MkShare (serverOf (view cl KService (serverKey r sv))) (exportsOf cl).

Lemma exportsOf_lookup cl key : wf cl → exportsOf cl !! key = view cl KPV key ≫= exportOf.
Proof.
  intros Hwf. unfold exportsOf. rewrite lookup_omap. f_equal. apply option_eq. intros pv.
  rewrite <- elem_of_list_to_map.
  - rewrite list_elem_of_fmap. split.
    + intros (pv' & [= -> ->] & Hin). by apply (wf_items _ Hwf KPV).
    + intros Hv. exists pv. pose proof (wf_key _ Hwf KPV key pv Hv) as Hk. split; [by rewrite Hk|].
      apply (wf_items _ Hwf KPV). by rewrite Hk.
  - rewrite <- list_fmap_compose. exact (wf_nodup _ Hwf KPV).
Qed.

Lemma exportOf_Some pv ip :
  exportOf pv = Some ip ↔
  alive pv ∧ labelledFor sv pv ∧ ip = default "" (nfs_Server <$> pvs_NFS (pv_Spec pv)).
Proof.
  unfold exportOf, alive, labelledFor. destruct (terminating _); [by split; [|intros (? & _)]|].
  destruct (selected _ _); [|by split; [|intros (_ & ? & _)]]. split; [by intros [= <-]|by intros (_ & _ & ->)].
Qed.

Lemma serverOf_Some cl ip : serverOf (view cl KService (serverKey r sv)) = Some ip ↔ serviceAt r sv ip cl.
Proof.
  unfold serverOf, serviceAt. destruct (view cl KService (serverKey r sv)) as [svc|]; simpl.
  - case_decide as Hip; split.
    + done.
    + intros [Hne (svc' & [= <-] & <-)]. done.
    + intros [= <-]. split; [done|]. by exists svc.
    + intros [Hne (svc' & [= <-] & <-)]. done.
  - split; [done|]. by intros [_ (svc & ? & _)].
Qed.

(** Under the invariant, an export has the server's address. *)
Lemma exports_home cl key ip :
  wf cl → pointed r cl → exportsOf cl !! key = Some ip → sh_server (shareOf cl) = Some ip.
Proof.
  intros Hwf Hp. rewrite exportsOf_lookup by done. intros (pv & Hv & He)%bind_Some.
  apply exportOf_Some in He as (Ha & Hl & ->). destruct (Hp key pv Hv Ha sv Hl) as (nfs & -> & Hs).
  by apply serverOf_Some.
Qed.

Lemma exports_closed cl : wf cl → pointed r cl → sh_server (shareOf cl) = None → exportsOf cl = ∅.
Proof.
  intros Hwf Hp Hn. apply map_empty. intros key. destruct (exportsOf cl !! key) as [ip|] eqn:He; [|done].
  apply (exports_home cl key ip Hwf Hp) in He. congruence.
Qed.

Lemma noPVs_exports cl : wf cl → noPVs sv cl → exportsOf cl = ∅.
Proof.
  intros Hwf Hno. apply map_empty. intros key. rewrite exportsOf_lookup by done.
  destruct (view cl KPV key) as [pv|] eqn:Hv; [|done]. simpl. destruct (exportOf pv) as [ip|] eqn:He; [|done].
  apply exportOf_Some in He as (Ha & Hl & _). destruct (Hno key pv Hv Ha Hl).
Qed.

(** * Moves *)

Lemma shareOf_unchanged cl cl' :
  wf cl → wf cl' → unchanged KPV cl cl' → unchanged KService cl cl' → shareOf cl' = shareOf cl.
Proof.
  intros Hwf Hwf' [Hpv _] [Hs _]. unfold shareOf. f_equal; [by rewrite Hs|].
  apply map_eq. intros key. by rewrite !exportsOf_lookup, Hpv.
Qed.

(** A PV is written: the exports move at its key alone. *)
Lemma exports_stores key oo cl cl' :
  wf cl → wf cl' → stores KPV key oo cl cl' →
  exportsOf cl' = partial_alter (λ _, oo ≫= exportOf) key (exportsOf cl).
Proof.
  intros Hwf Hwf' [Hv _]. apply map_eq. intros key'. rewrite exportsOf_lookup, Hv by done.
  case_decide as Hk; [subst; by rewrite lookup_partial_alter_eq|].
  by rewrite lookup_partial_alter_ne, exportsOf_lookup.
Qed.

Lemma move_storesPV key oo cl cl' :
  wf cl → wf cl' → pointed r cl → pointed r cl' → stores KPV key oo cl cl' → shareMove (shareOf cl) (shareOf cl').
Proof.
  intros Hwf Hwf' Hp Hp' Hst. pose proof (exports_stores key oo cl cl' Hwf Hwf' Hst) as He.
  assert (sh_server (shareOf cl') = sh_server (shareOf cl)) as Hs.
  { simpl. by rewrite (proj1 (proj2 Hst KService ltac:(discriminate))). }
  destruct (oo ≫= exportOf) as [ip|] eqn:Hoo.
  - assert (exportsOf cl' !! key = Some ip) as Hin by by rewrite He, lookup_partial_alter_eq.
    pose proof (exports_home cl' key ip Hwf' Hp' Hin) as Hip. rewrite Hs in Hip.
    change (partial_alter (λ _, Some ip) key (exportsOf cl)) with (<[key := ip]> (exportsOf cl)) in He.
    unfold shareOf in *. simpl in Hs, Hip. rewrite Hs, He, Hip.
    destruct (exportsOf cl !! key) as [ip'|] eqn:Hold; [left|right; by apply sh_export].
    pose proof (exports_home cl key ip' Hwf Hp Hold) as Hip'. simpl in Hip'. by rewrite insert_id by congruence.
  - right. change (partial_alter (λ _, None) key (exportsOf cl)) with (delete key (exportsOf cl)) in He.
    unfold shareOf in *. simpl in Hs. rewrite Hs, He. apply sh_drop.
Qed.
End Share.

(** * The operator and the others *)

Section Moves.
Context `{Lib} (r : SharedVolumeReconciler) (sv : SharedVolume) (faulty : Prop).

(** A Service is written while its volume has no living PV. *)
Lemma move_storesService key oo cl cl' :
  wf cl → wf cl' → stores KService key oo cl cl' →
  (key = serverKey r sv → exportsOf sv cl = ∅ ∧
     (serverOf (view cl KService key) = None ∨ serverOf oo = None ∨ serverOf oo = serverOf (view cl KService key))) →
  shareMove (shareOf r sv cl) (shareOf r sv cl').
Proof.
  intros Hwf Hwf' [Hv Hst] Hkey.
  assert (exportsOf sv cl' = exportsOf sv cl) as He.
  { apply map_eq. intros key'. by rewrite !exportsOf_lookup, (proj1 (Hst KPV ltac:(discriminate))). }
  unfold shareOf. rewrite He, Hv. case_decide as Hk; [|by left]. destruct (Hkey (eq_sym Hk)) as [-> Hs]. rewrite Hk.
  destruct (serverOf (view cl KService key)) as [ip|] eqn:Hold.
  - destruct Hs as [?|[->|Heq]]; [done|right; apply sh_close|rewrite Heq; by left].
  - destruct (serverOf oo) as [ip|] eqn:Hoo; [|by left]. right. apply sh_open.
    destruct oo as [svc|]; simpl in Hoo; [|done]. case_decide; [done|]. congruence.
Qed.

Lemma move_other k key oo cl cl' :
  wf cl → wf cl' → k ≠ KPV → k ≠ KService → stores k key oo cl cl' → shareMove (shareOf r sv cl) (shareOf r sv cl').
Proof. intros Hwf Hwf' H1 H2 [_ Hst]. left. apply shareOf_unchanged; [done..| |]; apply Hst; congruence. Qed.

Lemma operator_create k (o : obj k) a cl cl' :
  wf cl → wf cl' → pointed r cl → pointed r cl' →
  api_step faulty cl (CCreate k o) a cl' → shareMove (shareOf r sv cl) (shareOf r sv cl').
Proof.
  intros Hwf Hwf' Hp Hp' Hstep. destruct a as [e|o']; cbn [api_step] in Hstep; [destruct Hstep as [-> _]; by left|].
  destruct Hstep as (Hnone & _ & _ & Hst).
  destruct (decide (k = KPV)) as [->|H1]; [by eapply move_storesPV|].
  destruct (decide (k = KService)) as [->|H2]; [|by eapply move_other].
  apply (move_storesService _ _ _ _ Hwf Hwf' Hst). intros Hk. rewrite Hnone. split; [|by left].
  apply (exports_closed r sv cl Hwf Hp). simpl. by rewrite <- Hk, Hnone.
Qed.

Lemma operator_update k (u : obj k) a cl cl' :
  wf cl → wf cl' → pointed r cl → pointed r cl' → safeCall r cl (CUpdate k u) →
  api_step faulty cl (CUpdate k u) a cl' → shareMove (shareOf r sv cl) (shareOf r sv cl').
Proof.
  intros Hwf Hwf' Hp Hp' Hsafe Hstep. destruct a as [e|u']; cbn [api_step] in Hstep; [rewrite Hstep; by left|].
  destruct Hstep as (old & _ & _ & _ & _ & Hst).
  destruct (decide (k = KPV)) as [->|H1]; [by eapply move_storesPV|].
  destruct (decide (k = KService)) as [->|H2]; [destruct Hsafe|by eapply move_other].
Qed.

Lemma operator_delete k (o : obj k) prop a cl cl' :
  wf cl → wf cl' → pointed r cl → pointed r cl' → safeCall r cl (CDelete k o prop) →
  api_step faulty cl (CDelete k o prop) a cl' → shareMove (shareOf r sv cl) (shareOf r sv cl').
Proof.
  intros Hwf Hwf' Hp Hp' Hsafe Hstep. destruct a as [e|]; cbn [api_step] in Hstep; [destruct Hstep as [-> _]; by left|].
  destruct Hstep as (old & Hold & Hd).
  assert (∃ oo, stores k (ObjectKey k o) oo cl cl' ∧ (oo = None ∨ ∃ o', oo = Some o' ∧ sameParts k old o')) as (oo & Hst & Hoo).
  { destruct (decide (Finalizers (obj_meta k old) = [])); [exists None; auto|].
    destruct Hd as (o' & Hacc & _ & Hst). exists (Some o'). split; [exact Hst|]. right. exists o'. split; [done|apply Hacc]. }
  destruct (decide (k = KPV)) as [->|H1]; [by eapply move_storesPV|].
  destruct (decide (k = KService)) as [->|H2]; [|by eapply move_other].
  apply (move_storesService _ _ _ _ Hwf Hwf' Hst). intros Hk. split; [by apply noPVs_exports, (Hsafe sv)|].
  rewrite Hold. destruct Hoo as [->|(o' & -> & Hsame)]; [right; by left|]. simpl in Hsame |- *.
  unfold serverOf. simpl. destruct (decide (svc_ClusterIP old = "")) as [|Hip]; [by left|].
  right. right. rewrite (Hsame Hip). by rewrite decide_False.
Qed.

Lemma operator_call c a cl cl' :
  wf cl → wf cl' → pointed r cl → safeCall r cl c → api_step faulty cl c a cl' →
  shareMove (shareOf r sv cl) (shareOf r sv cl').
Proof.
  intros Hwf Hwf' Hp Hsafe Hstep. pose proof (pointed_step r faulty cl c a cl' Hsafe Hstep Hp) as Hp'.
  destruct c as [k key|k opt|k o|k u|u|k o prop| |].
  - destruct Hstep as [-> _]. by left.
  - destruct Hstep as [-> _]. by left.
  - exact (operator_create k o a cl cl' Hwf Hwf' Hp Hp' Hstep).
  - exact (operator_update k u a cl cl' Hwf Hwf' Hp Hp' Hsafe Hstep).
  - destruct a as [e|u']; cbn [api_step] in Hstep; [rewrite Hstep; by left|].
    destruct Hstep as (old & _ & _ & _ & _ & _ & _ & Hst). eapply (move_other KSharedVolume); [done..|exact Hst].
  - exact (operator_delete k o prop a cl cl' Hwf Hwf' Hp Hp' Hsafe Hstep).
  - rewrite Hstep. by left.
  - rewrite Hstep. by left.
Qed.

(** Exports are dropped one by one. *)
Lemma drops srv ex ks : rtc shareStep (MkShare srv ex) (MkShare srv (foldr delete ex ks)).
Proof. induction ks as [|key ks IH]; [apply rtc_refl|]. eapply rtc_r; [exact IH|apply sh_drop]. Qed.

Lemma drops_to srv ex ex' : ex' ⊆ ex → rtc shareStep (MkShare srv ex) (MkShare srv ex').
Proof.
  intros Hsub. replace ex' with (foldr delete ex (elements (dom ex ∖ dom ex'))); [apply drops|].
  apply map_eq. intros key. destruct (decide (key ∈ elements (dom ex ∖ dom ex'))) as [Hin|Hin].
  - rewrite lookup_foldr_delete by done. apply elem_of_elements, elem_of_difference in Hin as [_ Hno].
    by apply not_elem_of_dom in Hno.
  - rewrite lookup_foldr_delete_not_elem_of by done. rewrite elem_of_elements, elem_of_difference in Hin.
    destruct (ex' !! key) as [ip|] eqn:He; [by eapply lookup_weaken|].
    apply not_elem_of_dom. intros Hd. apply Hin. split; [exact Hd|]. by apply not_elem_of_dom.
Qed.

Lemma others_move cl cl' :
  wf cl → pointed r cl → env r cl cl' → rtc shareStep (shareOf r sv cl) (shareOf r sv cl').
Proof.
  intros Hwf Hp He. pose proof He as (Hwf' & Hpv & _).
  assert (exportsOf sv cl' ⊆ exportsOf sv cl) as Hsub.
  { apply map_subseteq_spec. intros key ip. rewrite !exportsOf_lookup by done. intros (pv' & Hv & Hx)%bind_Some.
    apply exportOf_Some in Hx as (Ha & Hl & ->).
    destruct (Hpv key pv' Hv Ha) as (pv & Hv' & Ha' & Hls & Hn); [exists sv; by left|].
    rewrite Hv'. simpl. apply exportOf_Some. split; [done|]. split; [by eapply labelledFor_labels|]. by rewrite Hn. }
  destruct (sh_server (shareOf r sv cl)) as [ip|] eqn:Hs.
  - pose proof Hs as Hat. apply serverOf_Some in Hat. apply (serviceAt_env r sv ip cl cl' He) in Hat.
    apply serverOf_Some in Hat. unfold shareOf in *. simpl in Hs. rewrite Hs, Hat. by apply drops_to.
  - pose proof (exports_closed r sv cl Hwf Hp Hs) as Hex. unfold shareOf in *. simpl in Hs. rewrite Hs, Hex in *.
    assert (exportsOf sv cl' = ∅) as ->.
    { apply map_empty. intros key. destruct (exportsOf sv cl' !! key) as [ip|] eqn:Hk; [|done].
      pose proof (lookup_weaken _ _ _ _ Hk Hsub) as Hk'. by rewrite lookup_empty in Hk'. }
    destruct (serverOf (view cl' KService (serverKey r sv))) as [ip|] eqn:Hs'; [|apply rtc_refl].
    apply rtc_once, sh_open. by apply serverOf_Some in Hs' as [? _].
Qed.
End Moves.

(** Each step of the system is a move of the contract, or several by the others. *)
Section Refines.
Context `{Lib} {L : LibLaws} (r : SharedVolumeReconciler) (sv : SharedVolume) (faulty : Prop).

Definition movedBy (who : actor) (s s' : share) : Prop :=
  match who with Operator => shareMove s s' | Others => rtc shareStep s s' end.

Lemma step_moves who st st' :
  inv r faulty st → sysStep r faulty who st st' → movedBy who (shareOf r sv st.1) (shareOf r sv st'.1).
Proof.
  intros (Hw & Hp & Hm) Hs. destruct Hs as [cl res' req|cl c a cl' k Hc Hwf'|cl p|cl cl' p He]; cbn [fst snd movedBy] in *.
  - by left.
  - eapply (operator_call r sv faulty c a); [done..| |exact Hc]. by apply Hm; [apply env_refl|].
  - by left.
  - by apply others_move.
Qed.

Lemma path_moves st st' :
  inv r faulty st → rtc (anyStep r faulty) st st' → rtc shareStep (shareOf r sv st.1) (shareOf r sv st'.1).
Proof.
  intros Hi Hreach. induction Hreach as [s|s1 s2 s3 [w Hs] _ IH]; [apply rtc_refl|].
  etrans; [|apply IH; by eapply inv_step; [exists w|]]. pose proof (step_moves w s1 s2 Hi Hs) as Hone.
  destruct w; [|exact Hone]. destruct Hone as [->|Hone]; [apply rtc_refl|by apply rtc_once].
Qed.
End Refines.

(** * Property *)

(** C4. The operator refines the contract of [shareStep], in a cluster where only the
    operator makes or repairs PVs and only it deletes server Services: the system of
    Interleave.v, whose other actors are bound by [env], from a cluster whose labelled
    PVs point home.  The contract: a volume's server opens with no export, exports
    are added only while it is open and at its address, may be dropped any time, and
    the server closes, or changes its address, only when the last export is gone.
    What any reachable cluster shows of any volume is reached by steps of the
    contract; and each step of the operator from there, a call, the start of a
    reconcile or a crash, is one step of the contract or none, whichever volume it is
    made for.  Making a Service again while its PVs exist is no step of the contract:
    the operator does it when somebody else has deleted the Service, which [env]
    excludes. *)
Theorem operator_refines_share `{Lib} {L : LibLaws} r (faulty : Prop) sv cl0 res st who st'
    (Hwf : wf cl0)
    (Hinit : pointed r cl0)
    (Hreach : rtc (anyStep r faulty) (cl0, Ret res) st)
    (Hstep : sysStep r faulty who st st') :
  rtc shareStep (shareOf r sv cl0) (shareOf r sv st.1) ∧
  match who with
  | Operator => shareMove (shareOf r sv st.1) (shareOf r sv st'.1)
  | Others => rtc shareStep (shareOf r sv st.1) (shareOf r sv st'.1)
  end.
Proof.
  assert (inv r faulty (cl0, Ret res)) as Hi by (split; [exact Hwf|]; split; [exact Hinit|]; by intros a).
  split; [exact (path_moves r sv faulty _ _ Hi Hreach)|].
  exact (step_moves r sv faulty who st st' (inv_reachable r faulty _ _ Hreach Hi) Hstep).
Qed.

(** * Witness *)

(** The share of a sample volume after its first pass is open, with two exports. *)
Lemma operator_refines_share_witness :
  let s := sampleCluster bornVolume in
  let x := run memServer (Reconcile sampleReconciler sampleRequest) s in
  let st := (abs (state_of x), Ret (result_of x)) in
  shareOf sampleReconciler bornVolume (abs s) = MkShare None ∅ ∧
  sh_server (shareOf sampleReconciler bornVolume st.1) = Some "10.96.0.10" ∧
  map_to_list (sh_exports (shareOf sampleReconciler bornVolume st.1)) =
    [(MkNN "" "nfsz-data-team-a", "10.96.0.10"); (MkNN "" "nfsz-data-team-b", "10.96.0.10")] ∧
  rtc shareStep (shareOf sampleReconciler bornVolume (abs s)) (shareOf sampleReconciler bornVolume st.1).
Proof.
  intros s x st. pose proof (memGood_wf s born_good) as Hwf.
  assert (rtc (anyStep sampleReconciler False) (abs s, Ret (Ok noResult)) st) as Hpath.
  { eapply rtc_l; [exists Operator; apply (sys_start _ _ _ _ sampleRequest)|].
    exact (run_reachable sampleReconciler False memServer _ s born_good). }
  split; [vm_compute; reflexivity|]. do 2 (split; [vm_compute; reflexivity|]).
  exact (proj1 (operator_refines_share sampleReconciler False bornVolume (abs s) (Ok noResult) st Operator _
    Hwf born_pointed Hpath (sys_crash _ _ _ _))).
Defined.
