(* ===== verification/DeepCopy.v ===== *)
(** The deep copies of the API types (api/v1alpha1/zz_generated.deepcopy.go), on a
    heap: the rest of the library takes objects as values, which is sound because a
    copy shares no cell with its original.  Structs are records whose pointers and
    slices are addresses of cells; the copies of the apimachinery types are
    parameters. *)
From S2P Require Import Prelude Kube V1alpha1.

(** * Memory *)

Abbreviation addr := positive.

(** The apimachinery structs embedded in the API types, as they are in memory, and
    the cells they point to. *)
Class Foreign := {
  fcell : Type;
  ObjectMeta_m : Type;
  ListMeta_m : Type;
  LabelSelector_m : Type;
  Quantity_m : Type;
  Condition_m : Type;
  ObjectMeta_0 : ObjectMeta_m;
  ListMeta_0 : ListMeta_m;
  LabelSelector_0 : LabelSelector_m;
  Quantity_0 : Quantity_m;
  Condition_0 : Condition_m
}.

Record TypeMeta := MkTypeMeta { Kind : string; APIVersion : string }.

(** * The structs in memory

    A pointer or a slice is the address of a cell, or nil. *)

Section Structs.
Context `{Foreign}.

Record BackupDestination_m := MkBackupDestination_m { HostPath_p : option addr }.

Record BackupSpec_m := MkBackupSpec_m {
  Schedule_m : string;
  Destination_m : BackupDestination_m;
  Suspend_p : option addr;
  RestorePolicy_m : string
}.

Record NamespaceSelection_m := MkNamespaceSelection_m {
  Names_p : option addr;
  Selector_p : option addr
}.

Record SharedVolumeSpec_m := MkSharedVolumeSpec_m {
  Capacity_m : Quantity_m;
  StorageClassName_p : option addr;
  Namespaces_m : NamespaceSelection_m;
  ReclaimPolicy_m : string;
  NetworkPolicy_m : string;
  Backup_p : option addr
}.

Record SharedVolumeStatus_m := MkSharedVolumeStatus_m {
  Phase_m : string;
  ServerEndpoint_m : string;
  BackingPVC_m : string;
  BoundSummary_m : string;
  Bindings_p : option addr;
  LastBackupTime_p : option addr;
  ObservedGeneration_m : Z;
  Conditions_p : option addr
}.

Record SharedVolume_m := MkSharedVolume_m {
  TypeMeta_m : TypeMeta;
  Meta_m : ObjectMeta_m;
  Spec_m : SharedVolumeSpec_m;
  Status_m : SharedVolumeStatus_m
}.

Record SharedVolumeList_m := MkSharedVolumeList_m {
  ListTypeMeta_m : TypeMeta;
  ListMeta_f : ListMeta_m;
  Items_p : option addr
}.

(** What an address may hold: a struct or scalar that is pointed to, or the array of
    a slice. *)
Inductive cell :=
| CForeign (c : fcell)
| CString (s : string)
| CBool (b : bool)
| CTime (t : Kube.Time)
| CStrings (l : list string)
| CSelector (s : LabelSelector_m)
| CHostPath (d : HostPathDestination)
| CDestination (d : BackupDestination_m)
| CBackup (b : BackupSpec_m)
| CBinding (b : NamespaceBinding)
| CBindings (l : list NamespaceBinding)
| CConditions (l : list Condition_m)
| CSelection (s : NamespaceSelection_m)
| CSpec (s : SharedVolumeSpec_m)
| CStatus (s : SharedVolumeStatus_m)
| CVolume (v : SharedVolume_m)
| CVolumes (l : list SharedVolume_m)
| CVolumeList (l : SharedVolumeList_m).

End Structs.

Abbreviation heap := (gmap addr cell).

Section Code.
Context `{Foreign}.

(** Code on the heap; [None] is a nil or ill-typed dereference. *)
Definition code (A : Type) : Type := heap → option (heap * A).

#[export] Instance code_ret : MRet code := λ A a h, Some (h, a).
#[export] Instance code_bind : MBind code := λ A B f m h, '(h, a) ← m h; f a h.

(** Allocation, a store, and a load through the view of a cell as what it should
    hold. *)
Definition new (c : cell) : code addr := λ h, let l := fresh (dom h) in Some (<[l := c]> h, l).
Definition poke (l : addr) (c : cell) : code unit := λ h, Some (<[l := c]> h, tt).
Definition load {T} (as_ : cell → option T) (l : addr) : code T := λ h, c ← h !! l; v ← as_ c; Some (h, v).

(** The block for a pointer or slice field: if the field is not nil, a new cell is
    made and what the field points at is copied into it; a nil was copied by the
    assignment of the whole struct. *)
Definition newCopy {T} (as_ : cell → option T) (mk : T → cell) (zero : T → T) (into : T → code T)
    (p : option addr) : code (option addr) :=
  match p with
  | None => mret None
  | Some l =>
      x ← load as_ l;
      out ← new (mk (zero x));
      y ← into x;
      _ ← poke out (mk y);
      mret (Some out)
  end.

(** The block for a field whose type has its own [DeepCopy] on pointers. *)
Definition ifNotNil (copy : option addr → code (option addr)) (p : option addr) : code (option addr) :=
  match p with
  | None => mret None
  | Some l => copy (Some l)
  end.

(** The elements of a slice, one after the other. *)
Fixpoint each {T} (into : T → code T) (l : list T) : code (list T) :=
  match l with
  | [] => mret []
  | x :: l => y ← into x; l ← each into l; mret (y :: l)
  end.

(** A struct without references: the assignment is the copy. *)
Definition flat {T} : T → code T := λ x, mret x.
End Code.

(** * The copies *)

(** The copies of the apimachinery types. *)
Class ForeignCopy `{Foreign} := {
  ObjectMeta_DeepCopyInto : ObjectMeta_m → code ObjectMeta_m;
  ListMeta_DeepCopyInto : ListMeta_m → code ListMeta_m;
  LabelSelector_DeepCopyInto : LabelSelector_m → code LabelSelector_m;
  Quantity_DeepCopy : Quantity_m → code Quantity_m;
  Condition_DeepCopyInto : Condition_m → code Condition_m;
  Time_DeepCopy : option addr → code (option addr)
}.

Section Copies.
Context `{ForeignCopy}.

(** Views of a cell. *)
Definition asString (c : cell) := match c with CString s => Some s | _ => None end.
Definition asBool (c : cell) := match c with CBool b => Some b | _ => None end.
Definition asTime (c : cell) := match c with CTime t => Some t | _ => None end.
Definition asStrings (c : cell) := match c with CStrings l => Some l | _ => None end.
Definition asSelector (c : cell) := match c with CSelector s => Some s | _ => None end.
Definition asHostPath (c : cell) := match c with CHostPath d => Some d | _ => None end.
Definition asDestination (c : cell) := match c with CDestination d => Some d | _ => None end.
Definition asBackup (c : cell) := match c with CBackup b => Some b | _ => None end.
Definition asBinding (c : cell) := match c with CBinding b => Some b | _ => None end.
Definition asBindings (c : cell) := match c with CBindings l => Some l | _ => None end.
Definition asConditions (c : cell) := match c with CConditions l => Some l | _ => None end.
Definition asSelection (c : cell) := match c with CSelection s => Some s | _ => None end.
Definition asSpec (c : cell) := match c with CSpec s => Some s | _ => None end.
Definition asStatus (c : cell) := match c with CStatus s => Some s | _ => None end.
Definition asVolume (c : cell) := match c with CVolume v => Some v | _ => None end.
Definition asVolumes (c : cell) := match c with CVolumes l => Some l | _ => None end.
Definition asVolumeList (c : cell) := match c with CVolumeList l => Some l | _ => None end.

(** Zero values. *)
Definition BackupSpec_0 := MkBackupSpec_m "" (MkBackupDestination_m None) None "".
Definition NamespaceSelection_0 := MkNamespaceSelection_m None None.
Definition SharedVolumeSpec_0 := MkSharedVolumeSpec_m Quantity_0 None NamespaceSelection_0 "" "" None.
Definition SharedVolumeStatus_0 := MkSharedVolumeStatus_m "" "" "" "" None None 0 None.
Definition SharedVolume_0 := MkSharedVolume_m (MkTypeMeta "" "") ObjectMeta_0 SharedVolumeSpec_0 SharedVolumeStatus_0.
Definition SharedVolumeList_0 := MkSharedVolumeList_m (MkTypeMeta "" "") ListMeta_0 None.

(** The array of [make] for a slice of the same length. *)
Definition zeros {T} (z : T) (l : list T) : list T := replicate (length l) z.

Definition HostPathDestination_DeepCopyInto : HostPathDestination → code HostPathDestination := flat.
Definition HostPathDestination_DeepCopy :=
  newCopy asHostPath CHostPath (λ _, MkHostPathDestination "") HostPathDestination_DeepCopyInto.

Definition BackupDestination_DeepCopyInto (src : BackupDestination_m) : code BackupDestination_m :=
  hp ← newCopy asHostPath CHostPath (λ _, MkHostPathDestination "") flat (HostPath_p src);
  mret (MkBackupDestination_m hp).
Definition BackupDestination_DeepCopy :=
  newCopy asDestination CDestination (λ _, MkBackupDestination_m None) BackupDestination_DeepCopyInto.

Definition BackupSpec_DeepCopyInto (src : BackupSpec_m) : code BackupSpec_m :=
  dest ← BackupDestination_DeepCopyInto (Destination_m src);
  suspend ← newCopy asBool CBool (λ _, false) flat (Suspend_p src);
  mret (MkBackupSpec_m (Schedule_m src) dest suspend (RestorePolicy_m src)).
Definition BackupSpec_DeepCopy := newCopy asBackup CBackup (λ _, BackupSpec_0) BackupSpec_DeepCopyInto.

Definition NamespaceBinding_DeepCopyInto : NamespaceBinding → code NamespaceBinding := flat.
Definition NamespaceBinding_DeepCopy :=
  newCopy asBinding CBinding (λ _, MkNamespaceBinding "" "" "") NamespaceBinding_DeepCopyInto.

Definition NamespaceSelection_DeepCopyInto (src : NamespaceSelection_m) : code NamespaceSelection_m :=
  names ← newCopy asStrings CStrings (zeros "") flat (Names_p src);
  selector ← newCopy asSelector CSelector (λ _, LabelSelector_0) LabelSelector_DeepCopyInto (Selector_p src);
  mret (MkNamespaceSelection_m names selector).
Definition NamespaceSelection_DeepCopy :=
  newCopy asSelection CSelection (λ _, NamespaceSelection_0) NamespaceSelection_DeepCopyInto.

Definition SharedVolumeSpec_DeepCopyInto (src : SharedVolumeSpec_m) : code SharedVolumeSpec_m :=
  capacity ← Quantity_DeepCopy (Capacity_m src);
  class ← newCopy asString CString (λ _, "") flat (StorageClassName_p src);
  namespaces ← NamespaceSelection_DeepCopyInto (Namespaces_m src);
  backup ← newCopy asBackup CBackup (λ _, BackupSpec_0) BackupSpec_DeepCopyInto (Backup_p src);
  mret (MkSharedVolumeSpec_m capacity class namespaces (ReclaimPolicy_m src) (NetworkPolicy_m src) backup).
Definition SharedVolumeSpec_DeepCopy := newCopy asSpec CSpec (λ _, SharedVolumeSpec_0) SharedVolumeSpec_DeepCopyInto.

Definition SharedVolumeStatus_DeepCopyInto (src : SharedVolumeStatus_m) : code SharedVolumeStatus_m :=
  bindings ← newCopy asBindings CBindings (zeros (MkNamespaceBinding "" "" "")) flat (Bindings_p src);
  time ← ifNotNil Time_DeepCopy (LastBackupTime_p src);
  conditions ← newCopy asConditions CConditions (zeros Condition_0) (each Condition_DeepCopyInto) (Conditions_p src);
  mret (MkSharedVolumeStatus_m (Phase_m src) (ServerEndpoint_m src) (BackingPVC_m src) (BoundSummary_m src)
          bindings time (ObservedGeneration_m src) conditions).
Definition SharedVolumeStatus_DeepCopy :=
  newCopy asStatus CStatus (λ _, SharedVolumeStatus_0) SharedVolumeStatus_DeepCopyInto.

Definition SharedVolume_DeepCopyInto (src : SharedVolume_m) : code SharedVolume_m :=
  meta ← ObjectMeta_DeepCopyInto (Meta_m src);
  spec ← SharedVolumeSpec_DeepCopyInto (Spec_m src);
  status ← SharedVolumeStatus_DeepCopyInto (Status_m src);
  mret (MkSharedVolume_m (TypeMeta_m src) meta spec status).
Definition SharedVolume_DeepCopy := newCopy asVolume CVolume (λ _, SharedVolume_0) SharedVolume_DeepCopyInto.

Definition SharedVolumeList_DeepCopyInto (src : SharedVolumeList_m) : code SharedVolumeList_m :=
  meta ← ListMeta_DeepCopyInto (ListMeta_f src);
  items ← newCopy asVolumes CVolumes (zeros SharedVolume_0) (each SharedVolume_DeepCopyInto) (Items_p src);
  mret (MkSharedVolumeList_m (ListTypeMeta_m src) meta items).
Definition SharedVolumeList_DeepCopy :=
  newCopy asVolumeList CVolumeList (λ _, SharedVolumeList_0) SharedVolumeList_DeepCopyInto.

(** [runtime.Object]: an interface value is nil, or a pointer with its type. *)
Inductive Object := OVolume (p : addr) | OVolumeList (p : addr).

Definition SharedVolume_DeepCopyObject (p : option addr) : code (option Object) :=
  c ← SharedVolume_DeepCopy p; mret (OVolume <$> c).
Definition SharedVolumeList_DeepCopyObject (p : option addr) : code (option Object) :=
  c ← SharedVolumeList_DeepCopy p; mret (OVolumeList <$> c).
End Copies.

(** * Reading a value out of memory *)

(** A pointer or slice, and an array, through the reader of what they hold. *)
Section Readers.
Context `{Foreign} {T V : Type}.

Definition rdFlat (h : heap) (x : T) : option T := Some x.

Definition rdPtr (as_ : cell → option T) (rd : heap → T → option V) (h : heap) (p : option addr) : option (option V) :=
  match p with
  | None => Some None
  | Some l => c ← h !! l; x ← as_ c; v ← rd h x; Some (Some v)
  end.

Fixpoint rdEach (rd : heap → T → option V) (h : heap) (l : list T) : option (list V) :=
  match l with
  | [] => Some []
  | x :: l => v ← rd h x; vs ← rdEach rd h l; Some (v :: vs)
  end.

(** A reader finds more in no larger heap. *)
Class Reads (rd : heap → T → option V) : Prop :=
  rd_mono h h' x v : rd h x = Some v → h ⊆ h' → rd h' x = Some v.

(** A copy is deep: it is made of fresh cells, reads as the original does from those
    cells alone, and leaves every cell there was. *)
Definition deepAt (rd : heap → T → option V) (copy : T → code T) (x : T) : Prop :=
  ∀ h v, rd h x = Some v →
    ∃ fr y, copy x h = Some (h ∪ fr, y) ∧ h ##ₘ fr ∧ rd fr y = Some v.
Definition deep (rd : heap → T → option V) (copy : T → code T) : Prop := ∀ x, deepAt rd copy x.
End Readers.

(** The values of the apimachinery structs, and that their copies are deep. *)
Class ForeignLaws `{ForeignCopy} := {
  ListMeta : Type;
  rdMeta : heap → ObjectMeta_m → option ObjectMeta;
  rdListMeta : heap → ListMeta_m → option ListMeta;
  rdSelector : heap → LabelSelector_m → option LabelSelector;
  rdQuantity : heap → Quantity_m → option Quantity;
  rdCondition : heap → Condition_m → option Condition;
  rdMeta_reads :: Reads rdMeta;
  rdListMeta_reads :: Reads rdListMeta;
  rdSelector_reads :: Reads rdSelector;
  rdQuantity_reads :: Reads rdQuantity;
  rdCondition_reads :: Reads rdCondition;
  ObjectMeta_deep : deep rdMeta ObjectMeta_DeepCopyInto;
  ListMeta_deep : deep rdListMeta ListMeta_DeepCopyInto;
  LabelSelector_deep : deep rdSelector LabelSelector_DeepCopyInto;
  Quantity_deep : deep rdQuantity Quantity_DeepCopy;
  Condition_deep : deep rdCondition Condition_DeepCopyInto;
  Time_deep : deep (rdPtr asTime rdFlat) Time_DeepCopy
}.

(** The value, as in V1alpha1.v, of each struct. *)
Section Values.
Context `{ForeignLaws}.

Definition rdDestination (h : heap) (d : BackupDestination_m) : option BackupDestination :=
  hp ← rdPtr asHostPath rdFlat h (HostPath_p d); Some (MkBackupDestination hp).

Definition rdBackup (h : heap) (b : BackupSpec_m) : option BackupSpec :=
  dest ← rdDestination h (Destination_m b);
  suspend ← rdPtr asBool rdFlat h (Suspend_p b);
  Some (MkBackupSpec (Schedule_m b) dest suspend (RestorePolicy_m b)).

Definition rdSelection (h : heap) (s : NamespaceSelection_m) : option NamespaceSelection :=
  names ← rdPtr asStrings rdFlat h (Names_p s);
  selector ← rdPtr asSelector rdSelector h (Selector_p s);
  Some (MkNamespaceSelection (default [] names) selector).

Definition rdSpec (h : heap) (s : SharedVolumeSpec_m) : option SharedVolumeSpec :=
  capacity ← rdQuantity h (Capacity_m s);
  class ← rdPtr asString rdFlat h (StorageClassName_p s);
  namespaces ← rdSelection h (Namespaces_m s);
  backup ← rdPtr asBackup rdBackup h (Backup_p s);
  Some (MkSharedVolumeSpec capacity class namespaces (ReclaimPolicy_m s) (NetworkPolicy_m s) backup).

Definition rdStatus (h : heap) (s : SharedVolumeStatus_m) : option SharedVolumeStatus :=
  bindings ← rdPtr asBindings rdFlat h (Bindings_p s);
  time ← rdPtr asTime rdFlat h (LastBackupTime_p s);
  conditions ← rdPtr asConditions (rdEach rdCondition) h (Conditions_p s);
  Some (MkSharedVolumeStatus (Phase_m s) (ServerEndpoint_m s) (BackingPVC_m s) (BoundSummary_m s)
          (default [] bindings) time (ObservedGeneration_m s) (default [] conditions)).

Definition rdVolume (h : heap) (v : SharedVolume_m) : option (TypeMeta * SharedVolume) :=
  meta ← rdMeta h (Meta_m v);
  spec ← rdSpec h (Spec_m v);
  status ← rdStatus h (Status_m v);
  Some (TypeMeta_m v, MkSharedVolume meta spec status).

Definition rdVolumeList (h : heap) (l : SharedVolumeList_m) : option (TypeMeta * ListMeta * list (TypeMeta * SharedVolume)) :=
  meta ← rdListMeta h (ListMeta_f l);
  items ← rdPtr asVolumes (rdEach rdVolume) h (Items_p l);
  Some (ListTypeMeta_m l, meta, default [] items).

(** An object behind the interface. *)
Definition rdObject (h : heap) (o : Object) : option (TypeMeta * SharedVolume + TypeMeta * ListMeta * list (TypeMeta * SharedVolume)) :=
  match o with
  | OVolume p => v ← rdPtr asVolume rdVolume h (Some p); inl <$> v
  | OVolumeList p => v ← rdPtr asVolumeList rdVolumeList h (Some p); inr <$> v
  end.
End Values.

(** * Readers only find more *)

Ltac rd_step :=
  match goal with
  | Hb : (_ ≫= _) = Some _ |- _ => apply bind_Some in Hb as (? & ? & ?)
  | Hb : Some _ = Some _ |- _ => injection Hb as <-
  | Hr : ?rd ?h _ = Some _, Hs : ?h ⊆ ?h' |- context [?rd ?h' _] => rewrite (rd_mono _ _ _ _ Hr Hs); cbn [mbind option_bind]
  end.

Section Mono.
Context `{Foreign}.

#[export] Instance rdFlat_reads {T} : Reads (T := T) rdFlat.
Proof. by intros h h' x v. Qed.

#[export] Instance rdPtr_reads {T V} as_ (rd : heap → T → option V) : Reads rd → Reads (rdPtr as_ rd).
Proof.
  intros Hrd h h' [l|] v Hv Hs; [|done]. cbn [rdPtr] in *. repeat rd_step.
  match goal with Hl : h !! l = Some _ |- _ => rewrite (lookup_weaken _ _ _ _ Hl Hs) end.
  match goal with Hc : as_ _ = Some _ |- _ => cbn [mbind option_bind]; rewrite Hc; cbn [mbind option_bind] end. by repeat rd_step.
Qed.

#[export] Instance rdEach_reads {T V} (rd : heap → T → option V) : Reads rd → Reads (rdEach rd).
Proof.
  intros Hrd h h' l. induction l as [|x l IH]; intros v Hv Hs; [done|]. cbn [rdEach] in *. repeat rd_step.
  rewrite (IH _ ltac:(eassumption) Hs). done.
Qed.
End Mono.

Section MonoValues.
Context `{ForeignLaws}.

#[export] Instance rdDestination_reads : Reads rdDestination.
Proof. intros h h' x v Hv Hs. unfold rdDestination in *. by repeat rd_step. Qed.
#[export] Instance rdBackup_reads : Reads rdBackup.
Proof. intros h h' x v Hv Hs. unfold rdBackup in *. by repeat rd_step. Qed.
#[export] Instance rdSelection_reads : Reads rdSelection.
Proof. intros h h' x v Hv Hs. unfold rdSelection in *. by repeat rd_step. Qed.
#[export] Instance rdSpec_reads : Reads rdSpec.
Proof. intros h h' x v Hv Hs. unfold rdSpec in *. by repeat rd_step. Qed.
#[export] Instance rdStatus_reads : Reads rdStatus.
Proof. intros h h' x v Hv Hs. unfold rdStatus in *. by repeat rd_step. Qed.
#[export] Instance rdVolume_reads : Reads rdVolume.
Proof. intros h h' x v Hv Hs. unfold rdVolume in *. by repeat rd_step. Qed.
#[export] Instance rdVolumeList_reads : Reads rdVolumeList.
Proof. intros h h' x v Hv Hs. unfold rdVolumeList in *. by repeat rd_step. Qed.
End MonoValues.

(** * Deep copies, field by field *)

Section Deep.
Context `{Foreign}.

(** Code that has made the cells [acc] beside [h] so far, and makes more. *)
Definition makes {A} (h acc : heap) (m : code A) (Q : heap → A → Prop) : Prop :=
  ∃ acc' a, m (h ∪ acc) = Some (h ∪ acc', a) ∧ acc ⊆ acc' ∧ h ##ₘ acc' ∧ Q acc' a.

Lemma makes_ret {A} h acc (a : A) (Q : heap → A → Prop) : h ##ₘ acc → Q acc a → makes h acc (mret a) Q.
Proof. intros Hd HQ. by exists acc, a. Qed.

(** A field is copied, then the rest. *)
Lemma makes_copy {T V A} (rd : heap → T → option V) `{!Reads rd} copy h acc x v (f : T → code A) (Q : heap → A → Prop) :
  deepAt rd copy x → rd h x = Some v → h ##ₘ acc →
  (∀ acc' y, acc ⊆ acc' → h ##ₘ acc' → rd acc' y = Some v → makes h acc' (f y) Q) →
  makes h acc (copy x ≫= f) Q.
Proof.
  intros Hcp Hx Hd Hf. destruct (Hcp (h ∪ acc) v) as (fr & y & Hrun & Hdis & Hy).
  { eapply rd_mono; [exact Hx|]. apply map_union_subseteq_l. }
  apply map_disjoint_union_l in Hdis as [Hdh Hda].
  destruct (Hf (acc ∪ fr) y) as (acc' & b & Hrun' & Hsub & Hd' & HQ).
  - apply map_union_subseteq_l.
  - by apply map_disjoint_union_r.
  - eapply rd_mono; [exact Hy|]. by apply map_union_subseteq_r.
  - exists acc', b. split; [|split; [|done]].
    + unfold mbind, code_bind. rewrite Hrun. simpl. rewrite <- (assoc_L (∪)). exact Hrun'.
    + etrans; [apply map_union_subseteq_l|exact Hsub].
Qed.

Lemma deep_intro {T V} (rd : heap → T → option V) copy :
  (∀ h x v, rd h x = Some v → makes h ∅ (copy x) (λ acc y, rd acc y = Some v)) → deep rd copy.
Proof.
  intros Hm x h v Hv. destruct (Hm h x v Hv) as (acc & y & Hrun & _ & Hd & Hy).
  rewrite (right_id_L ∅ (∪)) in Hrun. eauto.
Qed.

Lemma flat_deep {T} : deep (T := T) rdFlat flat.
Proof. apply deep_intro. intros h x v Hv. apply makes_ret; [apply map_disjoint_empty_r|done]. Qed.

Lemma each_deep {T V} (rd : heap → T → option V) `{!Reads rd} copy : deep rd copy → deep (rdEach rd) (each copy).
Proof.
  intros Hcp l. induction l as [|x l IH]; intros h v Hv; cbn [each rdEach] in *.
  { exists ∅, []. rewrite (right_id_L ∅ (∪)). split; [done|]. split; [apply map_disjoint_empty_r|exact Hv]. }
  apply bind_Some in Hv as (v1 & Hx & Hv). apply bind_Some in Hv as (vs & Hl & [= <-]).
  cut (makes h ∅ (y ← copy x; l' ← each copy l; mret (y :: l')) (λ acc ys, rdEach rd acc ys = Some (v1 :: vs))).
  { intros (acc & ys & Hrun & _ & Hd & Hy). rewrite (right_id_L ∅ (∪)) in Hrun. eauto. }
  eapply (makes_copy rd); [done|exact Hx|apply map_disjoint_empty_r|]. intros acc y _ Hd Hy.
  eapply (makes_copy (rdEach rd)); [exact IH|exact Hl|exact Hd|]. intros acc2 ys Hsub Hd2 Hys.
  apply makes_ret; [done|]. cbn [rdEach]. rewrite (rd_mono _ _ _ _ Hy Hsub). cbn [mbind option_bind]. by rewrite Hys.
Qed.

(** A new cell, filled with a deep copy of what was pointed at. *)
Lemma newCopy_deep {T V} (rd : heap → T → option V) `{!Reads rd} as_ mk zero into :
  (∀ x, as_ (mk x) = Some x) → deep rd into → deep (rdPtr as_ rd) (newCopy as_ mk zero into).
Proof.
  intros Hmk Hin [l|] h v Hv; cbn [newCopy rdPtr] in *.
  2: { exists ∅, None. rewrite (right_id_L ∅ (∪)). split; [done|]. split; [apply map_disjoint_empty_r|exact Hv]. }
  apply bind_Some in Hv as (c & Hl & Hv). apply bind_Some in Hv as (x & Hc & Hv). apply bind_Some in Hv as (w & Hx & [= <-]).
  set (out := fresh (dom h)). assert (h !! out = None) as Hout by apply not_elem_of_dom, is_fresh.
  destruct (Hin x (<[out := mk (zero x)]> h) w) as (fr & y & Hrun & Hd & Hy).
  { eapply rd_mono; [exact Hx|by apply insert_subseteq]. }
  apply map_disjoint_insert_l in Hd as [Hfo Hd].
  exists (<[out := mk y]> fr), (Some out). split; [|split].
  - unfold mbind, code_bind, load, new, poke. rewrite Hl. simpl. rewrite Hc. simpl. fold out. rewrite Hrun. simpl.
    rewrite insert_union_l, insert_insert_eq, <- insert_union_l, insert_union_r by done. done.
  - by apply map_disjoint_insert_r.
  - cbn [rdPtr]. rewrite lookup_insert_eq. cbn [mbind option_bind]. rewrite Hmk. cbn [mbind option_bind].
    rewrite (rd_mono _ _ _ _ Hy (insert_subseteq _ _ _ Hfo)). done.
Qed.

Lemma ifNotNil_deepAt {T V} as_ (rd : heap → T → option V) copy p :
  deep (rdPtr as_ rd) copy → deepAt (rdPtr as_ rd) (ifNotNil copy) p.
Proof.
  intros Hc. destruct p as [l|]; [apply Hc|]. intros h v Hv. exists ∅, None.
  rewrite (right_id_L ∅ (∪)). split; [done|]. split; [apply map_disjoint_empty_r|exact Hv].
Qed.
End Deep.

(** * The generated copies are deep *)

Create HintDb deep.

(** A reader and a copy that fit at one value. *)
Lemma newCopy_deepAt `{Foreign} {T V} (rd : heap → T → option V) `{!Reads rd} as_ mk zero into p :
  (∀ x, as_ (mk x) = Some x) → deep rd into → deepAt (rdPtr as_ rd) (newCopy as_ mk zero into) p.
Proof. intros Hmk Hin. by apply newCopy_deep. Qed.
Lemma deep_at `{Foreign} {T V} (rd : heap → T → option V) copy x : deep rd copy → deepAt rd copy x.
Proof. auto. Qed.
#[export] Hint Resolve newCopy_deepAt ifNotNil_deepAt flat_deep each_deep deep_at : deep.
#[export] Hint Extern 0 (_ = Some _) => reflexivity : deep.

(** One field: its copy is deep, by the lemmas so far. *)
Ltac deep_field :=
  match goal with
  | Hr : ?rd ?h ?x = Some _ |- makes ?h _ (_ ?x ≫= _) _ =>
      eapply (makes_copy rd); [solve [auto with deep typeclass_instances]|exact Hr|first [assumption|apply map_disjoint_empty_r]|];
      intros ? ? ? ? ?
  end.

(** What was read before more cells were made is still read. *)
Ltac deep_keep :=
  repeat match goal with
  | Hr : ?rd ?h ?y = Some _, Hs : ?h ⊆ ?h' |- _ =>
      lazymatch goal with H' : rd h' y = Some _ |- _ => fail | _ => pose proof (rd_mono _ _ _ _ Hr Hs) end
  end.

Ltac deep_struct :=
  apply deep_intro; intros ? ? ? Hv; repeat rd_step; repeat deep_field; apply makes_ret; [assumption|]; deep_keep;
  cbn; repeat match goal with Hr : ?rd ?h ?y = Some _ |- context [?rd ?h ?y] => rewrite Hr; cbn [mbind option_bind] end;
  reflexivity.

Section Generated.
Context `{ForeignLaws}.

#[local] Hint Resolve ObjectMeta_deep ListMeta_deep LabelSelector_deep Quantity_deep Condition_deep Time_deep : deep.

Lemma BackupDestination_deep : deep rdDestination BackupDestination_DeepCopyInto.
Proof. unfold rdDestination, BackupDestination_DeepCopyInto. deep_struct. Qed.
#[local] Hint Resolve BackupDestination_deep : deep.

Lemma BackupSpec_deep : deep rdBackup BackupSpec_DeepCopyInto.
Proof. unfold rdBackup, BackupSpec_DeepCopyInto. deep_struct. Qed.
#[local] Hint Resolve BackupSpec_deep : deep.

Lemma NamespaceSelection_deep : deep rdSelection NamespaceSelection_DeepCopyInto.
Proof. unfold rdSelection, NamespaceSelection_DeepCopyInto. deep_struct. Qed.
#[local] Hint Resolve NamespaceSelection_deep : deep.

Lemma SharedVolumeSpec_deep : deep rdSpec SharedVolumeSpec_DeepCopyInto.
Proof. unfold rdSpec, SharedVolumeSpec_DeepCopyInto. deep_struct. Qed.
#[local] Hint Resolve NamespaceSelection_deep SharedVolumeSpec_deep : deep.

Lemma SharedVolumeStatus_deep : deep rdStatus SharedVolumeStatus_DeepCopyInto.
Proof. unfold rdStatus, SharedVolumeStatus_DeepCopyInto. deep_struct. Qed.
#[local] Hint Resolve SharedVolumeStatus_deep : deep.

Lemma SharedVolume_deep : deep rdVolume SharedVolume_DeepCopyInto.
Proof. unfold rdVolume, SharedVolume_DeepCopyInto. deep_struct. Qed.
#[local] Hint Resolve SharedVolume_deep : deep.

Lemma SharedVolumeList_deep : deep rdVolumeList SharedVolumeList_DeepCopyInto.
Proof. unfold rdVolumeList, SharedVolumeList_DeepCopyInto. deep_struct. Qed.

(** Copies behind a pointer: the original reads as before, the copy as the original,
    each from its own cells. *)
Definition copied {V} (rd : heap → option addr → option (option V)) (copy : option addr → code (option addr)) : Prop :=
  ∀ h p v, rd h p = Some v →
    ∃ fr q, copy p h = Some (h ∪ fr, q) ∧ (p = None ↔ q = None) ∧
      (∀ h', h ⊆ h' → rd h' p = Some v) ∧ (∀ h', fr ⊆ h' → rd h' q = Some v) ∧ h ##ₘ fr.

Lemma rdPtr_nil {T V} as_ (rd : heap → T → option V) h p v : rdPtr as_ rd h p = Some v → (v = None ↔ p = None).
Proof.
  destruct p as [l|]; cbn [rdPtr]; [|by intros [= <-]]. intros Hv. apply bind_Some in Hv as (? & _ & Hv).
  apply bind_Some in Hv as (? & _ & Hv). by apply bind_Some in Hv as (? & _ & [= <-]).
Qed.

Lemma newCopy_copied {T V} (rd : heap → T → option V) `{!Reads rd} as_ mk zero into :
  (∀ x, as_ (mk x) = Some x) → deep rd into → copied (rdPtr as_ rd) (newCopy as_ mk zero into).
Proof.
  intros Hmk Hin h p v Hv. destruct (newCopy_deep rd as_ mk zero into Hmk Hin p h v Hv) as (fr & q & Hrun & Hd & Hq).
  exists fr, q. split; [exact Hrun|]. split.
  - rewrite <- (rdPtr_nil as_ rd h p v Hv), <- (rdPtr_nil as_ rd fr q v Hq). done.
  - split; [intros h'; by apply rd_mono|]. split; [intros h'; by apply rd_mono|exact Hd].
Qed.
End Generated.

(** * Property *)

(** C40. The deep copies of the API types share nothing with their originals: each
    [DeepCopy] of a struct that reads as a value leaves every cell there was, and
    returns a pointer, nil exactly for nil, that reads as the same value from fresh
    cells alone; so neither writes through the original nor writes through the copy
    are seen by the other.  [DeepCopyObject] returns the nil interface for a nil
    pointer, never an interface around one, and otherwise such a copy. *)
Theorem DeepCopy_deep `{ForeignLaws} :
  copied (rdPtr asHostPath rdFlat) HostPathDestination_DeepCopy ∧
  copied (rdPtr asDestination rdDestination) BackupDestination_DeepCopy ∧
  copied (rdPtr asBackup rdBackup) BackupSpec_DeepCopy ∧
  copied (rdPtr asBinding rdFlat) NamespaceBinding_DeepCopy ∧
  copied (rdPtr asSelection rdSelection) NamespaceSelection_DeepCopy ∧
  copied (rdPtr asSpec rdSpec) SharedVolumeSpec_DeepCopy ∧
  copied (rdPtr asStatus rdStatus) SharedVolumeStatus_DeepCopy ∧
  copied (rdPtr asVolume rdVolume) SharedVolume_DeepCopy ∧
  copied (rdPtr asVolumeList rdVolumeList) SharedVolumeList_DeepCopy ∧
  (∀ h p v, rdPtr asVolume rdVolume h p = Some v →
     ∃ fr o, SharedVolume_DeepCopyObject p h = Some (h ∪ fr, o) ∧ h ##ₘ fr ∧ (o = None ↔ p = None) ∧
       ∀ h' o', o = Some o' → fr ⊆ h' → rdObject h' o' = inl <$> v) ∧
  (∀ h p v, rdPtr asVolumeList rdVolumeList h p = Some v →
     ∃ fr o, SharedVolumeList_DeepCopyObject p h = Some (h ∪ fr, o) ∧ h ##ₘ fr ∧ (o = None ↔ p = None) ∧
       ∀ h' o', o = Some o' → fr ⊆ h' → rdObject h' o' = inr <$> v).
Proof.
  assert (copied (rdPtr asVolume rdVolume) SharedVolume_DeepCopy) as Hv by exact (newCopy_copied rdVolume asVolume CVolume _ _ (λ _, eq_refl) SharedVolume_deep).
  assert (copied (rdPtr asVolumeList rdVolumeList) SharedVolumeList_DeepCopy) as Hl by exact (newCopy_copied rdVolumeList asVolumeList CVolumeList _ _ (λ _, eq_refl) SharedVolumeList_deep).
  split_and!; [exact (newCopy_copied rdFlat asHostPath CHostPath _ _ (λ _, eq_refl) flat_deep)|exact (newCopy_copied rdDestination asDestination CDestination _ _ (λ _, eq_refl) BackupDestination_deep)|
    exact (newCopy_copied rdBackup asBackup CBackup _ _ (λ _, eq_refl) BackupSpec_deep)|exact (newCopy_copied rdFlat asBinding CBinding _ _ (λ _, eq_refl) flat_deep)|
    exact (newCopy_copied rdSelection asSelection CSelection _ _ (λ _, eq_refl) NamespaceSelection_deep)|exact (newCopy_copied rdSpec asSpec CSpec _ _ (λ _, eq_refl) SharedVolumeSpec_deep)|
    exact (newCopy_copied rdStatus asStatus CStatus _ _ (λ _, eq_refl) SharedVolumeStatus_deep)|exact Hv|exact Hl|..].
  - intros h p v Hp. destruct (Hv h p v Hp) as (fr & q & Hrun & Hnil & _ & Hq & Hd). exists fr, (OVolume <$> q).
    split; [unfold SharedVolume_DeepCopyObject, mbind, code_bind; rewrite Hrun; reflexivity|]. split; [exact Hd|].
    split; [by rewrite Hnil, fmap_None|]. intros h' o' (l & -> & ->)%fmap_Some Hs. cbn [rdObject]. by rewrite (Hq h' Hs).
  - intros h p v Hp. destruct (Hl h p v Hp) as (fr & q & Hrun & Hnil & _ & Hq & Hd). exists fr, (OVolumeList <$> q).
    split; [unfold SharedVolumeList_DeepCopyObject, mbind, code_bind; rewrite Hrun; reflexivity|]. split; [exact Hd|].
    split; [by rewrite Hnil, fmap_None|]. intros h' o' (l & -> & ->)%fmap_Some Hs. cbn [rdObject]. by rewrite (Hq h' Hs).
Qed.

(** * Witness *)

(** An ObjectMeta whose labels are in a cell of their own; the other apimachinery
    structs hold no references. *)
#[export] Instance sampleForeign : Foreign := {|
  fcell := gmap string string;
  ObjectMeta_m := ObjectMeta * option addr;
  ListMeta_m := string;
  LabelSelector_m := LabelSelector;
  Quantity_m := Quantity;
  Condition_m := Condition;
  ObjectMeta_0 := (objectMeta "" "" None, None);
  ListMeta_0 := "";
  LabelSelector_0 := MkLabelSelector None [];
  Quantity_0 := MkQuantity "";
  Condition_0 := MkCondition "" "" 0 None "" ""
|}.

Definition asForeign (c : cell) := match c with CForeign m => Some m | _ => None end.

#[export] Instance sampleCopy : ForeignCopy := {|
  ObjectMeta_DeepCopyInto m := labels ← newCopy asForeign CForeign (λ _, ∅) flat m.2; mret (m.1, labels);
  ListMeta_DeepCopyInto := flat;
  LabelSelector_DeepCopyInto := flat;
  Quantity_DeepCopy := flat;
  Condition_DeepCopyInto := flat;
  Time_DeepCopy := newCopy asTime CTime (λ _, 0%Z) flat
|}.

Definition rdSampleMeta (h : heap) (m : ObjectMeta_m) : option ObjectMeta :=
  labels ← rdPtr asForeign rdFlat h (m.2); Some (objectMeta (Name m.1) (Namespace m.1) labels).

#[export] Instance sampleLaws : ForeignLaws.
Proof.
  refine {| ListMeta := string; rdMeta := rdSampleMeta; rdListMeta := rdFlat; rdSelector := rdFlat;
            rdQuantity := rdFlat; rdCondition := rdFlat |}; try apply rdFlat_reads; try apply flat_deep.
  - intros h h' x v Hv Hs. unfold rdSampleMeta in *. by repeat rd_step.
  - apply deep_intro. intros h [m l] v Hv. apply bind_Some in Hv as (labels & Hl & [= <-]).
    eapply (makes_copy (rdPtr asForeign rdFlat)); [|exact Hl|apply map_disjoint_empty_r|].
    { apply newCopy_deep; [apply rdFlat_reads|done|apply flat_deep]. }
    intros acc y _ Hd Hy. apply makes_ret; [exact Hd|].
    exact (f_equal (λ o, o ≫= λ labels, Some (objectMeta (Name m) (Namespace m) labels)) Hy).
  - apply newCopy_deep; [apply rdFlat_reads|done|apply flat_deep].
Defined.

(** A volume with labels, a name list and a storage class. *)
Definition sampleHeap : heap :=
  {[ 1%positive := CVolume (MkSharedVolume_m (MkTypeMeta "SharedVolume" "nfsz.dev/v1alpha1")
       (objectMeta "data" "" None, Some 2%positive)
       (MkSharedVolumeSpec_m (MkQuantity "1Gi") (Some 3%positive) (MkNamespaceSelection_m (Some 4%positive) None)
          ReclaimDelete NetworkPolicyEnabled None) SharedVolumeStatus_0);
     2%positive := CForeign {["tier" := "gold"]};
     3%positive := CString "standard";
     4%positive := CStrings ["team-a"] ]}.

Definition sampleCopied : TypeMeta * SharedVolume :=
  (MkTypeMeta "SharedVolume" "nfsz.dev/v1alpha1",
   MkSharedVolume (objectMeta "data" "" (Some {["tier" := "gold"]}))
     (MkSharedVolumeSpec (MkQuantity "1Gi") (Some "standard") (MkNamespaceSelection ["team-a"] None)
        ReclaimDelete NetworkPolicyEnabled None)
     (MkSharedVolumeStatus "" "" "" "" [] None 0 [])).

Lemma DeepCopy_deep_witness :
  rdPtr asVolume rdVolume sampleHeap (Some 1%positive) = Some (Some sampleCopied) ∧
  ∃ fr q, SharedVolume_DeepCopy (Some 1%positive) sampleHeap = Some (sampleHeap ∪ fr, q) ∧
    (∀ h', fr ⊆ h' → rdPtr asVolume rdVolume h' q = Some (Some sampleCopied)) ∧ sampleHeap ##ₘ fr.
Proof.
  assert (rdPtr asVolume rdVolume sampleHeap (Some 1%positive) = Some (Some sampleCopied)) as Hr by (vm_compute; reflexivity).
  split; [exact Hr|]. destruct DeepCopy_deep as (_ & _ & _ & _ & _ & _ & _ & Hv & _).
  destruct (Hv sampleHeap (Some 1%positive) (Some sampleCopied) Hr) as (fr & q & Hrun & _ & _ & Hq & Hd).
  exists fr, q. split; [exact Hrun|]. split; [exact Hq|exact Hd].
Defined.
